(* ===== verification/_CoqProject ===== *)
-Q . S2P
Prelude.v
Messages.v
Replay.v
Skb.v
AllowedIps.v
AllowedIpsBits.v
AllowedIpsTree.v
AllowedIpsHeap.v
AllowedIpsInv.v
AllowedIpsAdd.v
AllowedIpsRemove.v
AllowedIpsFree.v
AllowedIpsRead.v
AllowedIpsProps.v
Horrible.v
AllowedIpsSelftest.v
AllowedIpsSelftestProps.v
RateLimiter.v
RateLimiterProps.v
RateLimiterSteps.v
RateLimiterRate.v
PeerLookup.v
PeerLookupProps.v
Crypto.v
NoiseCrypto.v
PrevQueue.v
PrevQueueProps.v
World.v
Samples.v
Objects.v
Keypairs.v
KeypairsProps.v
Noise.v
NoiseProps.v
NoiseSafety.v
Cookie.v
Socket.v
Queueing.v
Timers.v
Send.v
Receive.v
TimerEvents.v
Frames.v
Workers.v
Peer.v
Device.v
Netlink.v
NetlinkDump.v
DataPath.v
DeviceLife.v
Port51555.v
PortPaths.v
EndToEnd.v
Nonces.v
Safety.v
NoiseReplay.v
GiveUp.v
Tables.v
NetlinkProps.v
Progress.v
