(* ===== verification/Prelude.v ===== *)
(** * WireGuard with AES-256-GCM: a verification development

    The program is a Linux kernel module, an implementation of WireGuard whose data path can use
    AES-256-GCM instead of ChaCha20-Poly1305. The development follows src/wireguard-5.15-aes, the most
    complete of the variants in the repository; file names below are files of that directory. This file
    is the prelude: machine integers, bytes, tactics, hints and the generic lemmas.

    ** The program and its model

    A packet of the host enters through [wg_xmit] (device.c), is routed to a peer by the allowed IPs
    (allowedips.c) and staged. [wg_packet_send_staged_packets] (send.c) gives it a nonce of the peer's
    current keypair or, without one, asks for a handshake (noise.c). Lists of packets go to a ring of
    the device, where workers encrypt them, and at the same time to a queue of the peer (queueing.c),
    which sends them in order (socket.c). A datagram enters through [wg_packet_receive] (receive.c):
    handshake messages are checked for their MACs and cookies (cookie.c, ratelimiter.c) and move the
    handshake of a peer on; data packets find their keypair by an index (peerlookup.c), are decrypted
    by workers, and [wg_packet_rx_poll] delivers those whose counter is fresh and whose source the
    allowed IPs give to the peer. Timers (timers.c) start handshakes, keepalives and the erasure of
    keys. Netlink requests (netlink.c) create and remove peers (peer.c) and set keys and routes.

    All state of a device is the record [World.wg_device]: objects that C shares by pointers (peers,
    keypairs, packets on their way) live in finite maps and are named by their keys, with reference
    counts as in the code. A function of the program is a function on that record, with the same name;
    [option] stands for an access to an object that does not exist, which the C code could not survive.
    What the kernel answers to a call (clocks, random numbers, allocations, routes) is the record [env],
    an argument of every function that asks. What leaves the program is a list of outputs.
    Cryptographic functions are the class [Crypto.Crypto] with the laws the program relies on
    ([CryptoLaws]); hash functions and packet functions of the kernel are [Crypto.Hashes] and
    [Socket.NetStack]; each has an executable instance, on which the examples are evaluated.

    ** Files

    - Messages: messages.h, the structures and their layout on the wire, the constants.
    - Replay: [counter_validate] of receive.c and selftest/counter.c.
    - Skb: the members of a packet buffer that are used.
    - AllowedIps: allowedips.c over a heap of nodes with parent pointers, lists and RCU callbacks.
      AllowedIpsBits, AllowedIpsTree, AllowedIpsHeap, AllowedIpsInv, AllowedIpsAdd, AllowedIpsRemove,
      AllowedIpsFree and AllowedIpsRead prove it against trees and finite maps; AllowedIpsProps has the
      resulting theorems.
    - Horrible, AllowedIpsSelftest, AllowedIpsSelftestProps: selftest/allowedips.c, its reference table,
      its random and its fixed test.
    - RateLimiter, RateLimiterProps: ratelimiter.c and selftest/ratelimiter.c, each call and each run of
      the garbage collection as one step. RateLimiterSteps, RateLimiterRate: the same code as
      interleaved steps over entries linked by pointers, with the walk of a call under the RCU read
      lock, its insertion under the lock, and the garbage collection that reads the clock once and
      releases the lock after each bucket; what that leaves of the bound on the rate.
    - PeerLookup, PeerLookupProps: peerlookup.c, the insertion also as interleaved steps.
    - Crypto, NoiseCrypto: the primitives; [hmac], [kdf] and the transcript functions of noise.c.
    - PrevQueue, PrevQueueProps: the queue without locks of queueing.c, also as a system of atomic steps.
    - World, Samples: the structures of noise.h, cookie.h, peer.h, device.h; devices for the examples.
    - Objects, Keypairs, KeypairsProps: reference counts and the three keypair slots (noise.c, peer.c).
    - Noise, NoiseProps, NoiseSafety: the handshake and [wg_noise_handshake_begin_session] of noise.c.
      NoiseReplay: workers that consume initiations at the same time, with the checks under the read
      lock and the write under the write lock as two steps.
    - Cookie, Socket, Queueing, Timers, TimerEvents, Send, Receive: the C files of these names.
    - Frames: what the packet paths leave alone, for every fact about the device in which the run-time
      state has no part (the value of an observation that is blind to it, or a time stamp that does not
      go back); the hint database [frame] follows the calls.
    - Workers: work items and the flushes of work queues; [wg_timers_stop].
    - Peer: peer.c. Device: opening, stopping, sending on and destroying an interface (device.c).
      DeviceLife: [wg_newlink], [wg_init_aes_percpu], [mod_init] and their error labels (device.c, main.c).
    - Netlink: [wg_set_device] and what it calls; NetlinkDump: [wg_get_device_dump] (netlink.c).
    - Port51555, PortPaths: what the port in src/wireguard-5.15.55 does differently (device.c, noise.c,
      receive.c, and the queueing.h of src/ it is built with).
    - DataPath, Nonces, Safety, GiveUp, Tables, NetlinkProps, Progress: theorems about several
      components. EndToEnd: one run of two devices, evaluated.

    ** What the theorems show

    - Replay: a counter is never accepted twice; the bitmap refines an abstract sliding window.
    - Allowed IPs: after any history, lookups give the longest matching prefix of a finite map that the
      insertions and removals update; freeing gives all memory back; the dump reads the map back. The
      ordered list of the self-test is an equivalent table, so the random test passes for every
      sequence of random numbers; the fixed test passes wherever its peers and nodes are allocated.
    - Handshake: two parties derive the same keys, crosswise; once a worker has stored an initiation, no
      check that starts later lets it pass (two checks at the same time both may); a responder does not
      use a key before it is confirmed; a handshake yields one session; a handshake nobody answers is
      sent again while the packets wait, and given up after [MAX_TIMER_HANDSHAKES + 1] retries.
    - Keypairs: the slots account for the references. AES-GCM handles: every path but one gives them
      back; that path ([wg_noise_handshake_begin_session] on a dead peer) loses two of them.
    - Queues: the queue of a peer is first in, first out under every interleaving of its producers with
      its consumer; the index table never holds an index twice; the crypto workers end with empty rings
      and leave no packet waiting.
    - Rate limiter and cookies: the token rule of a call that runs alone; under every interleaving, the
      lists stay intact and the messages a source may send are bounded by the number of workers, the
      evictions of its entries and the time; a garbage collection that has read the clock evicts an
      entry that is used afterwards; the challenge that is answered; under load a message without a
      cookie changes no peer and draws at most one shorter reply.
    - Data path: decryption undoes encryption with both ciphers; nonces never repeat under a key;
      encrypted packets fit the link; only authentic packets from allowed sources are delivered.
    - Device: no packet changes the configuration; the list of peers, the table of keys and the allowed
      IPs agree at all times; a removed peer is cut off at once; a request for a peer does what it says;
      a dump says everything once.
    - Creation: [wg_newlink], [wg_socket_init] and [mod_init] complete or give everything back, except
      that a failing [register_netdevice] leaves the AES-GCM buffers allocated; in the older port every
      failure does. Both ports begin sessions, choose processors, judge handshake messages and stop
      alike; the list of waiting messages of the older one overshoots its limit by at most the number
      of processors.

    ** Bounds and fuel

    The walk down a trie has fuel for one step per bit of an address and one more, which its proofs show
    is enough. [lookup] starts over when it meets a peer whose last reference is gone; its argument
    [retries] bounds how often, and the theorems hold for every bound. [wg_index_hashtable_insert] draws
    from the list [random_indices]; it has a theorem that it succeeds when one of them is free. A
    worker's loop ([Queueing.run_while]) has one step more than the packets on its ring (the loop of
    [wg_packet_tx_worker]: than the packets the queue counts and the one that was peeked at). A dump
    is given one call per item at most. The loops of the random self-test run the numbers of rounds the
    source says (400 routes with 100 mutations each, 1,200,000 queries per round). [u64], [u32] and
    [s64] write the wrap-around of the integers out where it can matter; the code runs on a
    little-endian 64-bit machine with IPv6.

    ** Not modelled

    Locks, except that each of their sections is one step where interleaving matters (the index table,
    the queue of a peer, the rate limiter, the consumption of initiations): elsewhere a call is one
    step; memory barriers and the weak memory model; the AEAD request that the workers of a processor
    share, and an AEAD that completes later, for which the code does not wait; several devices at once,
    so that the static variables of receive.c and ratelimiter.c are members of the one device; the
    contents of freed memory; the routing and UDP layers, NAPI and the workqueues of the kernel beyond
    what they call; packet metadata that no decision depends on; parsing and policies of the netlink
    core; debug output, with it the drawings of the trie in selftest/allowedips.c. The files of src/
    itself and the rest of src/wireguard-5.15.55 are the same functions written for other kernels
    (src/receive.c does not compile); where they differ in more than the kernel interface, Port51555 and
    PortPaths say how. The scripts and data beside the module have no part in it. *)

From Stdlib Require Export ZArith Lia.
From Stdlib Require Import Sorted.
From stdpp Require Export base list gmap numbers decidable option.
Export stdpp.list_basics.list stdpp.list_relations.list stdpp.list_monad.list.
#[export] Set Default Goal Selector "!".
Global Open Scope Z_scope.

(** ** Machine integers *)

Declare Scope wg_scope.
Delimit Scope wg_scope with wg.

Definition wrap (w z : Z) : Z := z mod 2 ^ w.
Abbreviation u8 := (wrap 8).
Abbreviation u16 := (wrap 16).
Abbreviation u32 := (wrap 32).
Abbreviation u64 := (wrap 64).

(** Two's complement reading of the low 64 bits: the cast [(s64)x]. *)
Definition s64 (z : Z) : Z := if u64 z <? 2 ^ 63 then u64 z else u64 z - 2 ^ 64.

Abbreviation U64_MAX := (2 ^ 64 - 1).
Abbreviation NSEC_PER_SEC := 1000000000.

Notation "x +64 y" := (u64 (x + y)) (at level 50, left associativity) : wg_scope.
Notation "x -64 y" := (u64 (x - y)) (at level 50, left associativity) : wg_scope.

(** [ALIGN(x, a)] and [ALIGN_DOWN(x, a)] of the kernel, for a power of two [a]. *)
Definition ALIGN (x a : Z) : Z := (x + (a - 1)) / a * a.
Definition ALIGN_DOWN (x a : Z) : Z := x / a * a.

(** [fls]/[fls64]: one plus the index of the highest set bit, 0 for 0. *)
Definition fls (z : Z) : Z := if z =? 0 then 0 else Z.log2 z + 1.

(** ** Bytes *)

Abbreviation bytes := (list Z).
Definition is_byte (b : Z) : Prop := 0 <= b < 256.
Abbreviation wf_bytes := (Forall is_byte).

Fixpoint le_bytes (n : nat) (z : Z) : bytes :=
  match n with O => [] | S n => z mod 256 :: le_bytes n (z / 256) end.

Fixpoint le_val (bs : bytes) : Z :=
  match bs with [] => 0 | b :: bs => b + 256 * le_val bs end.

Definition be_bytes (n : nat) (z : Z) : bytes := rev (le_bytes n z).
Definition be_val (bs : bytes) : Z := le_val (rev bs).

Definition zeroes (n : nat) : bytes := replicate n 0.

(** Lexicographic comparison of byte strings, the sign of [memcmp]. *)
Fixpoint memcmp (a b : bytes) : comparison :=
  match a, b with
  | [], [] => Eq
  | [], _ => Lt
  | _, [] => Gt
  | x :: a, y :: b => match x ?= y with Eq => memcmp a b | o => o end
  end.

Definition bytes_eqb (a b : bytes) : bool := bool_decide (a = b).

(** ** Generic tactics and hints *)

Create HintDb wg discriminated.
Create Rewrite HintDb wg.

(** Split the conditions of [if]s and matches met in the goal or a hypothesis. *)
Ltac case_if :=
  match goal with
  | |- context [if ?b then _ else _] => destruct b eqn:?
  | H : context [if ?b then _ else _] |- _ => destruct b eqn:?
  end.

Ltac bool_to_prop :=
  repeat match goal with
  | H : (_ && _)%bool = true |- _ => apply andb_true_iff in H as [??]
  | H : (_ || _)%bool = false |- _ => apply orb_false_iff in H as [??]
  | H : negb _ = true |- _ => apply negb_true_iff in H
  | H : negb _ = false |- _ => apply negb_false_iff in H
  | H : (_ <? _) = true |- _ => apply Z.ltb_lt in H
  | H : (_ <? _) = false |- _ => apply Z.ltb_ge in H
  | H : (_ <=? _) = true |- _ => apply Z.leb_le in H
  | H : (_ <=? _) = false |- _ => apply Z.leb_gt in H
  | H : (_ =? _) = true |- _ => apply Z.eqb_eq in H
  | H : (_ =? _) = false |- _ => apply Z.eqb_neq in H
  | H : (_ >=? _) = _ |- _ => rewrite Z.geb_leb in H
  | H : (_ >? _) = _ |- _ => rewrite Z.gtb_ltb in H
  end.

(** ** Lemmas on machine integers *)

Lemma wrap_range w z : 0 <= w -> 0 <= wrap w z < 2 ^ w.
Proof. intros. apply Z.mod_pos_bound. lia. Qed.

Lemma wrap_small w z : 0 <= z < 2 ^ w -> wrap w z = z.
Proof. apply Z.mod_small. Qed.

Lemma wrap_wrap w z : wrap w (wrap w z) = wrap w z.
Proof. apply Zmod_mod. Qed.

Lemma u64_range z : 0 <= u64 z < 2 ^ 64.
Proof. apply wrap_range. lia. Qed.

Lemma s64_range z : - 2 ^ 63 <= s64 z < 2 ^ 63.
Proof.
  unfold s64. pose proof (u64_range z).
  destruct (Z.ltb_spec (u64 z) (2 ^ 63)); lia.
Qed.

Lemma s64_small z : - 2 ^ 63 <= z < 2 ^ 63 -> s64 z = z.
Proof.
  intros. unfold s64, wrap. destruct (Z.lt_ge_cases z 0) as [Hn|Hp].
  - assert (z mod 2 ^ 64 = z + 2 ^ 64) as ->.
    { symmetry. apply (Z.mod_unique_pos _ _ (-1)); lia. }
    destruct (Z.ltb_spec (z + 2 ^ 64) (2 ^ 63)); lia.
  - rewrite Z.mod_small by lia. destruct (Z.ltb_spec z (2 ^ 63)); lia.
Qed.

Lemma ALIGN_bounds x a : 0 < a -> x <= ALIGN x a < x + a.
Proof.
  intros Ha. unfold ALIGN. pose proof (Z.div_mod (x + (a - 1)) a ltac:(lia)).
  pose proof (Z.mod_pos_bound (x + (a - 1)) a Ha). lia.
Qed.

Lemma ALIGN_divide x a : (a | ALIGN x a).
Proof. unfold ALIGN. exists ((x + (a - 1)) / a). lia. Qed.

Lemma ALIGN_DOWN_bounds x a : 0 < a -> x - a < ALIGN_DOWN x a <= x.
Proof.
  intros Ha. unfold ALIGN_DOWN. pose proof (Z.div_mod x a ltac:(lia)).
  pose proof (Z.mod_pos_bound x a Ha). lia.
Qed.

Lemma ALIGN_DOWN_mono x y a : 0 < a -> x <= y -> ALIGN_DOWN x a <= ALIGN_DOWN y a.
Proof. intros. unfold ALIGN_DOWN. pose proof (Z.div_le_mono x y a ltac:(lia) ltac:(lia)). nia. Qed.

(** [x & (2^n - 1)] is the remainder modulo [2^n]. *)
Lemma land_mask x n : 0 <= n -> Z.land x (2 ^ n - 1) = x mod 2 ^ n.
Proof. intros. rewrite <- Z.land_ones by done. f_equal. rewrite Z.ones_equiv. lia. Qed.

(** Masking with [b] gives at most [b]. *)
Lemma land_range a b : 0 <= a -> 0 <= b -> 0 <= Z.land a b <= b.
Proof.
  intros Ha Hb. rewrite <- (Z2N.id a), <- (Z2N.id b) by done. rewrite <- N2Z.inj_land.
  pose proof (N.land_le_r (Z.to_N a) (Z.to_N b)). lia.
Qed.

Lemma fls_range z : 0 <= z -> 0 <= fls z.
Proof. intros. unfold fls. pose proof (Z.log2_nonneg z). case_if; lia. Qed.

(** [fls z <= n] exactly when [z] fits in [n] bits. *)
Lemma fls_le z n : 0 <= z -> 0 <= n -> fls z <= n <-> z < 2 ^ n.
Proof.
  intros Hz Hn. unfold fls. destruct (Z.eqb_spec z 0) as [->|Hnz].
  - split; intros; [apply Z.pow_pos_nonneg|]; lia.
  - rewrite (Z.log2_lt_pow2 z n) by lia. lia.
Qed.

(** ** Lemmas on byte strings *)

Lemma le_bytes_length n z : length (le_bytes n z) = n.
Proof. revert z. induction n; intros; simpl; auto. Qed.

Lemma be_bytes_length n z : length (be_bytes n z) = n.
Proof. unfold be_bytes. by rewrite length_rev, le_bytes_length. Qed.

Lemma le_bytes_wf n z : wf_bytes (le_bytes n z).
Proof.
  revert z. induction n; intros; simpl; constructor; [|done].
  apply Z.mod_pos_bound. lia.
Qed.

Lemma wf_bytes_rev bs : wf_bytes bs -> wf_bytes (rev bs).
Proof. apply List.Forall_rev. Qed.

Lemma be_bytes_wf n z : wf_bytes (be_bytes n z).
Proof. apply wf_bytes_rev, le_bytes_wf. Qed.

Lemma zeroes_wf n : wf_bytes (zeroes n).
Proof. apply Forall_replicate. unfold is_byte. lia. Qed.

Lemma le_val_bound bs : wf_bytes bs -> 0 <= le_val bs < 2 ^ (8 * Z.of_nat (length bs)).
Proof.
  induction 1 as [|b bs Hb _ IH]; cbn [le_val length]; [lia|].
  unfold is_byte in Hb.
  replace (8 * Z.of_nat (S (length bs))) with (8 + 8 * Z.of_nat (length bs)) by lia.
  rewrite Z.pow_add_r by lia. change (2 ^ 8) with 256. lia.
Qed.

Lemma le_val_le_bytes n z : le_val (le_bytes n z) = z mod 2 ^ (8 * Z.of_nat n).
Proof.
  revert z. induction n as [|n IH]; intros z; cbn [le_val le_bytes].
  - by rewrite Z.mod_1_r.
  - rewrite IH.
    replace (8 * Z.of_nat (S n)) with (8 + 8 * Z.of_nat n) by lia.
    rewrite Z.pow_add_r by lia. change (2 ^ 8) with 256.
    rewrite Z.rem_mul_r by (try apply Z.pow_nonzero; lia). lia.
Qed.

Lemma le_bytes_le_val bs : wf_bytes bs -> le_bytes (length bs) (le_val bs) = bs.
Proof.
  induction 1 as [|b bs Hb _ IH]; cbn [le_bytes le_val length]; [done|].
  unfold is_byte in Hb.
  rewrite (Z.mul_comm 256), Z.mod_add, Z.div_add, (Z.mod_small b), (Z.div_small b) by lia.
  by rewrite Z.add_0_l, IH.
Qed.

Lemma le_val_inj a b :
  wf_bytes a -> wf_bytes b -> length a = length b -> le_val a = le_val b -> a = b.
Proof.
  intros Ha Hb Hl He. rewrite <- (le_bytes_le_val a), <- (le_bytes_le_val b) by done.
  by rewrite Hl, He.
Qed.

Lemma le_val_app a b : le_val (a ++ b) = le_val a + 2 ^ (8 * Z.of_nat (length a)) * le_val b.
Proof.
  induction a as [|x a IH]; cbn [le_val app length]; [lia|].
  replace (8 * Z.of_nat (S (length a))) with (8 + 8 * Z.of_nat (length a)) by lia.
  rewrite IH, Z.pow_add_r by lia. change (2 ^ 8) with 256. lia.
Qed.

Lemma be_val_be_bytes n z : be_val (be_bytes n z) = z mod 2 ^ (8 * Z.of_nat n).
Proof. unfold be_val, be_bytes. by rewrite rev_involutive, le_val_le_bytes. Qed.

Lemma be_bytes_be_val bs : wf_bytes bs -> be_bytes (length bs) (be_val bs) = bs.
Proof.
  intros H. unfold be_val, be_bytes. rewrite <- (length_rev bs).
  by rewrite le_bytes_le_val, rev_involutive by (by apply wf_bytes_rev).
Qed.

Lemma be_val_bound bs : wf_bytes bs -> 0 <= be_val bs < 2 ^ (8 * Z.of_nat (length bs)).
Proof.
  intros. unfold be_val. rewrite <- (length_rev bs). by apply le_val_bound, wf_bytes_rev.
Qed.

Lemma be_val_cons x bs : be_val (x :: bs) = x * 2 ^ (8 * Z.of_nat (length bs)) + be_val bs.
Proof. unfold be_val. simpl. rewrite le_val_app, length_rev. simpl. lia. Qed.

Lemma be_val_app a b : be_val (a ++ b) = be_val a * 2 ^ (8 * Z.of_nat (length b)) + be_val b.
Proof. unfold be_val. rewrite rev_app_distr, le_val_app, length_rev. lia. Qed.

Lemma be_val_zeroes n : be_val (zeroes n) = 0.
Proof. induction n as [|n IH]; [done|]. unfold zeroes in *. cbn [replicate]. rewrite be_val_cons, IH. lia. Qed.

Lemma be_val_inj a b : wf_bytes a -> wf_bytes b -> length a = length b -> be_val a = be_val b -> a = b.
Proof.
  intros Ha Hb Hl He. rewrite <- (be_bytes_be_val a), <- (be_bytes_be_val b) by done. by rewrite Hl, He.
Qed.

(** Bit [8 * i + j] of a little-endian number is bit [j] of its byte [i]. *)
Lemma le_val_testbit bs (i : nat) j :
  wf_bytes bs -> 0 <= j < 8 ->
  Z.testbit (le_val bs) (8 * Z.of_nat i + j) = Z.testbit (default 0 (bs !! i)) j.
Proof.
  intros Hwf Hj. revert i. induction Hwf as [|b bs Hb _ IH]; intros i.
  - simpl. by rewrite !Z.bits_0.
  - unfold is_byte in Hb. cbn [le_val]. replace (b + 256 * le_val bs) with (b + le_val bs * 2 ^ 8) by lia.
    destruct i as [|i]; cbn [lookup list_lookup default].
    + rewrite Z.mul_0_r, Z.add_0_l.
      rewrite <- (Z.mod_pow2_bits_low _ 8 j), Z.mod_add by lia.
      by rewrite Z.mod_small by lia.
    + replace (8 * Z.of_nat (S i) + j) with (8 * Z.of_nat i + j + 8) by lia.
      rewrite <- Z.div_pow2_bits, Z.div_add, Z.div_small by lia. apply IH.
Qed.

(** [memcmp] orders equal-length byte strings as big-endian numbers. *)
Lemma memcmp_be_val a b :
  wf_bytes a -> wf_bytes b -> length a = length b ->
  memcmp a b = (be_val a ?= be_val b).
Proof.
  intros Ha. revert b. induction Ha as [|x a Hx Ha IH]; intros [|y b] Hb Hl; try done.
  inversion Hb as [|?? Hy Hb']; subst. simpl in Hl. injection Hl as Hl.
  cbn [memcmp]. rewrite !be_val_cons, IH, Hl by done.
  pose proof (be_val_bound a Ha) as Ba. pose proof (be_val_bound b Hb') as Bb.
  rewrite Hl in Ba. unfold is_byte in *.
  destruct (Z.compare_spec x y) as [->|Hlt|Hlt]; symmetry.
  - destruct (Z.compare_spec (be_val a) (be_val b)).
    + apply Z.compare_eq_iff. lia.
    + apply Z.compare_lt_iff. lia.
    + apply Z.compare_gt_iff. lia.
  - apply Z.compare_lt_iff. nia.
  - apply Z.compare_gt_iff. nia.
Qed.

Lemma memcmp_antisym a b : memcmp a b = CompOpp (memcmp b a).
Proof.
  revert b. induction a as [|x a IH]; intros [|y b]; cbn; try done.
  rewrite (Z.compare_antisym y x). destruct (y ?= x); cbn; [apply IH|done|done].
Qed.

Lemma memcmp_refl a : memcmp a a = Eq.
Proof. induction a; cbn; [done|]. by rewrite Z.compare_refl. Qed.

Lemma memcmp_ge_trans a b c : memcmp a b <> Lt -> memcmp b c <> Lt -> memcmp a c <> Lt.
Proof.
  revert b c. induction a as [|x a IH]; intros [|y b] [|z c]; cbn; try done.
  destruct (Z.compare_spec x y), (Z.compare_spec y z), (Z.compare_spec x z); try done; try lia. apply IH.
Qed.

Lemma bytes_eqb_spec a b : bytes_eqb a b = true <-> a = b.
Proof. apply bool_decide_eq_true. Qed.

(** ** Sorted lists of numbers *)

Lemma StronglySorted_seqZ n len : StronglySorted Z.lt (seqZ n len).
Proof.
  destruct (Z.le_gt_cases 0 len) as [H|H]; [|rewrite seqZ_nil by lia; constructor].
  revert n. pattern len. apply natlike_ind; [constructor| |done]. clear len H. intros len H IH n. rewrite seqZ_cons by lia.
  replace (Z.pred (Z.succ len)) with len by lia. constructor; [apply IH|]. apply Forall_forall. intros x Hx%elem_of_seqZ. lia.
Qed.

Lemma StronglySorted_lt_NoDup l : StronglySorted Z.lt l -> NoDup l.
Proof.
  induction 1 as [|x l _ IH Hx]; constructor; [|done]. intros Hin. rewrite Forall_forall in Hx. specialize (Hx x Hin). lia.
Qed.

#[export] Hint Resolve le_bytes_wf be_bytes_wf zeroes_wf wf_bytes_rev u64_range : wg.
#[export] Hint Rewrite le_bytes_length be_bytes_length @length_replicate @length_rev : wg.

#[global] Arguments le_bytes : simpl never.
#[global] Arguments le_val : simpl never.
#[global] Arguments be_bytes : simpl never.
#[global] Arguments be_val : simpl never.
