(* ===== verification/Messages.v ===== *)
(** * Messages: the constants and on-wire structures of messages.h

    The structures are packed C structs that the program casts packet buffers to and from; the
    [_bytes] functions lay a structure out in memory, the [_of] functions are the casts back.
    [__le32]/[__le64] members hold the little-endian value of their four or eight bytes. *)

From S2P Require Import Prelude.

(** enum noise_lengths *)
Definition NOISE_PUBLIC_KEY_LEN : nat := 32.
Definition NOISE_SYMMETRIC_KEY_LEN : nat := 32.
Definition NOISE_TIMESTAMP_LEN : nat := 12.
Definition NOISE_AUTHTAG_LEN : nat := 16.
Definition NOISE_HASH_LEN : nat := 32.

Definition noise_encrypted_len (plain_len : nat) : nat := (plain_len + NOISE_AUTHTAG_LEN)%nat.

(** enum cookie_values *)
Definition COOKIE_SECRET_MAX_AGE : Z := 2 * 60.
Definition COOKIE_SECRET_LATENCY : Z := 5.
Definition COOKIE_NONCE_LEN : nat := 24.
Definition COOKIE_LEN : nat := 16.

(** enum counter_values, on a 64-bit machine *)
Definition BITS_PER_LONG : Z := 64.
Definition COUNTER_BITS_TOTAL : Z := 8192.
Definition COUNTER_REDUNDANT_BITS : Z := BITS_PER_LONG.
Definition COUNTER_WINDOW_SIZE : Z := COUNTER_BITS_TOTAL - COUNTER_REDUNDANT_BITS.

(** enum limits; [HZ] is the tick rate of the kernel configuration *)
Definition REKEY_AFTER_MESSAGES : Z := Z.shiftl 1 60.
Definition REJECT_AFTER_MESSAGES : Z := U64_MAX - COUNTER_WINDOW_SIZE - 1.
Definition REKEY_TIMEOUT : Z := 5.
Definition REKEY_TIMEOUT_JITTER_MAX_JIFFIES (HZ : Z) : Z := HZ / 3.
Definition REKEY_AFTER_TIME : Z := 120.
Definition REJECT_AFTER_TIME : Z := 180.
Definition INITIATIONS_PER_SECOND : Z := 50.
Definition MAX_PEERS_PER_DEVICE : Z := Z.shiftl 1 20.
Definition KEEPALIVE_TIMEOUT : Z := 10.
Definition MAX_TIMER_HANDSHAKES : Z := 90 / REKEY_TIMEOUT.
Definition MAX_QUEUED_INCOMING_HANDSHAKES : Z := 4096.
Definition MAX_STAGED_PACKETS : Z := 128.
Definition MAX_QUEUED_PACKETS : Z := 1024.

(** enum message_type *)
Definition MESSAGE_INVALID : Z := 0.
Definition MESSAGE_HANDSHAKE_INITIATION : Z := 1.
Definition MESSAGE_HANDSHAKE_RESPONSE : Z := 2.
Definition MESSAGE_HANDSHAKE_COOKIE : Z := 3.
Definition MESSAGE_DATA : Z := 4.

(** struct message_header, struct message_macs *)
Definition sizeof_message_header : nat := 4.

Record message_macs := { mac1 : bytes; mac2 : bytes }.
Definition sizeof_message_macs : nat := (COOKIE_LEN + COOKIE_LEN)%nat.

Record message_handshake_initiation := {
  hi_type : Z;
  hi_sender_index : Z;
  hi_unencrypted_ephemeral : bytes;
  hi_encrypted_static : bytes;
  hi_encrypted_timestamp : bytes;
  hi_macs : message_macs
}.

Record message_handshake_response := {
  hr_type : Z;
  hr_sender_index : Z;
  hr_receiver_index : Z;
  hr_unencrypted_ephemeral : bytes;
  hr_encrypted_nothing : bytes;
  hr_macs : message_macs
}.

Record message_handshake_cookie := {
  hc_type : Z;
  hc_receiver_index : Z;
  hc_nonce : bytes;
  hc_encrypted_cookie : bytes
}.

Record message_data := {
  md_type : Z;
  md_key_idx : Z;
  md_counter : Z;
  md_encrypted_data : bytes
}.

Definition sizeof_message_handshake_initiation : nat :=
  (sizeof_message_header + 4 + NOISE_PUBLIC_KEY_LEN + noise_encrypted_len NOISE_PUBLIC_KEY_LEN
   + noise_encrypted_len NOISE_TIMESTAMP_LEN + sizeof_message_macs)%nat.
Definition sizeof_message_handshake_response : nat :=
  (sizeof_message_header + 4 + 4 + NOISE_PUBLIC_KEY_LEN + noise_encrypted_len 0
   + sizeof_message_macs)%nat.
Definition sizeof_message_handshake_cookie : nat :=
  (sizeof_message_header + 4 + COOKIE_NONCE_LEN + noise_encrypted_len COOKIE_LEN)%nat.
Definition sizeof_message_data : nat := (sizeof_message_header + 4 + 8)%nat.

Definition message_data_len (plain_len : nat) : nat :=
  (noise_encrypted_len plain_len + sizeof_message_data)%nat.

(** enum message_alignments *)
Definition MESSAGE_PADDING_MULTIPLE : Z := 16.
Definition MESSAGE_MINIMUM_LENGTH : nat := message_data_len 0.

(** SKB_HEADER_LEN and DATA_PACKET_HEAD_ROOM: [NET_SKB_PAD] comes from the kernel configuration. *)
Definition sizeof_iphdr : Z := 20.
Definition sizeof_ipv6hdr : Z := 40.
Definition sizeof_udphdr : Z := 8.
Definition SKB_HEADER_LEN (NET_SKB_PAD : Z) : Z :=
  Z.max sizeof_iphdr sizeof_ipv6hdr + sizeof_udphdr + NET_SKB_PAD.
Definition DATA_PACKET_HEAD_ROOM (NET_SKB_PAD : Z) : Z :=
  ALIGN (Z.of_nat sizeof_message_data + SKB_HEADER_LEN NET_SKB_PAD) 4.
Definition HANDSHAKE_DSCP : Z := 0x88.

(** ** Memory layout *)

Definition message_macs_bytes (m : message_macs) : bytes := mac1 m ++ mac2 m.

Definition message_handshake_initiation_bytes (m : message_handshake_initiation) : bytes :=
  le_bytes 4 (hi_type m) ++ le_bytes 4 (hi_sender_index m) ++ hi_unencrypted_ephemeral m
  ++ hi_encrypted_static m ++ hi_encrypted_timestamp m ++ message_macs_bytes (hi_macs m).

Definition message_handshake_response_bytes (m : message_handshake_response) : bytes :=
  le_bytes 4 (hr_type m) ++ le_bytes 4 (hr_sender_index m) ++ le_bytes 4 (hr_receiver_index m)
  ++ hr_unencrypted_ephemeral m ++ hr_encrypted_nothing m ++ message_macs_bytes (hr_macs m).

Definition message_handshake_cookie_bytes (m : message_handshake_cookie) : bytes :=
  le_bytes 4 (hc_type m) ++ le_bytes 4 (hc_receiver_index m) ++ hc_nonce m
  ++ hc_encrypted_cookie m.

Definition message_data_bytes (m : message_data) : bytes :=
  le_bytes 4 (md_type m) ++ le_bytes 4 (md_key_idx m) ++ le_bytes 8 (md_counter m)
  ++ md_encrypted_data m.

(** [field off len buf]: the member of [len] bytes at offset [off] of the structure at [buf]. *)
Definition field (off len : nat) (buf : bytes) : bytes := take len (drop off buf).

#[global] Arguments field : simpl never.

Definition message_macs_of (buf : bytes) : message_macs :=
  {| mac1 := field 0 COOKIE_LEN buf; mac2 := field 16 COOKIE_LEN buf |}.

Definition message_handshake_initiation_of (buf : bytes) : message_handshake_initiation :=
  {| hi_type := le_val (field 0 4 buf);
     hi_sender_index := le_val (field 4 4 buf);
     hi_unencrypted_ephemeral := field 8 32 buf;
     hi_encrypted_static := field 40 48 buf;
     hi_encrypted_timestamp := field 88 28 buf;
     hi_macs := message_macs_of (field 116 32 buf) |}.

Definition message_handshake_response_of (buf : bytes) : message_handshake_response :=
  {| hr_type := le_val (field 0 4 buf);
     hr_sender_index := le_val (field 4 4 buf);
     hr_receiver_index := le_val (field 8 4 buf);
     hr_unencrypted_ephemeral := field 12 32 buf;
     hr_encrypted_nothing := field 44 16 buf;
     hr_macs := message_macs_of (field 60 32 buf) |}.

Definition message_handshake_cookie_of (buf : bytes) : message_handshake_cookie :=
  {| hc_type := le_val (field 0 4 buf);
     hc_receiver_index := le_val (field 4 4 buf);
     hc_nonce := field 8 24 buf;
     hc_encrypted_cookie := field 32 32 buf |}.

Definition message_data_of (buf : bytes) : message_data :=
  {| md_type := le_val (field 0 4 buf);
     md_key_idx := le_val (field 4 4 buf);
     md_counter := le_val (field 8 8 buf);
     md_encrypted_data := drop 16 buf |}.

(** ** Well-formed structures: every member has its declared size *)

Definition is_u32 (z : Z) : Prop := 0 <= z < 2 ^ 32.
Definition is_u64 (z : Z) : Prop := 0 <= z < 2 ^ 64.

Definition wf_macs (m : message_macs) : Prop :=
  length (mac1 m) = 16%nat /\ length (mac2 m) = 16%nat.

Definition wf_initiation (m : message_handshake_initiation) : Prop :=
  is_u32 (hi_type m) /\ is_u32 (hi_sender_index m)
  /\ length (hi_unencrypted_ephemeral m) = 32%nat
  /\ length (hi_encrypted_static m) = 48%nat
  /\ length (hi_encrypted_timestamp m) = 28%nat
  /\ wf_macs (hi_macs m).

Definition wf_response (m : message_handshake_response) : Prop :=
  is_u32 (hr_type m) /\ is_u32 (hr_sender_index m) /\ is_u32 (hr_receiver_index m)
  /\ length (hr_unencrypted_ephemeral m) = 32%nat
  /\ length (hr_encrypted_nothing m) = 16%nat
  /\ wf_macs (hr_macs m).

Definition wf_cookie_message (m : message_handshake_cookie) : Prop :=
  is_u32 (hc_type m) /\ is_u32 (hc_receiver_index m)
  /\ length (hc_nonce m) = 24%nat /\ length (hc_encrypted_cookie m) = 32%nat.

Definition wf_data (m : message_data) : Prop :=
  is_u32 (md_type m) /\ is_u32 (md_key_idx m) /\ is_u64 (md_counter m).

(** ** Layout lemmas *)

Lemma le_val_u32 z : is_u32 z -> le_val (le_bytes 4 z) = z.
Proof. intros H. rewrite le_val_le_bytes. by apply Z.mod_small. Qed.

Lemma le_val_u64 z : is_u64 z -> le_val (le_bytes 8 z) = z.
Proof. intros H. rewrite le_val_le_bytes. by apply Z.mod_small. Qed.

Lemma field_here len (a b : bytes) : length a = len -> field 0 len (a ++ b) = a.
Proof. intros <-. unfold field. by rewrite drop_0, take_app_length. Qed.

Lemma field_skip off len n (a b : bytes) :
  length a = n -> (n <= off)%nat -> field off len (a ++ b) = field (off - n) len b.
Proof. intros <- H. unfold field. by rewrite drop_app_ge. Qed.

Lemma field_all n (a : bytes) : length a = n -> field 0 n a = a.
Proof. intros <-. unfold field. by rewrite drop_0, firstn_all. Qed.

Lemma drop_skip off n (a b : bytes) :
  length a = n -> (n <= off)%nat -> drop off (a ++ b) = drop (off - n) b.
Proof. intros <- ?. by rewrite drop_app_ge. Qed.

(** Walk a [field] access through the concatenation that a layout function builds. *)
Ltac layout :=
  repeat first
    [ rewrite field_here by (autorewrite with wg; done)
    | rewrite field_all by (autorewrite with wg; done)
    | erewrite field_skip by (first [eassumption | apply le_bytes_length | lia]); simpl Nat.sub
    | erewrite drop_skip by (first [apply le_bytes_length | lia]); simpl Nat.sub ];
  rewrite ?drop_0.

Lemma macs_roundtrip m : wf_macs m -> message_macs_of (message_macs_bytes m) = m.
Proof.
  destruct m as [a b]. intros [Ha Hb]; cbn [mac1 mac2] in *.
  unfold message_macs_of, message_macs_bytes, COOKIE_LEN; cbn [mac1 mac2]. by layout.
Qed.

Lemma macs_bytes_length m : wf_macs m -> length (message_macs_bytes m) = 32%nat.
Proof. intros [Ha Hb]. unfold message_macs_bytes. by rewrite length_app, Ha, Hb. Qed.

Lemma initiation_roundtrip m :
  wf_initiation m -> message_handshake_initiation_of (message_handshake_initiation_bytes m) = m.
Proof.
  destruct m as [ty si e s t mm]. intros (Hty & Hsi & He & Hs & Ht & Hm); cbn in *.
  unfold message_handshake_initiation_of, message_handshake_initiation_bytes; cbn.
  pose proof (macs_bytes_length mm Hm). layout.
  by rewrite !le_val_u32, macs_roundtrip by done.
Qed.

Lemma response_roundtrip m :
  wf_response m -> message_handshake_response_of (message_handshake_response_bytes m) = m.
Proof.
  destruct m as [ty si ri e s mm]. intros (Hty & Hsi & Hri & He & Hs & Hm); cbn in *.
  unfold message_handshake_response_of, message_handshake_response_bytes; cbn.
  pose proof (macs_bytes_length mm Hm). layout.
  by rewrite !le_val_u32, macs_roundtrip by done.
Qed.

Lemma cookie_message_roundtrip m :
  wf_cookie_message m -> message_handshake_cookie_of (message_handshake_cookie_bytes m) = m.
Proof.
  destruct m as [ty ri n c]. intros (Hty & Hri & Hn & Hc); cbn in *.
  unfold message_handshake_cookie_of, message_handshake_cookie_bytes; cbn. layout.
  by rewrite !le_val_u32 by done.
Qed.

Lemma data_roundtrip m : wf_data m -> message_data_of (message_data_bytes m) = m.
Proof.
  destruct m as [ty ki c d]. intros (Hty & Hki & Hc); cbn in *.
  unfold message_data_of, message_data_bytes; cbn. layout.
  by rewrite !le_val_u32, le_val_u64 by done.
Qed.

Lemma initiation_bytes_length m :
  wf_initiation m -> length (message_handshake_initiation_bytes m) = sizeof_message_handshake_initiation.
Proof.
  intros (_ & _ & He & Hs & Ht & Hm). unfold message_handshake_initiation_bytes.
  by rewrite !length_app, !le_bytes_length, He, Hs, Ht, macs_bytes_length.
Qed.

Lemma response_bytes_length m :
  wf_response m -> length (message_handshake_response_bytes m) = sizeof_message_handshake_response.
Proof.
  intros (_ & _ & _ & He & Hs & Hm). unfold message_handshake_response_bytes.
  by rewrite !length_app, !le_bytes_length, He, Hs, macs_bytes_length.
Qed.

Lemma cookie_message_bytes_length m :
  wf_cookie_message m -> length (message_handshake_cookie_bytes m) = sizeof_message_handshake_cookie.
Proof.
  intros (_ & _ & Hn & Hc). unfold message_handshake_cookie_bytes.
  by rewrite !length_app, !le_bytes_length, Hn, Hc.
Qed.
