(* ===== verification/Replay.v ===== *)
(** * Replay: the RFC 6479 sliding window of receive.c

    [counter_validate] keeps a 8192-bit circular bitmap of the counters already seen. The abstract
    specification is a plain set of accepted counters with its maximum; the theorems show that the
    bitmap implements it, and that a counter is therefore accepted at most once. *)

From S2P Require Import Prelude Messages.

(** struct noise_replay_counter, without its lock: every access is under the lock. *)
Record noise_replay_counter := { counter : Z; backtrack : list Z }.

Definition BACKTRACK_WORDS : Z := COUNTER_BITS_TOTAL / BITS_PER_LONG.

(** What [kzalloc] of a keypair (or [T_INIT] of the self-test) leaves. *)
Definition replay_counter_init : noise_replay_counter :=
  {| counter := 0; backtrack := replicate (Z.to_nat BACKTRACK_WORDS) 0 |}.

(** [for (i = 1; i <= top; ++i) backtrack[(i + index_current) & (WORDS - 1)] = 0;] *)
Fixpoint clear_words (top : nat) (index_current : Z) (bt : list Z) : list Z :=
  match top with
  | O => bt
  | S n =>
      <[Z.to_nat (Z.land (u64 (Z.of_nat top + index_current)) (BACKTRACK_WORDS - 1)) := 0]>
        (clear_words n index_current bt)
  end.

(** [test_and_set_bit(nr, &bt[index])]: the old bit and the updated words. *)
Definition test_and_set_bit (nr : Z) (index : nat) (bt : list Z) : bool * list Z :=
  let word := default 0 (bt !! index) in
  (Z.testbit word nr, <[index := Z.setbit word nr]> bt).

Definition counter_validate (c : noise_replay_counter) (their_counter : Z)
  : bool * noise_replay_counter :=
  if (REJECT_AFTER_MESSAGES + 1 <=? counter c) || (REJECT_AFTER_MESSAGES <=? their_counter) then
    (false, c)
  else
    let their_counter := u64 (their_counter + 1) in
    if u64 (COUNTER_WINDOW_SIZE + their_counter) <? counter c then (false, c)
    else
      let index := Z.shiftr their_counter (Z.log2 BITS_PER_LONG) in
      let c :=
        if counter c <? their_counter then
          let index_current := Z.shiftr (counter c) (Z.log2 BITS_PER_LONG) in
          let top := Z.min (u64 (index - index_current)) BACKTRACK_WORDS in
          {| counter := their_counter;
             backtrack := clear_words (Z.to_nat top) index_current (backtrack c) |}
        else c in
      let index := Z.land index (BACKTRACK_WORDS - 1) in
      let '(old, bt) :=
        test_and_set_bit (Z.land their_counter (BITS_PER_LONG - 1)) (Z.to_nat index) (backtrack c) in
      (negb old, {| counter := counter c; backtrack := bt |}).

(** Validate a sequence of counters, as the receive path does packet after packet. *)
Fixpoint validate_all (c : noise_replay_counter) (ns : list Z) : list bool * noise_replay_counter :=
  match ns with
  | [] => ([], c)
  | n :: ns =>
      let '(b, c) := counter_validate c n in
      let '(bs, c) := validate_all c ns in (b :: bs, c)
  end.

(** ** The unit test of selftest/counter.c

    [run_tests] is a sequence of [T(n, v)] lines after a [T_INIT]. *)
Definition T_LIM : Z := COUNTER_WINDOW_SIZE + 1.

Fixpoint run_tests (c : noise_replay_counter) (ts : list (Z * bool)) : bool :=
  match ts with
  | [] => true
  | (n, v) :: ts => let '(b, c) := counter_validate c n in eqb b v && run_tests c ts
  end.

(** [first, first+1, ..., first+n-1], the range of an ascending test loop *)
Definition zseq (first : Z) (n : Z) : list Z := map (fun i => first + Z.of_nat i) (seq 0 (Z.to_nat n)).
Definition all_true (l : list Z) : list (Z * bool) := map (fun n => (n, true)) l.

Definition counter_selftest_cases : list (list (Z * bool)) :=
  let W := COUNTER_WINDOW_SIZE in let L := T_LIM in let R := REJECT_AFTER_MESSAGES in
  [ [(0, true); (1, true); (1, false); (9, true); (8, true); (7, true); (7, false); (L, true);
     (L - 1, true); (L - 1, false); (L - 2, true); (2, true); (2, false); (L + 16, true);
     (3, false); (L + 16, false); (L * 4, true); (L * 4 - (L - 1), true); (10, false);
     (L * 4 - L, false); (L * 4 - (L + 1), false); (L * 4 - (L - 2), true);
     (L * 4 + 1 - L, false); (0, false); (R, false); (R - 1, true); (R, false); (R - 1, false);
     (R - 2, true); (R + 1, false); (R + 2, false); (R - 2, false); (R - 3, true); (0, false)];
    all_true (zseq 1 W) ++ [(0, true); (0, false)];
    all_true (zseq 2 W) ++ [(1, true); (0, false)];
    all_true (rev (zseq 0 (W + 1)));
    all_true (rev (zseq 1 (W + 1))) ++ [(0, false)];
    all_true (rev (zseq 1 W)) ++ [(W + 1, true); (0, false)];
    all_true (rev (zseq 1 W)) ++ [(0, true); (W + 1, true)] ].

Definition wg_packet_counter_selftest : bool :=
  forallb (run_tests replay_counter_init) counter_selftest_cases.

(** ** Abstract specification *)

Module Spec.
(** The largest accepted counter plus one, and the set of counters accepted so far. *)
Record window := { top : Z; seen : gset Z }.

Definition init : window := {| top := 0; seen := ∅ |}.

Definition validate (w : window) (n : Z) : bool * window :=
  if (REJECT_AFTER_MESSAGES + 1 <=? top w) || (REJECT_AFTER_MESSAGES <=? n) then (false, w)
  else if n + 1 + COUNTER_WINDOW_SIZE <? top w then (false, w)
  else if bool_decide (n ∈ seen w) then (false, w)
  else (true, {| top := Z.max (top w) (n + 1); seen := {[n]} ∪ seen w |}).

Fixpoint validate_all (w : window) (ns : list Z) : list bool * window :=
  match ns with
  | [] => ([], w)
  | n :: ns =>
      let '(b, w) := validate w n in
      let '(bs, w) := validate_all w ns in (b :: bs, w)
  end.
End Spec.

(** ** Representation: which bit of the bitmap stands for which counter *)

Definition block (m : Z) : Z := m / 64.

(** The bit of the (already incremented) counter [m]. *)
Definition bit_of (bt : list Z) (m : Z) : bool :=
  Z.testbit (default 0 (bt !! Z.to_nat (block m mod 128))) (m mod 64).

(** Counters whose block is one of the 128 the bitmap holds. *)
Definition in_bitmap (cnt m : Z) : Prop :=
  0 <= m /\ block cnt - 128 < block m <= block cnt.

Record represents (c : noise_replay_counter) (w : Spec.window) : Prop := {
  rep_top : counter c = Spec.top w;
  rep_range : 0 <= counter c <= REJECT_AFTER_MESSAGES;
  rep_words : length (backtrack c) = 128%nat;
  rep_seen : forall n, n ∈ Spec.seen w -> 0 <= n < Spec.top w;
  rep_bits : forall m, in_bitmap (counter c) m -> bit_of (backtrack c) m = bool_decide (m - 1 ∈ Spec.seen w)
}.

(** ** Lemmas on the bitmap *)

Lemma shiftr6 z : Z.shiftr z (Z.log2 BITS_PER_LONG) = block z.
Proof. change (Z.log2 BITS_PER_LONG) with 6. by rewrite Z.shiftr_div_pow2. Qed.

Lemma mask_words z : Z.land z (BACKTRACK_WORDS - 1) = z mod 128.
Proof. apply (land_mask z 7). lia. Qed.

Lemma mask_bits z : Z.land z (BITS_PER_LONG - 1) = z mod 64.
Proof. apply (land_mask z 6). lia. Qed.

Lemma clear_words_length top cur bt : length (clear_words top cur bt) = length bt.
Proof. induction top; simpl; [done|]. by rewrite length_insert. Qed.

Lemma clear_words_miss top cur bt (i : nat) :
  0 <= cur -> cur + Z.of_nat top < 2 ^ 64 ->
  (forall k, 1 <= k <= Z.of_nat top -> (k + cur) mod 128 <> Z.of_nat i) ->
  clear_words top cur bt !! i = bt !! i.
Proof.
  intros Hc. induction top as [|n IH]; intros Hb Hk; [done|].
  cbn [clear_words]. rewrite mask_words, wrap_small by lia.
  specialize (Hk (Z.of_nat (S n)) ltac:(lia)) as Hne.
  pose proof (Z.mod_pos_bound (Z.of_nat (S n) + cur) 128 ltac:(lia)).
  rewrite list_lookup_insert_ne by lia. apply IH; [lia|].
  intros k ?. apply Hk. lia.
Qed.

Lemma clear_words_hit top cur bt (i : nat) k :
  length bt = 128%nat -> (i < 128)%nat -> 0 <= cur -> cur + Z.of_nat top < 2 ^ 64 ->
  1 <= k <= Z.of_nat top -> (k + cur) mod 128 = Z.of_nat i ->
  clear_words top cur bt !! i = Some 0.
Proof.
  intros Hl Hi Hc. induction top as [|n IH]; intros Hb Hk Hm; [lia|].
  cbn [clear_words]. rewrite mask_words, wrap_small by lia.
  pose proof (Z.mod_pos_bound (Z.of_nat (S n) + cur) 128 ltac:(lia)).
  destruct (decide ((Z.of_nat (S n) + cur) mod 128 = Z.of_nat i)) as [E|E].
  - rewrite E, Nat2Z.id, list_lookup_insert_eq; [done|]. rewrite clear_words_length. lia.
  - rewrite list_lookup_insert_ne by lia. apply IH; [lia| |done].
    destruct (decide (k = Z.of_nat (S n))) as [->|]; [done|lia].
Qed.

(** Two counters of the bitmap share a word only if they are in the same block. *)
Lemma same_word cnt m m' :
  in_bitmap cnt m -> in_bitmap cnt m' -> block m mod 128 = block m' mod 128 -> block m = block m'.
Proof.
  unfold in_bitmap. intros (? & ?) (? & ?) E.
  pose proof (Z.div_mod (block m) 128 ltac:(lia)). pose proof (Z.div_mod (block m') 128 ltac:(lia)).
  lia.
Qed.

Lemma block_bit_inj m m' : block m = block m' -> m mod 64 = m' mod 64 -> m = m'.
Proof. unfold block. intros. rewrite (Z.div_mod m 64), (Z.div_mod m' 64) by lia. lia. Qed.

Lemma block_mono m m' : m <= m' -> block m <= block m'.
Proof. intros. apply Z.div_le_mono; lia. Qed.

(** Setting the bit of [m] changes the bit of no other counter of the bitmap. *)
Lemma bit_of_set cnt bt m m' :
  length bt = 128%nat -> in_bitmap cnt m -> in_bitmap cnt m' ->
  bit_of (snd (test_and_set_bit (m mod 64) (Z.to_nat (block m mod 128)) bt)) m'
  = bool_decide (m = m') || bit_of bt m'.
Proof.
  intros Hl Hm Hm'. unfold bit_of, test_and_set_bit; cbn [snd].
  assert (0 <= block m mod 128 < 128) by (apply Z.mod_pos_bound; lia).
  assert (0 <= block m' mod 128 < 128) by (apply Z.mod_pos_bound; lia).
  assert (0 <= m mod 64) by (apply Z.mod_pos_bound; lia).
  assert (0 <= m' mod 64) by (apply Z.mod_pos_bound; lia).
  destruct (decide (block m mod 128 = block m' mod 128)) as [E|E].
  - rewrite <- E, list_lookup_insert_eq by lia. simpl.
    pose proof (same_word _ _ _ Hm Hm' E) as Eb.
    rewrite Z.setbit_eqb by done. f_equal.
    destruct (Z.eqb_spec (m mod 64) (m' mod 64)); symmetry.
    + apply bool_decide_eq_true_2. by apply block_bit_inj.
    + apply bool_decide_eq_false_2. intros ->. done.
  - rewrite list_lookup_insert_ne by lia.
    rewrite bool_decide_eq_false_2; [done|]. intros ->. done.
Qed.

Lemma test_and_set_bit_old bt m :
  fst (test_and_set_bit (m mod 64) (Z.to_nat (block m mod 128)) bt) = bit_of bt m.
Proof. done. Qed.

(** Sliding the window forward to [m] keeps the bits of the counters that stay in it and clears
    the bits of the ones that enter. *)
Lemma bit_of_slide cnt m bt m' :
  length bt = 128%nat -> 0 <= cnt < m -> m < 2 ^ 64 -> in_bitmap m m' ->
  bit_of (clear_words (Z.to_nat (Z.min (block m - block cnt) 128)) (block cnt) bt) m'
  = if block m' <=? block cnt then bit_of bt m' else false.
Proof.
  intros Hl Hc Hm Hin. unfold bit_of.
  assert (0 <= block m' mod 128 < 128) by (apply Z.mod_pos_bound; lia).
  pose proof (block_mono cnt m ltac:(lia)) as Hb.
  assert (0 <= block cnt) by (apply Z.div_pos; lia).
  assert (block m <= m) by (apply Z.div_le_upper_bound; lia).
  destruct Hin as (? & ?).
  destruct (Z.leb_spec (block m') (block cnt)) as [Hle|Hgt].
  - rewrite clear_words_miss; [done|lia|lia|]. intros k Hk.
    rewrite !Z2Nat.id in * by lia. intros E.
    pose proof (Z.div_mod (k + block cnt) 128 ltac:(lia)).
    pose proof (Z.div_mod (block m') 128 ltac:(lia)). lia.
  - (* the entering block, or one 128 below it when the whole bitmap is cleared *)
    set (k := if block m' - block cnt <=? 128 then block m' - block cnt
              else (block m' - block cnt - 1) mod 128 + 1).
    pose proof (Z.mod_pos_bound (block m' - block cnt - 1) 128 ltac:(lia)).
    rewrite (clear_words_hit _ _ _ _ k); [by rewrite Z.bits_0|done|lia|lia|lia| |].
    + rewrite Z2Nat.id by lia. unfold k. destruct (Z.leb_spec (block m' - block cnt) 128); lia.
    + rewrite Z2Nat.id by lia. unfold k. destruct (Z.leb_spec (block m' - block cnt) 128).
      * f_equal. lia.
      * replace ((block m' - block cnt - 1) mod 128 + 1 + block cnt)
          with ((block m' - block cnt - 1) mod 128 + (1 + block cnt)) by lia.
        rewrite Zplus_mod_idemp_l. f_equal. lia.
Qed.

(** ** Simulation *)

Lemma represents_init : represents replay_counter_init Spec.init.
Proof.
  split; try done.
  intros m (Hm & Hb). unfold bit_of, replay_counter_init; cbn [backtrack].
  assert (0 <= block m mod 128 < 128) by (apply Z.mod_pos_bound; lia).
  rewrite lookup_replicate_2 by (change (Z.to_nat BACKTRACK_WORDS) with 128%nat; lia).
  simpl. rewrite Z.bits_0. by rewrite bool_decide_eq_false_2.
Qed.

(** The state after the optional slide still represents the same set. *)
Lemma slide_represents c w m :
  represents c w -> 0 < m <= REJECT_AFTER_MESSAGES ->
  (forall n, n ∈ Spec.seen w -> 0 <= n < Z.max (Spec.top w) m) /\
  let c' := if counter c <? m then
       {| counter := m;
          backtrack := clear_words (Z.to_nat (Z.min (u64 (block m - block (counter c))) BACKTRACK_WORDS))
                         (block (counter c)) (backtrack c) |}
     else c in
  counter c' = Z.max (counter c) m /\ length (backtrack c') = 128%nat /\
  forall m', in_bitmap (counter c') m' ->
    bit_of (backtrack c') m' = bool_decide (m' - 1 ∈ Spec.seen w).
Proof.
  intros [Ht Hr Hl Hs Hb] Hm. split.
  { intros n Hn. specialize (Hs n Hn). lia. }
  assert (REJECT_AFTER_MESSAGES < 2 ^ 64) by done.
  destruct (Z.ltb_spec (counter c) m) as [Hlt|Hge]; cbn [counter backtrack].
  - split; [lia|]. split; [by rewrite clear_words_length|].
    intros m' Hin. pose proof (block_mono (counter c) m ltac:(lia)).
    assert (0 <= block (counter c)) by (apply Z.div_pos; lia).
    assert (block m <= m) by (apply Z.div_le_upper_bound; lia).
    rewrite wrap_small by lia. change BACKTRACK_WORDS with 128.
    rewrite bit_of_slide by (done || lia).
    destruct (Z.leb_spec (block m') (block (counter c))).
    + apply Hb. destruct Hin. split; [done|]. lia.
    + symmetry. apply bool_decide_eq_false_2. intros Hin'. apply Hs in Hin'.
      pose proof (block_mono m' (counter c) ltac:(lia)). lia.
  - split; [lia|]. split; [done|]. done.
Qed.

(** A number that is not too old has a bit in the window. *)
Lemma window_in_bitmap top m : 0 < m -> top <= m + COUNTER_WINDOW_SIZE -> in_bitmap (Z.max top m) m.
Proof.
  intros Hm Hw. assert (HW : COUNTER_WINDOW_SIZE = 8128) by done. split; [lia|]. split; [|apply block_mono; lia]. unfold block.
  assert (Hmx : Z.max top m / 64 <= (m + 127 * 64) / 64) by (apply Z.div_le_mono; lia).
  rewrite Z.div_add in Hmx by lia. lia.
Qed.

Lemma counter_validate_simulation c w n :
  represents c w -> is_u64 n ->
  fst (counter_validate c n) = fst (Spec.validate w n) /\
  represents (snd (counter_validate c n)) (snd (Spec.validate w n)).
Proof.
  intros R Hn. pose proof R as [Ht Hr Hl Hs Hb].
  unfold counter_validate, Spec.validate. rewrite <- Ht.
  destruct ((REJECT_AFTER_MESSAGES + 1 <=? counter c) || (REJECT_AFTER_MESSAGES <=? n)) eqn:E1; [done|].
  bool_to_prop. unfold is_u64 in Hn.
  assert (HR : REJECT_AFTER_MESSAGES + COUNTER_WINDOW_SIZE < 2 ^ 64) by done.
  assert (HW : COUNTER_WINDOW_SIZE = 8128) by done.
  rewrite (wrap_small 64 (n + 1)), (wrap_small 64 (COUNTER_WINDOW_SIZE + (n + 1))) by lia.
  rewrite (Z.add_comm COUNTER_WINDOW_SIZE).
  destruct (Z.ltb_spec (n + 1 + COUNTER_WINDOW_SIZE) (counter c)) as [|Hw]; [done|].
  rewrite !shiftr6, mask_words, mask_bits.
  destruct (slide_represents c w (n + 1) R ltac:(lia)) as (Hs' & Hslide).
  set (c' := if counter c <? n + 1 then _ else c) in *.
  destruct Hslide as (Hc' & Hl' & Hb').
  assert (Hin : in_bitmap (counter c') (n + 1)) by (rewrite Hc'; apply window_in_bitmap; lia).
  destruct (test_and_set_bit _ _ _) as [old bt'] eqn:Et.
  assert (Hold : old = bool_decide (n ∈ Spec.seen w)).
  { change old with (fst (old, bt')). rewrite <- Et, test_and_set_bit_old, Hb' by done.
    by replace (n + 1 - 1) with n by lia. }
  assert (Hbt : forall m', in_bitmap (counter c') m' ->
            bit_of bt' m' = bool_decide (n + 1 = m') || bool_decide (m' - 1 ∈ Spec.seen w)).
  { intros m' Hm'. change bt' with (snd (old, bt')). rewrite <- Et.
    rewrite (bit_of_set (counter c')), Hb' by done. done. }
  assert (Hlen : length bt' = 128%nat).
  { change bt' with (snd (old, bt')). rewrite <- Et. cbn. by rewrite length_insert. }
  rewrite Hold. destruct (bool_decide (n ∈ Spec.seen w)) eqn:Es; cbn [negb fst snd]; split; try done.
  - (* already seen: the counter was not ahead, nothing changes *)
    apply bool_decide_eq_true in Es. pose proof (Hs n Es).
    assert (counter c' = counter c) as Ec by lia.
    split; cbn [counter backtrack]; try done; rewrite ?Ec; try done.
    intros m' Hm'. rewrite Hbt by (by rewrite Ec).
    destruct (decide (n + 1 = m')) as [<-|].
    + rewrite bool_decide_eq_true_2 by done. symmetry. apply bool_decide_eq_true_2.
      by replace (n + 1 - 1) with n by lia.
    + by rewrite bool_decide_eq_false_2.
  - split; cbn [counter backtrack Spec.top Spec.seen]; try done; rewrite ?Hc'; try lia.
    + intros k. rewrite elem_of_union, elem_of_singleton. intros [->|Hk]; [lia|].
      specialize (Hs k Hk). lia.
    + intros m' Hm'. rewrite Hbt by (by rewrite Hc').
      rewrite <- bool_decide_or. apply bool_decide_ext.
      rewrite elem_of_union, elem_of_singleton. split; intros [?|?]; (by right) || (left; lia).
Qed.

(** ** Sequences of packets *)

(** The counters of [ns] that a run of [counter_validate] from [c] accepts, in order. *)
Definition accepted (c : noise_replay_counter) (ns : list Z) : list Z :=
  map fst (List.filter snd (zip ns (fst (validate_all c ns)))).

Definition spec_accepted (w : Spec.window) (ns : list Z) : list Z :=
  map fst (List.filter snd (zip ns (fst (Spec.validate_all w ns)))).

Lemma validate_all_simulation c w ns :
  represents c w -> Forall is_u64 ns ->
  fst (validate_all c ns) = fst (Spec.validate_all w ns) /\
  represents (snd (validate_all c ns)) (snd (Spec.validate_all w ns)).
Proof.
  intros R Hns. revert c w R. induction Hns as [|n ns Hn _ IH]; intros c w R; [done|].
  destruct (counter_validate_simulation c w n R Hn) as [Hb R']. cbn [validate_all Spec.validate_all].
  destruct (counter_validate c n) as [b c'], (Spec.validate w n) as [b' w']; cbn [fst snd] in *.
  destruct (IH c' w' R') as [Hbs R'']. subst b'.
  destruct (validate_all c' ns), (Spec.validate_all w' ns); cbn [fst snd] in *. by subst.
Qed.

Lemma spec_validate_seen w n :
  let '(b, w') := Spec.validate w n in
  if b then (n ∉ Spec.seen w) /\ (Spec.seen w' = {[n]} ∪ Spec.seen w) else Spec.seen w' = Spec.seen w.
Proof.
  unfold Spec.validate. repeat case_if; try done.
  split; [|done]. by eapply bool_decide_eq_false.
Qed.

(** Accepted counters are fresh, pairwise distinct, and recorded. *)
Lemma spec_accepted_fresh w ns :
  NoDup (spec_accepted w ns) /\
  (forall n, n ∈ spec_accepted w ns -> n ∉ Spec.seen w) /\
  (forall n, n ∈ Spec.seen (snd (Spec.validate_all w ns)) <-> n ∈ Spec.seen w \/ n ∈ spec_accepted w ns).
Proof.
  revert w. induction ns as [|n ns IH]; intros w.
  - split; [constructor|]. split; [intros n; by rewrite elem_of_nil|].
    intros n. cbn. rewrite elem_of_nil. tauto.
  - pose proof (spec_validate_seen w n) as Hv. unfold spec_accepted in *.
    cbn [Spec.validate_all]. destruct (Spec.validate w n) as [b w'].
    destruct (IH w') as (Hnd & Hf & Hs). destruct (Spec.validate_all w' ns) as [bs w'']; cbn [fst snd] in *.
    cbn [zip zip_with]. destruct b; cbn [List.filter map fst snd].
    + destruct Hv as [Hn Hw']. rewrite Hw' in *. split; [|split].
      * constructor; [|done]. intros Hin. apply Hf in Hin. set_solver.
      * set_solver.
      * intros k. rewrite Hs. set_solver.
    + rewrite Hv in *. done.
Qed.

Lemma accepted_window c w ns :
  represents c w -> Forall is_u64 ns -> accepted c ns = spec_accepted w ns.
Proof. intros R H. unfold accepted, spec_accepted. by destruct (validate_all_simulation c w ns R H) as [-> _]. Qed.

(** What the sliding window promises about the next counter after a history [ns]. *)
Definition acceptable (ns : list Z) (n : Z) : Prop :=
  let acc := accepted replay_counter_init ns in
  (n < REJECT_AFTER_MESSAGES) /\ (n ∉ acc) /\
  forall m, m ∈ acc -> m < REJECT_AFTER_MESSAGES /\ m <= n + COUNTER_WINDOW_SIZE.

Lemma spec_top w ns :
  (forall n, n ∈ Spec.seen w -> n < Spec.top w) -> (0 < Spec.top w -> Spec.top w - 1 ∈ Spec.seen w) ->
  0 <= Spec.top w -> Forall is_u64 ns ->
  let w' := snd (Spec.validate_all w ns) in
  0 <= Spec.top w' /\ (forall n, n ∈ Spec.seen w' -> n < Spec.top w') /\
  (0 < Spec.top w' -> Spec.top w' - 1 ∈ Spec.seen w').
Proof.
  intros H1 H2 H3 Hns. revert w H1 H2 H3. induction Hns as [|n ns Hn _ IH]; intros w H1 H2 H3; [done|].
  cbn [Spec.validate_all]. destruct (Spec.validate w n) as [b w1] eqn:E.
  assert (Hw1 : (forall k, k ∈ Spec.seen w1 -> k < Spec.top w1) /\
          (0 < Spec.top w1 -> Spec.top w1 - 1 ∈ Spec.seen w1) /\ 0 <= Spec.top w1).
  { unfold Spec.validate in E. unfold is_u64 in Hn. repeat case_if; simplify_eq; cbn; try done.
    split; [|split; [|lia]].
    - intros k. rewrite elem_of_union, elem_of_singleton. intros [->|Hk]; [lia|].
      specialize (H1 k Hk). lia.
    - intros _. destruct (Z.max_spec (Spec.top w) (n + 1)) as [[? ->]|[? ->]].
      + apply elem_of_union_l, elem_of_singleton. lia.
      + apply elem_of_union_r, H2. lia. }
  destruct Hw1 as (A & B & C). specialize (IH w1 A B C).
  by destruct (Spec.validate_all w1 ns).
Qed.

Lemma next_validate ns n :
  Forall is_u64 ns -> is_u64 n ->
  fst (counter_validate (snd (validate_all replay_counter_init ns)) n) = true <-> acceptable ns n.
Proof.
  intros Hns Hn. destruct (validate_all_simulation _ _ ns represents_init Hns) as [_ R].
  destruct (counter_validate_simulation _ _ n R Hn) as [-> _].
  unfold acceptable. rewrite (accepted_window _ _ ns represents_init Hns).
  destruct (spec_accepted_fresh Spec.init ns) as (_ & _ & Hs).
  destruct (spec_top Spec.init ns ltac:(set_solver) ltac:(cbn; lia) ltac:(done) Hns) as (T0 & T1 & T2).
  set (w := snd (Spec.validate_all Spec.init ns)) in *.
  assert (Hseen : forall k, k ∈ Spec.seen w <-> k ∈ spec_accepted Spec.init ns) by set_solver.
  unfold Spec.validate. unfold is_u64 in Hn.
  assert (HR : 0 < REJECT_AFTER_MESSAGES) by done. assert (HW : 0 < COUNTER_WINDOW_SIZE) by done.
  split.
  - intros Hacc. repeat case_if; try done. bool_to_prop.
    apply bool_decide_eq_false in Heqb1. rewrite <- Hseen. split; [lia|]. split; [done|].
    intros m Hm. rewrite <- Hseen in Hm. apply T1 in Hm. lia.
  - intros (Hlt & Hnin & Hm). rewrite <- Hseen in Hnin.
    assert (Htop : Spec.top w <= REJECT_AFTER_MESSAGES /\ Spec.top w <= n + 1 + COUNTER_WINDOW_SIZE).
    { destruct (Z.eq_dec (Spec.top w) 0); [lia|].
      specialize (Hm (Spec.top w - 1)). rewrite <- Hseen in Hm. specialize (Hm (T2 ltac:(lia))). lia. }
    rewrite (proj2 (Z.leb_gt _ _)) by lia. rewrite (proj2 (Z.leb_gt _ _)) by lia. cbn [orb].
    rewrite (proj2 (Z.ltb_ge _ _)) by lia. by rewrite bool_decide_eq_false_2.
Qed.

(** ** The unit test *)

(** The same tests on the abstract window. *)
Fixpoint spec_run (w : Spec.window) (ts : list (Z * bool)) : bool :=
  match ts with
  | [] => true
  | (n, v) :: ts => let '(b, w) := Spec.validate w n in eqb b v && spec_run w ts
  end.

Lemma run_tests_spec c w ts :
  represents c w -> Forall is_u64 (map fst ts) -> run_tests c ts = spec_run w ts.
Proof.
  intros R H. revert c w R. induction ts as [|[n v] ts IH]; intros c w R; [done|].
  cbn [map fst] in H. apply Forall_cons in H as [Hn H].
  destruct (counter_validate_simulation c w n R Hn) as [Hb R']. cbn [run_tests spec_run].
  destruct (counter_validate c n), (Spec.validate w n); cbn [fst snd] in *. subst. by rewrite (IH H _ _ R').
Qed.

(** Distinct new counters that stay within one window are all accepted. *)
Lemma spec_run_fresh lo hi ns rest w :
  NoDup ns -> (forall n, n ∈ ns -> lo <= n < hi /\ n ∉ Spec.seen w) ->
  Z.max (Spec.top w) hi <= lo + 1 + COUNTER_WINDOW_SIZE -> Spec.top w <= REJECT_AFTER_MESSAGES -> hi <= REJECT_AFTER_MESSAGES ->
  spec_run w (all_true ns ++ rest) =
  spec_run {| Spec.top := foldl (fun t n => Z.max t (n + 1)) (Spec.top w) ns; Spec.seen := foldl (fun s n => {[n]} ∪ s) (Spec.seen w) ns |} rest.
Proof.
  intros Hnd. revert w. induction Hnd as [|n ns Hn Hnd IH]; intros w Hin Hwin Htop Hhi; [by destruct w|].
  destruct (Hin n ltac:(left)) as [Hr Hs]. cbn [all_true map app spec_run foldl]. unfold Spec.validate.
  rewrite (proj2 (Z.leb_gt _ _)), (proj2 (Z.leb_gt _ _)), (proj2 (Z.ltb_ge _ _)) by lia. cbn [orb].
  rewrite bool_decide_eq_false_2 by done. cbn [eqb andb]. fold (all_true ns). rewrite IH; [done|..]; cbn [Spec.top Spec.seen]; try lia.
  intros k Hk. destruct (Hin k ltac:(by right)) as [? ?]. split; [done|].
  rewrite elem_of_union, elem_of_singleton. intros [->|?]; done.
Qed.

Lemma foldl_seen ns (s : gset Z) k : k ∈ foldl (fun s n => {[n]} ∪ s) s ns <-> k ∈ ns \/ k ∈ s.
Proof.
  revert s. induction ns as [|n ns IH]; intros s; cbn [foldl]; [by rewrite elem_of_nil; tauto|].
  rewrite IH, elem_of_union, elem_of_singleton, elem_of_cons. tauto.
Qed.

Lemma foldl_top hi ns t :
  (forall n, n ∈ ns -> n < hi) -> hi - 1 ∈ ns -> t <= hi -> foldl (fun t n => Z.max t (n + 1)) t ns = hi.
Proof.
  assert (G : forall ns t, t <= hi -> (forall n, n ∈ ns -> n < hi) -> (t = hi \/ hi - 1 ∈ ns) ->
            foldl (fun t n => Z.max t (n + 1)) t ns = hi).
  { clear. induction ns as [|n ns IH]; intros t Ht Hn [->|Hin]; try done.
    - by apply elem_of_nil in Hin.
    - cbn [foldl]. pose proof (Hn n ltac:(left)). apply IH; [lia|intros; apply Hn; by right|left; lia].
    - cbn [foldl]. pose proof (Hn n ltac:(left)). apply IH; [lia|intros; apply Hn; by right|].
      apply elem_of_cons in Hin as [<-|Hin]; [left; lia|by right]. }
  intros Hn Hin Ht. apply G; auto.
Qed.

Lemma elem_of_zseq a n k : 0 <= n -> k ∈ zseq a n <-> a <= k < a + n.
Proof.
  intros Hn. unfold zseq. rewrite list_elem_of_In, in_map_iff. split.
  - intros (i & <- & Hi). apply in_seq in Hi. lia.
  - intros H. exists (Z.to_nat (k - a)). split; [lia|]. apply in_seq. lia.
Qed.

Lemma zseq_nodup a n : NoDup (zseq a n).
Proof. unfold zseq. apply NoDup_fmap_2; [intros i j; lia|]. apply NoDup_seq. Qed.

Lemma zseq_rev_nodup a n : NoDup (rev (zseq a n)).
Proof. apply NoDup_ListNoDup, NoDup_rev, NoDup_ListNoDup, zseq_nodup. Qed.

Lemma elem_of_zseq_rev a n k : 0 <= n -> k ∈ rev (zseq a n) <-> a <= k < a + n.
Proof. intros H. by rewrite list_elem_of_In, <- in_rev, <- list_elem_of_In, elem_of_zseq. Qed.

(** A test loop over [lo..hi-1], in either order, and the lines after it. *)
Lemma selftest_run lo hi ns rest :
  NoDup ns -> (forall n, n ∈ ns <-> lo <= n < hi) -> 0 <= lo < hi -> hi <= lo + 1 + COUNTER_WINDOW_SIZE ->
  hi <= REJECT_AFTER_MESSAGES -> Forall is_u64 (map fst rest) ->
  (forall s : gset Z, (forall n, n ∈ s <-> lo <= n < hi) -> spec_run {| Spec.top := hi; Spec.seen := s |} rest = true) ->
  run_tests replay_counter_init (all_true ns ++ rest) = true.
Proof.
  intros Hnd Hin Hlo Hwin Hhi Hrest Hafter. rewrite (run_tests_spec _ Spec.init); [|apply represents_init|].
  - rewrite (spec_run_fresh lo hi) by (cbn; first [done | lia | set_solver]).
    rewrite (foldl_top hi) by (cbn; first [lia | intros n ?%Hin; lia | apply Hin; lia]). apply Hafter.
    intros n. rewrite foldl_seen, Hin. set_solver.
  - rewrite map_app. apply Forall_app; split; [|done]. unfold all_true. rewrite map_map, map_id. apply Forall_forall.
    intros n ?%Hin. unfold is_u64, REJECT_AFTER_MESSAGES in *. lia.
Qed.

Lemma selftest_loop lo hi ns :
  NoDup ns -> (forall n, n ∈ ns <-> lo <= n < hi) -> 0 <= lo < hi -> hi <= lo + 1 + COUNTER_WINDOW_SIZE ->
  hi <= REJECT_AFTER_MESSAGES -> run_tests replay_counter_init (all_true ns) = true.
Proof. intros. rewrite <- (app_nil_r (all_true ns)). by apply (selftest_run lo hi). Qed.

(** The loop covers its range once. *)
Ltac run_loop :=
  first
    [ apply zseq_rev_nodup
    | apply zseq_nodup
    | intros n; rewrite ?elem_of_zseq_rev, ?elem_of_zseq by done; lia
    | done
    | repeat constructor; unfold is_u64; by vm_compute
    | lia
    | done ].

(** The lines after a loop. *)
Lemma spec_run_yes w n ts :
  Spec.top w <= REJECT_AFTER_MESSAGES -> n < REJECT_AFTER_MESSAGES -> Spec.top w <= n + 1 + COUNTER_WINDOW_SIZE ->
  (n ∉ Spec.seen w) ->
  spec_run {| Spec.top := Z.max (Spec.top w) (n + 1); Spec.seen := {[n]} ∪ Spec.seen w |} ts = true ->
  spec_run w ((n, true) :: ts) = true.
Proof.
  intros H1 H2 H3 H4 H. cbn [spec_run]. unfold Spec.validate.
  rewrite (proj2 (Z.leb_gt _ _)), (proj2 (Z.leb_gt _ _)), (proj2 (Z.ltb_ge _ _)) by lia. cbn [orb].
  by rewrite bool_decide_eq_false_2.
Qed.

Lemma spec_run_no w n ts :
  n + 1 + COUNTER_WINDOW_SIZE < Spec.top w \/ n ∈ Spec.seen w -> spec_run w ts = true -> spec_run w ((n, false) :: ts) = true.
Proof.
  intros H1 H. cbn [spec_run]. unfold Spec.validate. case_if; [done|]. case_if; [done|].
  destruct H1 as [H1|H1]; [bool_to_prop; lia|]. by rewrite bool_decide_eq_true_2.
Qed.

Ltac run_lines :=
  let s := fresh in let Hs := fresh in
  intros s Hs;
  repeat first
    [ apply spec_run_yes; cbn [Spec.top Spec.seen]; [done|done|done|rewrite ?elem_of_union, ?elem_of_singleton, Hs; change COUNTER_WINDOW_SIZE with 8128; lia|]
    | apply spec_run_no; cbn [Spec.top Spec.seen];
      [first [left; done | right; rewrite ?elem_of_union, ?elem_of_singleton, ?Hs; auto; done] |]
    | reflexivity ].

(** ** Properties *)

(** C14: the bitmap window refines the abstract window (a set of accepted counters and its maximum):
    from related states, [counter_validate] gives the verdict of the specification and leaves
    related states, for every 64-bit counter. *)
Theorem counter_validate_refines_window c w n :
  represents c w -> is_u64 n ->
  fst (counter_validate c n) = fst (Spec.validate w n) /\
  represents (snd (counter_validate c n)) (snd (Spec.validate w n)).
Proof. apply counter_validate_simulation. Qed.

Lemma counter_validate_refines_window_witness :
  fst (counter_validate replay_counter_init 7) = true /\
  represents (snd (counter_validate replay_counter_init 7)) (snd (Spec.validate Spec.init 7)).
Proof.
  destruct (counter_validate_refines_window replay_counter_init Spec.init 7 represents_init) as [H R].
  - unfold is_u64. lia.
  - split; [|exact R]. vm_compute. reflexivity.
Defined.

(** C1: replay protection: whatever sequence of 64-bit counters a keypair receives, no counter is
    accepted twice. *)
Theorem no_counter_accepted_twice ns :
  Forall is_u64 ns -> NoDup (accepted replay_counter_init ns).
Proof.
  intros H. rewrite (accepted_window _ _ ns represents_init H). apply spec_accepted_fresh.
Qed.

Lemma no_counter_accepted_twice_witness :
  accepted replay_counter_init [5; 5; 3; 9000; 3; 9000] = [5; 3; 9000] /\
  NoDup (accepted replay_counter_init [5; 5; 3; 9000; 3; 9000]).
Proof.
  split; [vm_compute; reflexivity|]. apply no_counter_accepted_twice.
  repeat constructor; unfold is_u64; lia.
Defined.

(** C40: after any history, the next counter is accepted exactly when it is below
    REJECT_AFTER_MESSAGES, was not accepted before, and is at most COUNTER_WINDOW_SIZE behind
    every accepted one: reordering within the window loses no packet. *)
Theorem counter_accepted_iff_fresh_in_window ns n :
  Forall is_u64 ns -> is_u64 n ->
  fst (counter_validate (snd (validate_all replay_counter_init ns)) n) = true <-> acceptable ns n.
Proof. apply next_validate. Qed.

Lemma counter_accepted_iff_fresh_in_window_witness :
  fst (counter_validate (snd (validate_all replay_counter_init [8200; 8199])) 100) = true.
Proof.
  apply (counter_accepted_iff_fresh_in_window [8200; 8199] 100).
  - repeat constructor; unfold is_u64; lia.
  - unfold is_u64. lia.
  - unfold acceptable.
    replace (accepted replay_counter_init [8200; 8199]) with [8200; 8199] by (vm_compute; reflexivity).
    split; [done|]. split.
    + rewrite !elem_of_cons, elem_of_nil. lia.
    + intros m. rewrite !elem_of_cons, elem_of_nil.
      intros [->|[->|[]]]; split; by vm_compute.
Defined.

(** The unit test of selftest/counter.c passes on the modelled [counter_validate]. *)
Theorem counter_selftest_passes : wg_packet_counter_selftest = true.
Proof.
  apply forallb_forall, List.Forall_forall. unfold counter_selftest_cases. cbv zeta.
  repeat match goal with |- List.Forall _ (_ :: _) => apply List.Forall_cons end; [..|apply List.Forall_nil].
  - vm_compute. reflexivity.
  - apply (selftest_run 1 (COUNTER_WINDOW_SIZE + 1)); [run_loop..|]. run_lines.
  - apply (selftest_run 2 (COUNTER_WINDOW_SIZE + 2)); [run_loop..|]. run_lines.
  - apply (selftest_loop 0 (COUNTER_WINDOW_SIZE + 1)); run_loop.
  - apply (selftest_run 1 (COUNTER_WINDOW_SIZE + 2)); [run_loop..|]. run_lines.
  - apply (selftest_run 1 (COUNTER_WINDOW_SIZE + 1)); [run_loop..|]. run_lines.
  - apply (selftest_run 1 (COUNTER_WINDOW_SIZE + 1)); [run_loop..|]. run_lines.
Qed.
