(* ===== verification/Skb.v ===== *)
(** * Skb: the part of [struct sk_buff] the program reads

    A packet buffer is seen through the accessors the code uses: the protocol the network stack
    recorded, the addresses of its IP header, the UDP source port, the interface it came in on, and
    the bytes from [skb->data] on ([skb->len] is their number). Addresses and ports are kept as the
    big-endian bytes of the headers. *)

From S2P Require Import Prelude.

Definition ETH_P_IP : Z := 0x0800.
Definition ETH_P_IPV6 : Z := 0x86DD.
Definition AF_INET : Z := 2.
Definition AF_INET6 : Z := 10.

Record sk_buff := {
  protocol : Z;      (** [skb->protocol], in host order *)
  saddr : bytes;     (** [ip_hdr(skb)->saddr] (4 bytes) or [ipv6_hdr(skb)->saddr] (16 bytes) *)
  daddr : bytes;
  udp_source : bytes; (** [udp_hdr(skb)->source] *)
  skb_iif : Z;
  data : bytes
}.

Definition skb_len (skb : sk_buff) : nat := length (data skb).

(** Error numbers. *)
Definition EPERM : Z := 1.
Definition ENOMEM : Z := 12.
Definition EBUSY : Z := 16.
Definition ENODEV : Z := 19.
Definition EINVAL : Z := 22.
Definition ENOSPC : Z := 28.
Definition EPIPE : Z := 32.
Definition ENONET : Z := 64.
Definition EBADR : Z := 53.
Definition EMSGSIZE : Z := 90.
Definition EPROTONOSUPPORT : Z := 93.
Definition EOPNOTSUPP : Z := 95.
Definition EPFNOSUPPORT : Z := 96.
Definition EAFNOSUPPORT : Z := 97.
Definition EADDRINUSE : Z := 98.
Definition EDESTADDRREQ : Z := 89.
Definition ENOKEY : Z := 126.
