(* ===== verification/AllowedIps.v ===== *)
(** * AllowedIps: the cryptokey-routing trie of allowedips.c

    The two tries (IPv4 and IPv6) live in one heap of nodes. A node is reached through a slot: one
    of the two root pointers of the table or one of the two child pointers of a node; the packed
    back pointer [parent_bit_packed] is the slot together with its two low tag bits (0 or 1: which
    child, 2: a root). An allocation is an argument that gives the address the slab returned, or
    [None] when it failed. A function returns [None] when it would dereference a pointer that is
    not in the heap, overrun the traversal stack, or run out of the fuel of a loop; the theorems
    show that this does not happen. *)

From S2P Require Import Prelude Skb.

Abbreviation nid := positive.
Abbreviation peer_id := positive.

Definition MAX_ALLOWEDIPS_DEPTH : nat := 129.

(** The address of a node pointer. *)
Inductive slot := Null | Root4 | Root6 | Bit (n : nid) (b : bool).

Record allowedips_node := {
  peer : option peer_id;
  bit0 : option nid;
  bit1 : option nid;
  cidr : Z;
  bit_at_a : Z;
  bit_at_b : Z;
  bitlen : Z;
  bits : bytes;
  parent_bit_packed : slot * Z
}.

Inductive rcu_callback := node_free (n : nid) | root_free (n : nid).

(** struct allowedips with the memory it manages: the node slab, every peer's [allowedips_list],
    and the callbacks that wait for a grace period. *)
Record allowedips := {
  root4 : option nid;
  root6 : option nid;
  seq : Z;
  nodes : gmap nid allowedips_node;
  peer_lists : gmap peer_id (list nid);
  rcu : list rcu_callback
}.

(** ** Field updates *)

Definition set_nodes (f : gmap nid allowedips_node -> gmap nid allowedips_node) (t : allowedips) :=
  {| root4 := root4 t; root6 := root6 t; seq := seq t; nodes := f (nodes t);
     peer_lists := peer_lists t; rcu := rcu t |}.
Definition set_peer_lists (f : gmap peer_id (list nid) -> gmap peer_id (list nid)) (t : allowedips) :=
  {| root4 := root4 t; root6 := root6 t; seq := seq t; nodes := nodes t;
     peer_lists := f (peer_lists t); rcu := rcu t |}.
Definition inc_seq (t : allowedips) :=
  {| root4 := root4 t; root6 := root6 t; seq := u64 (seq t + 1); nodes := nodes t;
     peer_lists := peer_lists t; rcu := rcu t |}.
Definition call_rcu (cb : rcu_callback) (t : allowedips) :=
  {| root4 := root4 t; root6 := root6 t; seq := seq t; nodes := nodes t;
     peer_lists := peer_lists t; rcu := rcu t ++ [cb] |}.

Definition set_peer (p : option peer_id) (n : allowedips_node) :=
  {| peer := p; bit0 := bit0 n; bit1 := bit1 n; cidr := cidr n; bit_at_a := bit_at_a n;
     bit_at_b := bit_at_b n; bitlen := bitlen n; bits := bits n;
     parent_bit_packed := parent_bit_packed n |}.
Definition set_parent (pbp : slot * Z) (n : allowedips_node) :=
  {| peer := peer n; bit0 := bit0 n; bit1 := bit1 n; cidr := cidr n; bit_at_a := bit_at_a n;
     bit_at_b := bit_at_b n; bitlen := bitlen n; bits := bits n; parent_bit_packed := pbp |}.
Definition set_bit (b : bool) (c : option nid) (n : allowedips_node) :=
  {| peer := peer n; bit0 := if b then bit0 n else c; bit1 := if b then c else bit1 n;
     cidr := cidr n; bit_at_a := bit_at_a n; bit_at_b := bit_at_b n; bitlen := bitlen n;
     bits := bits n; parent_bit_packed := parent_bit_packed n |}.

Definition get_bit (n : allowedips_node) (b : bool) : option nid := if b then bit1 n else bit0 n.

(** Reading and writing through a slot. *)
Definition read_slot (t : allowedips) (s : slot) : option nid :=
  match s with
  | Null => None
  | Root4 => root4 t
  | Root6 => root6 t
  | Bit n b => match nodes t !! n with Some nd => get_bit nd b | None => None end
  end.

Definition write_slot (s : slot) (v : option nid) (t : allowedips) : allowedips :=
  match s with
  | Null => t
  | Root4 => {| root4 := v; root6 := root6 t; seq := seq t; nodes := nodes t;
                peer_lists := peer_lists t; rcu := rcu t |}
  | Root6 => {| root4 := root4 t; root6 := v; seq := seq t; nodes := nodes t;
                peer_lists := peer_lists t; rcu := rcu t |}
  | Bit n b => set_nodes (alter (set_bit b v) n) t
  end.

(** Peer lists: [list_add_tail] and [list_del] (a node is on at most one list). *)
Definition list_add_tail (n : nid) (p : peer_id) : allowedips -> allowedips :=
  set_peer_lists (fun l => <[p := default [] (l !! p) ++ [n]]> l).
Definition list_del (n : nid) : allowedips -> allowedips :=
  set_peer_lists (fmap (List.filter (fun m => negb (bool_decide (m = n))))).
Definition list_move_tail (n : nid) (p : peer_id) (t : allowedips) : allowedips :=
  list_add_tail n p (list_del n t).

(** ** Keys and prefixes *)

Definition swap_endian (src : bytes) (bits : Z) : bytes :=
  if bits =? 32 then le_bytes 4 (be_val (take 4 src))
  else if bits =? 128 then
    le_bytes 8 (be_val (take 8 src)) ++ le_bytes 8 (be_val (take 8 (drop 8 src)))
  else [].

(** [kmem_cache_zalloc]: a node of zeros. *)
Definition zero_node : allowedips_node :=
  {| peer := None; bit0 := None; bit1 := None; cidr := 0; bit_at_a := 0; bit_at_b := 0;
     bitlen := 0; bits := zeroes 16; parent_bit_packed := (Null, 0) |}.

(** On a little-endian machine. *)
Definition copy_and_assign_cidr (node : allowedips_node) (src : bytes) (cidr bits : Z)
  : allowedips_node :=
  {| peer := peer node; bit0 := bit0 node; bit1 := bit1 node;
     cidr := cidr;
     bit_at_a := Z.lxor (cidr / 8) ((bits / 8 - 1) mod 8);
     bit_at_b := 7 - cidr mod 8;
     bitlen := bits;
     bits := take (Z.to_nat (bits / 8)) src ++ drop (Z.to_nat (bits / 8)) (AllowedIps.bits node);
     parent_bit_packed := parent_bit_packed node |}.

Definition choose (node : allowedips_node) (key : bytes) : bool :=
  Z.land (Z.shiftr (default 0 (key !! Z.to_nat (bit_at_a node))) (bit_at_b node)) 1 =? 1.

Definition fls128 (a b : Z) : Z := if a =? 0 then fls b else fls a + 64.

(** The loads [*(const u32 * )p], [*(const u64 * )&p[off]]. *)
Definition load32 (p : bytes) : Z := le_val (take 4 p).
Definition load64 (p : bytes) (off : nat) : Z := le_val (take 8 (drop off p)).

Definition common_bits (node : allowedips_node) (key : bytes) (bits : Z) : Z :=
  if bits =? 32 then 32 - fls (Z.lxor (load32 (AllowedIps.bits node)) (load32 key))
  else if bits =? 128 then
    128 - fls128 (Z.lxor (load64 (AllowedIps.bits node) 0) (load64 key 0))
                 (Z.lxor (load64 (AllowedIps.bits node) 8) (load64 key 8))
  else 0.

Definition prefix_matches (node : allowedips_node) (key : bytes) (bits : Z) : bool :=
  cidr node <=? common_bits node key bits.

(** ** Lookup *)

(** The [while] loop of [find_node]. *)
Fixpoint find_node_loop (fuel : nat) (h : gmap nid allowedips_node) (node : option nid)
    (bits : Z) (key : bytes) (found : option nid) : option (option nid) :=
  match node with
  | None => Some found
  | Some n =>
      match fuel with
      | O => None
      | S fuel =>
          nd ← h !! n;
          if prefix_matches nd key bits then
            let found := match peer nd with Some _ => Some n | None => found end in
            if cidr nd =? bits then Some found
            else find_node_loop fuel h (get_bit nd (choose nd key)) bits key found
          else Some found
      end
  end.

(** A path has at most [bits + 1] nodes, since the prefix length grows along it. *)
Definition path_fuel (bits : Z) : nat := S (Z.to_nat bits).

Definition find_node (h : gmap nid allowedips_node) (trie : option nid) (bits : Z) (key : bytes)
  : option (option nid) :=
  find_node_loop (path_fuel bits) h trie bits key None.

(** [lookup]: [get_maybe_zero p] tells whether [wg_peer_get_maybe_zero] could take a reference on
    [p]; when it could not, the search starts over, here at most [retries] times. *)
Fixpoint lookup_retry (retries : nat) (get_maybe_zero : peer_id -> bool) (t : allowedips)
    (root : slot) (bits : Z) (ip : bytes) : option (option peer_id) :=
  node ← find_node (nodes t) (read_slot t root) bits ip;
  match node with
  | None => Some None
  | Some n =>
      nd ← nodes t !! n;
      match peer nd with
      | Some p =>
          if get_maybe_zero p then Some (Some p)
          else match retries with
               | O => None
               | S r => lookup_retry r get_maybe_zero t root bits ip
               end
      | None => None
      end
  end.

Definition lookup (retries : nat) (get_maybe_zero : peer_id -> bool) (t : allowedips)
    (root : slot) (bits : Z) (be_ip : bytes) : option (option peer_id) :=
  lookup_retry retries get_maybe_zero t root bits (swap_endian be_ip bits).

(** ** Insertion *)

(** The [while] loop of [node_placement]: the pair of [exact] and [*rnode]. *)
Fixpoint node_placement_loop (fuel : nat) (h : gmap nid allowedips_node) (node : option nid)
    (key : bytes) (cidr bits : Z) (parent : option nid) : option (bool * option nid) :=
  match node with
  | None => Some (false, parent)
  | Some n =>
      match fuel with
      | O => None
      | S fuel =>
          nd ← h !! n;
          if (AllowedIps.cidr nd <=? cidr) && prefix_matches nd key bits then
            if AllowedIps.cidr nd =? cidr then Some (true, Some n)
            else node_placement_loop fuel h (get_bit nd (choose nd key)) key cidr bits (Some n)
          else Some (false, parent)
      end
  end.

Definition node_placement (h : gmap nid allowedips_node) (trie : option nid) (key : bytes)
    (cidr bits : Z) : option (bool * option nid) :=
  node_placement_loop (path_fuel bits) h trie key cidr bits None.

Definition connect_node (parent : slot) (bit : Z) (node : nid) (t : allowedips) : allowedips :=
  write_slot parent (Some node) (set_nodes (alter (set_parent (parent, bit)) node) t).

Definition choose_and_connect_node (parent node : nid) (t : allowedips) : option allowedips :=
  pnd ← nodes t !! parent;
  nd ← nodes t !! node;
  let bit := choose pnd (bits nd) in
  Some (connect_node (Bit parent bit) (Z.b2z bit) node t).

(** [parent ? choose_and_connect_node(parent, node) : connect_node(trie, 2, node)] *)
Definition connect_below (parent : option nid) (trie : slot) (node : nid) (t : allowedips)
  : option allowedips :=
  match parent with
  | None => Some (connect_node trie 2 node t)
  | Some p => choose_and_connect_node p node t
  end.

(** [add]: [mem1] and [mem2] are what the (at most two) allocations return. *)
Definition add (trie : slot) (bits : Z) (key : bytes) (cidr : Z) (peer : option peer_id)
    (mem1 mem2 : option nid) (t : allowedips) : option (Z * allowedips) :=
  match (if bits <? cidr then None else peer) with
  | None => Some (- EINVAL, t)
  | Some p =>
      match read_slot t trie with
      | None =>
          match mem1 with
          | None => Some (- ENOMEM, t)
          | Some node =>
              let nd := copy_and_assign_cidr (set_peer (Some p) zero_node) key cidr bits in
              let t := list_add_tail node p (set_nodes (insert node nd) t) in
              Some (0, connect_node trie 2 node t)
          end
      | Some root =>
          '(exact, node) ← node_placement (nodes t) (Some root) key cidr bits;
          match exact, node with
          | true, None => None
          | true, Some n =>
              Some (0, list_move_tail n p (set_nodes (alter (set_peer (Some p)) n) t))
          | false, _ =>
              match mem1 with
              | None => Some (- ENOMEM, t)
              | Some newnode =>
                  let nd := copy_and_assign_cidr (set_peer (Some p) zero_node) key cidr bits in
                  let t1 := list_add_tail newnode p (set_nodes (insert newnode nd) t) in
                  '(parent_slot, down) ←
                     match node with
                     | None => Some (trie, Some root)
                     | Some n =>
                         pnd ← nodes t1 !! n;
                         let bit := choose pnd key in Some (Bit n bit, get_bit pnd bit)
                     end;
                  match down with
                  | None =>
                      match parent_slot with
                      | Bit n bit => Some (0, connect_node (Bit n bit) (Z.b2z bit) newnode t1)
                      | _ => None
                      end
                  | Some d =>
                      dnd ← nodes t1 !! d;
                      let cidr' := Z.min cidr (common_bits dnd key bits) in
                      if cidr =? cidr' then
                        t2 ← choose_and_connect_node newnode d t1;
                        t3 ← connect_below node trie newnode t2;
                        Some (0, t3)
                      else
                        match mem2 with
                        | None =>
                            Some (- ENOMEM, set_nodes (delete newnode) (list_del newnode t1))
                        | Some mid =>
                            let mnd := copy_and_assign_cidr zero_node (AllowedIps.bits nd) cidr' bits in
                            let t2 := set_nodes (insert mid mnd) t1 in
                            t3 ← choose_and_connect_node mid d t2;
                            t4 ← choose_and_connect_node mid newnode t3;
                            t5 ← connect_below node trie mid t4;
                            Some (0, t5)
                        end
                  end
              end
          end
      end
  end.

Definition wg_allowedips_init (t : allowedips) : allowedips :=
  {| root4 := None; root6 := None; seq := 1; nodes := nodes t; peer_lists := peer_lists t;
     rcu := rcu t |}.

Definition wg_allowedips_insert_v4 (ip : bytes) (cidr : Z) (peer : option peer_id)
    (mem1 mem2 : option nid) (t : allowedips) : option (Z * allowedips) :=
  add Root4 32 (swap_endian ip 32) cidr peer mem1 mem2 (inc_seq t).

Definition wg_allowedips_insert_v6 (ip : bytes) (cidr : Z) (peer : option peer_id)
    (mem1 mem2 : option nid) (t : allowedips) : option (Z * allowedips) :=
  add Root6 128 (swap_endian ip 128) cidr peer mem1 mem2 (inc_seq t).

(** ** Removal *)

(** One iteration of the loop of [wg_allowedips_remove_by_peer]. *)
Definition remove_node (n : nid) (t : allowedips) : option allowedips :=
  let t := set_nodes (alter (set_peer None) n) (list_del n t) in
  node ← nodes t !! n;
  match bit0 node, bit1 node with
  | Some _, Some _ => Some t
  | _, _ =>
      let child := get_bit node (match bit0 node with None => true | Some _ => false end) in
      let t := match child with
               | Some c => set_nodes (alter (set_parent (parent_bit_packed node)) c) t
               | None => t
               end in
      let parent_bit := fst (parent_bit_packed node) in
      let tag := snd (parent_bit_packed node) in
      let t := write_slot parent_bit child t in
      match bit0 node, bit1 node, parent_bit with
      | None, None, Bit p pb =>
          parent ← nodes t !! p;
          if (tag <=? 1) && match peer parent with None => true | Some _ => false end then
            let child := get_bit parent (negb (Z.land tag 1 =? 1)) in
            let t := call_rcu (node_free n) t in
            let t := match child with
                     | Some c => set_nodes (alter (set_parent (parent_bit_packed parent)) c) t
                     | None => t
                     end in
            let t := write_slot (fst (parent_bit_packed parent)) child t in
            Some (call_rcu (node_free p) t)
          else Some (call_rcu (node_free n) t)
      | _, _, Null => None
      | _, _, _ => Some (call_rcu (node_free n) t)
      end
  end.

Fixpoint remove_nodes (ns : list nid) (t : allowedips) : option allowedips :=
  match ns with
  | [] => Some t
  | n :: ns => t ← remove_node n t; remove_nodes ns t
  end.

Definition wg_allowedips_remove_by_peer (p : peer_id) (t : allowedips) : option allowedips :=
  match default [] (peer_lists t !! p) with
  | [] => Some t
  | ns => remove_nodes ns (inc_seq t)
  end.

(** ** Traversals with an explicit stack *)

(** [push_rcu], in a build without DEBUG: a full stack would be overrun, which is [None]. *)
Definition push_rcu (stack : list nid) (p : option nid) : option (list nid) :=
  match p with
  | None => Some stack
  | Some n => if (length stack <? MAX_ALLOWEDIPS_DEPTH)%nat then Some (n :: stack) else None
  end.

Fixpoint root_remove_peer_lists_loop (fuel : nat) (stack : list nid) (t : allowedips)
  : option allowedips :=
  match stack with
  | [] => Some t
  | n :: stack =>
      match fuel with
      | O => None
      | S fuel =>
          node ← nodes t !! n;
          stack ← push_rcu stack (bit0 node);
          stack ← push_rcu stack (bit1 node);
          root_remove_peer_lists_loop fuel stack
            (match peer node with Some _ => list_del n t | None => t end)
      end
  end.

Definition root_remove_peer_lists (root : nid) (t : allowedips) : option allowedips :=
  root_remove_peer_lists_loop (size (nodes t)) [root] t.

Fixpoint root_free_rcu_loop (fuel : nat) (stack : list nid) (t : allowedips) : option allowedips :=
  match stack with
  | [] => Some t
  | n :: stack =>
      match fuel with
      | O => None
      | S fuel =>
          node ← nodes t !! n;
          stack ← push_rcu stack (bit0 node);
          stack ← push_rcu stack (bit1 node);
          root_free_rcu_loop fuel stack (set_nodes (delete n) t)
      end
  end.

Definition root_free_rcu (root : nid) (t : allowedips) : option allowedips :=
  root_free_rcu_loop (size (nodes t)) [root] t.

Definition node_free_rcu (n : nid) (t : allowedips) : option allowedips :=
  Some (set_nodes (delete n) t).

(** The grace period has passed: run the oldest callback. *)
Definition rcu_run_one (t : allowedips) : option allowedips :=
  match rcu t with
  | [] => Some t
  | cb :: cbs =>
      let t := {| root4 := root4 t; root6 := root6 t; seq := seq t; nodes := nodes t;
                  peer_lists := peer_lists t; rcu := cbs |} in
      match cb with node_free n => node_free_rcu n t | root_free n => root_free_rcu n t end
  end.

(** [if (rcu_access_pointer(old)) { root_remove_peer_lists(node); call_rcu(...); }] *)
Definition free_root (old : option nid) (t : allowedips) : option allowedips :=
  match old with
  | None => Some t
  | Some n => t ← root_remove_peer_lists n t; Some (call_rcu (root_free n) t)
  end.

Definition wg_allowedips_free (t : allowedips) : option allowedips :=
  let old4 := root4 t in
  let old6 := root6 t in
  let t := write_slot Root6 None (write_slot Root4 None (inc_seq t)) in
  t ← free_root old4 t;
  free_root old6 t.

(** ** Reading a node back, and the packet-facing lookups *)

(** The result of [wg_allowedips_read_node]: the address family, the bytes written to [ip] and
    the prefix length. *)
Definition wg_allowedips_read_node (node : allowedips_node) : Z * bytes * Z :=
  let cidr_bytes := Z.to_nat ((cidr node + 7) / 8) in
  let ip := swap_endian (bits node) (bitlen node) in
  let ip := take cidr_bytes ip ++ zeroes (Z.to_nat (bitlen node / 8) - cidr_bytes) in
  let ip := if cidr node =? 0 then ip
            else alter (fun b => u8 (Z.land b (u32 (Z.shiftl (2 ^ 32 - 1) ((- cidr node) mod 8)))))
                       (cidr_bytes - 1)%nat ip in
  (if bitlen node =? 32 then AF_INET else AF_INET6, ip, cidr node).

Definition wg_allowedips_lookup_dst (retries : nat) (get_maybe_zero : peer_id -> bool)
    (t : allowedips) (skb : sk_buff) : option (option peer_id) :=
  if protocol skb =? ETH_P_IP then lookup retries get_maybe_zero t Root4 32 (daddr skb)
  else if protocol skb =? ETH_P_IPV6 then lookup retries get_maybe_zero t Root6 128 (daddr skb)
  else Some None.

Definition wg_allowedips_lookup_src (retries : nat) (get_maybe_zero : peer_id -> bool)
    (t : allowedips) (skb : sk_buff) : option (option peer_id) :=
  if protocol skb =? ETH_P_IP then lookup retries get_maybe_zero t Root4 32 (saddr skb)
  else if protocol skb =? ETH_P_IPV6 then lookup retries get_maybe_zero t Root6 128 (saddr skb)
  else Some None.
