(* ===== verification/AllowedIpsBits.v ===== *)
(** * AllowedIpsBits: what the byte-level helpers of allowedips.c compute on addresses

    An address held in host byte order stands for the number [kval]; [choose] reads one bit of it
    and [common_bits] counts the leading bits two addresses share. *)

From S2P Require Import Prelude Skb AllowedIps.

(** The two widths of the table. *)
Definition is_width (w : Z) : Prop := w = 32 \/ w = 128.

(** The number a key buffer holds. *)
Definition kval (w : Z) (key : bytes) : Z :=
  if w =? 32 then load32 key else load64 key 0 * 2 ^ 64 + load64 key 8.

(** The first [c] bits of a [w]-bit address, and its bit number [c] (most significant first). *)
Definition pfx (w c k : Z) : Z := Z.shiftr k (w - c).
Definition bitat (w c k : Z) : bool := Z.testbit k (w - 1 - c).

(** The number of leading bits two addresses share. *)
Definition common (w k k' : Z) : Z := w - fls (Z.lxor k k').

(** A key buffer long enough for width [w]. *)
Definition wf_key (w : Z) (key : bytes) : Prop := wf_bytes key /\ w / 8 <= Z.of_nat (length key).

(** ** Arithmetic of prefixes *)

Lemma shiftr_eq_lxor x y n :
  0 <= x -> 0 <= y -> 0 <= n -> Z.shiftr x n = Z.shiftr y n <-> Z.lxor x y < 2 ^ n.
Proof.
  intros Hx Hy Hn.
  assert (Hp : 0 <= Z.lxor x y) by (apply Z.lxor_nonneg; lia).
  rewrite <- Z.lxor_eq_0_iff, <- Z.shiftr_lxor, Z.shiftr_div_pow2 by done.
  pose proof (Z.pow_pos_nonneg 2 n ltac:(lia) Hn).
  split; intros.
  - apply Z.div_small_iff in H0; lia.
  - apply Z.div_small. lia.
Qed.

Lemma pfx_common w c k k' :
  0 <= k -> 0 <= k' -> 0 <= c <= w -> c <= common w k k' <-> pfx w c k = pfx w c k'.
Proof.
  intros. unfold pfx, common. rewrite shiftr_eq_lxor by lia.
  rewrite <- fls_le by (try apply Z.lxor_nonneg; lia). lia.
Qed.

Lemma common_range w k k' :
  0 <= w -> 0 <= k < 2 ^ w -> 0 <= k' < 2 ^ w -> 0 <= common w k k' <= w.
Proof.
  intros. unfold common.
  assert (0 <= Z.lxor k k') by (apply Z.lxor_nonneg; lia).
  pose proof (fls_range (Z.lxor k k') ltac:(done)).
  assert (fls (Z.lxor k k') <= w); [|lia].
  apply fls_le; [done|lia|]. apply shiftr_eq_lxor; try lia.
  by rewrite !Z.shiftr_div_pow2, !Z.div_small by lia.
Qed.

Lemma pfx_full w k : pfx w w k = k.
Proof. unfold pfx. by rewrite Z.sub_diag. Qed.

Lemma pfx_0 w k : 0 <= k < 2 ^ w -> 0 <= w -> pfx w 0 k = 0.
Proof. intros. unfold pfx. rewrite Z.sub_0_r, Z.shiftr_div_pow2 by done. by apply Z.div_small. Qed.

Lemma pfx_shorter w c c' k : c' <= c <= w -> pfx w c' k = Z.shiftr (pfx w c k) (c - c').
Proof. intros. unfold pfx. rewrite Z.shiftr_shiftr by lia. f_equal. lia. Qed.

Lemma pfx_le w c c' k k' : c' <= c <= w -> pfx w c k = pfx w c k' -> pfx w c' k = pfx w c' k'.
Proof. intros ? E. by rewrite !(pfx_shorter w c c'), E by lia. Qed.

Lemma pfx_succ w c k : c < w -> pfx w (c + 1) k = 2 * pfx w c k + Z.b2z (bitat w c k).
Proof.
  intros. rewrite (pfx_shorter w (c + 1) c) by lia. unfold bitat.
  replace (c + 1 - c) with 1 by lia. rewrite Z.shiftr_div_pow2 by lia. change (2 ^ 1) with 2.
  rewrite (Z.div_mod (pfx w (c + 1) k) 2) at 1 by lia. f_equal.
  rewrite Zmod_odd, <- Z.bit0_odd. unfold pfx. rewrite Z.shiftr_spec by lia.
  replace (0 + (w - (c + 1))) with (w - 1 - c) by lia. by destruct (Z.testbit _ _).
Qed.

Lemma pfx_bit w c k k' : c < w -> pfx w (c + 1) k = pfx w (c + 1) k' -> bitat w c k = bitat w c k'.
Proof.
  intros Hc E. pose proof (pfx_le w (c + 1) c k k' ltac:(lia) E) as E0.
  rewrite !pfx_succ, E0 in E by done. destruct (bitat w c k), (bitat w c k'); cbn in *; (done || lia).
Qed.

Lemma pfx_bit_iff w c k k' :
  c < w -> pfx w (c + 1) k = pfx w (c + 1) k' <-> pfx w c k = pfx w c k' /\ bitat w c k = bitat w c k'.
Proof.
  intros Hc. split.
  - intros E. split; [by eapply pfx_le, E; lia|by apply pfx_bit].
  - intros [E1 E2]. by rewrite !pfx_succ, E1, E2.
Qed.

(** At the first bit two addresses do not share, they differ. *)
Lemma common_differ w k k' :
  0 <= w -> 0 <= k < 2 ^ w -> 0 <= k' < 2 ^ w -> common w k k' < w ->
  bitat w (common w k k') k <> bitat w (common w k k') k'.
Proof.
  intros Hw Hk Hk' Hc E. pose proof (common_range w k k' Hw Hk Hk').
  assert (common w k k' + 1 <= common w k k'); [|lia].
  apply pfx_common; [lia..|]. apply pfx_bit_iff; [lia|]. split; [|done].
  apply pfx_common; lia.
Qed.

(** ** The numbers that key buffers hold *)

Lemma load32_range p : wf_bytes p -> 0 <= load32 p < 2 ^ 32.
Proof.
  intros H. unfold load32. pose proof (le_val_bound (take 4 p) (Forall_take _ _ _ H)) as B.
  pose proof (length_take p 4).
  assert (2 ^ (8 * Z.of_nat (length (take 4 p))) <= 2 ^ 32) by (apply Z.pow_le_mono_r; lia). lia.
Qed.

Lemma load64_range p off : wf_bytes p -> 0 <= load64 p off < 2 ^ 64.
Proof.
  intros H. unfold load64.
  pose proof (le_val_bound (take 8 (drop off p)) (Forall_take _ _ _ (Forall_drop _ _ _ H))) as B.
  pose proof (length_take (drop off p) 8).
  assert (2 ^ (8 * Z.of_nat (length (take 8 (drop off p)))) <= 2 ^ 64) by (apply Z.pow_le_mono_r; lia). lia.
Qed.

Lemma kval_range w key : is_width w -> wf_bytes key -> 0 <= kval w key < 2 ^ w.
Proof.
  intros [-> | ->] H; unfold kval; cbn [Z.eqb Pos.eqb].
  - by apply load32_range.
  - pose proof (load64_range key 0 H). pose proof (load64_range key 8 H). lia.
Qed.

Lemma fls_high a b : 0 <= a -> 0 <= b < 2 ^ 64 -> fls128 a b = fls (a * 2 ^ 64 + b).
Proof.
  intros Ha Hb. unfold fls128, fls. destruct (Z.eqb_spec a 0) as [->|Hne].
  - by rewrite Z.mul_0_l, Z.add_0_l.
  - destruct (Z.eqb_spec (a * 2 ^ 64 + b) 0); [lia|].
    assert (Z.log2 (a * 2 ^ 64 + b) = Z.log2 a + 64); [|lia].
    apply Z.log2_unique; [pose proof (Z.log2_nonneg a); lia|].
    destruct (Z.log2_spec a ltac:(lia)) as [L1 L2].
    rewrite Z.pow_add_r by (pose proof (Z.log2_nonneg a); lia).
    replace (Z.succ (Z.log2 a + 64)) with (Z.succ (Z.log2 a) + 64) by lia.
    rewrite Z.pow_add_r by (pose proof (Z.log2_nonneg a); lia). nia.
Qed.

Lemma lxor_halves h l h' l' :
  0 <= l < 2 ^ 64 -> 0 <= l' < 2 ^ 64 ->
  Z.lxor (h * 2 ^ 64 + l) (h' * 2 ^ 64 + l') = Z.lxor h h' * 2 ^ 64 + Z.lxor l l'.
Proof.
  intros Hl Hl'.
  assert (Hd : forall x y, 0 <= y < 2 ^ 64 -> (x * 2 ^ 64 + y) / 2 ^ 64 = x).
  { intros. rewrite Z.div_add_l, Z.div_small by lia. lia. }
  assert (Hm : forall x y, 0 <= y < 2 ^ 64 -> (x * 2 ^ 64 + y) mod 2 ^ 64 = y).
  { intros. rewrite Z.add_comm, Z.mod_add by lia. by apply Z.mod_small. }
  rewrite (Z.div_mod (Z.lxor _ _) (2 ^ 64)) at 1 by lia.
  rewrite <- Z.shiftr_div_pow2, Z.shiftr_lxor, !Z.shiftr_div_pow2, !Hd by (done || lia).
  rewrite <- Z.land_ones by lia.
  assert (E : Z.land (Z.lxor (h * 2 ^ 64 + l) (h' * 2 ^ 64 + l')) (Z.ones 64)
            = Z.lxor (Z.land (h * 2 ^ 64 + l) (Z.ones 64)) (Z.land (h' * 2 ^ 64 + l') (Z.ones 64))).
  { apply Z.bits_inj'. intros i Hi. rewrite !Z.land_spec, !Z.lxor_spec, !Z.land_spec.
    by destruct (Z.testbit (h * 2 ^ 64 + l) i), (Z.testbit (h' * 2 ^ 64 + l') i), (Z.testbit (Z.ones 64) i). }
  rewrite E, !Z.land_ones, !Hm by (done || lia). lia.
Qed.

Lemma lxor_range x y n : 0 <= n -> 0 <= x < 2 ^ n -> 0 <= y < 2 ^ n -> 0 <= Z.lxor x y < 2 ^ n.
Proof.
  intros. split; [apply Z.lxor_nonneg; lia|].
  apply shiftr_eq_lxor; try lia. by rewrite !Z.shiftr_div_pow2, !Z.div_small by lia.
Qed.

Lemma common_bits_spec w nd key :
  is_width w -> wf_bytes (bits nd) -> wf_bytes key ->
  common_bits nd key w = common w (kval w (bits nd)) (kval w key).
Proof.
  intros [-> | ->] Hn Hk; unfold common_bits, common, kval; cbn [Z.eqb Pos.eqb]; [done|].
  pose proof (load64_range (bits nd) 0 Hn). pose proof (load64_range (bits nd) 8 Hn).
  pose proof (load64_range key 0 Hk). pose proof (load64_range key 8 Hk).
  rewrite lxor_halves, fls_high by (try apply lxor_range; lia || (apply Z.lxor_nonneg; lia)). done.
Qed.

Lemma take_lookup_default n (p : bytes) i : (i < n)%nat -> default 0 (take n p !! i) = default 0 (p !! i).
Proof. intros. by rewrite lookup_take_lt. Qed.

(** Bit [8 * i + j] of an address in host order is bit [j] of one byte of its buffer. *)
Lemma kval_testbit_32 key (i : nat) j :
  wf_bytes key -> (i < 4)%nat -> 0 <= j < 8 ->
  Z.testbit (kval 32 key) (8 * Z.of_nat i + j) = Z.testbit (default 0 (key !! i)) j.
Proof.
  intros H Hi Hj. unfold kval, load32; cbn [Z.eqb Pos.eqb].
  rewrite le_val_testbit by (try apply Forall_take; done). by rewrite take_lookup_default.
Qed.

Lemma kval_testbit_128 key (i : nat) j :
  wf_bytes key -> (i < 16)%nat -> 0 <= j < 8 ->
  Z.testbit (kval 128 key) (8 * Z.of_nat i + j)
  = Z.testbit (default 0 (key !! (if (i <? 8)%nat then i + 8 else i - 8)%nat)) j.
Proof.
  intros H Hi Hj. unfold kval; cbn [Z.eqb Pos.eqb].
  pose proof (load64_range key 0 H). pose proof (load64_range key 8 H).
  assert (Hl : forall off (k : nat), (k < 8)%nat ->
     Z.testbit (load64 key off) (8 * Z.of_nat k + j) = Z.testbit (default 0 (key !! (off + k)%nat)) j).
  { intros off k Hk. unfold load64.
    rewrite le_val_testbit, take_lookup_default, lookup_drop by (try apply Forall_take, Forall_drop; done). done. }
  destruct (Nat.ltb_spec i 8).
  - rewrite Z.add_comm, <- (Z.mod_pow2_bits_low _ 64), Z.mod_add, Z.mod_small by lia.
    rewrite Hl by done. by rewrite Nat.add_comm.
  - replace (8 * Z.of_nat i + j) with (8 * Z.of_nat (i - 8) + j + 64) by lia.
    rewrite <- Z.div_pow2_bits, Z.div_add_l, Z.div_small, Z.add_0_r by lia.
    rewrite Hl by lia. done.
Qed.

(** The byte and bit position that [copy_and_assign_cidr] stores. *)
Definition bit_pos_ok (w : Z) (nd : allowedips_node) : Prop :=
  bit_at_a nd = Z.lxor (cidr nd / 8) ((w / 8 - 1) mod 8) /\ bit_at_b nd = 7 - cidr nd mod 8.

Lemma land1_testbit x j : 0 <= j -> (Z.land (Z.shiftr x j) 1 =? 1) = Z.testbit x j.
Proof.
  intros. rewrite (land_mask _ 1) by lia. change (2 ^ 1) with 2.
  rewrite Zmod_odd, <- Z.bit0_odd, Z.shiftr_spec by lia. rewrite Z.add_0_l. by destruct (Z.testbit x j).
Qed.

Lemma lxor_3 a : 0 <= a < 4 -> Z.lxor a 3 = 3 - a.
Proof. intros. assert (a = 0 \/ a = 1 \/ a = 2 \/ a = 3) as [->|[->|[->| ->]]] by lia; done. Qed.

Lemma lxor_7 a : 0 <= a < 16 -> Z.lxor a 7 = if a <? 8 then 7 - a else 23 - a.
Proof.
  intros. assert (a = 0 \/ a = 1 \/ a = 2 \/ a = 3 \/ a = 4 \/ a = 5 \/ a = 6 \/ a = 7 \/ a = 8 \/ a = 9
    \/ a = 10 \/ a = 11 \/ a = 12 \/ a = 13 \/ a = 14 \/ a = 15) as HH by lia.
  repeat destruct HH as [->|HH]; try done. by subst.
Qed.

(** The byte [choose] reads is inside the buffer. *)
Lemma choose_in_bounds w nd :
  is_width w -> 0 <= cidr nd < w -> bit_pos_ok w nd -> 0 <= bit_at_a nd < w / 8.
Proof.
  intros [-> | ->] Hc [Ha _]; rewrite Ha.
  - change ((32 / 8 - 1) mod 8) with 3. assert (0 <= cidr nd / 8 < 4) by (split; [apply Z.div_pos|apply Z.div_lt_upper_bound]; lia).
    rewrite lxor_3 by done. change (32 / 8) with 4. lia.
  - change ((128 / 8 - 1) mod 8) with 7. assert (0 <= cidr nd / 8 < 16) by (split; [apply Z.div_pos|apply Z.div_lt_upper_bound]; lia).
    rewrite lxor_7 by done. change (128 / 8) with 16. case_if; bool_to_prop; lia.
Qed.

(** [choose] reads the bit that follows the node's prefix. *)
Lemma choose_spec w nd key :
  is_width w -> 0 <= cidr nd < w -> bit_pos_ok w nd -> wf_bytes key ->
  choose nd key = bitat w (cidr nd) (kval w key).
Proof.
  intros Hw Hc [Ha Hb] Hk. unfold choose, bitat. rewrite Ha, Hb.
  set (c := cidr nd) in *. pose proof (Z.mod_pos_bound c 8 ltac:(lia)). pose proof (Z.div_mod c 8 ltac:(lia)).
  rewrite land1_testbit by lia. destruct Hw as [-> | ->].
  - change ((32 / 8 - 1) mod 8) with 3. assert (0 <= c / 8 < 4) by lia. rewrite lxor_3 by done.
    rewrite <- kval_testbit_32 by (done || lia). f_equal. lia.
  - change ((128 / 8 - 1) mod 8) with 7. assert (0 <= c / 8 < 16) by lia. rewrite lxor_7 by done.
    replace (128 - 1 - c) with (8 * Z.of_nat (Z.to_nat (15 - c / 8)) + (7 - c mod 8)) by lia.
    rewrite kval_testbit_128 by (done || lia). do 3 f_equal.
    destruct (Z.ltb_spec (c / 8) 8), (Nat.ltb_spec (Z.to_nat (15 - c / 8)) 8); lia.
Qed.

(** ** [swap_endian] and [copy_and_assign_cidr] *)

Lemma swap_endian_wf w src : is_width w -> wf_key w (swap_endian src w).
Proof.
  intros [-> | ->]; unfold wf_key, swap_endian; cbn [Z.eqb Pos.eqb].
  - split; [auto with wg|]. by rewrite le_bytes_length.
  - split; [apply Forall_app; split; auto with wg|]. by rewrite length_app, !le_bytes_length.
Qed.

(** The number held by a swapped address is the big-endian value of the packet's bytes. *)
Lemma kval_swap_endian w src :
  is_width w -> wf_bytes src -> Z.of_nat (length src) = w / 8 -> kval w (swap_endian src w) = be_val src.
Proof.
  intros Hw Hs Hl. destruct Hw as [-> | ->]; unfold kval, swap_endian; cbn [Z.eqb Pos.eqb].
  - change (32 / 8) with 4 in Hl. unfold load32. rewrite (take_ge (le_bytes 4 _)) by (by rewrite le_bytes_length).
    rewrite (take_ge src) by lia. rewrite le_val_le_bytes. apply Z.mod_small.
    pose proof (be_val_bound src Hs) as B. by rewrite Hl in B.
  - change (128 / 8) with 16 in Hl. unfold load64.
    rewrite drop_0, take_app_le, (take_ge (le_bytes 8 _)) by (by rewrite le_bytes_length).
    rewrite drop_app_ge, le_bytes_length, Nat.sub_diag, drop_0 by (by rewrite le_bytes_length).
    rewrite (take_ge (le_bytes 8 _)) by (by rewrite le_bytes_length).
    rewrite (take_ge (drop 8 src)) by (rewrite length_drop; lia).
    rewrite !le_val_le_bytes.
    pose proof (be_val_bound (take 8 src) (Forall_take _ _ _ Hs)) as B1.
    pose proof (be_val_bound (drop 8 src) (Forall_drop _ _ _ Hs)) as B2.
    rewrite length_take, Nat.min_l in B1 by lia. rewrite length_drop in B2.
    replace (8 * Z.of_nat (length src - 8)) with (8 * Z.of_nat 8) in B2 by lia.
    rewrite !Z.mod_small by done.
    rewrite <- (take_drop 8 src) at 3. unfold be_val. rewrite rev_app_distr, le_val_app, length_rev, length_drop.
    replace (8 * Z.of_nat (length src - 8)) with 64 by lia. lia.
Qed.

Lemma kval_copy w nd key c :
  is_width w -> wf_key w key -> length (bits nd) = 16%nat ->
  kval w (bits (copy_and_assign_cidr nd key c w)) = kval w key.
Proof.
  intros Hw [Hk Hl] Hn. cbn [copy_and_assign_cidr bits]. unfold kval, load32, load64.
  destruct Hw as [-> | ->]; cbn [Z.eqb Pos.eqb].
  - change (Z.to_nat (32 / 8)) with 4%nat. change (32 / 8) with 4 in Hl.
    rewrite take_app_le, take_take by (rewrite length_take; lia). done.
  - change (Z.to_nat (128 / 8)) with 16%nat. change (128 / 8) with 16 in Hl.
    rewrite (drop_ge (bits nd)), app_nil_r by lia.
    rewrite !skipn_firstn_comm, !take_take. done.
Qed.

Lemma copy_wf w nd key c :
  is_width w -> wf_key w key -> length (bits nd) = 16%nat -> wf_bytes (bits nd) ->
  length (bits (copy_and_assign_cidr nd key c w)) = 16%nat /\
  wf_bytes (bits (copy_and_assign_cidr nd key c w)).
Proof.
  intros Hw [Hk Hl] Hn Hb. cbn [copy_and_assign_cidr bits]. split.
  - rewrite length_app, length_take, length_drop. destruct Hw as [-> | ->].
    + change (Z.to_nat (32 / 8)) with 4%nat. change (32 / 8) with 4 in Hl. lia.
    + change (Z.to_nat (128 / 8)) with 16%nat. change (128 / 8) with 16 in Hl. lia.
  - apply Forall_app. split; [by apply Forall_take|by apply Forall_drop].
Qed.
