(* ===== verification/AllowedIpsTree.v ===== *)
(** * AllowedIpsTree: the routing trie as a functional tree

    The shape of a trie without its heap: well-formedness (prefixes grow along paths and children
    hang on the side of their next bit), one-hole contexts, the routes a tree holds, and the pure
    effect of an insertion. The heap of allowedips.c is related to these trees in AllowedIpsHeap. *)

From S2P Require Import Prelude Skb AllowedIps AllowedIpsBits.

(** A node has an address, an optional peer, a prefix length and a key. *)
Inductive tree := E | N (n : nid) (p : option peer_id) (c k : Z) (l r : tree).

Fixpoint ids (t : tree) : list nid :=
  match t with E => [] | N n _ _ _ l r => n :: ids l ++ ids r end.

(** The nodes that carry a peer. *)
Fixpoint owners (t : tree) : list (nid * peer_id) :=
  match t with
  | E => []
  | N n p _ _ l r => match p with Some p => [(n, p)] | None => [] end ++ owners l ++ owners r
  end.

(** The routes: prefix length, prefix, peer. *)
Fixpoint routes (w : Z) (t : tree) : list (Z * Z * peer_id) :=
  match t with
  | E => []
  | N _ p c k l r =>
      match p with Some p => [(c, pfx w c k, p)] | None => [] end ++ routes w l ++ routes w r
  end.

(** Every node below extends the prefix [P] of length [lo]. *)
Fixpoint wf (w lo P : Z) (t : tree) : Prop :=
  match t with
  | E => True
  | N _ _ c k l r =>
      lo <= c <= w /\ 0 <= k < 2 ^ w /\ pfx w lo k = P /\
      wf w (c + 1) (2 * pfx w c k) l /\ wf w (c + 1) (2 * pfx w c k + 1) r
  end.

(** A node without a peer has two children. *)
Fixpoint compact (t : tree) : Prop :=
  match t with
  | E => True
  | N _ p _ _ l r => (p = None -> l <> E /\ r <> E) /\ compact l /\ compact r
  end.

Fixpoint height (t : tree) : nat :=
  match t with E => 0%nat | N _ _ _ _ l r => S (Nat.max (height l) (height r)) end.

(** ** One-hole contexts, innermost frame first *)

Record frame := Fr {
  f_n : nid; f_p : option peer_id; f_c : Z; f_k : Z;
  f_b : bool;      (** the side of the hole *)
  f_sib : tree     (** the tree on the other side *)
}.

Definition mk (n : nid) (p : option peer_id) (c k : Z) (b : bool) (hole sib : tree) : tree :=
  if b then N n p c k sib hole else N n p c k hole sib.

Definition plug1 (f : frame) (t : tree) : tree := mk (f_n f) (f_p f) (f_c f) (f_k f) (f_b f) t (f_sib f).

Fixpoint plug (ctx : list frame) (t : tree) : tree :=
  match ctx with [] => t | f :: ctx => plug ctx (plug1 f t) end.

Definition ids_ctx (ctx : list frame) : list nid :=
  concat (map (fun f => f_n f :: ids (f_sib f)) ctx).
Definition owners_ctx (ctx : list frame) : list (nid * peer_id) :=
  concat (map (fun f => match f_p f with Some p => [(f_n f, p)] | None => [] end ++ owners (f_sib f)) ctx).
Definition routes_ctx (w : Z) (ctx : list frame) : list (Z * Z * peer_id) :=
  concat (map (fun f => match f_p f with Some p => [(f_c f, pfx w (f_c f) (f_k f), p)] | None => [] end
                        ++ routes w (f_sib f)) ctx).

(** What the hole requires of the tree put there. *)
Definition hole_lo (ctx : list frame) : Z := match ctx with [] => 0 | f :: _ => f_c f + 1 end.
Definition hole_P (w : Z) (ctx : list frame) : Z :=
  match ctx with [] => 0 | f :: _ => 2 * pfx w (f_c f) (f_k f) + Z.b2z (f_b f) end.

Fixpoint wf_ctx (w : Z) (ctx : list frame) : Prop :=
  match ctx with
  | [] => True
  | f :: ctx =>
      (hole_lo ctx <= f_c f <= w /\ 0 <= f_k f < 2 ^ w /\ pfx w (hole_lo ctx) (f_k f) = hole_P w ctx /\
       wf w (f_c f + 1) (2 * pfx w (f_c f) (f_k f) + Z.b2z (negb (f_b f))) (f_sib f)) /\ wf_ctx w ctx
  end.

(** Compactness of the context, for a hole that will be filled by a nonempty tree. *)
Fixpoint compact_ctx (ctx : list frame) : Prop :=
  match ctx with
  | [] => True
  | f :: ctx => (f_p f = None -> f_sib f <> E) /\ compact (f_sib f) /\ compact_ctx ctx
  end.

Lemma mk_perm_ids n p c k b t s : ids (mk n p c k b t s) ≡ₚ (n :: ids s) ++ ids t.
Proof. destruct b; simpl; [done|]. by rewrite (Permutation_app_comm (ids t)). Qed.

Lemma ids_plug ctx t : ids (plug ctx t) ≡ₚ ids_ctx ctx ++ ids t.
Proof.
  revert t. induction ctx as [|f ctx IH]; intros t; [done|]. cbn [plug]. rewrite IH.
  unfold plug1. rewrite mk_perm_ids. change (ids_ctx (f :: ctx)) with ((f_n f :: ids (f_sib f)) ++ ids_ctx ctx).
  solve_Permutation.
Qed.

Lemma owners_plug ctx t : owners (plug ctx t) ≡ₚ owners_ctx ctx ++ owners t.
Proof.
  revert t. induction ctx as [|f ctx IH]; intros t; [done|]. cbn [plug]. rewrite IH.
  unfold plug1, mk. unfold owners_ctx at 2. cbn [map concat]. fold (owners_ctx ctx).
  destruct (f_b f); cbn [owners]; solve_Permutation.
Qed.

Lemma routes_plug w ctx t : routes w (plug ctx t) ≡ₚ routes_ctx w ctx ++ routes w t.
Proof.
  revert t. induction ctx as [|f ctx IH]; intros t; [done|]. cbn [plug]. rewrite IH.
  unfold plug1, mk. unfold routes_ctx at 2. cbn [map concat]. fold (routes_ctx w ctx).
  destruct (f_b f); cbn [routes]; solve_Permutation.
Qed.

Lemma wf_mk w lo P n p c k b t s :
  wf w lo P (mk n p c k b t s) <->
  (lo <= c <= w /\ 0 <= k < 2 ^ w /\ pfx w lo k = P /\
   wf w (c + 1) (2 * pfx w c k + Z.b2z (negb b)) s) /\
  wf w (c + 1) (2 * pfx w c k + Z.b2z b) t.
Proof. destruct b; cbn [mk wf negb Z.b2z]; rewrite Z.add_0_r; tauto. Qed.

Lemma wf_plug w ctx t : wf w 0 0 (plug ctx t) <-> wf_ctx w ctx /\ wf w (hole_lo ctx) (hole_P w ctx) t.
Proof.
  revert t. induction ctx as [|f ctx IH]; intros t; [by split; [|intros []]|].
  cbn [plug wf_ctx hole_lo hole_P]. rewrite IH. unfold plug1. rewrite wf_mk. tauto.
Qed.

Lemma plug_nonempty ctx t : t <> E -> plug ctx t <> E.
Proof.
  revert t. induction ctx as [|f ctx IH]; intros t H; [done|]. cbn [plug]. apply IH.
  unfold plug1, mk. by destruct (f_b f).
Qed.

Lemma compact_plug ctx t : t <> E -> compact (plug ctx t) <-> compact_ctx ctx /\ compact t.
Proof.
  revert t. induction ctx as [|f ctx IH]; intros t H; [by split; [|intros []]|].
  cbn [plug compact_ctx]. rewrite IH by (unfold plug1, mk; by destruct (f_b f)).
  unfold plug1, mk. destruct (f_b f); cbn [compact]; tauto.
Qed.

Lemma compact_plug1_E f ctx :
  compact (plug (f :: ctx) E) <-> compact_ctx ctx /\ f_p f <> None /\ compact (f_sib f).
Proof.
  cbn [plug]. rewrite compact_plug by (unfold plug1, mk; by destruct (f_b f)).
  unfold plug1, mk. destruct (f_b f); cbn [compact];
    (split; [intros (? & Hp & ?)|intros (? & Hp & ?)]; repeat split; try tauto;
     intros ->; destruct Hp; tauto).
Qed.

(** A compact tree with no owner is empty. *)
Lemma compact_no_owner t : compact t -> owners t = [] -> t = E.
Proof.
  induction t as [|n p c k l IHl r IHr]; [done|]. cbn [compact owners].
  intros (Hp & Hl & Hr) Ho. destruct p as [p|]; [done|].
  apply app_eq_nil in Ho as [_ Ho]. apply app_eq_nil in Ho as [Ho _].
  destruct (Hp eq_refl) as [Hne _]. by destruct Hne; apply IHl.
Qed.

(** The height of a trie is bounded by the width. *)
Lemma wf_height w lo P t : wf w lo P t -> t = E \/ Z.of_nat (height t) <= w - lo + 1.
Proof.
  revert lo P. induction t as [|n p c k l IHl r IHr]; intros lo P; [by left|]. cbn [wf height].
  intros (Hc & _ & _ & Hl & Hr). right.
  destruct (IHl _ _ Hl) as [-> | ?], (IHr _ _ Hr) as [-> | ?]; cbn [height]; lia.
Qed.

(** ** The abstract routing table of a tree *)

Definition route_key (r : Z * Z * peer_id) : (Z * Z) * peer_id := let '(c, P, p) := r in ((c, P), p).

Definition table (w : Z) (t : tree) : gmap (Z * Z) peer_id := list_to_map (map route_key (routes w t)).

Lemma routes_below w lo P t c' P' p' :
  wf w lo P t -> (c', P', p') ∈ routes w t -> lo <= c' <= w /\ Z.shiftr P' (c' - lo) = P.
Proof.
  revert lo P. induction t as [|n p c k l IHl r IHr]; intros lo P; cbn [wf routes].
  { by rewrite elem_of_nil. }
  intros (Hc & Hk & HP & Hl & Hr). rewrite !elem_of_app.
  assert (Hup : forall b, lo <= c' -> c + 1 <= c' <= w -> Z.shiftr P' (c' - (c + 1)) = 2 * pfx w c k + Z.b2z b ->
                Z.shiftr P' (c' - lo) = P).
  { intros b Hlo Hc' Hs. rewrite <- HP, (pfx_shorter w c lo) by lia.
    replace (c' - lo) with (c' - (c + 1) + (1 + (c - lo))) by lia.
    rewrite <- Z.shiftr_shiftr, Hs by lia. rewrite <- (Z.shiftr_shiftr _ 1) by lia. f_equal.
    rewrite Z.shiftr_div_pow2 by lia. change (2 ^ 1) with 2.
    destruct b; cbn [Z.b2z]; [|rewrite Z.add_0_r, Z.mul_comm, Z.div_mul; lia].
    rewrite Z.add_comm, Z.mul_comm, Z.div_add by lia. done. }
  intros [H|[H|H]].
  - destruct p; [|by rewrite elem_of_nil in H]. apply list_elem_of_singleton in H. simplify_eq.
    split; [lia|]. symmetry. apply pfx_shorter. lia.
  - destruct (IHl _ _ Hl H) as [? Hs]. split; [lia|]. apply (Hup false); [lia..|]. cbn. by rewrite Z.add_0_r.
  - destruct (IHr _ _ Hr H) as [? Hs]. split; [lia|]. by apply (Hup true); [lia..|].
Qed.

Lemma elem_of_route_keys w t c P : (c, P) ∈ (map route_key (routes w t)).*1 <-> exists p, (c, P, p) ∈ routes w t.
Proof.
  rewrite list_elem_of_fmap. setoid_rewrite list_elem_of_In. setoid_rewrite in_map_iff. split.
  - intros ([[c' P'] p] & [=] & [[c1 P1] p1] & [=] & Hin). subst. eauto.
  - intros (p & Hin). exists ((c, P), p). split; [done|]. by exists ((c, P), p).
Qed.

Lemma routes_keys_NoDup w lo P t : wf w lo P t -> NoDup (map route_key (routes w t)).*1.
Proof.
  revert lo P. induction t as [|n p c k l IHl r IHr]; intros lo P; cbn [wf routes].
  { intros _. constructor. }
  intros (Hc & Hk & HP & Hl & Hr). rewrite !map_app. apply NoDup_app. split; [|split].
  - destruct p; [|constructor]. apply NoDup_singleton.
  - intros [c0 P0] H0 Hin. destruct p; [|by rewrite elem_of_nil in H0].
    cbn in H0. apply list_elem_of_singleton in H0. simplify_eq.
    rewrite elem_of_app in Hin.
    destruct Hin as [Hin|Hin]; apply elem_of_route_keys in Hin as (p' & Hin).
    + destruct (routes_below _ _ _ _ _ _ _ Hl Hin). lia.
    + destruct (routes_below _ _ _ _ _ _ _ Hr Hin). lia.
  - apply NoDup_app. split; [by eapply IHl|]. split; [|by eapply IHr].
    intros [c0 P0] H1 H2.
    apply elem_of_route_keys in H1 as (p1 & H1), H2 as (p2 & H2).
    destruct (routes_below _ _ _ _ _ _ _ Hl H1) as [_ E1], (routes_below _ _ _ _ _ _ _ Hr H2) as [_ E2]. lia.
Qed.

Lemma table_spec w t c P p : wf w 0 0 t -> table w t !! (c, P) = Some p <-> (c, P, p) ∈ routes w t.
Proof.
  intros Hwf. unfold table. rewrite <- elem_of_list_to_map by (by eapply routes_keys_NoDup).
  rewrite !list_elem_of_In, in_map_iff. split.
  - intros ([[c' P'] p'] & [= -> -> ->] & Hin). done.
  - intros Hin. by exists (c, P, p).
Qed.

Lemma table_routes w t rs : wf w 0 0 t -> routes w t ≡ₚ rs -> table w t = list_to_map (map route_key rs).
Proof.
  intros Hwf Hp. unfold table. apply list_to_map_proper; [by eapply routes_keys_NoDup|]. by apply fmap_Permutation.
Qed.

Lemma table_perm w t t' r :
  wf w 0 0 t -> routes w t ≡ₚ r ++ routes w t' ->
  table w t = list_to_map (map route_key r) ∪ table w t'.
Proof.
  intros Hwf Hp. unfold table at 2. rewrite <- list_to_map_app, <- map_app. by apply table_routes.
Qed.

(** ** Longest-prefix match *)

(** The specification of a lookup in a routing table: try the prefixes from the longest on. *)
Fixpoint lpm_from (w : Z) (m : gmap (Z * Z) peer_id) (kv : Z) (c : nat) : option peer_id :=
  match m !! (Z.of_nat c, pfx w (Z.of_nat c) kv) with
  | Some p => Some p
  | None => match c with O => None | S c => lpm_from w m kv c end
  end.

Definition lpm (w : Z) (m : gmap (Z * Z) peer_id) (kv : Z) : option peer_id := lpm_from w m kv (Z.to_nat w).

(** The walk of [find_node] on a tree: the last node on the matching path that has a peer. *)
Fixpoint best (w : Z) (t : tree) (kv : Z) (found : option (nid * peer_id)) : option (nid * peer_id) :=
  match t with
  | E => found
  | N n p c k l r =>
      if c <=? common w k kv then
        let found := match p with Some p => Some (n, p) | None => found end in
        if c =? w then found else best w (if bitat w c kv then r else l) kv found
      else found
  end.

(** [b] is the longest match among the routes, or [found] when no route matches. *)
Definition longest (w : Z) (rs : list (Z * Z * peer_id)) (kv : Z) (found b : option (nid * peer_id)) : Prop :=
  (b = found /\ forall c p, (c, pfx w c kv, p) ∉ rs) \/
  (exists n p c, b = Some (n, p) /\ (c, pfx w c kv, p) ∈ rs /\
     forall c' p', (c', pfx w c' kv, p') ∈ rs -> c' <= c).

(** A route below a node that matches the address is on the side of the address's next bit. *)
Lemma routes_side w c k kv t b c' p' :
  c <= w -> wf w (c + 1) (2 * pfx w c k + Z.b2z b) t -> (c', pfx w c' kv, p') ∈ routes w t ->
  c < c' <= w /\ pfx w c kv = pfx w c k /\ bitat w c kv = b.
Proof.
  intros Hc Hwf Hin. destruct (routes_below _ _ _ _ _ _ _ Hwf Hin) as [Hr1 Hr2].
  rewrite <- pfx_shorter, pfx_succ in Hr2 by lia. split; [lia|].
  destruct (bitat w c kv), b; cbn in *; (lia || (split; [lia|done])).
Qed.

(** The longest match below a matching node, seen from the node. *)
Lemma longest_node w n p c k l r kv found b :
  c <= w -> pfx w c kv = pfx w c k ->
  wf w (c + 1) (2 * pfx w c k + Z.b2z false) l -> wf w (c + 1) (2 * pfx w c k + Z.b2z true) r ->
  longest w (routes w (if bitat w c kv then r else l)) kv (match p with Some p => Some (n, p) | None => found end) b ->
  longest w (routes w (N n p c k l r)) kv found b.
Proof.
  intros Hc Hm Hl Hr. cbn [routes].
  assert (Hside : forall c' p', (c', pfx w c' kv, p') ∈ routes w l ++ routes w r ->
            c < c' /\ (c', pfx w c' kv, p') ∈ routes w (if bitat w c kv then r else l)).
  { intros c' p' [Hin|Hin]%elem_of_app; [destruct (routes_side _ _ _ _ _ _ _ _ Hc Hl Hin) as (? & _ & ->)
      |destruct (routes_side _ _ _ _ _ _ _ _ Hc Hr Hin) as (? & _ & ->)]; (split; [lia|done]). }
  intros [(-> & Hnone)|(n' & p' & c' & -> & Hin & Hmax)].
  - destruct p as [p|]; [right; exists n, p, c|left]; (split; [done|]).
    + rewrite Hm. split; [rewrite elem_of_app; left; by apply list_elem_of_singleton|].
      intros c' p' [H|H]%elem_of_app; [apply list_elem_of_singleton in H; by simplify_eq; lia|].
      apply Hside in H as [_ H]. by apply Hnone in H.
    + intros c' p' H. apply Hside in H as [_ H]. by apply Hnone in H.
  - right. exists n', p', c'. split; [done|]. split; [rewrite !elem_of_app; destruct (bitat w c kv); tauto|].
    intros c0 p0 [H0|H0]%elem_of_app.
    + destruct p; [|by rewrite elem_of_nil in H0]. apply list_elem_of_singleton in H0. simplify_eq.
      destruct (Hside c' p') as [? _]; [rewrite elem_of_app; destruct (bitat w c kv); tauto|lia].
    + apply Hside in H0 as [_ H0]. by eapply Hmax.
Qed.

Lemma best_longest w t kv lo P found :
  0 <= lo -> 0 <= kv < 2 ^ w -> wf w lo P t -> pfx w lo kv = P \/ lo > w ->
  longest w (routes w t) kv found (best w t kv found).
Proof.
  intros Hlo Hkv. revert lo P found Hlo. induction t as [|n p c k l IHl r IHr]; intros lo P found Hlo Hwf HP.
  { left. split; [done|]. intros. apply not_elem_of_nil. }
  cbn [wf] in Hwf. destruct Hwf as (Hc & Hk & HkP & Hl & Hr). destruct HP as [HP|]; [|lia].
  assert (Hl' : wf w (c + 1) (2 * pfx w c k + Z.b2z false) l) by (cbn; by rewrite Z.add_0_r).
  cbn [best]. destruct (Z.leb_spec c (common w k kv)) as [Hm|Hm].
  - apply pfx_common in Hm; [|lia..]. apply longest_node; [lia|done|done|done|].
    destruct (Z.eqb_spec c w) as [->|Hcw].
    + left. split; [done|]. intros c' p' Hin. destruct (bitat w w kv);
        [destruct (routes_below _ _ _ _ _ _ _ Hr Hin)|destruct (routes_below _ _ _ _ _ _ _ Hl Hin)]; lia.
    + assert (Hp1 : pfx w (c + 1) kv = 2 * pfx w c k + Z.b2z (bitat w c kv)) by (rewrite pfx_succ by lia; lia).
      destruct (bitat w c kv); cbn in Hp1.
      * apply (IHr (c + 1) (2 * pfx w c k + 1)); [lia|done|by left].
      * apply (IHl (c + 1) (2 * pfx w c k)); [lia|done|left; lia].
  - left. split; [done|]. intros c' p' Hin. assert (pfx w c kv = pfx w c k) as Heq.
    { cbn [routes] in Hin. rewrite !elem_of_app in Hin. destruct Hin as [Hin|[Hin|Hin]].
      - destruct p; [|by rewrite elem_of_nil in Hin]. apply list_elem_of_singleton in Hin. by simplify_eq.
      - by destruct (routes_side w c k kv l false c' p' ltac:(lia) Hl' Hin) as (_ & ? & _).
      - by destruct (routes_side w c k kv r true c' p' ltac:(lia) Hr Hin) as (_ & ? & _). }
    symmetry in Heq. apply pfx_common in Heq; lia.
Qed.

Lemma lpm_from_spec w m kv (c : nat) :
  match lpm_from w m kv c with
  | None => forall c' : nat, (c' <= c)%nat -> m !! (Z.of_nat c', pfx w (Z.of_nat c') kv) = None
  | Some p => exists c' : nat, (c' <= c)%nat /\ m !! (Z.of_nat c', pfx w (Z.of_nat c') kv) = Some p /\
      forall c'' : nat, (c' < c'' <= c)%nat -> m !! (Z.of_nat c'', pfx w (Z.of_nat c'') kv) = None
  end.
Proof.
  induction c as [|c IH]; cbn [lpm_from]; destruct (m !! _) eqn:Em.
  - exists 0%nat. split; [done|]. split; [done|]. lia.
  - intros c' Hc. by replace c' with 0%nat by lia.
  - exists (S c). split; [done|]. split; [done|]. lia.
  - destruct (lpm_from w m kv c).
    + destruct IH as (c' & ? & ? & IH). exists c'. split; [lia|]. split; [done|]. intros c'' ?.
      destruct (decide (c'' = S c)) as [->|]; [done|]. apply IH. lia.
    + intros c' Hc. destruct (decide (c' = S c)) as [->|]; [done|]. apply IH. lia.
Qed.

(** The walk on a well-formed tree is the longest-prefix match in its table. *)
Lemma best_lpm w t kv :
  0 <= w -> wf w 0 0 t -> 0 <= kv < 2 ^ w -> snd <$> best w t kv None = lpm w (table w t) kv.
Proof.
  intros Hw Hwf Hkv.
  pose proof (best_longest w t kv 0 0 None ltac:(lia) Hkv Hwf ltac:(left; apply pfx_0; lia)) as HL.
  unfold lpm. pose proof (lpm_from_spec w (table w t) kv (Z.to_nat w)) as HS.
  destruct HL as [(-> & Hn)|(n & p & c & -> & Hin & Hmax)]; cbn.
  - destruct (lpm_from _ _ _ _) as [p|]; [|done]. destruct HS as (c' & _ & Ht & _).
    apply table_spec in Ht; [|done]. by apply Hn in Ht.
  - destruct (routes_below _ _ _ _ _ _ _ Hwf Hin) as [Hc _].
    pose proof Hin as Hin'. apply table_spec in Hin'; [|done].
    replace c with (Z.of_nat (Z.to_nat c)) in Hin', Hmax by lia.
    destruct (lpm_from _ _ _ _) as [p'|].
    + destruct HS as (c' & Hle & Ht & Hnone). f_equal.
      apply table_spec in Ht as Hin2; [|done]. apply Hmax in Hin2.
      destruct (decide (c' = Z.to_nat c)) as [->|Hne]; [congruence|].
      rewrite Hnone in Hin'; [done|lia].
    + rewrite HS in Hin'; [done|lia].
Qed.

(** The node the walk ends at owns its peer. *)
Lemma best_owner_or w t kv found n p : best w t kv found = Some (n, p) -> (n, p) ∈ owners t \/ found = Some (n, p).
Proof.
  revert found. induction t as [|m q c k l IHl r IHr]; intros found; cbn [best owners]; [auto|].
  rewrite !elem_of_app. case_if; [|auto].
  assert (Hq : (match q with Some p => Some (m, p) | None => found end) = Some (n, p) ->
    (n, p) ∈ match q with Some p => [(m, p)] | None => [] end \/ found = Some (n, p)).
  { destruct q; [|auto]. intros [= -> ->]. left. by apply list_elem_of_singleton. }
  case_if; [tauto|]. destruct (bitat w c kv); [intros H%IHr|intros H%IHl]; tauto.
Qed.

Lemma best_owner w t kv n p : best w t kv None = Some (n, p) -> (n, p) ∈ owners t.
Proof. intros [H|H]%best_owner_or; done. Qed.
