(* ===== verification/AllowedIpsHeap.v ===== *)
(** * AllowedIpsHeap: the pointer structure of allowedips.c represents a functional tree

    [repr] relates the heap reachable from a slot to a tree; [repr_ctx] does so for a tree with a
    hole, the shape the update functions work on. [relink] is the one pointer operation that both
    insertion and removal perform: store a subtree in a slot and fix its back pointer. *)

From S2P Require Import Prelude Skb AllowedIps AllowedIpsBits AllowedIpsTree.

Abbreviation heap := (gmap nid allowedips_node).

(** What a heap cell must hold for a tree node. *)
Definition node_ok (w : Z) (nd : allowedips_node) (p : option peer_id) (c k : Z) : Prop :=
  peer nd = p /\ cidr nd = c /\ kval w (bits nd) = k /\ bit_pos_ok w nd /\ bitlen nd = w /\
  wf_bytes (bits nd) /\ length (bits nd) = 16%nat.

Fixpoint repr (w : Z) (h : heap) (sp : slot * Z) (ptr : option nid) (t : tree) : Prop :=
  match t with
  | E => ptr = None
  | N n p c k l r =>
      ptr = Some n /\ exists nd, h !! n = Some nd /\ node_ok w nd p c k /\
        parent_bit_packed nd = sp /\
        repr w h (Bit n false, 0) (bit0 nd) l /\ repr w h (Bit n true, 1) (bit1 nd) r
  end.

(** The slot (with its tag) the hole of a context is stored in. *)
Definition ctx_slot (base : slot * Z) (ctx : list frame) : slot * Z :=
  match ctx with [] => base | f :: _ => (Bit (f_n f) (f_b f), Z.b2z (f_b f)) end.

(** [ptr] is what the slot of the hole currently holds; [rp] is the pointer to the whole tree. *)
Fixpoint repr_ctx (w : Z) (h : heap) (base : slot * Z) (rp : option nid) (ctx : list frame)
    (ptr : option nid) : Prop :=
  match ctx with
  | [] => ptr = rp
  | f :: ctx =>
      (exists nd, h !! f_n f = Some nd /\ node_ok w nd (f_p f) (f_c f) (f_k f) /\
         parent_bit_packed nd = ctx_slot base ctx /\ get_bit nd (f_b f) = ptr /\
         repr w h (Bit (f_n f) (negb (f_b f)), Z.b2z (negb (f_b f))) (get_bit nd (negb (f_b f))) (f_sib f)) /\
      repr_ctx w h base rp ctx (Some (f_n f))
  end.

Lemma repr_mk w h sp ptr n p c k b t s :
  repr w h sp ptr (mk n p c k b t s) <->
  ptr = Some n /\ exists nd, h !! n = Some nd /\ node_ok w nd p c k /\ parent_bit_packed nd = sp /\
    repr w h (Bit n b, Z.b2z b) (get_bit nd b) t /\
    repr w h (Bit n (negb b), Z.b2z (negb b)) (get_bit nd (negb b)) s.
Proof.
  destruct b; cbn [mk repr negb Z.b2z get_bit]; [|done].
  split; intros (? & nd & ? & ? & ? & ? & ?); (split; [done|]); exists nd; by split_and!.
Qed.

Lemma repr_plug w h base rp ctx t :
  repr w h base rp (plug ctx t) <->
  exists ptr, repr_ctx w h base rp ctx ptr /\ repr w h (ctx_slot base ctx) ptr t.
Proof.
  revert t. induction ctx as [|f ctx IH]; intros t.
  - cbn. split; [eauto|]. by intros (ptr & -> & H).
  - cbn [plug repr_ctx ctx_slot]. rewrite IH. unfold plug1. setoid_rewrite repr_mk. split.
    + intros (ptr & Hc & -> & nd & H1 & H2 & H3 & H4 & H5). exists (get_bit nd (f_b f)).
      split; [|done]. split; [|done]. by exists nd.
    + intros (ptr & ((nd & H1 & H2 & H3 & <- & H5) & Hc) & Ht). exists (Some (f_n f)).
      split; [done|]. split; [done|]. by exists nd.
Qed.

(** ** Framing *)

Lemma repr_frame w h h' sp ptr t :
  (forall n, n ∈ ids t -> h' !! n = h !! n) -> repr w h sp ptr t -> repr w h' sp ptr t.
Proof.
  revert sp ptr. induction t as [|n p c k l IHl r IHr]; intros sp ptr Ha; [done|].
  cbn [repr ids] in *. intros (-> & nd & H1 & H2 & H3 & H4 & H5). split; [done|].
  exists nd. rewrite Ha by (rewrite elem_of_cons; by left).
  split_and!; try done.
  - apply IHl; [|done]. intros m Hm. apply Ha. rewrite elem_of_cons, elem_of_app. tauto.
  - apply IHr; [|done]. intros m Hm. apply Ha. rewrite elem_of_cons, elem_of_app. tauto.
Qed.

Lemma elem_of_ids_ctx f ctx n :
  n ∈ ids_ctx (f :: ctx) <-> n = f_n f \/ n ∈ ids (f_sib f) \/ n ∈ ids_ctx ctx.
Proof. unfold ids_ctx. cbn [map concat]. rewrite elem_of_app, elem_of_cons. tauto. Qed.

Lemma repr_ctx_frame w h h' base rp ctx ptr :
  (forall n, n ∈ ids_ctx ctx -> h' !! n = h !! n) ->
  repr_ctx w h base rp ctx ptr -> repr_ctx w h' base rp ctx ptr.
Proof.
  revert ptr. induction ctx as [|f ctx IH]; intros ptr Ha; [done|].
  cbn [repr_ctx]. intros ((nd & H1 & H2 & H3 & H4 & H5) & Hc). split.
  - exists nd. rewrite Ha by (apply elem_of_ids_ctx; by left).
    split; [done|]. split; [done|]. split; [done|]. split; [done|].
    eapply repr_frame, H5. intros n Hn. apply Ha, elem_of_ids_ctx. tauto.
  - apply IH; [|done]. intros n Hn. apply Ha, elem_of_ids_ctx. tauto.
Qed.

Lemma repr_dom w h sp ptr t n : repr w h sp ptr t -> n ∈ ids t -> is_Some (h !! n).
Proof.
  revert sp ptr. induction t as [|m p c k l IHl r IHr]; intros sp ptr; cbn [repr ids].
  { by rewrite elem_of_nil. }
  intros (-> & nd & H1 & _ & _ & H4 & H5). rewrite elem_of_cons, elem_of_app.
  intros [->|[Hn|Hn]]; eauto.
Qed.

Lemma repr_empty w h sp t : repr w h sp None t -> t = E.
Proof. destruct t; [done|]. by intros (? & _). Qed.

Lemma repr_owner w h sp ptr t n p :
  repr w h sp ptr t -> (n, p) ∈ owners t -> exists nd, h !! n = Some nd /\ peer nd = Some p.
Proof.
  revert sp ptr. induction t as [|m q c k l IHl r IHr]; intros sp ptr; cbn [repr owners].
  { by rewrite elem_of_nil. }
  intros (-> & nd & H1 & H2 & _ & H4 & H5). rewrite !elem_of_app. intros [Hn|[Hn|Hn]]; eauto.
  destruct q as [q|]; [|by rewrite elem_of_nil in Hn]. apply list_elem_of_singleton in Hn. simplify_eq.
  exists nd. split; [done|]. apply H2.
Qed.

(** ** Relinking a subtree *)

Definition relink (sp : slot * Z) (ptr : option nid) (t : allowedips) : allowedips :=
  write_slot (fst sp) ptr
    match ptr with Some c => set_nodes (alter (set_parent sp) c) t | None => t end.

(** The effect of storing to a slot on the heap. *)
Definition store (s : slot) (ptr : option nid) (h : heap) : heap :=
  match s with Bit n b => alter (set_bit b ptr) n h | _ => h end.
Definition reparent (sp : slot * Z) (ptr : option nid) (h : heap) : heap :=
  match ptr with Some c => alter (set_parent sp) c h | None => h end.

Lemma nodes_relink sp ptr t : nodes (relink sp ptr t) = store (fst sp) ptr (reparent sp ptr (nodes t)).
Proof. unfold relink, store, reparent. destruct sp as [[] ?], ptr; done. Qed.

Lemma relink_lists sp ptr t :
  peer_lists (relink sp ptr t) = peer_lists t /\ rcu (relink sp ptr t) = rcu t /\ seq (relink sp ptr t) = seq t.
Proof. unfold relink. destruct sp as [[] ?], ptr; done. Qed.

Lemma node_ok_set_bit w nd p c k b v : node_ok w nd p c k -> node_ok w (set_bit b v nd) p c k.
Proof. done. Qed.

Lemma node_ok_set_parent w nd p c k sp : node_ok w nd p c k -> node_ok w (set_parent sp nd) p c k.
Proof. done. Qed.

Lemma get_set_bit b v nd : get_bit (set_bit b v nd) b = v.
Proof. by destruct b. Qed.

Lemma get_set_bit_other b v nd : get_bit (set_bit b v nd) (negb b) = get_bit nd (negb b).
Proof. by destruct b. Qed.

Lemma repr_reparent w h sp0 sp ptr t :
  repr w h sp0 ptr t -> NoDup (ids t) -> repr w (reparent sp ptr h) sp ptr t.
Proof.
  destruct t as [|n p c k l r]; [by intros ->|]. cbn [repr ids reparent].
  intros (-> & nd & H1 & H2 & H3 & H4 & H5) Hnd. apply NoDup_cons in Hnd as [Hn _].
  rewrite elem_of_app in Hn. split; [done|]. exists (set_parent sp nd). cbn [reparent].
  rewrite lookup_alter_eq, H1. split; [done|]. split; [done|]. split; [done|].
  split; (eapply repr_frame; [|done]); intros m Hm; apply lookup_alter_ne; intros <-; tauto.
Qed.

Lemma reparent_other sp ptr h n : ptr <> Some n -> reparent sp ptr h !! n = h !! n.
Proof. destruct ptr as [c|]; [|done]. intros. apply lookup_alter_ne. congruence. Qed.

Lemma store_other s ptr h n : (forall b, s <> Bit n b) -> store s ptr h !! n = h !! n.
Proof. destruct s; try done. intros. apply lookup_alter_ne. intros ->. by destruct (H b). Qed.

Lemma repr_ptr_in w h sp ptr t n : repr w h sp ptr t -> ptr = Some n -> n ∈ ids t.
Proof. destruct t; [by intros ->|]. cbn. intros (-> & _) [= ->]. rewrite elem_of_cons. by left. Qed.

Definition is_root (s : slot) : Prop := s = Root4 \/ s = Root6.

(** Storing the tree [s] in the hole of a context makes the heap represent the plugged tree, and
    touches no other node. *)
Lemma relink_repr w t base rp ctx ptr0 sp0 sptr s :
  repr_ctx w (nodes t) base rp ctx ptr0 -> repr w (nodes t) sp0 sptr s ->
  NoDup (ids_ctx ctx ++ ids s) -> (ctx = [] -> is_root (fst base)) ->
  let t' := relink (ctx_slot base ctx) sptr t in
  repr w (nodes t') base (match ctx with [] => sptr | _ => rp end) (plug ctx s) /\
  (forall n, n ∉ ids_ctx ctx ++ ids s -> nodes t' !! n = nodes t !! n).
Proof.
  intros Hc Hs Hnd Hroot t'. unfold t'. rewrite nodes_relink.
  apply NoDup_app in Hnd as (Hn1 & Hdis & Hn2).
  assert (Hs' : repr w (reparent (ctx_slot base ctx) sptr (nodes t)) (ctx_slot base ctx) sptr s)
    by (by eapply repr_reparent).
  assert (Hc' : repr_ctx w (reparent (ctx_slot base ctx) sptr (nodes t)) base rp ctx ptr0).
  { eapply repr_ctx_frame, Hc. intros n Hn. apply reparent_other. intros E.
    by apply (Hdis n Hn), (repr_ptr_in _ _ _ _ _ _ Hs). }
  assert (Hframe : forall n, n ∉ ids_ctx ctx ++ ids s ->
     reparent (ctx_slot base ctx) sptr (nodes t) !! n = nodes t !! n).
  { intros n Hn. apply reparent_other. intros E. apply Hn, elem_of_app. right.
    by apply (repr_ptr_in _ _ _ _ _ _ Hs). }
  set (h1 := reparent (ctx_slot base ctx) sptr (nodes t)) in *. clearbody h1. clear Hc Hs.
  destruct ctx as [|f ctx]; cbn [ctx_slot fst snd plug] in *.
  - assert (store (fst base) sptr h1 = h1) as -> by (destruct (Hroot eq_refl) as [-> | ->]; done). done.
  - assert (Hf : f_n f ∉ ids s) by (apply Hdis, elem_of_ids_ctx; by left).
    unfold ids_ctx in Hn1. cbn [map concat] in Hn1. fold (ids_ctx ctx) in Hn1. cbn in Hn1.
    apply NoDup_cons in Hn1 as [Hn1 _]. rewrite elem_of_app in Hn1.
    assert (Hst : forall n, n <> f_n f -> store (Bit (f_n f) (f_b f)) sptr h1 !! n = h1 !! n).
    { intros n Hn. cbn [store]. by apply lookup_alter_ne. }
    split.
    + change (plug ctx (plug1 f s)) with (plug (f :: ctx) s). apply repr_plug. exists sptr.
      cbn [ctx_slot repr_ctx] in *. destruct Hc' as ((nd & H1 & H2 & H3 & H4 & H5) & Hc'). split; [split|].
      * exists (set_bit (f_b f) sptr nd). cbn [store]. rewrite lookup_alter_eq, H1.
        split; [done|]. split; [done|]. split; [done|]. rewrite get_set_bit, get_set_bit_other. split; [done|].
        eapply repr_frame, H5. intros n Hn. apply Hst. intros ->. tauto.
      * eapply repr_ctx_frame, Hc'. intros n Hn. apply Hst. intros ->. tauto.
      * eapply repr_frame, Hs'. intros n Hn. apply Hst. by intros ->.
    + intros n Hn. rewrite Hst; [by apply Hframe|]. intros ->. apply Hn, elem_of_app. left.
      apply elem_of_ids_ctx. by left.
Qed.

(** The pointer stored in the hole is left alone by an update of the hole's node itself. *)
Lemma repr_alter_node w h sp n p c k l r p' :
  repr w h sp (Some n) (N n p c k l r) -> NoDup (ids (N n p c k l r)) ->
  repr w (alter (set_peer p') n h) sp (Some n) (N n p' c k l r).
Proof.
  cbn [repr ids]. intros (_ & nd & H1 & H2 & H3 & H4 & H5) Hnd. apply NoDup_cons in Hnd as [Hn _].
  rewrite elem_of_app in Hn. split; [done|]. exists (set_peer p' nd). rewrite lookup_alter_eq, H1.
  split; [done|]. split; [by destruct H2 as (? & ?)|]. split; [done|].
  split; (eapply repr_frame; [|done]); intros m Hm; apply lookup_alter_ne; intros <-; tauto.
Qed.

(** ** Walking the heap *)

Section Walk.
Context (w : Z) (Hw : is_width w) (h : heap) (key : bytes) (Hkey : wf_key w key).

Let kv := kval w key.

Lemma width_pos : 0 < w.
Proof. destruct Hw; lia. Qed.

Lemma kv_range : 0 <= kv < 2 ^ w.
Proof. apply kval_range; [done|]. apply Hkey. Qed.

Lemma prefix_matches_spec nd p c k :
  node_ok w nd p c k -> prefix_matches nd key w = (c <=? common w k kv).
Proof.
  intros (_ & Hc & Hk & _ & _ & Hb & _). unfold prefix_matches.
  rewrite common_bits_spec, Hc, Hk by (done || apply Hkey). done.
Qed.

Lemma choose_node nd p c k :
  node_ok w nd p c k -> 0 <= c < w -> choose nd key = bitat w c kv.
Proof.
  intros (_ & Hc & _ & Hp & _) ?. rewrite (choose_spec w) by (try rewrite Hc; done || apply Hkey).
  by rewrite Hc.
Qed.

(** [find_node] computes [best]. *)
Lemma find_node_loop_best t lo P fuel sp ptr found :
  0 <= lo -> wf w lo P t -> repr w h sp ptr t -> w - lo + 1 <= Z.of_nat fuel ->
  find_node_loop fuel h ptr w key (fst <$> found) = Some (fst <$> best w t kv found).
Proof.
  revert lo P fuel sp ptr found. induction t as [|n p c k l IHl r IHr]; intros lo P fuel sp ptr found Hlo.
  { cbn [repr]. intros _ -> _. by destruct fuel. }
  cbn [wf repr]. intros (Hc & Hk & HP & Hl & Hr) (-> & nd & H1 & H2 & H3 & H4 & H5) Hf.
  destruct fuel as [|fuel]; [lia|]. cbn [find_node_loop best]. rewrite H1. cbn [mbind option_bind].
  rewrite (prefix_matches_spec nd p c k H2).
  destruct (c <=? common w k kv); [|done].
  pose proof H2 as (Hpeer & Hcidr & _). rewrite Hpeer, Hcidr.
  assert (Hfound : match p with Some _ => Some n | None => fst <$> found end
     = fst <$> match p with Some p => Some (n, p) | None => found end) by (by destruct p).
  rewrite Hfound. destruct (Z.eqb_spec c w); [done|].
  rewrite (choose_node nd p c k H2) by lia. destruct (bitat w c kv); cbn [get_bit].
  - apply (IHr (c + 1) (2 * pfx w c k + 1) fuel (Bit n true, 1)); (done || lia).
  - apply (IHl (c + 1) (2 * pfx w c k) fuel (Bit n false, 0)); (done || lia).
Qed.

(** The condition under which [node_placement] stops above a subtree. *)
Definition stops (c : Z) (t : tree) : Prop :=
  match t with E => True | N _ _ c' k _ _ => ~ (c' <= c /\ pfx w c' k = pfx w c' kv) end.

(** The context lies on the path of the key, above the prefix length. *)
Definition on_path (ctx : list frame) (c : Z) : Prop :=
  hole_lo ctx <= c /\ pfx w (hole_lo ctx) kv = hole_P w ctx.

Definition ctx_parent (ctx : list frame) : option nid :=
  match ctx with [] => None | f :: _ => Some (f_n f) end.

Lemma node_placement_loop_spec c base rp sub ctx fuel ptr :
  0 <= c <= w -> 0 <= hole_lo ctx ->
  repr_ctx w h base rp ctx ptr -> repr w h (ctx_slot base ctx) ptr sub ->
  wf w (hole_lo ctx) (hole_P w ctx) sub -> on_path ctx c -> w - hole_lo ctx + 1 <= Z.of_nat fuel ->
  exists ctx' sub' ptr',
    plug ctx' sub' = plug ctx sub /\ repr_ctx w h base rp ctx' ptr' /\
    repr w h (ctx_slot base ctx') ptr' sub' /\ on_path ctx' c /\ 0 <= hole_lo ctx' /\
    ((exists n p k l r, sub' = N n p c k l r /\ pfx w c k = pfx w c kv /\
        node_placement_loop fuel h ptr key c w (ctx_parent ctx) = Some (true, Some n)) \/
     (stops c sub' /\ node_placement_loop fuel h ptr key c w (ctx_parent ctx) = Some (false, ctx_parent ctx'))).
Proof.
  intros Hc. revert ctx fuel ptr.
  induction sub as [|n p c' k l IHl r IHr]; intros ctx fuel ptr Hlo Hctx Hrep Hwf Hpath Hf.
  { cbn in Hrep. subst ptr. exists ctx, E, None. repeat (split; [done|]).
    right. split; [done|]. by destruct fuel. }
  pose proof Hrep as Hrep0. pose proof Hwf as Hwf0. cbn [wf] in Hwf.
  destruct Hwf as (Hc' & Hk & HP & Hl & Hr).
  cbn [repr] in Hrep. destruct Hrep as (-> & nd & H1 & H2 & H3 & H4 & H5).
  destruct fuel as [|fuel]; [lia|]. cbn [node_placement_loop]. rewrite H1. cbn [mbind option_bind].
  rewrite (prefix_matches_spec nd p c' k H2). pose proof H2 as (_ & Hcidr & _). rewrite Hcidr.
  pose proof kv_range as Hkv.
  destruct ((c' <=? c) && (c' <=? common w k kv)) eqn:Em.
  - bool_to_prop. assert (Hm : pfx w c' k = pfx w c' kv) by (apply pfx_common; lia).
    destruct (Z.eqb_spec c' c) as [->|Hne].
    + exists ctx, (N n p c k l r), (Some n). repeat (split; [done|]).
      left. by exists n, p, k, l, r.
    + rewrite (choose_node nd p c' k H2) by lia. set (b := bitat w c' kv).
      set (f := Fr n p c' k b (if b then l else r)).
      assert (Hplug : plug1 f (if b then r else l) = N n p c' k l r) by (by destruct b).
      assert (Hpath' : on_path (f :: ctx) c).
      { split; [cbn; lia|]. cbn [hole_lo hole_P f f_c f_k f_b]. rewrite pfx_succ by lia. by rewrite Hm. }
      assert (Hctx' : repr_ctx w h base rp (f :: ctx) (get_bit nd b)).
      { cbn [repr_ctx f f_n f_p f_c f_k f_b f_sib]. split; [|done]. exists nd.
        repeat (split; [done|]). by destruct b. }
      assert (Hrep' : repr w h (ctx_slot base (f :: ctx)) (get_bit nd b) (if b then r else l))
        by (by destruct b).
      assert (Hwf' : wf w (hole_lo (f :: ctx)) (hole_P w (f :: ctx)) (if b then r else l)).
      { cbn [hole_lo hole_P f f_c f_k f_b]. destruct b; cbn [Z.b2z]; [done|]. by rewrite Z.add_0_r. }
      change (Some n) with (ctx_parent (f :: ctx)).
      assert (Hgo : plug (f :: ctx) (if b then r else l) = plug ctx (N n p c' k l r))
        by (cbn [plug]; by rewrite Hplug).
      rewrite <- Hgo. destruct b.
      * apply IHr; try done; cbn [hole_lo f f_c]; lia.
      * apply IHl; try done; cbn [hole_lo f f_c]; lia.
  - exists ctx, (N n p c' k l r), (Some n). repeat (split; [done|]). right. split; [|done].
    intros [Hle Heq]. apply andb_false_iff in Em as [Em|Em]; bool_to_prop; [lia|].
    apply pfx_common in Heq; lia.
Qed.
End Walk.
