(* ===== verification/AllowedIpsInv.v ===== *)
(** * AllowedIpsInv: the invariant of the routing table and its preservation

    The table is in a good state when its two roots represent two well-formed compact trees with
    pairwise distinct nodes, every peer's list holds exactly the nodes that carry the peer, the
    memory waiting for a grace period is disjoint from both tries, and no other node is allocated. Insertion and removal are shown
    to preserve it and to act on the abstract routing tables as a map update and a filter. *)

From S2P Require Import Prelude Skb AllowedIps AllowedIpsBits AllowedIpsTree AllowedIpsHeap.

(** The IP version, [false] for IPv4 and [true] for IPv6, selects width, root and tree. *)
Definition width (v : bool) : Z := if v then 128 else 32.
Definition root_slot (v : bool) : slot := if v then Root6 else Root4.
Definition base (v : bool) : slot * Z := (root_slot v, 2).
Definition root_ptr (t : allowedips) (v : bool) : option nid := if v then root6 t else root4 t.

Abbreviation forest := (bool -> tree).
Definition fids (T : forest) : list nid := ids (T false) ++ ids (T true).
Definition fowners (T : forest) : list (nid * peer_id) := owners (T false) ++ owners (T true).
Definition fupd (T : forest) (v : bool) (t : tree) : forest := fun v' => if Bool.eqb v v' then t else T v'.

(** The memory a pending callback will free. *)
Inductive pending (h : heap) : rcu_callback -> list nid -> Prop :=
| pending_node n : is_Some (h !! n) -> pending h (node_free n) [n]
| pending_root v n t :
    repr (width v) h (base v) (Some n) t -> wf (width v) 0 0 t -> pending h (root_free n) (ids t).

Definition plist (t : allowedips) (p : peer_id) : list nid := default [] (peer_lists t !! p).

Record inv (t : allowedips) (T : forest) (dead : list (list nid)) : Prop := {
  inv_repr v : repr (width v) (nodes t) (base v) (root_ptr t v) (T v);
  inv_wf v : wf (width v) 0 0 (T v);
  inv_compact v : compact (T v);
  inv_nodup : NoDup (fids T ++ concat dead);
  inv_lists p n : n ∈ plist t p <-> (n, p) ∈ fowners T;
  inv_lists_nodup p : NoDup (plist t p);
  inv_rcu : Forall2 (pending (nodes t)) (rcu t) dead;
  inv_alloc n : is_Some (nodes t !! n) -> n ∈ fids T ++ concat dead
}.

(** ** Small facts *)

Lemma width_is_width v : is_width (width v).
Proof. destruct v; [by right|by left]. Qed.
#[export] Hint Resolve width_is_width : wg.

Lemma root_slot_is_root v : is_root (root_slot v).
Proof. destruct v; [by right|by left]. Qed.

Lemma read_root t v : read_slot t (root_slot v) = root_ptr t v.
Proof. by destruct v. Qed.

Lemma fids_split T v : fids T ≡ₚ ids (T v) ++ ids (T (negb v)).
Proof. destruct v; cbn; [apply Permutation_app_comm|done]. Qed.

Lemma fowners_split T v : fowners T ≡ₚ owners (T v) ++ owners (T (negb v)).
Proof. destruct v; cbn; [apply Permutation_app_comm|done]. Qed.

Lemma fupd_eq T v t : fupd T v t v = t.
Proof. unfold fupd. by rewrite Bool.eqb_reflx. Qed.

Lemma fupd_neg T v t : fupd T v t (negb v) = T (negb v).
Proof. by destruct v. Qed.

Lemma fids_upd T v t : fids (fupd T v t) ≡ₚ ids t ++ ids (T (negb v)).
Proof. by rewrite (fids_split _ v), fupd_eq, fupd_neg. Qed.

Lemma fowners_upd T v t : fowners (fupd T v t) ≡ₚ owners t ++ owners (T (negb v)).
Proof. by rewrite (fowners_split _ v), fupd_eq, fupd_neg. Qed.

Lemma pending_frame h h' cb ns :
  (forall n, n ∈ ns -> h' !! n = h !! n) -> pending h cb ns -> pending h' cb ns.
Proof.
  intros Ha Hp. destruct Hp as [n Hn|v n t Hr Hwf]; [constructor|econstructor].
  - by rewrite Ha by (by apply list_elem_of_singleton).
  - by eapply repr_frame.
  - done.
Qed.

Lemma pendings_frame h h' cbs dead :
  (forall n, n ∈ concat dead -> h' !! n = h !! n) ->
  Forall2 (pending h) cbs dead -> Forall2 (pending h') cbs dead.
Proof.
  intros Ha Hf. revert Ha. induction Hf as [|cb ns cbs dead Hp _ IH]; intros Ha; constructor.
  - eapply pending_frame, Hp. intros n Hn. apply Ha. cbn. rewrite elem_of_app. by left.
  - apply IH. intros n Hn. apply Ha. cbn. rewrite elem_of_app. by right.
Qed.

Lemma pending_in_heap h cb ns n : pending h cb ns -> n ∈ ns -> is_Some (h !! n).
Proof.
  intros [m Hm|v m t Hr _] Hn; [apply list_elem_of_singleton in Hn; by subst|by eapply repr_dom].
Qed.

Lemma dead_in_heap h cbs dead n : Forall2 (pending h) cbs dead -> n ∈ concat dead -> is_Some (h !! n).
Proof.
  induction 1 as [|cb ns cbs dead Hp _ IH]; cbn; [by rewrite elem_of_nil|].
  rewrite elem_of_app. intros [Hn|Hn]; [by eapply pending_in_heap|auto].
Qed.

(** Everything the invariant mentions is allocated. *)
Lemma inv_in_heap t T dead n : inv t T dead -> n ∈ fids T ++ concat dead -> is_Some (nodes t !! n).
Proof.
  intros I. unfold fids. rewrite !elem_of_app. intros [[Hn|Hn]|Hn].
  - by eapply (repr_dom _ _ _ _ (T false)), Hn; apply (inv_repr t T dead I false).
  - by eapply (repr_dom _ _ _ _ (T true)), Hn; apply (inv_repr t T dead I true).
  - by eapply dead_in_heap, Hn; apply I.
Qed.

Lemma inv_fresh t T dead n : inv t T dead -> nodes t !! n = None -> n ∉ fids T ++ concat dead.
Proof. intros I Hn Hin. destruct (inv_in_heap t T dead n I Hin). congruence. Qed.

(** The routes and the owners of a tree are about the same peers. *)
Lemma route_owner w t c P p : (c, P, p) ∈ routes w t -> exists n, (n, p) ∈ owners t.
Proof.
  induction t as [|n q c' k l IHl r IHr]; cbn [routes owners]; [by rewrite elem_of_nil|].
  setoid_rewrite elem_of_app. setoid_rewrite elem_of_app. intros [H|[H|H]].
  - destruct q; [|by rewrite elem_of_nil in H]. apply list_elem_of_singleton in H. simplify_eq.
    exists n. left. by apply list_elem_of_singleton.
  - destruct (IHl H) as [m Hm]. eauto.
  - destruct (IHr H) as [m Hm]. eauto.
Qed.

Lemma owner_id t n p : (n, p) ∈ owners t -> n ∈ ids t.
Proof.
  induction t as [|m q c k l IHl r IHr]; cbn [owners ids]; [by rewrite elem_of_nil|].
  rewrite !elem_of_app, elem_of_cons, elem_of_app. intros [H|[H|H]]; [|auto..].
  destruct q; [|by rewrite elem_of_nil in H]. apply list_elem_of_singleton in H. simplify_eq. auto.
Qed.

Lemma owners_nodup t : NoDup (ids t) -> NoDup (owners t).*1.
Proof.
  assert (Hsub : forall t n, n ∈ (owners t).*1 -> n ∈ ids t).
  { clear. intros t n ([m q] & -> & Hin)%list_elem_of_fmap. by eapply owner_id. }
  induction t as [|n q c k l IHl r IHr]; cbn [owners ids]; [done|].
  rewrite NoDup_cons, NoDup_app. intros (Hn & Hl & Hdis & Hr).
  assert (HR : NoDup (owners l ++ owners r).*1).
  { rewrite fmap_app. apply NoDup_app. split; [auto|]. split; [|auto]. intros m H1%Hsub H2%Hsub. by apply (Hdis m). }
  destruct q; [|done]. cbn. apply NoDup_cons. split; [|done]. rewrite fmap_app, elem_of_app.
  rewrite elem_of_app in Hn. naive_solver.
Qed.

Lemma plug_app ctx f t : plug (ctx ++ [f]) t = plug1 f (plug ctx t).
Proof. revert t. induction ctx as [|g ctx IH]; intros t; [done|]. apply IH. Qed.

(** The place of a node in a tree. *)
Lemma owner_place t n p :
  (n, p) ∈ owners t -> exists ctx c k l r, t = plug ctx (N n (Some p) c k l r).
Proof.
  induction t as [|m q c k l IHl r IHr]; cbn [owners]; [by rewrite elem_of_nil|].
  rewrite !elem_of_app. intros [H|[H|H]].
  - destruct q; [|by rewrite elem_of_nil in H]. apply list_elem_of_singleton in H. simplify_eq.
    by exists [], c, k, l, r.
  - destruct (IHl H) as (ctx & c' & k' & l' & r' & ->).
    exists (ctx ++ [Fr m q c k false r]), c', k', l', r'. by rewrite plug_app.
  - destruct (IHr H) as (ctx & c' & k' & l' & r' & ->).
    exists (ctx ++ [Fr m q c k true l]), c', k', l', r'. by rewrite plug_app.
Qed.

(** ** Peer lists *)

Lemma plist_add n p t q : plist (list_add_tail n p t) q = if decide (q = p) then plist t p ++ [n] else plist t q.
Proof.
  unfold plist, list_add_tail; cbn [set_peer_lists peer_lists]. rewrite lookup_insert.
  destruct (decide (q = p)) as [->|]; [by rewrite decide_True|by rewrite decide_False by congruence].
Qed.

Lemma plist_del n t q : plist (list_del n t) q = List.filter (fun m => negb (bool_decide (m = n))) (plist t q).
Proof.
  unfold plist, list_del; cbn [set_peer_lists peer_lists]. rewrite lookup_fmap. by destruct (peer_lists t !! q).
Qed.

Lemma elem_of_plist_del n t q m : m ∈ plist (list_del n t) q <-> m <> n /\ m ∈ plist t q.
Proof.
  rewrite plist_del, !list_elem_of_In, filter_In, negb_true_iff, bool_decide_eq_false. tauto.
Qed.

Lemma NoDup_plist_del n t q : NoDup (plist t q) -> NoDup (plist (list_del n t) q).
Proof. rewrite plist_del, !NoDup_ListNoDup. apply List.NoDup_filter. Qed.

(** ** Assembling a new state *)

(** Replace the tree of one version. *)
Lemma inv_build t T dead t' v tr dead' :
  inv t T dead ->
  repr (width v) (nodes t') (base v) (root_ptr t' v) tr -> root_ptr t' (negb v) = root_ptr t (negb v) ->
  (forall n, n ∈ ids (T (negb v)) -> nodes t' !! n = nodes t !! n) ->
  wf (width v) 0 0 tr -> compact tr -> NoDup (ids tr ++ ids (T (negb v)) ++ concat dead') ->
  (forall p n, n ∈ plist t' p <-> (n, p) ∈ owners tr ++ owners (T (negb v))) ->
  (forall p, NoDup (plist t' p)) -> Forall2 (pending (nodes t')) (rcu t') dead' ->
  (forall n, is_Some (nodes t' !! n) -> n ∈ ids tr ++ ids (T (negb v)) ++ concat dead') ->
  inv t' (fupd T v tr) dead'.
Proof.
  intros I Hr Hroot Hfr Hwf Hc Hnd Hl Hln Hp Halloc.
  assert (Hcase : forall (P : bool -> Prop), P v -> P (negb v) -> forall v', P v').
  { intros P ?? v'. destruct v, v'; done. }
  split; try done.
  - apply Hcase; rewrite ?fupd_eq, ?fupd_neg; [done|]. rewrite Hroot.
    eapply repr_frame; [done|]. apply (inv_repr t T dead I (negb v)).
  - apply Hcase; rewrite ?fupd_eq, ?fupd_neg; [done|]. apply (inv_wf t T dead I).
  - apply Hcase; rewrite ?fupd_eq, ?fupd_neg; [done|]. apply (inv_compact t T dead I).
  - by rewrite fids_upd, <- app_assoc.
  - intros p n. by rewrite fowners_upd.
  - intros n Hn. rewrite fids_upd, <- app_assoc. auto.
Qed.

Definition same_meta (t t' : allowedips) : Prop :=
  peer_lists t' = peer_lists t /\ rcu t' = rcu t.
Definition same_outside (ns : list nid) (t t' : allowedips) : Prop :=
  forall n, n ∉ ns -> nodes t' !! n = nodes t !! n.

Lemma same_outside_trans ns t1 t2 t3 : same_outside ns t1 t2 -> same_outside ns t2 t3 -> same_outside ns t1 t3.
Proof. intros H1 H2 n Hn. by rewrite H2, H1. Qed.

Lemma same_outside_weaken ns ns' t t' : same_outside ns t t' -> (forall n, n ∈ ns -> n ∈ ns') -> same_outside ns' t t'.
Proof. intros H Hs n Hn. apply H. intros ?. by apply Hn, Hs. Qed.

Lemma relink_root sp ptr t v : (forall v', fst sp <> root_slot v') -> root_ptr (relink sp ptr t) v = root_ptr t v.
Proof.
  intros H. pose proof (H false) as H4. pose proof (H true) as H6. cbn in *.
  destruct sp as [[]?], ptr, v; cbn in *; congruence.
Qed.

Lemma relink_base ptr t v : root_ptr (relink (base v) ptr t) v = ptr.
Proof. by destruct v, ptr. Qed.

Lemma relink_base_neg ptr t v : root_ptr (relink (base v) ptr t) (negb v) = root_ptr t (negb v).
Proof. by destruct v, ptr. Qed.

Lemma bit_not_root n b v : Bit n b <> root_slot v.
Proof. by destruct v. Qed.

(** [relink] at a context of a root. *)
Lemma relink_root_ctx v t ctx ptr0 sp0 sptr s :
  repr_ctx (width v) (nodes t) (base v) (root_ptr t v) ctx ptr0 ->
  repr (width v) (nodes t) sp0 sptr s -> NoDup (ids_ctx ctx ++ ids s) ->
  let t' := relink (ctx_slot (base v) ctx) sptr t in
  repr (width v) (nodes t') (base v) (root_ptr t' v) (plug ctx s) /\
  root_ptr t' (negb v) = root_ptr t (negb v) /\ same_outside (ids_ctx ctx ++ ids s) t t' /\ same_meta t t'.
Proof.
  intros Hc Hs Hnd t'.
  destruct (relink_repr (width v) t (base v) (root_ptr t v) ctx ptr0 sp0 sptr s Hc Hs Hnd
              ltac:(intros; apply root_slot_is_root)) as [Hr Hf].
  fold t' in Hr, Hf. destruct (relink_lists (ctx_slot (base v) ctx) sptr t) as (Hp & Hrcu & _).
  split; [|split; [|by split]].
  - destruct ctx as [|f ctx].
    + unfold t' at 2. cbn [ctx_slot]. by rewrite relink_base.
    + unfold t' at 2. cbn [ctx_slot]. rewrite relink_root by (intros; apply bit_not_root). done.
  - unfold t'. destruct ctx as [|f ctx]; cbn [ctx_slot]; [apply relink_base_neg|].
    apply relink_root. intros; apply bit_not_root.
Qed.

(** [choose_and_connect_node] fills an empty side of a node with a subtree. *)
Lemma choose_and_connect_spec w t n p c k b sib sp sp0 d pd cd kd l r :
  is_width w -> 0 <= c < w -> bitat w c kd = b ->
  repr w (nodes t) sp (Some n) (mk n p c k b E sib) ->
  repr w (nodes t) sp0 (Some d) (N d pd cd kd l r) ->
  NoDup (n :: ids sib ++ ids (N d pd cd kd l r)) ->
  exists t', choose_and_connect_node n d t = Some t' /\
    repr w (nodes t') sp (Some n) (mk n p c k b (N d pd cd kd l r) sib) /\
    same_outside (n :: ids sib ++ ids (N d pd cd kd l r)) t t' /\ same_meta t t' /\
    (forall v, root_ptr t' v = root_ptr t v).
Proof.
  intros Hw Hc Hb Hn Hd Hnd. set (s := N d pd cd kd l r) in *.
  apply repr_mk in Hn as (_ & nd & H1 & H2 & H3 & H4 & H5). cbn [repr] in H4.
  pose proof Hd as (_ & dnd & D1 & (_ & _ & Dk & _ & _ & Db & _) & _).
  set (f := Fr n p c k b sib).
  assert (Hctx : repr_ctx w (nodes t) sp (Some n) [f] None).
  { cbn. split; [|done]. exists nd. by split_and!. }
  assert (Hids : ids_ctx [f] ++ ids s = n :: ids sib ++ ids s).
  { unfold ids_ctx. cbn. by rewrite app_nil_r. }
  destruct (relink_repr w t sp (Some n) [f] None sp0 (Some d) s Hctx Hd ltac:(by rewrite Hids) ltac:(done)) as [Hr Hf].
  cbn [ctx_slot f f_n f_b] in Hr, Hf. rewrite Hids in Hf.
  exists (relink (Bit n b, Z.b2z b) (Some d) t). split; [|split; [|split; [|split]]].
  - unfold choose_and_connect_node. rewrite H1. cbn [mbind option_bind]. rewrite D1. cbn [mbind option_bind].
    destruct H2 as (_ & Hcid & _ & Hpos & _).
    rewrite (choose_spec w nd (bits dnd)) by (try rewrite Hcid; done).
    rewrite Hcid, Dk, Hb. done.
  - done.
  - done.
  - split; apply relink_lists.
  - intros v. apply relink_root. intros. apply bit_not_root.
Qed.

(** [connect_below] hangs a subtree in the hole found by [node_placement]. *)
Lemma connect_below_spec v t ctx ptr0 sp0 d pd cd kd l r :
  repr_ctx (width v) (nodes t) (base v) (root_ptr t v) ctx ptr0 ->
  repr (width v) (nodes t) sp0 (Some d) (N d pd cd kd l r) ->
  NoDup (ids_ctx ctx ++ ids (N d pd cd kd l r)) ->
  match ctx with [] => True | f :: _ => 0 <= f_c f < width v /\ bitat (width v) (f_c f) kd = f_b f end ->
  exists t', connect_below (ctx_parent ctx) (root_slot v) d t = Some t' /\
    repr (width v) (nodes t') (base v) (root_ptr t' v) (plug ctx (N d pd cd kd l r)) /\
    root_ptr t' (negb v) = root_ptr t (negb v) /\
    same_outside (ids_ctx ctx ++ ids (N d pd cd kd l r)) t t' /\ same_meta t t'.
Proof.
  intros Hc Hd Hnd Hbit. set (s := N d pd cd kd l r) in *.
  exists (relink (ctx_slot (base v) ctx) (Some d) t). split; [|by eapply relink_root_ctx].
  pose proof Hd as (_ & dnd & D1 & (_ & _ & Dk & _ & _ & Db & _) & _).
  destruct ctx as [|f ctx]; [done|]. cbn [ctx_parent connect_below ctx_slot].
  destruct Hc as ((nd & H1 & H2 & _) & _). unfold choose_and_connect_node.
  rewrite H1. cbn [mbind option_bind]. rewrite D1. cbn [mbind option_bind].
  destruct H2 as (_ & Hcid & _ & Hpos & _). destruct Hbit as [Hrange Hbit].
  rewrite (choose_spec (width v) nd (bits dnd)) by (try rewrite Hcid; auto with wg).
  rewrite Hcid, Dk, Hbit. done.
Qed.
