(* ===== verification/AllowedIpsAdd.v ===== *)
(** * AllowedIpsAdd: what [add] does to the routing table

    Insertion is followed through its cases (an empty trie, an exact match, a leaf, a new node on
    an edge, a fork) and shown to insert one entry in the abstract table, or to leave it alone when
    an allocation fails. *)

From S2P Require Import Prelude Skb AllowedIps AllowedIpsBits AllowedIpsTree AllowedIpsHeap AllowedIpsInv.

(** The allocator returns addresses that are not in use, and a different one each time. *)
Definition fresh (t : allowedips) (mem1 mem2 : option nid) : Prop :=
  (forall n, mem1 = Some n -> nodes t !! n = None) /\
  (forall n, mem2 = Some n -> nodes t !! n = None /\ mem1 <> Some n).

Lemma mk_N n p c k b t s : mk n p c k b t s = N n p c k (if b then s else t) (if b then t else s).
Proof. by destruct b. Qed.

Lemma mk_flip n p c k b t s : mk n p c k (negb b) t s = mk n p c k b s t.
Proof. by destruct b. Qed.

Lemma mk_owners n p c k b t s :
  owners (mk n p c k b t s) ≡ₚ match p with Some p => [(n, p)] | None => [] end ++ owners t ++ owners s.
Proof. destruct b; cbn [mk owners]; solve_Permutation. Qed.

Lemma mk_routes w n p c k b t s :
  routes w (mk n p c k b t s) ≡ₚ
  match p with Some p => [(c, pfx w c k, p)] | None => [] end ++ routes w t ++ routes w s.
Proof. destruct b; cbn [mk routes]; solve_Permutation. Qed.

Lemma mk_compact n p c k b t s :
  compact (mk n p c k b t s) <-> (p = None -> t <> E /\ s <> E) /\ compact t /\ compact s.
Proof. destruct b; cbn [mk compact]; tauto. Qed.

Lemma wf_ctx_lo w ctx : wf_ctx w ctx -> 0 <= hole_lo ctx.
Proof. induction ctx as [|f ctx IH]; cbn [wf_ctx hole_lo]; [done|]. intros [(? & _) ?%IH]. lia. Qed.

Lemma owner_ctx_id ctx n p : (n, p) ∈ owners_ctx ctx -> n ∈ ids_ctx ctx.
Proof.
  induction ctx as [|f ctx IH]; [by rewrite elem_of_nil|]. rewrite elem_of_ids_ctx.
  unfold owners_ctx. cbn [map concat]. rewrite !elem_of_app. intros [[H|H%owner_id]|H]; [|auto..].
  destruct (f_p f); [|by rewrite elem_of_nil in H]. apply list_elem_of_singleton in H. simplify_eq. auto.
Qed.

(** A freshly filled node is a one-node tree. *)
Lemma repr_new w h n q key c :
  is_width w -> wf_key w key ->
  repr w (<[n := copy_and_assign_cidr (set_peer q zero_node) key c w]> h) (Null, 0) (Some n)
    (N n q c (kval w key) E E).
Proof.
  intros Hw Hk. cbn [repr]. split; [done|]. eexists. rewrite lookup_insert_eq. split; [done|].
  split; [|done]. unfold node_ok.
  destruct (copy_wf w (set_peer q zero_node) key c Hw Hk eq_refl ltac:(apply zeroes_wf)) as [Hl Hwf].
  split; [done|]. split; [done|]. split; [by apply kval_copy|]. split; [done|]. split; [done|]. done.
Qed.

(** The invariant does not look at the sequence number and at the representation of the lists. *)
Lemma inv_same t t' T dead :
  inv t T dead -> nodes t' = nodes t -> (forall v, root_ptr t' v = root_ptr t v) -> rcu t' = rcu t ->
  (forall p, plist t' p = plist t p) -> inv t' T dead.
Proof.
  intros [] Hn Hr Hc Hl. split; rewrite ?Hn; try done.
  - intros v. by rewrite Hr.
  - intros p n. by rewrite Hl.
  - intros p. by rewrite Hl.
  - by rewrite Hc.
Qed.

Lemma inv_inc_seq t T dead : inv t T dead -> inv (inc_seq t) T dead.
Proof. intros. by eapply inv_same. Qed.

(** Replacing the tree in a hole by one that has one more route. *)
Lemma inv_plug_new t T dead t' v ctx sub sub' n p c P new :
  inv t T dead -> T v = plug ctx sub -> (forall m, m ∈ new -> nodes t !! m = None) -> NoDup new ->
  repr (width v) (nodes t') (base v) (root_ptr t' v) (plug ctx sub') ->
  root_ptr t' (negb v) = root_ptr t (negb v) ->
  same_outside (ids_ctx ctx ++ ids sub') t t' -> rcu t' = rcu t ->
  (forall q, plist t' q = if decide (q = p) then plist t p ++ [n] else plist t q) ->
  ids sub' ≡ₚ new ++ ids sub -> owners sub' ≡ₚ (n, p) :: owners sub ->
  routes (width v) sub' ≡ₚ (c, P, p) :: routes (width v) sub -> n ∈ new ->
  wf_ctx (width v) ctx -> wf (width v) (hole_lo ctx) (hole_P (width v) ctx) sub' ->
  compact (plug ctx sub') ->
  inv t' (fupd T v (plug ctx sub')) dead /\
  table (width v) (plug ctx sub') = <[(c, P) := p]> (table (width v) (T v)).
Proof.
  intros I HT Hnew Hnd Hr Hroot Hfr Hrcu Hpl Hids Hown Hrts Hn Hctx Hwf Hcomp.
  pose proof (inv_nodup _ _ _ I) as HND. rewrite (fids_split _ v), HT, ids_plug in HND.
  assert (Hfresh : forall m, m ∈ new -> m ∉ (ids_ctx ctx ++ ids sub) ++ ids (T (negb v)) ++ concat dead).
  { intros m Hm Hin. eapply (inv_fresh t T dead m I); [by apply Hnew|].
    rewrite (fids_split _ v), HT, ids_plug. by rewrite <- app_assoc. }
  rewrite <- app_assoc in HND.
  assert (HND' : NoDup (new ++ (ids_ctx ctx ++ ids sub) ++ ids (T (negb v)) ++ concat dead)).
  { apply NoDup_app. done. }
  assert (Hperm : new ++ (ids_ctx ctx ++ ids sub) ++ ids (T (negb v)) ++ concat dead ≡ₚ
                  (ids_ctx ctx ++ ids sub') ++ ids (T (negb v)) ++ concat dead).
  { rewrite Hids. solve_Permutation. }
  rewrite Hperm in HND'. pose proof HND' as (_ & Hdis & _)%NoDup_app.
  assert (Hout : forall m, m ∈ ids (T (negb v)) ++ concat dead -> nodes t' !! m = nodes t !! m).
  { intros m Hm. apply Hfr. intros Hin. by apply (Hdis m Hin). }
  assert (Hwf' : wf (width v) 0 0 (plug ctx sub')) by (by apply wf_plug).
  split.
  - eapply inv_build; try done.
    + intros m Hm. apply Hout, elem_of_app. by left.
    + by rewrite ids_plug.
    + intros q m. rewrite owners_plug, Hown.
      assert (Hold : m ∈ plist t q <-> (m, q) ∈ owners_ctx ctx ++ owners sub ++ owners (T (negb v))).
      { rewrite (inv_lists _ _ _ I q m), (fowners_split _ v), HT, owners_plug. by rewrite <- app_assoc. }
      rewrite Hpl. rewrite !elem_of_app in Hold |- *. rewrite elem_of_cons.
      destruct (decide (q = p)) as [->|Hne].
      * rewrite elem_of_app, Hold, list_elem_of_singleton. naive_solver.
      * rewrite Hold. naive_solver.
    + intros q. rewrite Hpl. pose proof (inv_lists_nodup _ _ _ I q) as Hq.
      destruct (decide (q = p)) as [->|]; [|done]. apply NoDup_app. split; [done|].
      split; [|apply NoDup_singleton]. intros m Hm [= ->]%list_elem_of_singleton.
      apply (inv_lists _ _ _ I) in Hm. eapply (Hfresh n Hn).
      rewrite app_assoc. apply elem_of_app. left. rewrite <- ids_plug, <- HT, <- (fids_split T v).
      unfold fids, fowners in *. rewrite elem_of_app in Hm. rewrite elem_of_app.
      destruct Hm as [Hm|Hm]; apply owner_id in Hm; auto.
    + rewrite Hrcu. eapply pendings_frame; [|apply (inv_rcu _ _ _ I)]. intros m Hm. apply Hout, elem_of_app. by right.
    + intros m Hm. rewrite ids_plug, <- Hperm, elem_of_app. destruct (decide (m ∈ ids_ctx ctx ++ ids sub')) as [Hin|Hin].
      * rewrite Hids, !elem_of_app in Hin. rewrite !elem_of_app. tauto.
      * rewrite (Hfr m Hin) in Hm. apply (inv_alloc _ _ _ I) in Hm.
        rewrite (fids_split _ v), HT, ids_plug, <- app_assoc in Hm. by right.
  - rewrite (table_perm (width v) (plug ctx sub') (T v) [(c, P, p)]); [|done|].
    + cbn [map route_key]. by rewrite list_to_map_cons, list_to_map_nil, insert_empty, insert_union_singleton_l.
    + rewrite HT, !routes_plug, Hrts. solve_Permutation.
Qed.

(** ** The cases of [add] *)

Section Add.
Context (t : allowedips) (T : forest) (dead : list (list nid)) (I : inv t T dead).
Context (v : bool) (key : bytes) (Hkey : wf_key (width v) key) (c : Z) (Hc : 0 <= c <= width v) (p : peer_id).

Let w := width v.
Let kv := kval w key.

(** What a successful insertion achieves. *)
Definition inserted (t' : allowedips) : Prop :=
  exists tr, inv t' (fupd T v tr) dead /\ table w tr = <[(c, pfx w c kv) := p]> (table w (T v)).

Local Definition newnode_of := copy_and_assign_cidr (set_peer (Some p) zero_node) key c w.
Local Definition with_new (n : nid) := list_add_tail n p (set_nodes (insert n newnode_of) t).

Lemma with_new_repr n : repr w (nodes (with_new n)) (Null, 0) (Some n) (N n (Some p) c kv E E).
Proof. apply repr_new; [apply width_is_width|done]. Qed.

Lemma with_new_other n m : m <> n -> nodes (with_new n) !! m = nodes t !! m.
Proof. intros. cbn. by apply lookup_insert_ne. Qed.

Lemma with_new_plist n q t' :
  peer_lists t' = peer_lists (with_new n) ->
  plist t' q = if decide (q = p) then plist t p ++ [n] else plist t q.
Proof. intros H. unfold plist at 1. rewrite H. apply (plist_add n p (set_nodes (insert n newnode_of) t) q). Qed.

Lemma fresh_not_in n ctx sub :
  nodes t !! n = None -> T v = plug ctx sub -> n ∉ ids_ctx ctx ++ ids sub.
Proof.
  intros Hn HT Hin. eapply (inv_fresh t T dead n I Hn). rewrite (fids_split _ v), HT, ids_plug.
  rewrite !elem_of_app in *. tauto.
Qed.

Lemma plug_nodup ctx sub : T v = plug ctx sub -> NoDup (ids_ctx ctx ++ ids sub).
Proof.
  intros HT. pose proof (inv_nodup _ _ _ I) as H. rewrite (fids_split _ v), HT, ids_plug in H.
  rewrite <- app_assoc in H. by apply NoDup_app in H as (H & _).
Qed.

Lemma plug_wf ctx sub : T v = plug ctx sub -> wf_ctx w ctx /\ wf w (hole_lo ctx) (hole_P w ctx) sub.
Proof. intros HT. apply wf_plug. rewrite <- HT. apply (inv_wf _ _ _ I). Qed.

(** Nodes that are not in a tree yet stay apart from its other nodes. *)
Lemma nodup_grow new ctx sub :
  T v = plug ctx sub -> (forall m, m ∈ new -> nodes t !! m = None) -> NoDup new -> NoDup (ids_ctx ctx ++ new ++ ids sub).
Proof.
  intros HT Hnew Hnd. rewrite Permutation_app_swap_app. apply NoDup_app. split; [done|]. split; [|by apply plug_nodup].
  intros m Hm. apply fresh_not_in; [by apply Hnew|done].
Qed.

(** The last branch of the path leads to the hole. *)
Lemma on_path_frame f ctx : on_path w key (f :: ctx) c -> f_c f < w /\ bitat w (f_c f) kv = f_b f.
Proof.
  intros [Hlo HP]. cbn [hole_lo hole_P] in *. assert (f_c f < w) by (unfold w in *; lia). split; [done|].
  rewrite pfx_succ in HP by done. fold kv in HP. destruct (bitat w (f_c f) kv), (f_b f); cbn in *; (done || lia).
Qed.

Lemma ctx_side ctx :
  wf_ctx w ctx -> on_path w key ctx c ->
  match ctx with [] => True | f :: _ => 0 <= f_c f < w /\ bitat w (f_c f) kv = f_b f end.
Proof.
  destruct ctx as [|f ctx]; [done|]. intros [(Hlo & _) Hwc%wf_ctx_lo] Hp%on_path_frame. split; [lia|tauto].
Qed.

(** A leaf in an empty hole. *)
Lemma add_leaf n ctx ptr0 :
  T v = plug ctx E -> repr_ctx w (nodes t) (base v) (root_ptr t v) ctx ptr0 -> on_path w key ctx c ->
  nodes t !! n = None -> compact_ctx ctx ->
  inserted (relink (ctx_slot (base v) ctx) (Some n) (with_new n)).
Proof.
  intros HT Hctx Hpath Hn Hcc. set (sub := N n (Some p) c kv E E).
  pose proof (fresh_not_in n ctx E Hn HT) as Hfr. rewrite app_nil_r in Hfr.
  pose proof (plug_nodup ctx E HT) as Hnd. rewrite app_nil_r in Hnd.
  destruct (plug_wf ctx E HT) as [Hwc _].
  assert (Hctx' : repr_ctx w (nodes (with_new n)) (base v) (root_ptr (with_new n) v) ctx ptr0).
  { eapply repr_ctx_frame, Hctx. intros m Hm. apply with_new_other. by intros ->. }
  destruct (relink_root_ctx v (with_new n) ctx ptr0 _ _ _ Hctx' (with_new_repr n)) as (Hr & Hroot & Hout & Hmeta & Hrcu).
  { apply NoDup_app. split; [done|]. split; [|by apply NoDup_singleton].
    intros m Hm [= ->]%list_elem_of_singleton. done. }
  exists (plug ctx sub). eapply (inv_plug_new t T dead _ v ctx E sub n p c _ [n]); try done.
  - intros m [= ->]%list_elem_of_singleton. done.
  - apply NoDup_singleton.
  - intros m Hm. rewrite (Hout m Hm). apply with_new_other. intros ->. apply Hm, elem_of_app. right. set_solver.
  - intros q. by apply with_new_plist.
  - set_solver.
  - destruct Hpath as [Hlo HP]. cbn [wf sub]. unfold w in *. pose proof (kv_range (width v) (width_is_width v) key Hkey).
    split; [lia|]. split; [done|]. done.
  - by apply compact_plug.
Qed.

(** The new node between the hole and the subtree below it. *)
Lemma add_above n ctx d pd cd kd l r :
  let sub := N d pd cd kd l r in
  T v = plug ctx sub -> repr_ctx w (nodes t) (base v) (root_ptr t v) ctx (Some d) ->
  repr w (nodes t) (ctx_slot (base v) ctx) (Some d) sub -> on_path w key ctx c ->
  nodes t !! n = None -> c < cd -> pfx w c kd = pfx w c kv ->
  exists t2 t3, choose_and_connect_node n d (with_new n) = Some t2 /\
    connect_below (ctx_parent ctx) (root_slot v) n t2 = Some t3 /\ inserted t3.
Proof.
  intros sub HT Hctx Hsub Hpath Hn Hcd Hpfx.
  pose proof (fresh_not_in n ctx sub Hn HT) as Hfr. pose proof (plug_nodup ctx sub HT) as Hnd.
  destruct (plug_wf ctx sub HT) as [Hwc Hws].
  pose proof Hws as (Hcdr & Hkd & HPd & Hwl & Hwr). cbn [sub] in *.
  pose proof (inv_compact _ _ _ I v) as Hcomp. rewrite HT in Hcomp.
  apply compact_plug in Hcomp as [Hcc Hcs]; [|done].
  rewrite elem_of_app in Hfr. apply NoDup_app in Hnd as (Hn1 & Hdis & Hn2).
  assert (Hctx' : repr_ctx w (nodes (with_new n)) (base v) (root_ptr (with_new n) v) ctx (Some d)).
  { eapply repr_ctx_frame, Hctx. intros m Hm. apply with_new_other. intros ->. tauto. }
  assert (Hsub' : repr w (nodes (with_new n)) (ctx_slot (base v) ctx) (Some d) sub).
  { eapply repr_frame, Hsub. intros m Hm. apply with_new_other. intros ->. tauto. }
  set (b := bitat w c kd).
  pose proof (with_new_repr n) as Hnew.
  assert (HE : N n (Some p) c kv E E = mk n (Some p) c kv b E E) by (by destruct b). rewrite HE in Hnew.
  destruct (choose_and_connect_spec w (with_new n) n (Some p) c kv b E (Null, 0) _ d pd cd kd l r
    (width_is_width v) ltac:(unfold w in *; lia) eq_refl Hnew Hsub') as (t2 & E2 & Hr2 & Hout2 & [Hm2 Hm2'] & Hroot2).
  { cbn [ids app]. fold sub. apply NoDup_cons. split; [tauto|done]. }
  fold sub in Hr2, Hout2. cbn [ids app] in Hout2.
  assert (Hids2 : ids (mk n (Some p) c kv b sub E) ≡ₚ n :: ids sub) by (rewrite mk_perm_ids; done).
  rewrite mk_N in Hr2.
  destruct (connect_below_spec v t2 ctx (Some d) (Null, 0) n (Some p) c kv
    (if b then E else sub) (if b then sub else E)) with (2 := Hr2)
    as (t3 & E3 & Hr3 & Hroot3 & Hout3 & Hm3 & Hm3').
  { rewrite Hroot2. eapply repr_ctx_frame, Hctx'. intros m Hm. apply Hout2.
    rewrite elem_of_cons. intros [->|Hin]; [tauto|]. by apply (Hdis m). }
  { rewrite <- mk_N, Hids2. apply (nodup_grow [n]); [done|set_solver|apply NoDup_singleton]. }
  { by apply ctx_side. }
  exists t2, t3. split; [done|]. split; [done|].
  rewrite <- mk_N in Hr3, Hout3. exists (plug ctx (mk n (Some p) c kv b sub E)).
  eapply (inv_plug_new t T dead _ v ctx sub (mk n (Some p) c kv b sub E) n p c _ [n]); try done.
  - intros m [= ->]%list_elem_of_singleton. done.
  - apply NoDup_singleton.
  - rewrite Hroot3, Hroot2. done.
  - intros m Hm. rewrite (Hout3 m Hm). rewrite Hids2, elem_of_app, elem_of_cons in Hm.
    rewrite Hout2 by (rewrite elem_of_cons; tauto). apply with_new_other. tauto.
  - by rewrite Hm3', Hm2'.
  - intros q. apply with_new_plist. congruence.
  - rewrite mk_owners. cbn [owners]. by rewrite app_nil_r.
  - rewrite mk_routes. cbn [routes]. by rewrite app_nil_r.
  - set_solver.
  - destruct Hpath as [Hlo HP]. apply wf_mk. unfold w in *. pose proof (kv_range (width v) (width_is_width v) key Hkey).
    split; [split_and!; (done || lia)|]. cbn [wf sub]. split_and!; try (done || lia).
    rewrite pfx_succ by lia. by rewrite Hpfx.
  - apply compact_plug; [by rewrite mk_N|]. split; [done|]. apply mk_compact. done.
Qed.

Local Definition mid_of (c' : Z) := copy_and_assign_cidr zero_node (bits newnode_of) c' w.

Lemma with_mid_repr n mid c' :
  repr w (nodes (set_nodes (insert mid (mid_of c')) (with_new n))) (Null, 0) (Some mid)
    (N mid None c' kv E E).
Proof.
  assert (Hk : wf_key w (bits newnode_of) /\ kval w (bits newnode_of) = kv).
  { destruct (copy_wf w (set_peer (Some p) zero_node) key c (width_is_width v) Hkey eq_refl (zeroes_wf _)) as [Hl Hb].
    split; [|apply kval_copy; [apply width_is_width|done|done]]. split; [done|]. unfold newnode_of. rewrite Hl. unfold w. destruct (width_is_width v) as [-> | ->]; vm_compute; discriminate. }
  destruct Hk as [Hk <-]. apply (repr_new w _ mid None _ c'); [apply width_is_width|done].
Qed.

(** A fork: a node without a peer at the common prefix of the new route and the old subtree. *)
Local Definition leaf_of (n : nid) : tree := N n (Some p) c kv E E.
Local Definition fork_of (n mid : nid) (c' : Z) (b : bool) (sub : tree) : tree := mk mid None c' kv (negb b) (leaf_of n) sub.

Lemma fork_ids n mid c' b sub : ids (fork_of n mid c' b sub) ≡ₚ [mid; n] ++ ids sub.
Proof. unfold fork_of. rewrite mk_perm_ids. cbn [ids leaf_of app]. solve_Permutation. Qed.

(** The fork is above both, and the new route hangs on the other side of the old subtree. *)
Lemma fork_bit kd :
  0 <= kd < 2 ^ w -> common w kd kv < c ->
  0 <= common w kd kv < w /\ bitat w (common w kd kv) kv = negb (bitat w (common w kd kv) kd).
Proof.
  intros Hkd Hlt. pose proof (kv_range (width v) (width_is_width v) key Hkey) as Hkv. fold w kv in Hkv.
  pose proof (common_range w kd kv ltac:(unfold w; lia) Hkd Hkv) as Hcr. split; [unfold w in *; lia|].
  pose proof (common_differ w kd kv ltac:(unfold w; lia) Hkd Hkv ltac:(unfold w in *; lia)) as Hd.
  by destruct (bitat w (common w kd kv) kd), (bitat w (common w kd kv) kv).
Qed.

(** The two links below the new fork. *)
Lemma fork_links n mid c' b d pd cd kd l r sp :
  let sub := N d pd cd kd l r in
  repr w (nodes t) sp (Some d) sub -> n ∉ ids sub -> mid ∉ ids sub -> NoDup (ids sub) -> mid <> n ->
  0 <= c' < w -> bitat w c' kd = b -> bitat w c' kv = negb b ->
  exists t3 t4, choose_and_connect_node mid d (set_nodes (insert mid (mid_of c')) (with_new n)) = Some t3 /\
    choose_and_connect_node mid n t3 = Some t4 /\ repr w (nodes t4) (Null, 0) (Some mid) (fork_of n mid c' b sub) /\
    (forall m, m <> n -> m <> mid -> m ∉ ids sub -> nodes t4 !! m = nodes t !! m) /\
    same_meta (with_new n) t4 /\ (forall v', root_ptr t4 v' = root_ptr t v').
Proof.
  intros sub Hsub Hn Hmid Hnd Hne Hc' Hb Hb'. set (t2 := set_nodes (insert mid (mid_of c')) (with_new n)).
  assert (Hoth : forall m, m <> n -> m <> mid -> nodes t2 !! m = nodes t !! m).
  { intros m ??. cbn. rewrite !lookup_insert_ne by done. done. }
  assert (Hsub2 : repr w (nodes t2) sp (Some d) sub).
  { eapply repr_frame, Hsub. intros m Hm. apply Hoth; by intros ->. }
  assert (Hleaf2 : repr w (nodes t2) (Null, 0) (Some n) (leaf_of n)).
  { eapply repr_frame, (with_new_repr n). intros m. cbn [ids app]. intros [= ->]%list_elem_of_singleton.
    cbn. rewrite lookup_insert_ne by done. done. }
  pose proof (with_mid_repr n mid c') as Hm2. fold t2 in Hm2.
  assert (HE : N mid None c' kv E E = mk mid None c' kv b E E) by (by destruct b). rewrite HE in Hm2.
  destruct (choose_and_connect_spec w t2 mid None c' kv b E (Null, 0) _ d pd cd kd l r
    (width_is_width v) Hc' Hb Hm2 Hsub2) as (t3 & E3 & Hr3 & Hout3 & [Hl3 Hc3] & Hroot3).
  { cbn [ids app]. fold sub. by apply NoDup_cons. }
  fold sub in Hr3, Hout3. cbn [ids app] in Hout3. rewrite <- mk_flip in Hr3.
  assert (Hleaf3 : repr w (nodes t3) (Null, 0) (Some n) (leaf_of n)).
  { eapply repr_frame, Hleaf2. intros m. cbn [ids leaf_of app]. intros [= ->]%list_elem_of_singleton.
    apply Hout3. rewrite elem_of_cons. intros [<-|?]; tauto. }
  destruct (choose_and_connect_spec w t3 mid None c' kv (negb b) sub (Null, 0) _ n (Some p) c kv E E
    (width_is_width v) Hc' Hb' Hr3 Hleaf3) as (t4 & E4 & Hr4 & Hout4 & [Hl4 Hc4] & Hroot4).
  { cbn [ids app]. apply NoDup_cons. rewrite elem_of_app, list_elem_of_singleton. split; [tauto|].
    apply NoDup_app. split; [done|]. split; [|apply NoDup_singleton].
    intros m Hm [= ->]%list_elem_of_singleton. tauto. }
  exists t3, t4. split_and!; [done|done|exact Hr4| |split; [by rewrite Hl4, Hl3|by rewrite Hc4, Hc3]|intros v'; by rewrite Hroot4, Hroot3].
  intros m ???. rewrite Hout4, Hout3, Hoth; try done; cbn [ids app];
    rewrite ?elem_of_cons, ?elem_of_app, ?list_elem_of_singleton; tauto.
Qed.

Lemma fork_wf n mid ctx d pd cd kd l r :
  let sub := N d pd cd kd l r in
  let c' := common w kd kv in
  wf_ctx w ctx -> wf w (hole_lo ctx) (hole_P w ctx) sub -> on_path w key ctx c -> c' < cd -> c' < c ->
  bitat w c' kv = negb (bitat w c' kd) ->
  wf w (hole_lo ctx) (hole_P w ctx) (fork_of n mid c' (bitat w c' kd) sub).
Proof.
  intros sub c' Hwc (Hcdr & Hkd & HPd & Hwl & Hwr) [Hlo HP] Hcd Hcc' Hb. pose proof (wf_ctx_lo _ _ Hwc) as Hlo0.
  pose proof (kv_range (width v) (width_is_width v) key Hkey) as Hkv. fold w kv in Hkv.
  pose proof (common_range w kd kv ltac:(unfold w; lia) Hkd Hkv) as Hcr. fold c' in Hcr.
  assert (Hlc : hole_lo ctx <= c') by (apply pfx_common; [lia..|]; rewrite HPd; by rewrite <- HP).
  assert (Hpk : pfx w c' kd = pfx w c' kv) by (apply pfx_common; unfold c'; lia).
  apply wf_mk. rewrite negb_involutive. unfold w in *. split; [split_and!; try (done || lia)|].
  - cbn [wf sub]. split_and!; try (done || lia). rewrite pfx_succ, Hpk by lia. done.
  - cbn [wf leaf_of]. split_and!; try (done || lia). rewrite pfx_succ by lia. by rewrite Hb.
Qed.

Lemma add_fork n mid ctx d pd cd kd l r :
  let sub := N d pd cd kd l r in
  let c' := common w kd kv in
  T v = plug ctx sub -> repr_ctx w (nodes t) (base v) (root_ptr t v) ctx (Some d) ->
  repr w (nodes t) (ctx_slot (base v) ctx) (Some d) sub -> on_path w key ctx c ->
  nodes t !! n = None -> nodes t !! mid = None -> mid <> n -> c' < cd -> c' < c ->
  exists t3 t4 t5, choose_and_connect_node mid d (set_nodes (insert mid (mid_of c')) (with_new n)) = Some t3 /\
    choose_and_connect_node mid n t3 = Some t4 /\
    connect_below (ctx_parent ctx) (root_slot v) mid t4 = Some t5 /\ inserted t5.
Proof.
  intros sub c' HT Hctx Hsub Hpath Hn Hmid Hne Hcd Hcc'.
  pose proof (fresh_not_in n ctx sub Hn HT) as Hfr. pose proof (fresh_not_in mid ctx sub Hmid HT) as Hfrm.
  pose proof (plug_nodup ctx sub HT) as Hnd. destruct (plug_wf ctx sub HT) as [Hwc Hws].
  pose proof (inv_compact _ _ _ I v) as Hcomp. rewrite HT in Hcomp. apply compact_plug in Hcomp as [Hcc Hcs]; [|done].
  rewrite elem_of_app in Hfr, Hfrm. apply NoDup_app in Hnd as (Hn1 & Hdis & Hn2). pose proof Hws as (_ & Hkd & _).
  destruct (fork_bit kd Hkd Hcc') as [Hcr Hb]. fold c' in Hcr, Hb. set (b := bitat w c' kd) in *.
  destruct (fork_links n mid c' b d pd cd kd l r _ Hsub ltac:(tauto) ltac:(tauto) Hn2 Hne Hcr eq_refl Hb)
    as (t3 & t4 & E3 & E4 & Hr4 & Hout & [Hl4 Hc4] & Hroot4). fold sub in Hr4, Hout. set (sub' := fork_of n mid c' b sub) in *.
  assert (HND : NoDup (ids_ctx ctx ++ ids sub')).
  { unfold sub'. rewrite fork_ids. apply nodup_grow; [done|set_solver|]. apply NoDup_cons. split; [set_solver|apply NoDup_singleton]. }
  unfold sub', fork_of in Hr4, HND. rewrite mk_N in Hr4, HND.
  destruct (connect_below_spec v t4 ctx (Some d) (Null, 0) mid None c' kv
    (if negb b then sub else leaf_of n) (if negb b then leaf_of n else sub)) with (2 := Hr4) (3 := HND)
    as (t5 & E5 & Hr5 & Hroot5 & Hout5 & Hl5 & Hc5).
  { rewrite Hroot4. eapply repr_ctx_frame, Hctx. intros m Hm. apply Hout; [intros ->; tauto..|]. by apply Hdis. }
  { by apply ctx_side. }
  rewrite <- mk_N in Hr5, Hout5. fold (fork_of n mid c' b sub) sub' in Hr5, Hout5.
  exists t3, t4, t5. split; [done|]. split; [done|]. split; [done|]. exists (plug ctx sub').
  eapply (inv_plug_new t T dead _ v ctx sub sub' n p c _ [mid; n]); try done; unfold sub'.
  - intros m. set_solver.
  - apply NoDup_cons. split; [set_solver|apply NoDup_singleton].
  - by rewrite Hroot5, Hroot4.
  - intros m Hm. rewrite (Hout5 m Hm). unfold sub' in Hm. rewrite fork_ids, !elem_of_app, !elem_of_cons in Hm. apply Hout; tauto.
  - by rewrite Hc5, Hc4.
  - intros q. apply with_new_plist. by rewrite Hl5, Hl4.
  - apply fork_ids.
  - unfold fork_of. by rewrite mk_owners.
  - unfold fork_of. by rewrite mk_routes.
  - set_solver.
  - by apply fork_wf.
  - apply compact_plug; [unfold fork_of; by rewrite mk_N|]. split; [done|]. by apply mk_compact.
Qed.

(** The prefix is there already: the node moves to the list of its new peer. *)
Lemma exact_lists n q k l r ctx q' m :
  T v = plug ctx (N n q c k l r) ->
  m ∈ plist (list_move_tail n p (set_nodes (alter (set_peer (Some p)) n) t)) q' <->
  (m, q') ∈ owners (plug ctx (N n (Some p) c k l r)) ++ owners (T (negb v)).
Proof.
  intros HT. pose proof (inv_nodup _ _ _ I) as HND. rewrite (fids_split _ v), HT, ids_plug, <- app_assoc in HND.
  pose proof HND as (Hnd & Hdis & _)%NoDup_app. pose proof Hnd as (_ & Hdis1 & Hnd2)%NoDup_app.
  unfold list_move_tail. rewrite plist_add.
  assert (Hold : m ∈ plist t q' <-> (m, q') ∈ owners_ctx ctx ++ owners (N n q c k l r) ++ owners (T (negb v))).
  { rewrite (inv_lists _ _ _ I q' m), (fowners_split _ v), HT, owners_plug. by rewrite <- app_assoc. }
  assert (Hno : (m, q') ∈ owners_ctx ctx ++ (owners l ++ owners r) ++ owners (T (negb v)) -> m <> n).
  { intros Hin ->. apply NoDup_cons in Hnd2 as [Hnlr _]. rewrite !elem_of_app in Hin. rewrite elem_of_app in Hnlr.
    destruct Hin as [Hin|[[Hin%owner_id|Hin%owner_id]|Hin%owner_id]]; [|tauto|tauto|].
    - apply owner_ctx_id in Hin. apply (Hdis1 n); [done|]. cbn. set_solver.
    - eapply (Hdis n); [|rewrite elem_of_app; by left]. rewrite elem_of_app. right. cbn. set_solver. }
  rewrite owners_plug. cbn [owners] in *. rewrite !elem_of_app, list_elem_of_singleton. rewrite !elem_of_app in Hold, Hno.
  assert (Hq0 : (m, q') ∈ match q with Some p0 => [(n, p0)] | None => [] end -> m = n).
  { destruct q; [|set_solver]. intros [= -> _]%list_elem_of_singleton. done. }
  case_decide as Hq; [subst q'; rewrite elem_of_app, list_elem_of_singleton|];
    rewrite elem_of_plist_del; unfold plist in *; cbn [peer_lists set_nodes]; rewrite Hold.
  1: assert (Hpp : (m, p) = (n, p) <-> m = n) by (split; [by intros [= ->]|by intros ->]).
  2: assert (Hpp : ~ (m, q') = (n, p)) by congruence.
  all: rewrite !elem_of_app; destruct (decide (m = n)); tauto.
Qed.

(** It changes its peer and nothing else. *)
Lemma add_exact n q k l r ctx :
  T v = plug ctx (N n q c k l r) -> pfx w c k = pfx w c kv ->
  inserted (list_move_tail n p (set_nodes (alter (set_peer (Some p)) n) t)).
Proof.
  intros HT Hpfx. set (sub := N n q c k l r) in *. set (sub' := N n (Some p) c k l r).
  pose proof (inv_repr _ _ _ I v) as Hr. rewrite HT in Hr. apply repr_plug in Hr as (ptr & Hctx & Hsub).
  pose proof Hsub as (-> & _).
  pose proof (inv_nodup _ _ _ I) as HND. rewrite (fids_split _ v), HT, ids_plug, <- app_assoc in HND.
  pose proof HND as (Hnd & Hdis & _)%NoDup_app. pose proof Hnd as (_ & Hdis1 & Hnd2)%NoDup_app.
  assert (Hn : n ∈ ids sub) by (cbn; set_solver).
  assert (Hout : forall m, m <> n -> alter (set_peer (Some p)) n (nodes t) !! m = nodes t !! m).
  { intros. by apply lookup_alter_ne. }
  assert (Hns : forall m, m ∈ ids (T (negb v)) ++ concat dead -> m <> n).
  { intros m Hm ->. apply (Hdis n); [|done]. rewrite elem_of_app. by right. }
  pose proof (inv_compact _ _ _ I v) as Hcomp. rewrite HT in Hcomp. apply compact_plug in Hcomp; [|done].
  destruct (plug_wf ctx sub HT) as [Hwc Hws].
  assert (Hwf' : wf w 0 0 (plug ctx sub')) by (by apply wf_plug).
  exists (plug ctx sub'). split.
  - eapply inv_build; try done; cbn [nodes list_move_tail list_add_tail list_del set_peer_lists set_nodes rcu].
    + apply repr_plug. exists (Some n). split.
      * eapply repr_ctx_frame, Hctx. intros m Hm. apply Hout. intros ->. by apply (Hdis1 n).
      * by eapply repr_alter_node.
    + intros m Hm. apply Hout, Hns. rewrite elem_of_app. by left.
    + apply compact_plug; [done|]. destruct Hcomp as [? (_ & ? & ?)]. done.
    + by rewrite ids_plug.
    + intros q' m. by apply (exact_lists n q).
    + intros q'. unfold list_move_tail. rewrite plist_add.
      pose proof (NoDup_plist_del n (set_nodes (alter (set_peer (Some p)) n) t) q' (inv_lists_nodup _ _ _ I q')) as H1.
      case_decide as Hq; [subst q'|done]. apply NoDup_app. split; [done|]. split; [|apply NoDup_singleton].
      intros m Hm [= ->]%list_elem_of_singleton. apply elem_of_plist_del in Hm. tauto.
    + eapply pendings_frame; [|apply (inv_rcu _ _ _ I)]. intros m Hm. apply Hout, Hns. rewrite elem_of_app. by right.
    + intros m Hm. rewrite lookup_alter_is_Some in Hm. apply (inv_alloc _ _ _ I) in Hm.
      by rewrite (fids_split _ v), HT, ids_plug, <- app_assoc in Hm; rewrite ids_plug.
  - set (rest := routes_ctx w ctx ++ routes w l ++ routes w r).
    rewrite (table_routes w (plug ctx sub') ((c, pfx w c kv, p) :: rest)); [|done|].
    2:{ rewrite routes_plug. cbn [sub' routes]. rewrite Hpfx. unfold rest. solve_Permutation. }
    rewrite (table_routes w (T v) (match q with Some q => [(c, pfx w c kv, q)] | None => [] end ++ rest)); [|apply (inv_wf _ _ _ I)|].
    2:{ rewrite HT, routes_plug. cbn [sub routes]. rewrite Hpfx. unfold rest. destruct q; solve_Permutation. }
    destruct q; cbn [app map route_key]; rewrite !list_to_map_cons; [by rewrite insert_insert_eq|done].
Qed.

(** The subtree below the hole, once [node_placement] has stopped above it. *)
Lemma stops_above d pd cd kd l r ctx :
  T v = plug ctx (N d pd cd kd l r) -> stops w key c (N d pd cd kd l r) ->
  Z.min c (common w kd kv) < cd /\ (c <= common w kd kv -> pfx w c kd = pfx w c kv).
Proof.
  intros HT Hs. destruct (plug_wf _ _ HT) as [Hwc (Hcd & Hkd & _)]. apply wf_ctx_lo in Hwc.
  pose proof (kv_range (width v) (width_is_width v) key Hkey) as Hkv. fold w kv in Hkv.
  cbn [stops] in Hs. fold kv in Hs. unfold w in *. split.
  - destruct (decide (Z.min c (common (width v) kd kv) < cd)) as [|Hge]; [done|]. destruct Hs.
    split; [lia|]. apply pfx_common; lia.
  - apply pfx_common; lia.
Qed.

(** Running out of memory on the second allocation undoes the first. *)
Lemma add_undo n :
  nodes t !! n = None -> inv (set_nodes (delete n) (list_del n (with_new n))) T dead.
Proof.
  intros Hn. eapply inv_same; [exact I|..]; try done.
  - cbn. by rewrite delete_insert_id.
  - intros q.
    assert (Hnot : n ∉ plist t q).
    { rewrite (inv_lists _ _ _ I). intros Hin. eapply (inv_fresh t T dead n I Hn).
      rewrite elem_of_app. left. unfold fids, fowners in *. rewrite elem_of_app in Hin. rewrite elem_of_app.
      destruct Hin as [Hin|Hin]; apply owner_id in Hin; auto. }
    assert (Hf : List.filter (fun m => negb (bool_decide (m = n))) (plist t q) = plist t q).
    { apply forallb_filter_id, forallb_forall. intros m Hm%list_elem_of_In.
      apply negb_true_iff, bool_decide_eq_false. by intros ->. }
    change (plist (set_nodes (delete n) (list_del n (with_new n))) q) with (plist (list_del n (with_new n)) q).
    rewrite plist_del, (with_new_plist n q (with_new n) eq_refl).
    case_decide as Hq; [subst q|done]. rewrite List.filter_app, Hf. cbn [List.filter].
    by rewrite bool_decide_true, app_nil_r.
Qed.

(** The place [down] the code reads is the hole. *)
Lemma down_is_hole n ctx sub ptr root A (g : slot * option nid -> option A) :
  T v = plug ctx sub -> repr_ctx w (nodes t) (base v) (root_ptr t v) ctx ptr -> root_ptr t v = Some root ->
  nodes t !! n = None -> on_path w key ctx c ->
  (match ctx_parent ctx with
   | None => Some (root_slot v, Some root)
   | Some m => pnd ← nodes (with_new n) !! m; let bit := choose pnd key in Some (Bit m bit, get_bit pnd bit)
   end ≫= g) = g (fst (ctx_slot (base v) ctx), ptr).
Proof.
  intros HT Hctx Eroot Hn Hpath. destruct ctx as [|f ctx]; cbn [ctx_parent ctx_slot base fst].
  - cbn in Hctx. by rewrite Hctx, Eroot.
  - destruct Hctx as ((nd & H1 & H2 & _ & H4 & _) & _). rewrite with_new_other.
    2:{ intros E0. eapply (fresh_not_in n (f :: ctx) sub); [done..|]. rewrite elem_of_app, elem_of_ids_ctx. rewrite E0. auto. }
    rewrite H1. cbn [mbind option_bind]. destruct (ctx_side (f :: ctx)) as [Hr Hb]; [by eapply plug_wf|done|].
    rewrite (choose_node w (width_is_width v) key Hkey nd _ _ _ H2) by done. fold kv. by rewrite Hb, H4.
Qed.

(** The path starts at the root. *)
Lemma on_path_root : on_path w key [] c.
Proof. split; [cbn; lia|]. apply pfx_0; [|unfold w; lia]. by apply kv_range; [apply width_is_width|]. Qed.

(** The whole of [add]. *)
Lemma add_correct mem1 mem2 :
  fresh t mem1 mem2 ->
  exists ret t', add (root_slot v) w key c (Some p) mem1 mem2 t = Some (ret, t') /\
    ((ret = 0 /\ inserted t') \/
     (ret = - ENOMEM /\ (mem1 = None \/ mem2 = None) /\ inv t' T dead)).
Proof.
  intros [Hf1 Hf2]. unfold add. destruct (Z.ltb_spec w c); [unfold w in *; lia|]. rewrite read_root.
  pose proof (inv_repr _ _ _ I v) as Hrep.
  destruct (root_ptr t v) as [root|] eqn:Eroot.
  2:{ apply repr_empty in Hrep as HE. destruct mem1 as [n|]; [|by eauto 8].
      do 2 eexists. split; [done|]. left. split; [done|].
      apply (add_leaf n [] None); [done|by rewrite Eroot|apply on_path_root|by apply Hf1|done]. }
  destruct (node_placement_loop_spec w (width_is_width v) (nodes t) key Hkey c (base v) (Some root) (T v) []
              (path_fuel w) (Some root)) as (ctx & sub & ptr & HT & Hctx & Hsub & Hpath & _ & Hcase);
    try done; [by apply (inv_wf _ _ _ I)|apply on_path_root|unfold path_fuel; cbn; lia|].
  cbn [plug] in HT. symmetry in HT. unfold node_placement. cbn [ctx_parent] in Hcase.
  destruct Hcase as [(n & q & k & l & r & -> & Hpfx & Eloop)|[Hstop Eloop]]; rewrite Eloop; cbn [mbind option_bind].
  { do 2 eexists. split; [done|]. left. split; [done|]. by eapply add_exact. }
  destruct mem1 as [n|]; [|by eauto 8]. specialize (Hf1 n eq_refl).
  rewrite <- Eroot in Hctx. fold newnode_of. fold (with_new n).
  rewrite (down_is_hole n ctx sub ptr root) by done. cbn [fst snd].
  destruct sub as [|d pd cd kd l r].
  - (* an empty hole *)
    cbn in Hsub. subst ptr. destruct ctx as [|f ctx].
    { exfalso. rewrite HT in Hrep. cbn in Hrep. congruence. }
    do 2 eexists. split; [done|]. left. split; [done|]. eapply (add_leaf n (f :: ctx)); try done.
    pose proof (inv_compact _ _ _ I v) as Hcomp. rewrite HT in Hcomp.
    apply compact_plug1_E in Hcomp. cbn [compact_ctx]. tauto.
  - pose proof Hsub as (-> & dnd & D1 & D2 & _).
    rewrite with_new_other.
    2:{ intros ->. eapply (fresh_not_in n ctx); [done..|]. rewrite elem_of_app. right. cbn. set_solver. }
    rewrite D1. cbn [mbind option_bind]. destruct D2 as (_ & _ & Dk & _ & _ & Db & _).
    rewrite (common_bits_spec w dnd key (width_is_width v) Db (proj1 Hkey)), Dk. fold kv.
    destruct (stops_above d pd cd kd l r ctx HT Hstop) as [Hlt Heq].
    destruct (Z.eqb_spec c (Z.min c (common w kd kv))) as [Emin|Emin].
    + destruct (add_above n ctx d pd cd kd l r) as (t2 & t3 & E2 & E3 & Hins); try (done || lia).
      rewrite E2. cbn [mbind option_bind]. rewrite E3. cbn [mbind option_bind].
      do 2 eexists. split; [done|]. by left.
    + assert (common w kd kv < c) by lia. replace (Z.min c (common w kd kv)) with (common w kd kv) in * by lia.
      destruct mem2 as [mid|].
      * destruct (Hf2 mid eq_refl) as [Hmid Hne].
        destruct (add_fork n mid ctx d pd cd kd l r) as (t3 & t4 & t5 & E3 & E4 & E5 & Hins);
          try (done || lia || congruence).
        fold (mid_of (common w kd kv)). rewrite E3. cbn [mbind option_bind].
        rewrite E4. cbn [mbind option_bind]. rewrite E5. cbn [mbind option_bind].
        do 2 eexists. split; [done|]. by left.
      * do 2 eexists. split; [done|]. right. split; [done|]. split; [by right|]. by apply add_undo.
Qed.
End Add.
