(* ===== verification/AllowedIpsRemove.v ===== *)
(** * AllowedIpsRemove: what [wg_allowedips_remove_by_peer] does to the routing table

    Unlinking a node (keeping it as a fork, splicing it out, or collapsing a fork that lost one of
    its sides) removes exactly one entry of the abstract table, and removing a peer filters its
    entries out of both tables. *)

From S2P Require Import Prelude Skb AllowedIps AllowedIpsBits AllowedIpsTree AllowedIpsHeap AllowedIpsInv AllowedIpsAdd.

Lemma relink_dom sp ptr t n : is_Some (nodes (relink sp ptr t) !! n) <-> is_Some (nodes t !! n).
Proof.
  rewrite nodes_relink. unfold store, reparent.
  destruct (fst sp); destruct ptr; rewrite ?lookup_alter_is_Some; done.
Qed.

Lemma root_call_rcu cb t v : root_ptr (call_rcu cb t) v = root_ptr t v.
Proof. by destruct v. Qed.

Lemma relink_meta sp ptr t : same_meta t (relink sp ptr t).
Proof. split; apply relink_lists. Qed.

(** A subtree fits where its parent was. *)
Lemma wf_lift w lo P c k b s :
  lo <= c <= w -> pfx w lo k = P -> wf w (c + 1) (2 * pfx w c k + Z.b2z b) s -> wf w lo P s.
Proof.
  intros Hc HP. destruct s as [|n p c2 k2 l r]; [done|]. cbn [wf]. intros (H1 & H2 & H3 & H4).
  split; [lia|]. split; [done|]. split; [|done]. rewrite pfx_succ in H3 by lia.
  rewrite <- HP. eapply (pfx_le w c); [lia|]. destruct (bitat w c k2), b; cbn in H3; lia.
Qed.

(** Replacing the tree of one version by one that has one route less. *)
Lemma inv_tree_less t T dead t' v tr n p c P gone :
  inv t T dead ->
  repr (width v) (nodes t') (base v) (root_ptr t' v) tr -> root_ptr t' (negb v) = root_ptr t (negb v) ->
  same_outside (ids (T v)) t t' -> (forall m, m ∈ gone -> is_Some (nodes t' !! m)) ->
  rcu t' = rcu t ++ map node_free gone -> peer_lists t' = peer_lists (list_del n t) ->
  ids (T v) ≡ₚ gone ++ ids tr -> owners (T v) ≡ₚ (n, p) :: owners tr ->
  routes (width v) (T v) ≡ₚ (c, P, p) :: routes (width v) tr ->
  n ∉ (owners tr).*1 -> wf (width v) 0 0 tr -> compact tr ->
  inv t' (fupd T v tr) (dead ++ map (fun m => [m]) gone) /\
  table (width v) (T v) = <[(c, P) := p]> (table (width v) tr) /\ table (width v) tr !! (c, P) = None.
Proof.
  intros I Hr Hroot Hout Hgone Hrcu Hpl Hids Hown Hrts Hno Hwf Hcomp.
  pose proof (inv_nodup _ _ _ I) as HND. rewrite (fids_split _ v) in HND.
  rewrite <- app_assoc in HND. pose proof HND as (_ & Hdis & _)%NoDup_app.
  assert (Hcat : concat (map (fun m => [m]) gone) = gone).
  { clear. induction gone as [|m gone IH]; [done|]. cbn. by rewrite IH. }
  assert (Hframe : forall m, m ∈ ids (T (negb v)) ++ concat dead -> nodes t' !! m = nodes t !! m).
  { intros m Hm. apply Hout. intros Hin. by apply (Hdis m Hin). }
  assert (Hlist : forall q m, m ∈ plist t' q <-> m <> n /\ m ∈ plist t q).
  { intros q m. rewrite <- elem_of_plist_del. unfold plist. by rewrite Hpl. }
  split; [|split].
  - eapply inv_build; try done.
    + intros m Hm. apply Hframe, elem_of_app. by left.
    + rewrite concat_app, Hcat.
      assert (ids tr ++ ids (T (negb v)) ++ concat dead ++ gone ≡ₚ ids (T v) ++ ids (T (negb v)) ++ concat dead)
        as -> by (rewrite Hids; solve_Permutation). done.
    + intros q m. rewrite Hlist, (inv_lists _ _ _ I q m), (fowners_split _ v), Hown.
      rewrite !elem_of_app, elem_of_cons. split.
      * intros [Hne [[[= -> ->]|?]|?]]; tauto.
      * intros Hin. split; [|tauto]. intros ->. destruct Hin as [Hin|Hin].
        -- apply Hno, list_elem_of_fmap. by exists (n, q).
        -- apply owner_id in Hin. apply (Hdis n); [|rewrite elem_of_app; tauto].
           apply (owner_id (T v) n p). rewrite Hown. rewrite elem_of_cons. by left.
    + intros q. pose proof (NoDup_plist_del n t q (inv_lists_nodup _ _ _ I q)). unfold plist in *. by rewrite Hpl.
    + rewrite Hrcu. apply Forall2_app.
      * eapply pendings_frame; [|apply (inv_rcu _ _ _ I)]. intros m Hm. apply Hframe, elem_of_app. by right.
      * clear -Hgone. induction gone as [|m gone IH]; constructor.
        -- constructor. apply Hgone. rewrite elem_of_cons. by left.
        -- apply IH. intros m' Hm'. apply Hgone. rewrite elem_of_cons. by right.
    + intros m Hm. rewrite concat_app, Hcat, !elem_of_app.
      assert (Hin : m ∈ ids (T v) \/ m ∈ ids (T (negb v)) ++ concat dead).
      { destruct (decide (m ∈ ids (T v))) as [|Hin]; [by left|]. right. rewrite (Hout m Hin) in Hm.
        apply (inv_alloc _ _ _ I) in Hm. rewrite (fids_split _ v), <- app_assoc, elem_of_app in Hm. tauto. }
      rewrite Hids, !elem_of_app in Hin. tauto.
  - rewrite (table_perm (width v) (T v) tr [(c, P, p)]) by (try apply (inv_wf _ _ _ I); done).
    cbn [map route_key]. by rewrite list_to_map_cons, list_to_map_nil, insert_empty, insert_union_singleton_l.
  - pose proof (routes_keys_NoDup (width v) 0 0 (T v) (inv_wf _ _ _ I v)) as Hkeys.
    rewrite Hrts in Hkeys. cbn [map route_key fmap list_fmap] in Hkeys. apply NoDup_cons in Hkeys as [Hk _].
    apply eq_None_not_Some. intros [q Hq]. apply Hk. apply table_spec in Hq; [|done].
    apply elem_of_route_keys. by exists q.
Qed.

(** ** One iteration of the loop *)

Section Remove.
Context (t : allowedips) (T : forest) (dead : list (list nid)) (I : inv t T dead).
Context (v : bool) (n : nid) (p : peer_id) (c k : Z) (l r : tree) (ctx : list frame).
Context (HT : T v = plug ctx (N n (Some p) c k l r)).

Let w := width v.

(** One route of the table is gone. *)
Definition removed (t' : allowedips) : Prop :=
  exists tr dead', inv t' (fupd T v tr) dead' /\
    table w (T v) = <[(c, pfx w c k) := p]> (table w tr) /\ table w tr !! (c, pfx w c k) = None /\
    peer_lists t' = peer_lists (list_del n t).

Local Definition unowned := set_nodes (alter (set_peer None) n) (list_del n t).

Lemma unowned_other m : m <> n -> nodes unowned !! m = nodes t !! m.
Proof. intros. cbn. by apply lookup_alter_ne. Qed.

Lemma unowned_dom m : is_Some (nodes unowned !! m) <-> is_Some (nodes t !! m).
Proof. apply lookup_alter_is_Some. Qed.

Lemma tree_nodup : NoDup (ids_ctx ctx ++ ids (N n (Some p) c k l r)).
Proof. apply (plug_nodup t T dead I v). done. Qed.

Lemma tree_dom m : m ∈ ids (T v) -> is_Some (nodes t !! m).
Proof. intros Hm. eapply repr_dom; [apply (inv_repr _ _ _ I v)|done]. Qed.

(** The state after the node has lost its peer. *)
Lemma unowned_repr :
  repr_ctx w (nodes unowned) (base v) (root_ptr unowned v) ctx (Some n) /\
  repr w (nodes unowned) (ctx_slot (base v) ctx) (Some n) (N n None c k l r).
Proof.
  pose proof (inv_repr _ _ _ I v) as Hr. rewrite HT in Hr. apply repr_plug in Hr as (ptr & Hctx & Hsub).
  pose proof Hsub as (-> & _). pose proof tree_nodup as (_ & Hdis & Hnd)%NoDup_app. split.
  - eapply repr_ctx_frame, Hctx. intros m Hm. apply unowned_other. intros ->. apply (Hdis n Hm). cbn; set_solver.
  - by eapply repr_alter_node.
Qed.

(** The tree with [sub'] in the place of the node, when [sub'] has the node's subtrees. *)
Lemma removed_build t' ctx' sub' gone :
  repr w (nodes t') (base v) (root_ptr t' v) (plug ctx' sub') ->
  root_ptr t' (negb v) = root_ptr t (negb v) -> same_outside (ids (T v)) unowned t' ->
  (forall m, is_Some (nodes unowned !! m) -> is_Some (nodes t' !! m)) ->
  rcu t' = rcu t ++ map node_free gone -> peer_lists t' = peer_lists (list_del n t) ->
  ids (T v) ≡ₚ gone ++ ids (plug ctx' sub') -> owners (T v) ≡ₚ (n, p) :: owners (plug ctx' sub') ->
  routes w (T v) ≡ₚ (c, pfx w c k, p) :: routes w (plug ctx' sub') ->
  wf w 0 0 (plug ctx' sub') -> compact (plug ctx' sub') -> removed t'.
Proof.
  intros Hr Hroot Hout Hdom Hrcu Hpl Hids Hown Hrts Hwf Hcomp. exists (plug ctx' sub').
  assert (Hnin : n ∈ ids (T v)).
  { rewrite HT, ids_plug, elem_of_app. right. cbn; set_solver. }
  assert (Hno : n ∉ (owners (plug ctx' sub')).*1).
  { intros ([m q] & Hm & Hin)%list_elem_of_fmap. cbn in Hm. subst m.
    pose proof tree_nodup as Hnd. pose proof (owners_nodup (T v)) as HN. rewrite Hown in HN.
    rewrite HT, ids_plug in HN. specialize (HN Hnd). cbn [fmap list_fmap fst] in HN.
    apply NoDup_cons in HN as [HN _]. apply HN, list_elem_of_fmap. by exists (n, q). }
  destruct (inv_tree_less t T dead t' v (plug ctx' sub') n p c (pfx w c k) gone) as (? & ? & ?); try done.
  - intros m Hm. rewrite (Hout m Hm). apply unowned_other. by intros ->.
  - intros m Hm. apply Hdom, unowned_dom, tree_dom. rewrite Hids, elem_of_app. by left.
  - eexists. done.
Qed.
Lemma tree_wf :
  wf_ctx w ctx /\ hole_lo ctx <= c <= w /\ pfx w (hole_lo ctx) k = hole_P w ctx /\ 0 <= k < 2 ^ w /\
  wf w (c + 1) (2 * pfx w c k + Z.b2z false) l /\ wf w (c + 1) (2 * pfx w c k + Z.b2z true) r.
Proof.
  destruct (plug_wf t T dead I v ctx _ HT) as [Hwc (H1 & H2 & H3 & H4 & H5)]. cbn [Z.b2z].
  rewrite Z.add_0_r. done.
Qed.

Lemma tree_compact : compact_ctx ctx /\ compact l /\ compact r.
Proof.
  pose proof (inv_compact _ _ _ I v) as Hcomp. rewrite HT in Hcomp.
  apply compact_plug in Hcomp as (H1 & _ & H2 & H3); done.
Qed.

(** A node with two children stays as a fork. *)
Lemma remove_fork : l <> E -> r <> E -> removed unowned.
Proof.
  intros Hl Hr. destruct unowned_repr as [Hctx Hsub]. destruct tree_wf as (Hwc & Hcr & HP & Hk & Hwl & Hwr).
  destruct tree_compact as (Hcc & Hcl & Hcr').
  apply (removed_build unowned ctx (N n None c k l r) []); try done.
  - apply repr_plug. by exists (Some n).
  - by rewrite app_nil_r.
  - by rewrite HT, !ids_plug.
  - rewrite HT, !owners_plug. cbn [owners]. solve_Permutation.
  - rewrite HT, !routes_plug. cbn [routes]. solve_Permutation.
  - apply wf_plug. split; [done|]. cbn [wf]. cbn in Hwl. rewrite Z.add_0_r in Hwl. done.
  - apply compact_plug; done.
Qed.

(** Facts about a subtree of the node, [s], whose sibling is empty. *)
Definition only_child (s : tree) : Prop := (l = s /\ r = E) \/ (l = E /\ r = s).

Lemma only_child_perm s :
  only_child s ->
  ids (T v) ≡ₚ [n] ++ ids (plug ctx s) /\ owners (T v) ≡ₚ (n, p) :: owners (plug ctx s) /\
  routes w (T v) ≡ₚ (c, pfx w c k, p) :: routes w (plug ctx s).
Proof.
  intros Hs. rewrite HT, !ids_plug, !owners_plug, !routes_plug.
  destruct Hs as [[-> ->]|[-> ->]]; cbn [ids owners routes]; rewrite ?app_nil_r; split_and!; solve_Permutation.
Qed.

Lemma only_child_wf s : only_child s -> wf w 0 0 (plug ctx s) /\ compact s.
Proof.
  destruct tree_wf as (Hwc & Hcr & HP & Hk & Hwl & Hwr). destruct tree_compact as (Hcc & Hcl & Hcr').
  intros Hs. rewrite wf_plug. destruct Hs as [[-> ->]|[-> ->]]; (split; [split; [done|]|done]).
  - by eapply wf_lift.
  - by eapply wf_lift.
Qed.

(** What linking the only child in the place of the node gives. *)
Lemma splice_spec s ptr sp :
  only_child s -> repr w (nodes unowned) sp ptr s ->
  let t' := relink (ctx_slot (base v) ctx) ptr unowned in
  repr w (nodes t') (base v) (root_ptr t' v) (plug ctx s) /\
  root_ptr t' (negb v) = root_ptr t (negb v) /\ same_outside (ids (T v)) unowned t' /\ same_meta unowned t'.
Proof.
  intros Hs Hr t'. destruct unowned_repr as [Hctx _]. pose proof tree_nodup as Hnd.
  assert (Hsub : NoDup (ids_ctx ctx ++ ids s) /\ forall m, m ∈ ids_ctx ctx ++ ids s -> m ∈ ids (T v)).
  { pose proof (only_child_perm s Hs) as (Hids & _). rewrite HT, !ids_plug in Hids.
    rewrite Hids in Hnd. apply NoDup_app in Hnd as (_ & _ & Hnd). split; [done|].
    intros m Hm. rewrite HT, ids_plug, Hids, elem_of_app. by right. }
  destruct Hsub as [Hnd' Hsub].
  destruct (relink_root_ctx v unowned ctx (Some n) sp ptr s Hctx Hr Hnd') as (H1 & H2 & H3 & H4).
  split; [done|]. split; [unfold t'; rewrite H2; by destruct v|]. split; [|done]. by eapply same_outside_weaken.
Qed.

(** Splicing the node out. *)
Lemma remove_splice s ptr sp :
  only_child s -> repr w (nodes unowned) sp ptr s -> compact (plug ctx s) ->
  removed (call_rcu (node_free n) (relink (ctx_slot (base v) ctx) ptr unowned)).
Proof.
  intros Hs Hr Hcomp. destruct (splice_spec s ptr sp Hs Hr) as (H1 & H2 & H3 & H4 & H5).
  pose proof (only_child_perm s Hs) as (Hids & Hown & Hrts). pose proof (only_child_wf s Hs) as [Hwf _].
  apply (removed_build _ ctx s [n]); rewrite ?root_call_rcu; try done.
  - intros m Hm. by apply (relink_dom (ctx_slot (base v) ctx) ptr unowned m).
  - cbn [rcu call_rcu]. by rewrite H5.
Qed.

(** Splicing out a leaf and the fork above it. *)
Lemma remove_collapse f ctx' nd :
  ctx = f :: ctx' -> f_p f = None -> only_child E ->
  nodes (relink (ctx_slot (base v) ctx) None unowned) !! f_n f = Some nd ->
  parent_bit_packed nd = ctx_slot (base v) ctx' /\
  removed (call_rcu (node_free (f_n f)) (relink (ctx_slot (base v) ctx') (get_bit nd (negb (f_b f)))
    (call_rcu (node_free n) (relink (ctx_slot (base v) ctx) None unowned)))).
Proof.
  intros Hf Hfp Hs Hnd.
  destruct (splice_spec E None (Null, 0) Hs eq_refl) as (H1 & H2 & H3 & H4 & H5).
  pose proof (only_child_perm E Hs) as (Hids & Hown & Hrts). pose proof (only_child_wf E Hs) as [Hwf _].
  destruct tree_compact as (Hcc & _). set (t2 := relink (ctx_slot (base v) ctx) None unowned) in *.
  pose proof tree_nodup as HN. rewrite <- ids_plug, <- HT, Hids, Hf in HN.
  rewrite Hf in H1, Hids, Hown, Hrts, Hwf, Hcc. cbn [compact_ctx] in Hcc. destruct Hcc as (Hsib & Hcsib & Hcc).
  assert (HndE : NoDup (ids (plug (f :: ctx') E))).
  { by apply NoDup_app in HN as (_ & _ & HN). }
  apply repr_plug in H1 as (ptr & Hctx & _). cbn [repr_ctx] in Hctx.
  destruct Hctx as ((nd' & N1 & _ & N3 & _ & N5) & Hctx). rewrite N1 in Hnd. injection Hnd as ->.
  split; [done|]. set (t3 := call_rcu (node_free n) t2).
  rewrite ids_plug in HndE. unfold ids_ctx in HndE. cbn [map concat] in HndE. fold (ids_ctx ctx') in HndE.
  cbn [ids] in HndE. rewrite app_nil_r in HndE. cbn [app] in HndE. apply NoDup_cons in HndE as [Hfn HndE].
  assert (HN3 : NoDup (ids_ctx ctx' ++ ids (f_sib f))) by (by rewrite (Permutation_app_comm (ids_ctx ctx'))).
  destruct (relink_root_ctx v t3 ctx' _ _ _ _ Hctx N5 HN3) as (R1 & R2 & R3 & R4 & R5).
  set (t4 := relink (ctx_slot (base v) ctx') (get_bit nd (negb (f_b f))) t3) in *.
  assert (HidsE : ids (plug (f :: ctx') E) ≡ₚ [f_n f] ++ ids (plug ctx' (f_sib f))).
  { rewrite !ids_plug. unfold ids_ctx at 1. cbn [map concat ids]. fold (ids_ctx ctx'). solve_Permutation. }
  apply (removed_build _ ctx' (f_sib f) [n; f_n f]).
  - by rewrite root_call_rcu.
  - rewrite root_call_rcu, R2. unfold t3. by rewrite root_call_rcu.
  - intros m Hm. change (nodes t4 !! m = nodes unowned !! m). rewrite R3; [by apply H3|].
    intros Hin. apply Hm. rewrite Hids, HidsE, ids_plug, elem_of_app, elem_of_app. auto.
  - intros m Hm. change (is_Some (nodes t4 !! m)). apply relink_dom.
    change (is_Some (nodes t2 !! m)). by apply relink_dom.
  - cbn [rcu call_rcu map]. rewrite R5. cbn [rcu t3 call_rcu]. rewrite H5. by rewrite <- app_assoc.
  - change (peer_lists t4 = peer_lists (list_del n t)). rewrite R4. change (peer_lists t2 = peer_lists (list_del n t)). by rewrite H4.
  - rewrite Hids, HidsE. done.
  - rewrite Hown, !owners_plug. unfold owners_ctx at 1. cbn [map concat owners]. fold (owners_ctx ctx').
    rewrite Hfp, app_nil_r. solve_Permutation.
  - rewrite Hrts, !routes_plug. unfold routes_ctx at 1. cbn [map concat routes]. fold (routes_ctx w ctx').
    rewrite Hfp, app_nil_r. solve_Permutation.
  - apply wf_plug in Hwf as [[(W1 & W2 & W3 & W4) Hwc] _]. apply wf_plug. split; [done|].
    by eapply wf_lift.
  - apply compact_plug; [by apply Hsib|]. done.
Qed.
End Remove.

(** The whole iteration. *)
Lemma remove_node_placed t T dead v n p c k l r ctx :
  inv t T dead -> T v = plug ctx (N n (Some p) c k l r) ->
  exists t', remove_node n t = Some t' /\ removed t T v n p c k t'.
Proof.
  intros I HT.
  destruct (unowned_repr t T dead I v n p c k l r ctx HT) as [Hctx (_ & nd & N1 & N2 & N3 & N4 & N5)].
  pose proof (fun s ptr sp => remove_splice t T dead I v n p c k l r ctx HT s ptr sp) as Hsplice.
  pose proof (tree_compact t T dead I v n p c k l r ctx HT) as (Hcc & Hcl & Hcr).
  unfold remove_node. fold (unowned t n). rewrite N1. cbn [mbind option_bind].
  destruct l as [|nl pl cl kl ll rl]; [|destruct r as [|nr pr cr kr lr rr]].
  - cbn [repr] in N4. rewrite N4. cbn [get_bit]. destruct r as [|nr pr cr kr lr rr].
    + cbn [repr] in N5. rewrite N5, N3. cbn [fst].
      fold (relink (ctx_slot (base v) ctx) None (unowned t n)).
      destruct ctx as [|f ctx]; cbn [ctx_slot base fst snd].
      * exists (call_rcu (node_free n) (relink (base v) None (unowned t n))). split; [by destruct v|].
        by apply (Hsplice E None (Null, 0)); [left|..].
      * set (t2 := relink (Bit (f_n f) (f_b f), Z.b2z (f_b f)) None (unowned t n)).
        destruct Hctx as ((fnd & F1 & F2 & F3 & F4 & F5) & Hctx).
        change (write_slot (Bit (f_n f) (f_b f)) None (unowned t n)) with t2.
        assert (Hn2 : nodes t2 !! f_n f = Some (set_bit (f_b f) None fnd)).
        { unfold t2. rewrite nodes_relink. cbn [fst store reparent]. by rewrite lookup_alter_eq, F1. }
        rewrite Hn2. cbn [mbind option_bind]. destruct F2 as (Hpeer & _).
        cbn [peer set_bit]. rewrite Hpeer.
        assert ((Z.b2z (f_b f) <=? 1) = true) as -> by (by destruct (f_b f)).
        assert ((Z.land (Z.b2z (f_b f)) 1 =? 1) = f_b f) as -> by (by destruct (f_b f)). cbn [andb].
        destruct (f_p f) as [fp|] eqn:Efp.
        -- eexists. split; [done|]. apply (Hsplice E None (Null, 0)); [by left|done|].
           apply compact_plug1_E. cbn [compact_ctx] in Hcc. rewrite Efp. split_and!; (done || tauto).
        -- destruct (remove_collapse t T dead I v n p c k E E (f :: ctx) HT f ctx _ eq_refl Efp ltac:(by left) Hn2)
             as [Hpbp Hrem].
           eexists. split; [|exact Hrem]. rewrite Hpbp.
           unfold relink at 1. by destruct (get_bit _ _).
    + pose proof N5 as (E5 & _). rewrite E5. eexists. split; [|eapply (Hsplice (N nr pr cr kr lr rr) (Some nr)); [by right|by rewrite <- E5|by apply compact_plug]].
      rewrite N3. unfold relink. destruct ctx as [|f ctx]; [by destruct v|done].
  - pose proof N4 as (E4 & _). rewrite E4. cbn in N5. rewrite N5. cbn [get_bit].
    eexists. split; [|eapply (Hsplice (N nl pl cl kl ll rl) (Some nl)); [by left|by rewrite <- E4|by apply compact_plug]].
    rewrite N3, E4. unfold relink. destruct ctx as [|f ctx]; [by destruct v|done].
  - pose proof N4 as (-> & _). pose proof N5 as (-> & _). eexists. split; [done|]. by eapply remove_fork.
Qed.

Lemma remove_node_correct t T dead n p :
  inv t T dead -> n ∈ plist t p ->
  exists t' T' dead', remove_node n t = Some t' /\ inv t' T' dead' /\
    peer_lists t' = peer_lists (list_del n t) /\
    forall v, filter (fun kp => kp.2 <> p) (table (width v) (T' v))
            = filter (fun kp => kp.2 <> p) (table (width v) (T v)).
Proof.
  intros I Hin. apply (inv_lists _ _ _ I) in Hin.
  assert (exists v, (n, p) ∈ owners (T v)) as [v Hv].
  { unfold fowners in Hin. apply elem_of_app in Hin as [?|?]; eauto. }
  apply owner_place in Hv as (ctx & c & k & l & r & HT).
  destruct (remove_node_placed t T dead v n p c k l r ctx I HT) as (t' & E1 & tr & dead' & I' & Htab & Hnone & Hpl).
  exists t', (fupd T v tr), dead'. split; [done|]. split; [done|]. split; [done|].
  intros v'. unfold fupd. destruct (Bool.eqb_spec v v') as [<-|]; [|done].
  rewrite Htab, map_filter_insert_False by (cbn; tauto). by rewrite delete_id.
Qed.

Lemma fowners_fun t T dead n p q : inv t T dead -> (n, p) ∈ fowners T -> (n, q) ∈ fowners T -> p = q.
Proof.
  intros I Hp Hq. assert (HN : NoDup (fowners T).*1).
  { pose proof (inv_nodup _ _ _ I) as ((H1 & Hdis & H2)%NoDup_app & _)%NoDup_app.
    unfold fowners. rewrite fmap_app. apply NoDup_app. split; [by apply owners_nodup|].
    split; [|by apply owners_nodup].
    intros m ([m1 q1] & -> & Hm1)%list_elem_of_fmap ([m2 q2] & Em & Hm2)%list_elem_of_fmap. cbn in Em. subst m2.
    by apply (Hdis m1); eapply owner_id. }
  apply (elem_of_list_to_map_1 (M := gmap nid)) in Hp, Hq; [congruence|done..].
Qed.

(** The loop, which runs over the list of the peer while it takes the nodes off the list. *)
Lemma remove_nodes_correct p ns t T dead :
  inv t T dead -> plist t p = ns ->
  exists t' T' dead', remove_nodes ns t = Some t' /\ inv t' T' dead' /\ plist t' p = [] /\
    (forall q, q <> p -> plist t' q = plist t q) /\
    forall v, table (width v) (T' v) = filter (fun kp => kp.2 <> p) (table (width v) (T v)).
Proof.
  revert t T dead. induction ns as [|n ns IH]; intros t T dead I Hns; cbn [remove_nodes].
  - exists t, T, dead. split; [done|]. split; [done|]. split; [done|]. split; [done|]. intros v.
    symmetry. apply map_filter_id. intros [c P] q Hq Heq. cbn in Heq. subst q.
    apply table_spec in Hq; [|apply (inv_wf _ _ _ I)]. apply route_owner in Hq as [n Hn].
    assert (Hin : n ∈ plist t p).
    { apply (inv_lists _ _ _ I). unfold fowners. apply elem_of_app. destruct v; auto. }
    rewrite Hns in Hin. by apply elem_of_nil in Hin.
  - destruct (remove_node_correct t T dead n p I) as (t1 & T1 & dead1 & E1 & I1 & Hpl1 & Htab1).
    { rewrite Hns, elem_of_cons. by left. }
    assert (Hdel : forall q, plist t1 q = List.filter (fun m => negb (bool_decide (m = n))) (plist t q)).
    { intros q. rewrite <- plist_del. unfold plist. by rewrite Hpl1. }
    assert (Hkeep : forall l, n ∉ l -> List.filter (fun m => negb (bool_decide (m = n))) l = l).
    { intros l Hl. apply forallb_filter_id, forallb_forall. intros m Hm%list_elem_of_In.
      apply negb_true_iff, bool_decide_eq_false. by intros ->. }
    pose proof (inv_lists_nodup _ _ _ I p) as Hnd. rewrite Hns in Hnd. apply NoDup_cons in Hnd as [Hn Hnd].
    destruct (IH t1 T1 dead1 I1) as (t2 & T2 & dead2 & E2 & I2 & Hp2 & Hoth2 & Htab2).
    { rewrite Hdel, Hns. cbn [List.filter]. rewrite bool_decide_true by done. by apply Hkeep. }
    exists t2, T2, dead2. rewrite E1. cbn [mbind option_bind]. split; [done|]. split; [done|]. split; [done|].
    split.
    + intros q Hq. rewrite Hoth2, Hdel by done. apply Hkeep. intros Hin. apply (inv_lists _ _ _ I) in Hin.
      apply Hq. assert (Hp : (n, p) ∈ fowners T) by (apply (inv_lists _ _ _ I); rewrite Hns, elem_of_cons; by left).
      by apply (fowners_fun t T dead n).
    + intros v. by rewrite Htab2, Htab1.
Qed.
