(* ===== verification/AllowedIpsFree.v ===== *)
(** * AllowedIpsFree: tearing the routing table down

    The traversals of [root_remove_peer_lists] and [root_free_rcu] keep their stack within
    MAX_ALLOWEDIPS_DEPTH entries and reach every node; after [wg_allowedips_free] and the pending
    grace periods no node is left allocated. *)

From S2P Require Import Prelude Skb AllowedIps AllowedIpsBits AllowedIpsTree AllowedIpsHeap AllowedIpsInv AllowedIpsAdd AllowedIpsRemove.

(** The stack of a traversal: the trees still to visit, the top first. *)
Definition stacked (w : Z) (h : heap) (n : nid) (t : tree) : Prop := exists sp, repr w h sp (Some n) t.

(** Every tree is low enough for the room left above it. *)
Fixpoint fits (ts : list tree) : Prop :=
  match ts with [] => True | t :: ts => (length ts + height t <= MAX_ALLOWEDIPS_DEPTH)%nat /\ fits ts end.

Definition cons_tree (t : tree) (ts : list tree) : list tree := match t with E => ts | _ => t :: ts end.

Lemma concat_cons_tree {A} (f : tree -> list A) t ts :
  f E = [] -> concat (map f (cons_tree t ts)) = f t ++ concat (map f ts).
Proof. intros HE. destruct t; cbn; [by rewrite HE|done]. Qed.

Lemma length_cons_tree t ts : (length (cons_tree t ts) <= S (length ts))%nat.
Proof. destruct t; cbn; lia. Qed.

Lemma push_fits w h sp ptr t stack ts :
  repr w h sp ptr t -> Forall2 (stacked w h) stack ts -> fits ts ->
  (length ts + height t <= MAX_ALLOWEDIPS_DEPTH)%nat ->
  exists stack', push_rcu stack ptr = Some stack' /\ Forall2 (stacked w h) stack' (cons_tree t ts) /\
    fits (cons_tree t ts).
Proof.
  intros Hr Hs Hf Hb. pose proof (Forall2_length _ _ _ Hs) as Hlen.
  destruct t as [|n p c k l r]; [cbn in Hr; subst ptr; by exists stack|].
  pose proof Hr as (-> & _). exists (n :: stack). cbn [push_rcu cons_tree fits].
  destruct (Nat.ltb_spec (length stack) MAX_ALLOWEDIPS_DEPTH); [|cbn [height] in Hb; lia].
  split; [done|]. split; [|done]. constructor; [by exists sp|done].
Qed.

(** Both children of the node on top of the stack can be pushed. *)
Lemma push_children w h n t stack ts :
  stacked w h n t -> Forall2 (stacked w h) stack ts -> fits (t :: ts) ->
  exists p c k l r nd stack1 stack2,
    t = N n p c k l r /\ h !! n = Some nd /\ peer nd = p /\
    push_rcu stack (bit0 nd) = Some stack1 /\ push_rcu stack1 (bit1 nd) = Some stack2 /\
    Forall2 (stacked w h) stack2 (cons_tree r (cons_tree l ts)) /\ fits (cons_tree r (cons_tree l ts)).
Proof.
  intros [sp Hr] Hs [Hb Hf]. destruct t as [|m p c k l r]; [done|].
  destruct Hr as ([= <-] & nd & H1 & (Hp & _) & _ & H4 & H5). cbn [height] in Hb.
  destruct (push_fits w h _ _ l stack ts H4 Hs Hf ltac:(lia)) as (s1 & E1 & Hs1 & Hf1).
  pose proof (length_cons_tree l ts).
  destruct (push_fits w h _ _ r s1 _ H5 Hs1 Hf1 ltac:(lia)) as (s2 & E2 & Hs2 & Hf2).
  exists p, c, k, l, r, nd, s1, s2. by split_and!.
Qed.

(** [root_remove_peer_lists] takes exactly the nodes with a peer off the lists. *)
Lemma root_remove_peer_lists_spec w fuel stack ts t :
  Forall2 (stacked w (nodes t)) stack ts -> fits ts -> (length (concat (map ids ts)) <= fuel)%nat ->
  exists t', root_remove_peer_lists_loop fuel stack t = Some t' /\
    nodes t' = nodes t /\ root4 t' = root4 t /\ root6 t' = root6 t /\ rcu t' = rcu t /\
    (forall q, NoDup (plist t q) -> NoDup (plist t' q)) /\
    forall q m, m ∈ plist t' q <-> m ∈ plist t q /\ m ∉ (concat (map owners ts)).*1.
Proof.
  revert stack ts t. induction fuel as [|fuel IH]; intros stack ts t Hs Hf Hlen.
  - inversion Hs as [|n tr stack' ts' Hn Hs']; subst.
    + exists t. split_and!; try done. intros. cbn. rewrite elem_of_nil. tauto.
    + destruct Hn as [sp Hn]. destruct tr; [done|]. cbn in Hlen. lia.
  - inversion Hs as [|n tr stack' ts' Hn Hs']; subst.
    { exists t. split_and!; try done. intros. cbn. rewrite elem_of_nil. tauto. }
    destruct (push_children w (nodes t) n tr stack' ts' Hn Hs' Hf)
      as (p & c & k & l & r & nd & s1 & s2 & -> & H1 & Hp & E1 & E2 & Hs2 & Hf2).
    cbn [root_remove_peer_lists_loop]. rewrite H1. cbn [mbind option_bind]. rewrite E1. cbn [mbind option_bind].
    rewrite E2. cbn [mbind option_bind]. rewrite Hp.
    set (t1 := match p with Some _ => list_del n t | None => t end).
    assert (Ht1 : nodes t1 = nodes t /\ root4 t1 = root4 t /\ root6 t1 = root6 t /\ rcu t1 = rcu t) by (by destruct p).
    destruct Ht1 as (N1 & R4 & R6 & C1).
    destruct (IH s2 (cons_tree r (cons_tree l ts')) t1) as (t' & E' & N' & R4' & R6' & C' & ND' & L').
    { by rewrite N1. }
    { done. }
    { rewrite !concat_cons_tree, !length_app by done. cbn [map concat ids] in Hlen.
      rewrite !length_app in Hlen. cbn [length] in Hlen. rewrite !length_app in Hlen. lia. }
    exists t'. split; [done|]. split_and!; try congruence.
    + intros q Hq. apply ND'. destruct p; [by apply NoDup_plist_del|done].
    + intros q m. rewrite L'. rewrite !concat_cons_tree by done. cbn [map concat owners].
      assert (Hm : m ∈ plist t1 q <-> m ∈ plist t q /\ m ∉ (match p with Some p => [(n, p)] | None => [] end).*1).
      { unfold t1; destruct p; [rewrite elem_of_plist_del|]; cbn; rewrite ?elem_of_nil, ?list_elem_of_singleton; tauto. }
      rewrite Hm, !fmap_app, !elem_of_app. tauto.
Qed.

(** [root_free_rcu] frees exactly the nodes of the trie. *)
Lemma root_free_rcu_spec w fuel stack ts t :
  Forall2 (stacked w (nodes t)) stack ts -> fits ts -> NoDup (concat (map ids ts)) ->
  (length (concat (map ids ts)) <= fuel)%nat ->
  exists t', root_free_rcu_loop fuel stack t = Some t' /\
    peer_lists t' = peer_lists t /\ root4 t' = root4 t /\ root6 t' = root6 t /\ rcu t' = rcu t /\
    forall m, nodes t' !! m = if decide (m ∈ concat (map ids ts)) then None else nodes t !! m.
Proof.
  revert stack ts t. induction fuel as [|fuel IH]; intros stack ts t Hs Hf Hnd Hlen.
  - inversion Hs as [|n tr stack' ts' Hn Hs']; subst.
    + exists t. split_and!; done.
    + destruct Hn as [sp Hn]. destruct tr; [done|]. cbn in Hlen. lia.
  - inversion Hs as [|n tr stack' ts' Hn Hs']; subst.
    { exists t. split_and!; done. }
    destruct (push_children w (nodes t) n tr stack' ts' Hn Hs' Hf)
      as (p & c & k & l & r & nd & s1 & s2 & -> & H1 & Hp & E1 & E2 & Hs2 & Hf2).
    cbn [root_free_rcu_loop]. rewrite H1. cbn [mbind option_bind]. rewrite E1. cbn [mbind option_bind].
    rewrite E2. cbn [mbind option_bind].
    set (ts2 := cons_tree r (cons_tree l ts')) in *.
    assert (Hids : concat (map ids (N n p c k l r :: ts')) ≡ₚ n :: concat (map ids ts2)).
    { unfold ts2. rewrite !concat_cons_tree by done. cbn [map concat ids]. solve_Permutation. }
    rewrite Hids in Hnd. apply NoDup_cons in Hnd as [Hn' Hnd].
    destruct (IH s2 ts2 (set_nodes (delete n) t)) as (t' & E' & P' & R4' & R6' & C' & N').
    { cbn [nodes set_nodes]. clear -Hs2 Hn'. induction Hs2 as [|m tr st ts [sp Hm] Hs2 IH]; constructor.
      - exists sp. eapply repr_frame, Hm. intros m' Hm'. apply lookup_delete_ne. intros ->.
        apply Hn'. cbn. rewrite elem_of_app. by left.
      - apply IH. intros Hin. apply Hn'. cbn. rewrite elem_of_app. by right. }
    { done. }
    { done. }
    { rewrite Hids in Hlen. cbn in Hlen. lia. }
    exists t'. split; [done|]. split_and!; try done. intros m. rewrite N'. cbn [nodes set_nodes].
    assert (Hin : m ∈ concat (map ids (N n p c k l r :: ts')) <-> m = n \/ m ∈ concat (map ids ts2)).
    { rewrite Hids. apply elem_of_cons. }
    destruct (decide (m = n)) as [->|Hne].
    + rewrite lookup_delete_eq. repeat case_decide; tauto.
    + rewrite lookup_delete_ne by done. repeat case_decide; tauto.
Qed.

(** A tree of the table fits on the stack. *)
Lemma wf_fits v t : wf (width v) 0 0 t -> fits [t].
Proof.
  intros Hwf. split; [|done]. cbn [length]. unfold MAX_ALLOWEDIPS_DEPTH.
  apply wf_height in Hwf as [-> |H]; [cbn; lia|]. destruct (width_is_width v) as [Hw|Hw]; rewrite Hw in H; lia.
Qed.

(** There is fuel enough for all nodes of a tree. *)
Lemma ids_size (h : heap) ns : NoDup ns -> (forall n, n ∈ ns -> is_Some (h !! n)) -> (length ns <= size h)%nat.
Proof.
  intros Hnd Hin. rewrite <- (size_list_to_set (C := gset nid) ns) by done.
  rewrite <- (size_dom (D := gset nid) h). apply subseteq_size. intros n Hn.
  apply elem_of_dom, Hin. by apply elem_of_list_to_set in Hn.
Qed.

Definition root_dead (t : tree) : list (list nid) := match t with E => [] | _ => [ids t] end.
Definition root_cbs (ptr : option nid) : list rcu_callback := match ptr with Some n => [root_free n] | None => [] end.

Lemma concat_root_dead t : concat (root_dead t) = ids t.
Proof. destruct t; [done|]. cbn. by rewrite app_nil_r. Qed.

Lemma free_root_spec v t ptr tr :
  repr (width v) (nodes t) (base v) ptr tr -> wf (width v) 0 0 tr -> NoDup (ids tr) ->
  exists t', free_root ptr t = Some t' /\ nodes t' = nodes t /\ root4 t' = root4 t /\ root6 t' = root6 t /\
    rcu t' = rcu t ++ root_cbs ptr /\ (forall q, NoDup (plist t q) -> NoDup (plist t' q)) /\
    forall q m, m ∈ plist t' q <-> m ∈ plist t q /\ m ∉ (owners tr).*1.
Proof.
  intros Hr Hwf Hnd. destruct ptr as [n|]; cbn [free_root root_cbs].
  - unfold root_remove_peer_lists.
    destruct (root_remove_peer_lists_spec (width v) (size (nodes t)) [n] [tr] t)
      as (t' & E1 & H1 & H2 & H3 & H4 & H5 & H6).
    + constructor; [by exists (base v)|constructor].
    + by eapply wf_fits.
    + cbn. rewrite app_nil_r. apply ids_size; [done|]. intros m Hm. by eapply repr_dom.
    + rewrite E1. cbn [mbind option_bind]. eexists. split; [done|]. split_and!; try done.
      * cbn. by rewrite H4.
      * cbn [map concat] in H6. rewrite app_nil_r in H6. done.
  - apply repr_empty in Hr. subst tr. exists t. split_and!; try done; [by rewrite app_nil_r|].
    intros q m. cbn. rewrite elem_of_nil. tauto.
Qed.

Lemma pending_root_cbs v h ptr tr :
  repr (width v) h (base v) ptr tr -> wf (width v) 0 0 tr -> Forall2 (pending h) (root_cbs ptr) (root_dead tr).
Proof.
  intros Hr Hwf. destruct tr as [|n p c k l r]; [cbn in Hr; subst ptr; constructor|].
  pose proof Hr as (-> & _). constructor; [|constructor]. by econstructor.
Qed.

(** Freeing the table empties both tries and every list, and hands all nodes to the grace period. *)
Lemma wg_allowedips_free_correct t T dead :
  inv t T dead ->
  exists t', wg_allowedips_free t = Some t' /\ root4 t' = None /\ root6 t' = None /\
    (forall p, plist t' p = []) /\ nodes t' = nodes t /\
    inv t' (fun _ => E) (dead ++ root_dead (T false) ++ root_dead (T true)).
Proof.
  intros I. unfold wg_allowedips_free.
  pose proof (inv_nodup _ _ _ I) as HND.
  pose proof HND as ((Hn4 & _ & Hn6)%NoDup_app & _)%NoDup_app.
  pose proof (inv_repr _ _ _ I false) as Hr4. pose proof (inv_repr _ _ _ I true) as Hr6.
  pose proof (inv_wf _ _ _ I false) as Hw4. pose proof (inv_wf _ _ _ I true) as Hw6.
  cbn [root_ptr] in Hr4, Hr6.
  set (t0 := write_slot Root6 None (write_slot Root4 None (inc_seq t))).
  destruct (free_root_spec false t0 (root4 t) (T false) Hr4 Hw4 Hn4) as (t1 & E1 & A1 & A2 & A3 & A4 & A5 & A6).
  rewrite E1. cbn [mbind option_bind].
  destruct (free_root_spec true t1 (root6 t) (T true)) as (t2 & E2 & B1 & B2 & B3 & B4 & B5 & B6).
  { by rewrite A1. }
  { done. }
  { done. }
  exists t2. assert (Hnodes : nodes t2 = nodes t) by (by rewrite B1, A1).
  assert (Hempty : forall p, plist t2 p = []).
  { intros p. destruct (plist t2 p) as [|n ns] eqn:El; [done|]. exfalso.
    assert (Hin : n ∈ plist t2 p) by (rewrite El, elem_of_cons; by left).
    apply B6 in Hin as [Hin H6]. apply A6 in Hin as [Hin H4].
    change (plist t0 p) with (plist t p) in Hin. apply (inv_lists _ _ _ I) in Hin.
    unfold fowners in Hin. rewrite elem_of_app in Hin. rewrite list_elem_of_fmap in H4. rewrite list_elem_of_fmap in H6.
    destruct Hin as [Hin|Hin]; [apply H4|apply H6]; by exists (n, p). }
  split; [done|]. split; [by rewrite B2, A2|]. split; [by rewrite B3, A3|]. split; [done|]. split; [done|].
  split; try done.
  - intros v. destruct v; cbn; [by rewrite B3, A3|by rewrite B2, A2].
  - cbn. rewrite !concat_app, !concat_root_dead. rewrite Permutation_app_comm. done.
  - intros p n. rewrite Hempty. cbn. by split; intros ?%elem_of_nil.
  - intros p. rewrite Hempty. constructor.
  - rewrite B4, A4, Hnodes. rewrite <- app_assoc. apply Forall2_app; [apply (inv_rcu _ _ _ I)|].
    by apply Forall2_app; eapply pending_root_cbs.
  - intros n Hn. rewrite Hnodes in Hn. apply (inv_alloc _ _ _ I) in Hn.
    cbn. rewrite !concat_app, !concat_root_dead, Permutation_app_comm. done.
Qed.

(** A grace period frees the memory of the oldest callback and nothing else. *)
Lemma rcu_run_one_correct t T ns dead :
  inv t T (ns :: dead) ->
  exists t', rcu_run_one t = Some t' /\ inv t' T dead /\ (forall p, plist t' p = plist t p) /\
    forall m, nodes t' !! m = if decide (m ∈ ns) then None else nodes t !! m.
Proof.
  intros I. pose proof (inv_rcu _ _ _ I) as Hp. pose proof (inv_nodup _ _ _ I) as HND. cbn [concat] in HND.
  pose proof HND as (_ & HdisT & (Hndn & Hdis & _)%NoDup_app)%NoDup_app.
  unfold rcu_run_one. destruct (rcu t) as [|cb cbs]; [by inversion Hp|]. apply Forall2_cons in Hp as [Hcb Hcbs].
  set (t0 := {| root4 := root4 t; root6 := root6 t; seq := seq t; nodes := nodes t; peer_lists := peer_lists t; rcu := cbs |}).
  assert (Hrun : exists t', match cb with node_free n => node_free_rcu n t0 | root_free n => root_free_rcu n t0 end = Some t' /\
     peer_lists t' = peer_lists t /\ root4 t' = root4 t /\ root6 t' = root6 t /\ rcu t' = cbs /\
     forall m, nodes t' !! m = if decide (m ∈ ns) then None else nodes t !! m).
  { destruct Hcb as [n Hn|v n tr Hr Hwf].
    - eexists. split; [done|]. split_and!; try done. intros m. cbn [nodes set_nodes t0].
      case_decide as Hm; rewrite list_elem_of_singleton in Hm; [subst; apply lookup_delete_eq|by apply lookup_delete_ne].
    - unfold root_free_rcu.
      destruct (root_free_rcu_spec (width v) (size (nodes t0)) [n] [tr] t0) as (t' & E1' & H1 & H2 & H3 & H4 & H5).
      + constructor; [by exists (base v)|constructor].
      + by eapply wf_fits.
      + cbn. by rewrite app_nil_r.
      + cbn. rewrite app_nil_r. apply ids_size; [done|]. intros m Hm. by eapply repr_dom.
      + exists t'. cbn [map concat] in H5. rewrite app_nil_r in H5. done. }
  destruct Hrun as (t' & E' & H1 & H2 & H3 & H4 & H5). exists t'. split; [done|].
  assert (Hfr : forall m, m ∈ fids T ++ concat dead -> nodes t' !! m = nodes t !! m).
  { intros m Hm. rewrite H5. case_decide as Hin; [|done]. exfalso. apply elem_of_app in Hm as [Hm|Hm].
    - apply (HdisT m Hm). rewrite elem_of_app. by left.
    - by apply (Hdis m Hin). }
  assert (Hpl : forall p, plist t' p = plist t p) by (intros p; unfold plist; by rewrite H1).
  split; [|done]. split.
  - intros v. eapply repr_frame with (h := nodes t).
    + intros m Hm. apply Hfr. rewrite (fids_split T v), !elem_of_app. tauto.
    + replace (root_ptr t' v) with (root_ptr t v) by (by destruct v). apply (inv_repr _ _ _ I).
  - apply (inv_wf _ _ _ I).
  - apply (inv_compact _ _ _ I).
  - clear -HND. apply NoDup_app in HND as (H1 & H2 & (_ & _ & H3)%NoDup_app). apply NoDup_app.
    split; [done|]. split; [|done]. intros m Hm Hin. apply (H2 m Hm). rewrite elem_of_app. by right.
  - intros p m. rewrite Hpl. apply (inv_lists _ _ _ I).
  - intros p. rewrite Hpl. apply (inv_lists_nodup _ _ _ I).
  - rewrite H4. eapply pendings_frame; [|exact Hcbs]. intros m Hm. apply Hfr. rewrite elem_of_app. by right.
  - intros m Hm. rewrite H5 in Hm. case_decide; [by destruct Hm|].
    apply (inv_alloc _ _ _ I) in Hm. cbn in Hm. rewrite !elem_of_app in *. tauto.
Qed.

(** All pending grace periods. *)
Fixpoint rcu_barrier (fuel : nat) (t : allowedips) : option allowedips :=
  match fuel with
  | O => Some t
  | S fuel => t ← rcu_run_one t; rcu_barrier fuel t
  end.

Lemma rcu_barrier_correct t T dead :
  inv t T dead ->
  exists t', rcu_barrier (length (rcu t)) t = Some t' /\ inv t' T [] /\ (forall p, plist t' p = plist t p).
Proof.
  intros I. pose proof (Forall2_length _ _ _ (inv_rcu _ _ _ I)) as Hlen. rewrite Hlen. clear Hlen.
  revert t I. induction dead as [|ns dead IH]; intros t I; cbn [rcu_barrier length].
  - by exists t.
  - destruct (rcu_run_one_correct t T ns dead I) as (t1 & E1 & I1 & H1 & _). rewrite E1. cbn [mbind option_bind].
    destruct (IH t1 I1) as (t2 & E2 & I2 & H2). exists t2. split; [done|]. split; [done|].
    intros p. by rewrite H2, H1.
Qed.
