(* ===== verification/AllowedIpsRead.v ===== *)
(** * AllowedIpsRead: reading the routes of a peer back

    [wg_allowedips_read_node] gives the family, the masked address and the prefix length of a node;
    the nodes on a peer's list read back as exactly the routes the peer has. *)

From S2P Require Import Prelude Skb AllowedIps AllowedIpsBits AllowedIpsTree AllowedIpsHeap AllowedIpsInv.

(** The host-order key of a node written out in network order. *)
Lemma be_val_swap_endian w src :
  is_width w -> wf_bytes src -> w / 8 <= Z.of_nat (length src) -> be_val (swap_endian src w) = kval w src.
Proof.
  intros Hw Hs Hl.
  assert (Hsw : forall n l, length l = n -> wf_bytes l -> be_val (le_bytes n (be_val l)) = le_val l).
  { intros n l <- Hwf. unfold be_val. rewrite <- (length_rev l), le_bytes_le_val by (by apply wf_bytes_rev).
    by rewrite rev_involutive. }
  destruct Hw as [-> | ->]; unfold kval, swap_endian, load32, load64; cbn [Z.eqb Pos.eqb].
  - change (32 / 8) with 4 in Hl. apply Hsw; [rewrite length_take; lia|by apply Forall_take].
  - change (128 / 8) with 16 in Hl. rewrite be_val_app, le_bytes_length, drop_0.
    rewrite !Hsw; try (rewrite ?length_take, ?length_drop; lia); try done; repeat (apply Forall_take || apply Forall_drop); done.
Qed.

(** Clearing the low bits of a byte. *)
Lemma mask_byte b r :
  is_byte b -> 0 <= r < 8 -> u8 (Z.land b (u32 (Z.shiftl (2 ^ 32 - 1) r))) = b / 2 ^ r * 2 ^ r.
Proof.
  intros Hb Hr. unfold is_byte in Hb.
  assert (Hall : forallb (fun r => forallb (fun b =>
    u8 (Z.land b (u32 (Z.shiftl (2 ^ 32 - 1) r))) =? b / 2 ^ r * 2 ^ r) (seqZ 0 256)) (seqZ 0 8) = true)
    by (vm_compute; done).
  rewrite forallb_forall in Hall. specialize (Hall r ltac:(apply list_elem_of_In, elem_of_seqZ; lia)).
  cbv beta in Hall. rewrite forallb_forall in Hall. apply Z.eqb_eq, Hall, list_elem_of_In, elem_of_seqZ. lia.
Qed.

(** The bytes of [ip] with all but the first [c] bits cleared. *)
Lemma mask_bytes ip (c : Z) :
  wf_bytes ip -> 0 < c <= 8 * Z.of_nat (length ip) ->
  let cb := Z.to_nat ((c + 7) / 8) in
  let low := 8 * Z.of_nat (length ip) - c in
  let out := alter (fun b => u8 (Z.land b (u32 (Z.shiftl (2 ^ 32 - 1) ((- c) mod 8))))) (cb - 1)%nat
               (take cb ip ++ zeroes (length ip - cb)) in
  wf_bytes out /\ length out = length ip /\ be_val out = be_val ip / 2 ^ low * 2 ^ low.
Proof.
  intros Hip Hc cb low out.
  assert (Hr : (- c) mod 8 = 8 * ((c + 7) / 8) - c).
  { pose proof (Z.div_mod (c + 7) 8 ltac:(lia)). pose proof (Z.mod_pos_bound (c + 7) 8 ltac:(lia)).
    symmetry. apply (Z.mod_unique_pos (- c) 8 (- ((c + 7) / 8))); lia. }
  set (r := (- c) mod 8) in *. assert (Hr8 : 0 <= r < 8) by (apply Z.mod_pos_bound; lia).
  assert (Hcb : (1 <= cb <= length ip)%nat) by lia.
  assert (Hlow : low = 8 * Z.of_nat (length ip - cb) + r) by lia.
  destruct (lookup_lt_is_Some_2 ip (cb - 1)) as [b Hb]; [lia|].
  assert (Hbb : is_byte b) by (by eapply Forall_lookup_1).
  assert (Hpre : take cb ip = take (cb - 1) ip ++ [b]).
  { replace cb with (S (cb - 1)) at 1 by lia. by apply take_S_r. }
  set (pre := take (cb - 1) ip) in *. assert (Hlp : length pre = (cb - 1)%nat) by (unfold pre; rewrite length_take; lia).
  assert (Hout : out = pre ++ [b / 2 ^ r * 2 ^ r] ++ zeroes (length ip - cb)).
  { unfold out. rewrite Hpre, <- app_assoc. rewrite alter_app_r_alt by lia. rewrite Hlp, Nat.sub_diag.
    cbn [app alter list_alter]. by rewrite mask_byte. }
  assert (Hz : length (zeroes (length ip - cb)) = (length ip - cb)%nat) by apply length_replicate.
  rewrite Hout. split; [|split].
  - apply Forall_app. split; [by apply Forall_take|]. apply Forall_app. split; [|apply zeroes_wf].
    constructor; [|constructor]. unfold is_byte in *. pose proof (Z.div_mod b (2 ^ r)).
    pose proof (Z.mod_pos_bound b (2 ^ r)). pose proof (Z.pow_pos_nonneg 2 r).
    pose proof (Z.div_pos b (2 ^ r)). nia.
  - rewrite !length_app, Hlp, Hz. cbn. lia.
  - rewrite !be_val_app, be_val_zeroes, length_app, Hz. cbn [length].
    assert (Hip2 : be_val ip = (be_val pre * 256 + b) * 2 ^ (8 * Z.of_nat (length ip - cb)) + be_val (drop cb ip)).
    { rewrite <- (take_drop cb ip) at 1. rewrite be_val_app, length_drop, Hpre, be_val_app. cbn [length].
      unfold be_val at 2. cbn [rev app]. unfold le_val. rewrite Z.mul_0_r, Z.add_0_r. done. }
    pose proof (be_val_bound (drop cb ip) (Forall_drop _ _ _ Hip)) as Hd. rewrite length_drop in Hd.
    replace (be_val [b / 2 ^ r * 2 ^ r]) with (b / 2 ^ r * 2 ^ r)
      by (unfold be_val; cbn [rev app]; unfold le_val; lia).
    set (m := 8 * Z.of_nat (length ip - cb)) in *.
    replace (8 * Z.of_nat (1 + (length ip - cb))) with (8 + m) by lia.
    rewrite Hlow, !Z.pow_add_r by lia. rewrite <- Z.div_div by (try apply Z.pow_nonzero; lia).
    rewrite Hip2, Z.div_add_l, (Z.div_small (be_val (drop cb ip))), !Z.add_0_r by (try apply Z.pow_nonzero; try apply Z.pow_pos_nonneg; lia).
    assert (H256 : 256 = 2 ^ (8 - r) * 2 ^ r) by (rewrite <- Z.pow_add_r by lia; by replace (8 - r + r) with 8 by lia).
    replace (be_val pre * 256 + b) with ((be_val pre * 2 ^ (8 - r)) * 2 ^ r + b) by (rewrite H256; ring).
    rewrite Z.div_add_l by (apply Z.pow_nonzero; lia).
    change (2 ^ 8) with 256. rewrite H256. ring.
Qed.

Definition family (w : Z) : Z := if w =? 32 then AF_INET else AF_INET6.

(** The address with prefix [P] of length [c], in network order. *)
Definition masked_addr (w c P : Z) : bytes := be_bytes (Z.to_nat (w / 8)) (P * 2 ^ (w - c)).

Lemma read_node_spec w nd p c k :
  is_width w -> node_ok w nd p c k -> 0 <= c <= w ->
  wg_allowedips_read_node nd = (family w, masked_addr w c (pfx w c k), c).
Proof.
  intros Hw (_ & Hc & Hk & _ & Hbl & Hwf & Hlen) Hr. unfold wg_allowedips_read_node. rewrite Hc, Hbl. fold (family w).
  assert (Hl8 : Z.to_nat (w / 8) = length (swap_endian (bits nd) w) /\ w = 8 * Z.of_nat (length (swap_endian (bits nd) w))).
  { destruct Hw as [-> | ->]; unfold swap_endian; cbn [Z.eqb Pos.eqb]; rewrite ?length_app, !le_bytes_length; done. }
  destruct Hl8 as [Hl8 Hw8].
  pose proof (swap_endian_wf w (bits nd) Hw) as [Hswf _].
  assert (Hbe : be_val (swap_endian (bits nd) w) = k).
  { rewrite <- Hk. apply be_val_swap_endian; [done..|]. rewrite Hlen. destruct Hw as [-> | ->]; vm_compute; discriminate. }
  unfold masked_addr. rewrite Hl8. set (ip := swap_endian (bits nd) w) in *. do 2 f_equal.
  unfold pfx. rewrite Z.shiftr_div_pow2 by lia.
  destruct (Z.eqb_spec c 0) as [->|Hc0].
  - change (Z.to_nat ((0 + 7) / 8)) with 0%nat. rewrite take_0, Nat.sub_0_r. cbn [app].
    pose proof (be_val_bound ip Hswf) as Hb. rewrite Hbe in Hb.
    rewrite Z.div_small, Z.mul_0_l by (rewrite Z.sub_0_r, Hw8; lia).
    apply be_val_inj; auto with wg; [by rewrite be_bytes_length; apply length_replicate|].
    by rewrite be_val_be_bytes, be_val_zeroes, Z.mod_0_l by (apply Z.pow_nonzero; lia).
  - pose proof (mask_bytes ip c Hswf ltac:(lia)) as (Hwf' & Hl' & Hv').
    rewrite Hbe, <- Hw8 in Hv'. etransitivity; [symmetry; by apply be_bytes_be_val|]. by rewrite Hl', Hv'.
Qed.

(** The node of an owner holds one of the routes, and every route is held by an owner's node. *)
Lemma owner_route w h sp ptr t n p :
  repr w h sp ptr t -> (n, p) ∈ owners t ->
  exists nd c k, h !! n = Some nd /\ node_ok w nd (Some p) c k /\ (c, pfx w c k, p) ∈ routes w t.
Proof.
  revert sp ptr. induction t as [|m q c k l IHl r IHr]; intros sp ptr; cbn [repr owners routes].
  { intros _ H. by apply elem_of_nil in H. }
  intros (_ & nd & H1 & H2 & _ & H4 & H5). setoid_rewrite elem_of_app. setoid_rewrite elem_of_app. intros [H|[H|H]].
  - destruct q as [q|]; [|by apply elem_of_nil in H]. apply list_elem_of_singleton in H. simplify_eq.
    exists nd, c, k. split; [done|]. split; [done|]. left. by apply list_elem_of_singleton.
  - destruct (IHl _ _ H4 H) as (nd' & c' & k' & ? & ? & ?). exists nd', c', k'. auto.
  - destruct (IHr _ _ H5 H) as (nd' & c' & k' & ? & ? & ?). exists nd', c', k'. auto.
Qed.

Lemma route_node w h sp ptr t c P p :
  repr w h sp ptr t -> (c, P, p) ∈ routes w t ->
  exists n nd k, (n, p) ∈ owners t /\ h !! n = Some nd /\ node_ok w nd (Some p) c k /\ P = pfx w c k.
Proof.
  revert sp ptr. induction t as [|m q c' k l IHl r IHr]; intros sp ptr; cbn [repr owners routes].
  { intros _ H. by apply elem_of_nil in H. }
  intros (_ & nd & H1 & H2 & _ & H4 & H5). setoid_rewrite elem_of_app. setoid_rewrite elem_of_app. intros [H|[H|H]].
  - destruct q as [q|]; [|by apply elem_of_nil in H]. apply list_elem_of_singleton in H. simplify_eq.
    exists m, nd, k. split; [left; by apply list_elem_of_singleton|done].
  - destruct (IHl _ _ H4 H) as (n' & nd' & k' & ? & ?). exists n', nd', k'. auto.
  - destruct (IHr _ _ H5 H) as (n' & nd' & k' & ? & ?). exists n', nd', k'. auto.
Qed.
