(* ===== verification/AllowedIpsProps.v ===== *)
(** * AllowedIpsProps: allowedips.c implements two longest-prefix-match routing tables

    The specification of the component is a pair of finite maps from prefixes to peers; every
    exported operation of allowedips.c is shown to implement an operation on them. *)

From S2P Require Import Prelude Skb AllowedIps AllowedIpsBits AllowedIpsTree AllowedIpsHeap AllowedIpsInv AllowedIpsAdd AllowedIpsRemove AllowedIpsFree AllowedIpsRead.

(** The abstract state: for IPv4 and IPv6, which peer owns which prefix (length and bits). *)
Abbreviation rtable := (gmap (Z * Z) peer_id).
Definition routing (t : allowedips) (R : bool -> rtable) : Prop :=
  exists T dead, inv t T dead /\ forall v, table (width v) (T v) = R v.

Definition no_routes : bool -> rtable := fun _ => ∅.
Definition set_route (R : bool -> rtable) (v : bool) (c P : Z) (p : peer_id) : bool -> rtable :=
  fun v' => if Bool.eqb v v' then <[(c, P) := p]> (R v') else R v'.
Definition drop_peer (R : bool -> rtable) (p : peer_id) : bool -> rtable :=
  fun v => filter (fun kp => kp.2 <> p) (R v).

(** Both insertion functions, selected by the IP version. *)
Definition wg_allowedips_insert (v : bool) (ip : bytes) (cidr : Z) (p : option peer_id)
    (mem1 mem2 : option nid) (t : allowedips) : option (Z * allowedips) :=
  if v then wg_allowedips_insert_v6 ip cidr p mem1 mem2 t else wg_allowedips_insert_v4 ip cidr p mem1 mem2 t.

Definition lookup_addr (v : bool) (retries : nat) (get : peer_id -> bool) (t : allowedips) (ip : bytes)
  : option (option peer_id) := AllowedIps.lookup retries get t (root_slot v) (width v) ip.

(** An address of the version. *)
Definition is_addr (v : bool) (ip : bytes) : Prop := wf_bytes ip /\ Z.of_nat (length ip) = width v / 8.

Definition empty_table : allowedips :=
  wg_allowedips_init {| root4 := None; root6 := None; seq := 0; nodes := ∅; peer_lists := ∅; rcu := [] |}.

Lemma routing_empty : routing empty_table no_routes.
Proof.
  exists (fun _ => E), []. split; [|done]. split; try done.
  - intros []; done.
  - constructor.
  - intros p n. unfold plist. cbn. by split; intros ?%elem_of_nil.
  - intros p. unfold plist. cbn. constructor.
  - intros n [? Hn]. done.
Qed.

Lemma insert_key v ip :
  is_addr v ip -> wf_key (width v) (swap_endian ip (width v)) /\ kval (width v) (swap_endian ip (width v)) = be_val ip.
Proof.
  intros [Hb Hl]. split; [apply swap_endian_wf, width_is_width|]. by apply kval_swap_endian; [apply width_is_width|..].
Qed.

Lemma insert_is_add v ip cidr p mem1 mem2 t :
  wg_allowedips_insert v ip cidr p mem1 mem2 t
  = add (root_slot v) (width v) (swap_endian ip (width v)) cidr p mem1 mem2 (inc_seq t).
Proof. by destruct v. Qed.

(** A successful insertion is a map insertion, a failed one changes nothing. *)
Lemma route_insert_spec t R v ip cidr p mem1 mem2 :
  routing t R -> is_addr v ip -> 0 <= cidr <= width v -> fresh t mem1 mem2 ->
  exists ret t', wg_allowedips_insert v ip cidr (Some p) mem1 mem2 t = Some (ret, t') /\
    ((ret = 0 /\ routing t' (set_route R v cidr (pfx (width v) cidr (be_val ip)) p)) \/
     (ret = - ENOMEM /\ (mem1 = None \/ mem2 = None) /\ routing t' R)).
Proof.
  intros (T & dead & I & HR) Hip Hc Hf. destruct (insert_key v ip Hip) as [Hk Hv]. rewrite insert_is_add.
  destruct (add_correct (inc_seq t) T dead (inv_inc_seq _ _ _ I) v _ Hk cidr Hc p mem1 mem2 Hf)
    as (ret & t' & E & [[-> (tr & I' & Htab)]|(-> & Hm & I')]); (do 2 eexists; split; [done|]).
  - left. split; [done|]. exists (fupd T v tr), dead. split; [done|]. intros v'. unfold fupd, set_route.
    rewrite <- HR. destruct (Bool.eqb_spec v v') as [<-|]; [|done]. by rewrite Htab, Hv.
  - right. split; [done|]. split; [done|]. by exists T, dead.
Qed.

Lemma remove_by_peer_spec t R p :
  routing t R ->
  exists t', wg_allowedips_remove_by_peer p t = Some t' /\ routing t' (drop_peer R p) /\ plist t' p = [].
Proof.
  intros (T & dead & I & HR). unfold wg_allowedips_remove_by_peer. fold (plist t p).
  assert (exists t', remove_nodes (plist t p) (inc_seq t) = Some t' /\ routing t' (drop_peer R p) /\ plist t' p = []) as Hgo.
  { destruct (remove_nodes_correct p (plist t p) (inc_seq t) T dead (inv_inc_seq _ _ _ I) eq_refl)
      as (t' & T' & dead' & E & I' & Hp & _ & Htab).
    exists t'. split; [done|]. split; [|done]. exists T', dead'. split; [done|]. intros v.
    unfold drop_peer. by rewrite Htab, HR. }
  destruct (plist t p) as [|n ns] eqn:El; [|done].
  destruct Hgo as (t' & [= <-] & (T' & dead' & I' & Htab) & _). exists t. split; [done|]. split; [|done].
  exists T', dead'. split; [|done]. by eapply (inv_same (inc_seq t) t); [exact I'|..].
Qed.

Lemma lookup_spec t R v retries get ip :
  routing t R -> is_addr v ip -> (forall p, lpm (width v) (R v) (be_val ip) = Some p -> get p = true) ->
  lookup_addr v retries get t ip = Some (lpm (width v) (R v) (be_val ip)).
Proof.
  intros (T & dead & I & HR) Hip Hget. destruct (insert_key v ip Hip) as [Hk Hv].
  unfold lookup_addr, AllowedIps.lookup.
  assert (Hw0 : 0 <= width v) by (by destruct v).
  assert (Hkv : 0 <= be_val ip < 2 ^ width v) by (rewrite <- Hv; apply kval_range; [apply width_is_width|apply Hk]).
  pose proof (best_lpm (width v) (T v) (be_val ip) Hw0 (inv_wf _ _ _ I v) Hkv) as Hbest. rewrite HR in Hbest.
  pose proof (find_node_loop_best (width v) (width_is_width v) (nodes t) (swap_endian ip (width v)) Hk (T v) 0 0
    (path_fuel (width v)) (base v) (root_ptr t v) None ltac:(lia) (inv_wf _ _ _ I v) (inv_repr _ _ _ I v)
    ltac:(unfold path_fuel; lia)) as Hfind. rewrite Hv in Hfind. cbn [fmap option_fmap option_map] in Hfind.
  destruct retries as [|retries]; cbn [lookup_retry]; rewrite read_root; unfold find_node; rewrite Hfind;
    cbn [mbind option_bind]; (destruct (best (width v) (T v) (be_val ip) None) as [[n p]|] eqn:Eb;
    cbn in Hbest |- *; [|by rewrite <- Hbest]);
    (destruct (repr_owner (width v) (nodes t) (base v) (root_ptr t v) (T v) n p) as (nd & H1 & H2);
      [apply (inv_repr _ _ _ I v)|by eapply best_owner|]);
    rewrite H1; cbn; rewrite H2, (Hget p) by done; by rewrite <- Hbest.
Qed.

(** A lookup only ever gives a peer that owns a route, whatever the address and the races. *)
Lemma lookup_owned t R v retries get ip p :
  routing t R -> lookup_addr v retries get t ip = Some (Some p) -> exists c P, R v !! (c, P) = Some p.
Proof.
  intros (T & dead & I & HR) H.
  assert (Hk : wf_key (width v) (swap_endian ip (width v))) by apply swap_endian_wf, width_is_width.
  unfold lookup_addr, AllowedIps.lookup in H.
  pose proof (find_node_loop_best (width v) (width_is_width v) (nodes t) (swap_endian ip (width v)) Hk (T v) 0 0
    (path_fuel (width v)) (base v) (root_ptr t v) None ltac:(lia) (inv_wf _ _ _ I v) (inv_repr _ _ _ I v)
    ltac:(unfold path_fuel; lia)) as Hfind. cbn [fmap option_fmap option_map] in Hfind.
  assert (Hp : exists n, (n, p) ∈ owners (T v)).
  { induction retries as [|retries IH]; cbn [lookup_retry] in H; rewrite read_root in H; unfold find_node in H; rewrite Hfind in H;
      cbn [mbind option_bind] in H; (destruct (best (width v) (T v) _ None) as [[n q]|] eqn:Eb; cbn in H; [|done]);
      apply best_owner in Eb; (destruct (repr_owner _ _ _ _ _ _ _ (inv_repr _ _ _ I v) Eb) as (nd & H1 & H2));
      rewrite H1 in H; cbn in H; rewrite H2 in H; (destruct (get q); [injection H as <-; by exists n|]); [done|by apply IH]. }
  destruct Hp as [n Hn]. destruct (owner_route _ _ _ _ _ _ _ (inv_repr _ _ _ I v) Hn) as (nd & c & k & _ & _ & Hr).
  exists c, (pfx (width v) c k). rewrite <- HR. apply table_spec; [apply (inv_wf _ _ _ I)|done].
Qed.

(** A peer without routes gets an empty list. *)
Lemma routing_new_list t R p :
  routing t R -> (forall v k, R v !! k <> Some p) -> routing (set_peer_lists (insert p []) t) R.
Proof.
  intros (T & dead & I & HR) Hp.
  assert (Hnil : plist t p = []).
  { destruct (plist t p) as [|n l] eqn:El; [done|]. exfalso.
    assert (Hn : n ∈ plist t p) by (rewrite El; left). apply (inv_lists _ _ _ I) in Hn.
    assert (exists v, (n, p) ∈ owners (T v)) as [v Hv] by (unfold fowners in Hn; apply elem_of_app in Hn as [?|?]; eauto).
    destruct (owner_route _ _ _ _ _ _ _ (inv_repr _ _ _ I v) Hv) as (nd & c & k & _ & _ & Hr).
    apply (Hp v (c, pfx (width v) c k)). rewrite <- HR. apply table_spec; [apply (inv_wf _ _ _ I)|done]. }
  assert (Hpl : forall q, plist (set_peer_lists (insert p []) t) q = plist t q).
  { intros q. unfold plist, set_peer_lists. cbn [peer_lists]. rewrite lookup_insert. case_decide as Hq; [|done]. subst q. symmetry. exact Hnil. }
  exists T, dead. split; [|done]. split; try apply I.
  - intros q n. rewrite Hpl. apply I.
  - intros q. rewrite Hpl. apply I.
Qed.

(** The nodes of a peer's list and the routes of the peer. *)
Lemma read_back_spec t R p :
  routing t R ->
  (forall n, n ∈ plist t p -> exists v c P nd, nodes t !! n = Some nd /\ R v !! (c, P) = Some p /\
     wg_allowedips_read_node nd = (family (width v), masked_addr (width v) c P, c)) /\
  (forall v c P, R v !! (c, P) = Some p -> exists n nd, n ∈ plist t p /\ nodes t !! n = Some nd /\
     wg_allowedips_read_node nd = (family (width v), masked_addr (width v) c P, c)).
Proof.
  intros (T & dead & I & HR).
  assert (Hrange : forall v c P q, (c, P, q) ∈ routes (width v) (T v) -> 0 <= c <= width v).
  { intros v c P q Hin. by apply (routes_below _ _ _ _ _ _ _ (inv_wf _ _ _ I v) Hin). }
  split.
  - intros n Hn. apply (inv_lists _ _ _ I) in Hn.
    assert (exists v, (n, p) ∈ owners (T v)) as [v Hv].
    { unfold fowners in Hn. apply elem_of_app in Hn as [?|?]; eauto. }
    destruct (owner_route _ _ _ _ _ _ _ (inv_repr _ _ _ I v) Hv) as (nd & c & k & H1 & H2 & H3).
    exists v, c, (pfx (width v) c k), nd. split; [done|]. split.
    + rewrite <- HR. apply table_spec; [apply (inv_wf _ _ _ I)|done].
    + apply (read_node_spec _ nd _ _ _ (width_is_width v) H2). by eapply Hrange.
  - intros v c P HP. rewrite <- HR in HP. apply table_spec in HP; [|apply (inv_wf _ _ _ I)].
    destruct (route_node _ _ _ _ _ _ _ _ (inv_repr _ _ _ I v) HP) as (n & nd & k & H1 & H2 & H3 & ->).
    exists n, nd. split; [|split; [done|]].
    + apply (inv_lists _ _ _ I). unfold fowners. apply elem_of_app. destruct v; auto.
    + apply (read_node_spec _ nd _ _ _ (width_is_width v) H3). by eapply Hrange.
Qed.

(** ** Histories of a table *)

(** The states a table goes through, with the routes it is meant to hold. *)
Inductive reachable : allowedips -> (bool -> rtable) -> Prop :=
| reach_init : reachable empty_table no_routes
| reach_insert t R v ip cidr p mem1 mem2 ret t' :
    reachable t R -> is_addr v ip -> 0 <= cidr -> fresh t mem1 mem2 ->
    wg_allowedips_insert v ip cidr p mem1 mem2 t = Some (ret, t') ->
    reachable t' (match p with
                  | Some p => if ret =? 0 then set_route R v cidr (pfx (width v) cidr (be_val ip)) p else R
                  | None => R end)
| reach_remove t R p t' :
    reachable t R -> wg_allowedips_remove_by_peer p t = Some t' -> reachable t' (drop_peer R p)
| reach_grace t R t' : reachable t R -> rcu_run_one t = Some t' -> reachable t' R
| reach_free t R t' : reachable t R -> wg_allowedips_free t = Some t' -> reachable t' no_routes.

Lemma insert_invalid v ip cidr p mem1 mem2 t :
  width v < cidr \/ p = None -> wg_allowedips_insert v ip cidr p mem1 mem2 t = Some (- EINVAL, inc_seq t).
Proof.
  intros H. rewrite insert_is_add. unfold add. destruct (Z.ltb_spec (width v) cidr); [done|].
  destruct H as [| ->]; [lia|done].
Qed.

Lemma routing_inc_seq t R : routing t R -> routing (inc_seq t) R.
Proof. intros (T & dead & I & HR). exists T, dead. split; [by apply inv_inc_seq|done]. Qed.

Lemma routing_grace t R : routing t R -> exists t', rcu_run_one t = Some t' /\ routing t' R.
Proof.
  intros (T & dead & I & HR). destruct dead as [|ns dead].
  - pose proof (inv_rcu _ _ _ I) as Hr. apply Forall2_nil_inv_r in Hr as Hnil. unfold rcu_run_one. rewrite Hnil.
    exists t. split; [done|]. by exists T, [].
  - destruct (rcu_run_one_correct t T ns dead I) as (t' & E1 & I1 & _). exists t'. split; [done|]. by exists T, dead.
Qed.

Lemma routing_free t R : routing t R -> exists t', wg_allowedips_free t = Some t' /\ routing t' no_routes.
Proof.
  intros (T & dead & I & HR). destruct (wg_allowedips_free_correct t T dead I) as (t' & E1 & _ & _ & _ & _ & I').
  exists t'. split; [done|]. eexists _, _. split; [exact I'|done].
Qed.

Lemma reachable_routing t R : reachable t R -> routing t R.
Proof.
  induction 1 as [|t R v ip cidr p mem1 mem2 ret t' _ IH Hip Hc Hf E|t R p t' _ IH E|t R t' _ IH E|t R t' _ IH E].
  - apply routing_empty.
  - destruct (decide (width v < cidr \/ p = None)) as [Hbad|Hok].
    + rewrite insert_invalid in E by done. injection E as <- <-. apply routing_inc_seq in IH.
      destruct p; [|done]. done.
    + destruct p as [p|]; [|tauto]. destruct (route_insert_spec t R v ip cidr p mem1 mem2 IH Hip ltac:(lia) Hf)
        as (ret' & t1 & E1 & [[-> H1]|(-> & _ & H1)]); rewrite E1 in E; injection E as <- <-; done.
  - destruct (remove_by_peer_spec t R p IH) as (t1 & E1 & H1 & _). by rewrite E1 in E; injection E as <-.
  - destruct (routing_grace t R IH) as (t1 & E1 & H1). by rewrite E1 in E; injection E as <-.
  - destruct (routing_free t R IH) as (t1 & E1 & H1). by rewrite E1 in E; injection E as <-.
Qed.

(** ** A concrete table for the witnesses: 10.0.0.0/8 for peer 1, 10.1.0.0/16 for peer 2 *)

Definition ex_insert (ip : bytes) (cidr : Z) (p : peer_id) (mem1 mem2 : nid) (t : allowedips) : allowedips :=
  match wg_allowedips_insert false ip cidr (Some p) (Some mem1) (Some mem2) t with
  | Some (_, t) => t | None => t end.
Definition ex_t1 := ex_insert [10; 0; 0; 0] 8 1 1 2 empty_table.
Definition ex_t2 := ex_insert [10; 1; 0; 0] 16 2 3 4 ex_t1.
Definition ex_R1 := set_route no_routes false 8 (pfx 32 8 (be_val [10; 0; 0; 0])) 1%positive.
Definition ex_R2 := set_route ex_R1 false 16 (pfx 32 16 (be_val [10; 1; 0; 0])) 2%positive.

Lemma is_addr_v4 a b c d : is_byte a -> is_byte b -> is_byte c -> is_byte d -> is_addr false [a; b; c; d].
Proof. intros. split; [by rewrite !Forall_cons|done]. Qed.

Lemma fresh_some t m1 m2 : nodes t !! m1 = None -> nodes t !! m2 = None -> m1 <> m2 -> fresh t (Some m1) (Some m2).
Proof. intros. split; [by intros n [= <-]|]. intros n [= <-]. split; [done|congruence]. Qed.

Ltac byte_addr := apply is_addr_v4; unfold is_byte; lia.

Lemma ex_reach1 : reachable ex_t1 ex_R1.
Proof.
  apply (reach_insert empty_table no_routes false [10; 0; 0; 0] 8 (Some 1%positive) (Some 1%positive) (Some 2%positive) 0).
  - constructor.
  - byte_addr.
  - lia.
  - by apply fresh_some.
  - vm_compute. reflexivity.
Qed.

Lemma ex_reach2 : reachable ex_t2 ex_R2.
Proof.
  apply (reach_insert ex_t1 ex_R1 false [10; 1; 0; 0] 16 (Some 2%positive) (Some 3%positive) (Some 4%positive) 0).
  - apply ex_reach1.
  - byte_addr.
  - lia.
  - by apply fresh_some; vm_compute.
  - vm_compute. reflexivity.
Qed.

(** ** The properties *)

(** C3: whatever sequence of insertions (also failing ones), removals, grace periods and teardowns a
    table has gone through, [lookup] terminates without following a bad pointer and returns the
    peer of the longest prefix that matches the address, among the routes inserted and not since
    removed or replaced, as long as a reference on that peer can be taken. *)
Theorem allowedips_lookup_longest_prefix t R v retries get ip :
  reachable t R -> is_addr v ip -> (forall p, lpm (width v) (R v) (be_val ip) = Some p -> get p = true) ->
  lookup_addr v retries get t ip = Some (lpm (width v) (R v) (be_val ip)).
Proof. intros H%reachable_routing. by apply lookup_spec. Qed.

Lemma allowedips_lookup_longest_prefix_witness :
  lookup_addr false 0 (fun _ => true) ex_t2 [10; 1; 2; 3] = Some (Some 2%positive) /\
  lookup_addr false 0 (fun _ => true) ex_t2 [10; 7; 2; 3] = Some (Some 1%positive) /\
  lookup_addr false 0 (fun _ => true) ex_t2 [11; 7; 2; 3] = Some None.
Proof.
  split_and!; (etransitivity; [apply (allowedips_lookup_longest_prefix ex_t2 ex_R2);
    [apply ex_reach2|byte_addr|done]|vm_compute; reflexivity]).
Defined.

(** C18: inserting a prefix in a table that holds the routes [R] returns 0 and leaves a table that
    holds [R] with the prefix mapped to the peer (replacing the peer it had), or, when one of the
    allocations fails, returns -ENOMEM and leaves a table that still holds exactly [R]. *)
Theorem allowedips_insert_refines t R v ip cidr p mem1 mem2 :
  routing t R -> is_addr v ip -> 0 <= cidr <= width v -> fresh t mem1 mem2 ->
  exists ret t', wg_allowedips_insert v ip cidr (Some p) mem1 mem2 t = Some (ret, t') /\
    ((ret = 0 /\ routing t' (set_route R v cidr (pfx (width v) cidr (be_val ip)) p)) \/
     (ret = - ENOMEM /\ (mem1 = None \/ mem2 = None) /\ routing t' R)).
Proof. apply route_insert_spec. Qed.

Lemma allowedips_insert_refines_witness :
  exists ret t', wg_allowedips_insert false [10; 1; 0; 0] 16 (Some 2%positive) (Some 3%positive) (Some 4%positive) ex_t1
    = Some (ret, t') /\ ret = 0.
Proof.
  destruct (allowedips_insert_refines ex_t1 ex_R1 false [10; 1; 0; 0] 16 2 (Some 3%positive) (Some 4%positive))
    as (ret & t' & E & [[Hr _]|(_ & [H|H] & _)]);
    [apply reachable_routing, ex_reach1|byte_addr|cbn; lia|by apply fresh_some; vm_compute|..]; try done.
  by exists ret, t'.
Defined.

(** C19: removing a peer takes exactly its routes out of both tables, leaves its list empty, and
    cannot get stuck. *)
Theorem allowedips_remove_by_peer_refines t R p :
  routing t R ->
  exists t', wg_allowedips_remove_by_peer p t = Some t' /\ routing t' (drop_peer R p) /\ plist t' p = [].
Proof. apply remove_by_peer_spec. Qed.

Lemma allowedips_remove_by_peer_refines_witness :
  exists t', wg_allowedips_remove_by_peer 1 ex_t2 = Some t' /\ routing t' (drop_peer ex_R2 1).
Proof.
  destruct (allowedips_remove_by_peer_refines ex_t2 ex_R2 1 (reachable_routing _ _ ex_reach2)) as (t' & E & Hr & _).
  by exists t'.
Defined.

(** C32: freeing a table and waiting for the grace periods leaves both tries and every peer's list
    empty and no node allocated; the traversals stay within their stack of 129 entries. *)
Theorem allowedips_free_releases_all t R :
  routing t R ->
  exists t1 t2, wg_allowedips_free t = Some t1 /\ rcu_barrier (length (rcu t1)) t1 = Some t2 /\
    root4 t2 = None /\ root6 t2 = None /\ nodes t2 = ∅ /\ forall p, plist t2 p = [].
Proof.
  intros (T & dead & I & HR).
  destruct (wg_allowedips_free_correct t T dead I) as (t1 & E1 & _ & _ & Hl & _ & I1).
  destruct (rcu_barrier_correct t1 _ _ I1) as (t2 & E2 & I2 & Hl2). exists t1, t2.
  split; [done|]. split; [done|].
  split; [apply (inv_repr _ _ _ I2 false)|]. split; [apply (inv_repr _ _ _ I2 true)|]. split.
  - apply map_eq. intros n. rewrite lookup_empty. apply eq_None_not_Some. intros Hn.
    apply (inv_alloc _ _ _ I2) in Hn. by apply elem_of_nil in Hn.
  - intros p. by rewrite Hl2.
Qed.

Lemma allowedips_free_releases_all_witness :
  exists t1 t2, wg_allowedips_free ex_t2 = Some t1 /\ rcu_barrier (length (rcu t1)) t1 = Some t2 /\ nodes t2 = ∅.
Proof.
  destruct (allowedips_free_releases_all ex_t2 ex_R2 (reachable_routing _ _ ex_reach2)) as (t1 & t2 & E1 & E2 & _ & _ & Hn & _).
  by exists t1, t2.
Defined.

(** The nodes on a peer's list read back (family, masked address in network order, prefix
    length) as exactly the routes of the peer. *)
Theorem allowedips_read_back_routes t R p :
  routing t R ->
  (forall n, n ∈ plist t p -> exists v c P nd, nodes t !! n = Some nd /\ R v !! (c, P) = Some p /\
     wg_allowedips_read_node nd = (family (width v), masked_addr (width v) c P, c)) /\
  (forall v c P, R v !! (c, P) = Some p -> exists n nd, n ∈ plist t p /\ nodes t !! n = Some nd /\
     wg_allowedips_read_node nd = (family (width v), masked_addr (width v) c P, c)).
Proof. apply read_back_spec. Qed.

Lemma allowedips_read_back_routes_witness :
  exists n nd, n ∈ plist ex_t2 2 /\ nodes ex_t2 !! n = Some nd /\
    wg_allowedips_read_node nd = (AF_INET, [10; 1; 0; 0], 16).
Proof.
  destruct (allowedips_read_back_routes ex_t2 ex_R2 2 (reachable_routing _ _ ex_reach2)) as [_ H].
  destruct (H false 16 (pfx 32 16 (be_val [10; 1; 0; 0]))) as (n & nd & H1 & H2 & H3); [vm_compute; reflexivity|].
  exists n, nd. split; [done|]. split; [done|]. rewrite H3. vm_compute. reflexivity.
Defined.
