(* ===== verification/Horrible.v ===== *)
(** * Horrible: the reference routing table of selftest/allowedips.c

    The self-test of the trie compares it with "a trivial implementation": one list of routes of
    both IP versions, the longest prefixes first, searched from the front. The list is modelled with
    its unions of sixteen bytes and its 32-bit loads and stores (on a little-endian machine), and
    shown to be a longest-prefix-match table: a lookup is [lpm] of the routes inserted. *)

From Stdlib Require Import Sorted.
From S2P Require Import Prelude Skb AllowedIps AllowedIpsBits AllowedIpsTree AllowedIpsInv AllowedIpsRead AllowedIpsProps.

Module Horrible.

(** ** The list and its operations *)

(** [union nf_inet_addr] is sixteen bytes, read and written as four words. *)
Definition word (a : bytes) (i : nat) : Z := le_val (take 4 (drop (4 * i) a)).
Definition set_word (a : bytes) (i : nat) (x : Z) : bytes := take (4 * i) a ++ le_bytes 4 x ++ drop (4 * i + 4) a.

Record horrible_allowedips_node := Node { ip : bytes; mask : bytes; ip_version : Z; value : peer_id }.

(** The [hlist] that starts at [head]. *)
Abbreviation horrible_allowedips := (list horrible_allowedips_node).

Definition horrible_allowedips_init : horrible_allowedips := [].

Fixpoint horrible_allowedips_free (table : horrible_allowedips) : horrible_allowedips :=
  match table with [] => [] | _ :: table => horrible_allowedips_free table end.

Definition horrible_cidr_to_mask (cidr : Z) : bytes :=
  let mask := replicate (Z.to_nat (cidr / 8)) 255 ++ zeroes (16 - Z.to_nat (cidr / 8)) in
  if cidr mod 32 =? 0 then mask
  else set_word mask (Z.to_nat (cidr / 32))
         (le_val (be_bytes 4 (Z.land (Z.shiftl 0xFFFFFFFF (32 - cidr mod 32)) 0xFFFFFFFF))).

(** The number of bits set in a word. *)
Definition hweight32 (x : Z) : Z := Z.of_nat (length (List.filter (fun i => Z.testbit x i) (seqZ 0 32))).

Definition horrible_mask_to_cidr (subnet : bytes) : Z :=
  u8 (hweight32 (word subnet 0) + hweight32 (word subnet 1) + hweight32 (word subnet 2) + hweight32 (word subnet 3)).

Definition set_ip (a : bytes) (node : horrible_allowedips_node) : horrible_allowedips_node :=
  Node a (mask node) (ip_version node) (value node).

(** [node->ip.ip6[i] &= node->mask.ip6[i]] *)
Definition mask_word (i : nat) (node : horrible_allowedips_node) : horrible_allowedips_node :=
  set_ip (set_word (ip node) i (Z.land (word (ip node) i) (word (mask node) i))) node.

Definition horrible_mask_self (node : horrible_allowedips_node) : horrible_allowedips_node :=
  if ip_version node =? 4 then mask_word 0 node
  else if ip_version node =? 6 then mask_word 3 (mask_word 2 (mask_word 1 (mask_word 0 node)))
  else node.

Definition match_word (node : horrible_allowedips_node) (a : bytes) (i : nat) : bool :=
  Z.land (word a i) (word (mask node) i) =? word (ip node) i.

Definition horrible_match_v4 (node : horrible_allowedips_node) (a : bytes) : bool := match_word node a 0.

Definition horrible_match_v6 (node : horrible_allowedips_node) (a : bytes) : bool :=
  match_word node a 0 && match_word node a 1 && match_word node a 2 && match_word node a 3.

(** The first loop of [horrible_insert_ordered]: a route that is already there gets the value. *)
Fixpoint replace_value (table : horrible_allowedips) (node : horrible_allowedips_node) : option horrible_allowedips :=
  match table with
  | [] => None
  | other :: table =>
      if (ip_version other =? ip_version node) && bytes_eqb (mask other) (mask node) && bytes_eqb (ip other) (ip node)
      then Some (Node (ip other) (mask other) (ip_version other) (value node) :: table)
      else cons other <$> replace_value table node
  end.

(** The second loop, with the [hlist_add_head], [hlist_add_before] or [hlist_add_behind] after it:
    the node goes before the first one whose prefix is not longer, or to the end. *)
Fixpoint add_ordered (table : horrible_allowedips) (node : horrible_allowedips_node) : horrible_allowedips :=
  match table with
  | [] => [node]
  | other :: rest =>
      if horrible_mask_to_cidr (mask other) <=? horrible_mask_to_cidr (mask node) then node :: other :: rest
      else other :: add_ordered rest node
  end.

Definition horrible_insert_ordered (table : horrible_allowedips) (node : horrible_allowedips_node)
  : horrible_allowedips :=
  match replace_value table node with
  | Some table => table
  | None => add_ordered table node
  end.

(** [mem] tells whether [kzalloc] found memory. *)
Definition horrible_allowedips_insert_v4 (mem : bool) (a : bytes) (cidr : Z) (value : peer_id)
    (table : horrible_allowedips) : Z * horrible_allowedips :=
  if negb mem then (- ENOMEM, table) else
  let node := Node (take 4 a ++ zeroes 12) (horrible_cidr_to_mask cidr) 4 value in
  (0, horrible_insert_ordered table (horrible_mask_self node)).

Definition horrible_allowedips_insert_v6 (mem : bool) (a : bytes) (cidr : Z) (value : peer_id)
    (table : horrible_allowedips) : Z * horrible_allowedips :=
  if negb mem then (- ENOMEM, table) else
  let node := Node (take 16 a) (horrible_cidr_to_mask cidr) 6 value in
  (0, horrible_insert_ordered table (horrible_mask_self node)).

Fixpoint horrible_allowedips_lookup_v4 (table : horrible_allowedips) (a : bytes) : option peer_id :=
  match table with
  | [] => None
  | node :: table =>
      if (ip_version node =? 4) && horrible_match_v4 node a then Some (value node)
      else horrible_allowedips_lookup_v4 table a
  end.

Fixpoint horrible_allowedips_lookup_v6 (table : horrible_allowedips) (a : bytes) : option peer_id :=
  match table with
  | [] => None
  | node :: table =>
      if (ip_version node =? 6) && horrible_match_v6 node a then Some (value node)
      else horrible_allowedips_lookup_v6 table a
  end.

Fixpoint horrible_allowedips_remove_by_value (table : horrible_allowedips) (v : peer_id) : horrible_allowedips :=
  match table with
  | [] => []
  | node :: table =>
      if negb (bool_decide (value node = v)) then node :: horrible_allowedips_remove_by_value table v
      else horrible_allowedips_remove_by_value table v
  end.

(** Both versions, selected as for the trie. *)
Definition horrible_insert (v : bool) := if v then horrible_allowedips_insert_v6 else horrible_allowedips_insert_v4.
Definition horrible_lookup (v : bool) := if v then horrible_allowedips_lookup_v6 else horrible_allowedips_lookup_v4.

(** ** Bytes under a mask *)

Abbreviation zland := (zip_with Z.land).

Lemma zland_wf a b : wf_bytes a -> wf_bytes b -> wf_bytes (zland a b).
Proof.
  intros Ha. revert b. induction Ha as [|x a Hx Ha IH]; intros [|y b] Hb; try constructor; inversion_clear Hb as [|?? Hy Hb'].
  - unfold is_byte in *. pose proof (land_range x y). lia.
  - by apply IH.
Qed.

Lemma rev_zland a b : length a = length b -> rev (zland a b) = zland (rev a) (rev b).
Proof.
  revert b. induction a as [|x a IH]; intros [|y b] Hl; try done. cbn [rev zip_with]. injection Hl as Hl.
  rewrite IH, zip_with_app by (rewrite ?length_rev; done). done.
Qed.

Lemma le_val_land a b :
  wf_bytes a -> wf_bytes b -> length a = length b -> le_val (zland a b) = Z.land (le_val a) (le_val b).
Proof.
  intros Ha Hb Hl. apply Z.bits_inj'. intros n Hn. rewrite Z.land_spec.
  pose proof (Z.mod_pos_bound n 8 ltac:(lia)) as Hm.
  assert (Hn8 : n = 8 * Z.of_nat (Z.to_nat (n / 8)) + n mod 8).
  { pose proof (Z.div_pos n 8). rewrite Z2Nat.id by lia. apply Z.div_mod. lia. }
  rewrite Hn8, !le_val_testbit by (done || by apply zland_wf). rewrite lookup_zip_with.
  destruct (a !! Z.to_nat (n / 8)) as [x|] eqn:Ex; [|by rewrite !Z.bits_0].
  destruct (lookup_lt_is_Some_2 b (Z.to_nat (n / 8))) as [y Ey]; [apply lookup_lt_Some in Ex; lia|].
  rewrite Ey. cbn. apply Z.land_spec.
Qed.

Lemma be_val_land a b :
  wf_bytes a -> wf_bytes b -> length a = length b -> be_val (zland a b) = Z.land (be_val a) (be_val b).
Proof.
  intros Ha Hb Hl. unfold be_val. rewrite rev_zland by done.
  apply le_val_land; [by apply wf_bytes_rev..|by rewrite !length_rev].
Qed.

(** The mask of a prefix keeps the prefix. *)
Lemma land_prefix w c k : 0 <= c <= w -> 0 <= k < 2 ^ w -> Z.land k (2 ^ w - 2 ^ (w - c)) = pfx w c k * 2 ^ (w - c).
Proof.
  intros Hc Hk. assert (Hw : 2 ^ w = 2 ^ c * 2 ^ (w - c)) by (rewrite <- Z.pow_add_r by lia; f_equal; lia).
  replace (2 ^ w - 2 ^ (w - c)) with (Z.shiftl (Z.ones c) (w - c))
    by (rewrite Z.shiftl_mul_pow2, Z.ones_equiv, Hw by lia; lia).
  unfold pfx. rewrite <- Z.shiftl_mul_pow2 by lia. apply Z.bits_inj'. intros n Hn.
  rewrite Z.land_spec, !Z.shiftl_spec by lia. destruct (Z.ltb_spec n (w - c)).
  - rewrite !Z.testbit_neg_r with (n := n - (w - c)) by lia. apply andb_false_r.
  - rewrite Z.shiftr_spec by lia. replace (n - (w - c) + (w - c)) with n by lia. destruct (Z.ltb_spec n w).
    + rewrite Z.ones_spec_low by lia. apply andb_true_r.
    + destruct (Z.eqb_spec k 0) as [->|]; [by rewrite Z.bits_0|]. rewrite Z.bits_above_log2; [done|lia|].
      apply Z.log2_lt_pow2; [lia|]. pose proof (Z.pow_le_mono_r 2 w n). lia.
Qed.

(** Every mask the test makes has its prefix length many leading ones; checked for all of them. *)
Lemma mask_all c :
  0 <= c <= 128 ->
  horrible_mask_to_cidr (horrible_cidr_to_mask c) = c /\
  be_val (horrible_cidr_to_mask c) = 2 ^ 128 - 2 ^ (128 - c) /\
  (c <= 32 -> be_val (take 4 (horrible_cidr_to_mask c)) = 2 ^ 32 - 2 ^ (32 - c)) /\
  wf_bytes (horrible_cidr_to_mask c) /\ length (horrible_cidr_to_mask c) = 16%nat.
Proof.
  intros Hc. assert (Hall : forallb (fun c => let m := horrible_cidr_to_mask c in
    (horrible_mask_to_cidr m =? c) && (be_val m =? 2 ^ 128 - 2 ^ (128 - c)) &&
    ((32 <? c) || (be_val (take 4 m) =? 2 ^ 32 - 2 ^ (32 - c))) &&
    forallb (fun b => (0 <=? b) && (b <? 256)) m && (length m =? 16)%nat) (seqZ 0 129) = true) by (vm_compute; done).
  rewrite forallb_forall in Hall. specialize (Hall c ltac:(apply list_elem_of_In, elem_of_seqZ; lia)).
  cbv beta zeta in Hall. repeat (apply andb_true_iff in Hall as [Hall ?]). apply Z.eqb_eq in Hall.
  split_and!; [done|by apply Z.eqb_eq|intros|apply Forall_forall; intros b Hb|by apply Nat.eqb_eq].
  - apply Z.eqb_eq. destruct (Z.ltb_spec 32 c); [lia|done].
  - rewrite forallb_forall in H0. specialize (H0 b ltac:(by apply list_elem_of_In)).
    unfold is_byte. lia.
Qed.

(** ** The node of a route *)

(** The node that holds the prefix [P] of length [c] of version [v]. *)
Definition node_of (v : bool) (c P : Z) (p : peer_id) : horrible_allowedips_node :=
  Node (masked_addr (width v) c P ++ (if v then [] else zeroes 12)) (horrible_cidr_to_mask c) (if v then 6 else 4) p.

Definition is_prefix (v : bool) (c P : Z) : Prop := 0 <= c <= width v /\ 0 <= P < 2 ^ c.

Lemma width_bytes v : 8 * (width v / 8) = width v /\ width v / 8 = Z.of_nat (if v then 16 else 4).
Proof. by destruct v. Qed.

Lemma addr_length v a : is_addr v a -> length a = if v then 16%nat else 4%nat.
Proof. intros [_ Hl]. pose proof (width_bytes v). destruct v; lia. Qed.

Lemma pfx_is_prefix v c a : is_addr v a -> 0 <= c <= width v -> is_prefix v c (pfx (width v) c (be_val a)).
Proof.
  intros [Ha Hl] Hc. split; [done|]. pose proof (be_val_bound a Ha) as Hb. unfold pfx. rewrite Z.shiftr_div_pow2 by lia.
  replace (8 * Z.of_nat (length a)) with (c + (width v - c)) in Hb by (pose proof (width_bytes v); lia).
  rewrite Z.pow_add_r in Hb by lia. split; [apply Z.div_pos; lia|]. apply Z.div_lt_upper_bound; lia.
Qed.

Lemma masked_addr_spec v c P :
  is_prefix v c P -> be_val (masked_addr (width v) c P) = P * 2 ^ (width v - c) /\
    wf_bytes (masked_addr (width v) c P) /\ Z.of_nat (length (masked_addr (width v) c P)) = width v / 8.
Proof.
  intros [Hc HP]. unfold masked_addr. rewrite be_val_be_bytes, be_bytes_length.
  split_and!; [|auto with wg|by destruct v].
  replace (8 * Z.of_nat (Z.to_nat (width v / 8))) with (c + (width v - c)) by (pose proof (width_bytes v); lia).
  rewrite Z.mod_small; [done|]. rewrite Z.pow_add_r by lia. nia.
Qed.

(** The bits of an address that the mask of a prefix keeps. *)
Lemma mask_kept v c a :
  is_addr v a -> 0 <= c <= width v ->
  zland a (horrible_cidr_to_mask c) = masked_addr (width v) c (pfx (width v) c (be_val a)).
Proof.
  intros Ha Hc. pose proof (pfx_is_prefix v c a Ha Hc) as HP. destruct (masked_addr_spec _ _ _ HP) as (Hv & Hw & Hlen).
  destruct (mask_all c ltac:(destruct v; cbn in Hc; lia)) as (_ & H128 & H32 & Hm & Hml).
  pose proof (addr_length v a Ha) as Hla. destruct Ha as [Ha Hl].
  pose proof (be_val_bound a Ha) as Hb. rewrite Hla in Hb.
  apply be_val_inj; [by apply zland_wf|done|rewrite length_zip_with, Hml; destruct v; lia|]. rewrite Hv.
  destruct v; cbn [width] in *.
  - rewrite be_val_land, H128 by (done || congruence). apply land_prefix; [done|exact Hb].
  - rewrite <- zip_with_take_r, Hla.
    rewrite be_val_land, H32 by (try apply Forall_take; try rewrite length_take; done || lia). by apply land_prefix.
Qed.

(** One step of masking: the words before [i] are already masked. *)
Lemma mask_word_step i a m ver p :
  wf_bytes a -> wf_bytes m -> length a = 16%nat -> length m = 16%nat -> (i < 4)%nat ->
  mask_word i (Node (take (4 * i) (zland a m) ++ drop (4 * i) a) m ver p)
  = Node (take (4 * S i) (zland a m) ++ drop (4 * S i) a) m ver p.
Proof.
  intros Ha Hm Hla Hlm Hi. unfold mask_word, set_ip. cbn [ip mask ip_version value]. f_equal.
  assert (Hlen : length (take (4 * i) (zland a m)) = (4 * i)%nat) by (rewrite length_take, length_zip_with; lia).
  assert (Hd : drop (4 * i) (take (4 * i) (zland a m) ++ drop (4 * i) a) = drop (4 * i) a) by (by apply drop_app_length').
  unfold set_word, word. rewrite Hd, <- drop_drop, Hd.
  rewrite <- le_val_land by (repeat first [apply Forall_take|apply Forall_drop|done]; rewrite !length_take, !length_drop; lia).
  rewrite take_app_length' by done. rewrite <- zip_with_take, <- zip_with_drop.
  assert (Hc : length (take 4 (drop (4 * i) (zland a m))) = 4%nat) by (rewrite length_take, length_drop, length_zip_with; lia).
  rewrite <- Hc at 2. rewrite le_bytes_le_val by (apply Forall_take, Forall_drop; by apply zland_wf).
  rewrite app_assoc, take_take_drop, drop_drop. do 2 f_equal; lia.
Qed.

Lemma mask_self_spec v c a p :
  is_addr v a -> 0 <= c <= width v ->
  horrible_mask_self (Node (a ++ (if v then [] else zeroes 12)) (horrible_cidr_to_mask c) (if v then 6 else 4) p)
  = node_of v c (pfx (width v) c (be_val a)) p.
Proof.
  intros Ha Hc. unfold node_of. rewrite <- (mask_kept v c a Ha Hc).
  destruct (mask_all c ltac:(destruct v; cbn in Hc; lia)) as (_ & _ & _ & Hm & Hml).
  pose proof (addr_length v a Ha) as Hla. destruct Ha as [Ha Hl].
  set (a' := a ++ if v then [] else zeroes 12).
  assert (Ha' : wf_bytes a') by (apply Forall_app; split; [done|]; destruct v; [constructor|apply zeroes_wf]).
  assert (Hl' : length a' = 16%nat) by (unfold a'; rewrite length_app, Hla; by destruct v).
  pose proof (fun i => mask_word_step i a' _ (if v then 6 else 4) p Ha' Hm Hl' Hml) as Hstep.
  pose proof (Hstep 0%nat ltac:(lia)) as H0. rewrite Nat.mul_0_r, take_0, drop_0, app_nil_l in H0.
  unfold horrible_mask_self. destruct v; cbn [ip_version Z.eqb Pos.eqb]; rewrite H0.
  - rewrite !Hstep by lia. rewrite take_ge, (drop_ge a') by (rewrite ?length_zip_with; lia).
    unfold a'. by rewrite !app_nil_r.
  - unfold a'. rewrite drop_app_length' by done. rewrite zip_with_take, take_app_length' by done.
    by rewrite zip_with_take_r' by lia.
Qed.

Lemma word_land a m i :
  wf_bytes a -> wf_bytes m -> (4 * i + 4 <= length a)%nat -> (4 * i + 4 <= length m)%nat ->
  Z.land (word a i) (word m i) = word (zland a m) i.
Proof.
  intros. unfold word. rewrite zip_with_drop, zip_with_take, le_val_land; [done|..].
  1, 2: by apply Forall_take, Forall_drop.
  rewrite !length_take, !length_drop. lia.
Qed.

Lemma word_eq a b i :
  wf_bytes a -> wf_bytes b -> (4 * i + 4 <= length a)%nat -> (4 * i + 4 <= length b)%nat ->
  word a i = word b i <-> take 4 (drop (4 * i) a) = take 4 (drop (4 * i) b).
Proof.
  intros. unfold word. split; [|by intros ->]. apply le_val_inj; [by apply Forall_take, Forall_drop..|].
  rewrite !length_take, !length_drop. lia.
Qed.

(** Sixteen bytes are equal when their four words are. *)
Lemma chunks_eq (a b : bytes) :
  length a = 16%nat -> length b = 16%nat ->
  (forall i, (i < 4)%nat -> take 4 (drop (4 * i) a) = take 4 (drop (4 * i) b)) -> a = b.
Proof.
  intros Ha Hb H.
  pose proof (H 0%nat ltac:(lia)). pose proof (H 1%nat ltac:(lia)). pose proof (H 2%nat ltac:(lia)). pose proof (H 3%nat ltac:(lia)).
  do 16 (destruct a as [|? a]; [done|]). do 16 (destruct b as [|? b]; [done|]).
  destruct a; [|done]. destruct b; [|done]. cbn in *. by simplify_eq.
Qed.

Lemma masked_addr_inj v c P P' :
  is_prefix v c P -> is_prefix v c P' -> masked_addr (width v) c P = masked_addr (width v) c P' -> P = P'.
Proof.
  intros H H' E. destruct (masked_addr_spec _ _ _ H) as (E1 & _), (masked_addr_spec _ _ _ H') as (E2 & _).
  rewrite E, E2 in E1. destruct H. apply Z.mul_reg_r in E1; [done|]. apply Z.pow_nonzero; lia.
Qed.

Definition horrible_match (v : bool) := if v then horrible_match_v6 else horrible_match_v4.

(** A node matches an address when the prefix does. *)
Lemma match_spec v c P p a :
  is_addr v a -> is_prefix v c P ->
  horrible_match v (node_of v c P p) a = true <-> pfx (width v) c (be_val a) = P.
Proof.
  intros Ha HP. pose proof (addr_length v a Ha) as Hla. pose proof (pfx_is_prefix v c a Ha (proj1 HP)) as HP'.
  pose proof (mask_kept v c a Ha (proj1 HP)) as Hkept. destruct HP as [Hc HP].
  destruct (mask_all c ltac:(destruct v; cbn in Hc; lia)) as (_ & _ & _ & Hm & Hml). destruct Ha as [Ha _].
  destruct (masked_addr_spec v c P ltac:(done)) as (_ & Hw & Hlen).
  destruct (masked_addr_spec _ _ _ HP') as (_ & Hw' & Hlen').
  assert (Hiff : masked_addr (width v) c (pfx (width v) c (be_val a)) = masked_addr (width v) c P
    <-> pfx (width v) c (be_val a) = P) by (split; [by apply masked_addr_inj|by intros ->]).
  rewrite <- Hiff. destruct (width_bytes v) as [_ Hwb]. rewrite Hwb in Hlen, Hlen'.
  assert (Hword : forall i, (4 * i + 4 <= length a)%nat -> match_word (node_of v c P p) a i = true <->
    take 4 (drop (4 * i) (masked_addr (width v) c (pfx (width v) c (be_val a)))) = take 4 (drop (4 * i) (masked_addr (width v) c P))).
  { intros i Hi. unfold match_word. rewrite Z.eqb_eq. cbn [ip mask node_of]. rewrite word_land, Hkept by (done || destruct v; lia).
    rewrite word_eq; [|done| |destruct v; lia|rewrite length_app; destruct v; lia].
    2: { apply Forall_app. split; [done|]. destruct v; [constructor|apply zeroes_wf]. }
    rewrite drop_app_le, take_app_le; [done|rewrite length_drop|]; destruct v; lia. }
  unfold horrible_match, horrible_match_v4, horrible_match_v6. destruct v.
  - rewrite !andb_true_iff, !Hword by lia. split; [|by intros ->]. intros [[[H0 H1] H2] H3].
    apply chunks_eq; [lia..|]. intros [|[|[|[|i]]]] Hi; done || lia.
  - rewrite Hword by lia. rewrite Nat.mul_0_r, !drop_0, !take_ge by lia. done.
Qed.

(** ** The list as a routing table *)

(** An entry of the list: version, prefix length, prefix, peer. *)
Abbreviation entry := (bool * Z * Z * peer_id)%type.
Definition node (e : entry) : horrible_allowedips_node := let '(v, c, P, p) := e in node_of v c P p.
Definition entry_cidr (e : entry) : Z := e.1.1.2.

(** The list holds the routes [R]: each one once, longer prefixes before shorter ones. *)
Record ordered (es : list entry) (R : bool -> rtable) : Prop := {
  ord_prefix : Forall (fun e => is_prefix e.1.1.1 e.1.1.2 e.1.2) es;
  ord_sorted : StronglySorted Z.ge (map entry_cidr es);
  ord_nodup : NoDup (map fst es);
  ord_routes v c P p : R v !! (c, P) = Some p <-> (v, c, P, p) ∈ es
}.

Definition holds (table : horrible_allowedips) (R : bool -> rtable) : Prop :=
  exists es, table = map node es /\ ordered es R.

Lemma holds_init : holds horrible_allowedips_init no_routes.
Proof.
  exists []. split; [done|]. split; [constructor..|]. intros v c P p. unfold no_routes.
  rewrite lookup_empty. split; [done|by intros ?%not_elem_of_nil].
Qed.

(** Two nodes have the same version, mask and address when they are of the same route. *)
Lemma node_key v c P p v' c' P' p' :
  is_prefix v c P -> is_prefix v' c' P' ->
  let n := node_of v c P p in let n' := node_of v' c' P' p' in
  (ip_version n =? ip_version n') && bytes_eqb (mask n) (mask n') && bytes_eqb (ip n) (ip n') = true
  <-> (v, c, P) = (v', c', P').
Proof.
  intros HP HP' n n'. rewrite !andb_true_iff, Z.eqb_eq, !bytes_eqb_spec. split; [|by intros [= -> -> ->]].
  intros [[Hv Hm] Hip]. assert (v = v') as <- by (by destruct v, v'). unfold n, n' in Hm, Hip. cbn [ip mask node_of] in Hm, Hip.
  assert (c = c') as <-.
  { destruct HP, HP'. rewrite <- (proj1 (mask_all c ltac:(destruct v; cbn in *; lia))), Hm.
    apply mask_all. destruct v; cbn in *; lia. }
  apply app_inv_tail in Hip. apply masked_addr_inj in Hip; [|done..]. by subst.
Qed.

Lemma replace_value_spec es v c P p :
  Forall (fun e => is_prefix e.1.1.1 e.1.1.2 e.1.2) es -> is_prefix v c P ->
  match replace_value (map node es) (node_of v c P p) with
  | Some table => exists es1 p0 es2, es = es1 ++ (v, c, P, p0) :: es2 /\ table = map node (es1 ++ (v, c, P, p) :: es2)
  | None => forall p0, (v, c, P, p0) ∉ es
  end.
Proof.
  intros Hes HP. induction Hes as [|[[[v' c'] P'] p'] es He Hes IH]; cbn [map replace_value].
  { intros p0. apply not_elem_of_nil. }
  cbn in He. pose proof (node_key v' c' P' p' v c P p He HP) as Hk. cbv zeta in Hk. cbn [node].
  destruct (_ && _) eqn:Eb.
  - assert ((v', c', P') = (v, c, P)) as [= -> -> ->] by (by apply Hk). by exists [], p', es.
  - destruct (replace_value (map node es) (node_of v c P p)) as [table|]; cbn.
    + destruct IH as (es1 & p0 & es2 & -> & ->). by exists ((v', c', P', p') :: es1), p0, es2.
    + intros p0 [[= <- <- <- <-]|Hin]%elem_of_cons; [|by apply (IH p0)]. specialize (proj2 Hk eq_refl). congruence.
Qed.

Lemma add_ordered_spec es v c P p :
  Forall (fun e => is_prefix e.1.1.1 e.1.1.2 e.1.2) es -> is_prefix v c P ->
  exists es1 es2, es = es1 ++ es2 /\ add_ordered (map node es) (node_of v c P p) = map node (es1 ++ (v, c, P, p) :: es2) /\
    Forall (fun e => c < entry_cidr e) es1 /\ (forall e es', es2 = e :: es' -> entry_cidr e <= c).
Proof.
  intros Hes HP. assert (Hcidr : forall v c P, is_prefix v c P -> horrible_mask_to_cidr (horrible_cidr_to_mask c) = c).
  { intros v0 c0 P0 [H _]. apply mask_all. destruct v0; cbn in H; lia. }
  induction Hes as [|[[[v' c'] P'] p'] es He Hes IH]; cbn [map add_ordered]; [by exists [], []|].
  cbn in He. cbn [node node_of mask]. rewrite (Hcidr v' c' P' He), (Hcidr v c P HP).
  destruct (Z.leb_spec c' c).
  - exists [], ((v', c', P', p') :: es). split_and!; [done..|]. by intros e es' [= <- <-].
  - destruct IH as (es1 & es2 & -> & -> & Hlt & Hle). exists ((v', c', P', p') :: es1), es2.
    split_and!; [done..|by constructor|done].
Qed.

Lemma sorted_insert l1 l2 c :
  StronglySorted Z.ge (l1 ++ l2) -> Forall (fun x => c < x) l1 -> (forall x l', l2 = x :: l' -> x <= c) ->
  StronglySorted Z.ge (l1 ++ c :: l2).
Proof.
  intros Hs Hlt Hle. induction Hlt as [|x l1 Hx Hlt IH]; cbn in *.
  - constructor; [done|]. destruct l2 as [|y l2]; constructor; specialize (Hle _ _ eq_refl); [lia|].
    inversion_clear Hs as [|?? _ Hy]. eapply Forall_impl; [exact Hy|]. intros z ?. cbn in *. lia.
  - inversion_clear Hs as [|?? Hs' Hx']. constructor; [by apply IH|].
    apply Forall_app in Hx' as [H1 H2]. apply Forall_app. split; [done|]. constructor; [lia|done].
Qed.

Lemma elem_of_keys (es : list entry) k : k ∈ map fst es <-> exists p, (k, p) ∈ es.
Proof.
  rewrite list_elem_of_fmap. split; [intros ([k' p] & -> & H); eauto|]. intros [p H]. by exists (k, p).
Qed.

Lemma set_route_lookup R v c P p v' c' P' :
  set_route R v c P p v' !! (c', P') = if decide ((v', c', P') = (v, c, P)) then Some p else R v' !! (c', P').
Proof.
  unfold set_route. destruct (Bool.eqb_spec v v') as [<-|Hv].
  - rewrite lookup_insert. repeat case_decide; try done; congruence.
  - case_decide; [congruence|done].
Qed.

(** The entries around a route's place hold the other routes: putting the route there sets it. *)
Lemma set_route_entries es1 es2 R v c P p :
  (v, c, P) ∉ map fst (es1 ++ es2) ->
  (forall v' c' P' p', (v', c', P') <> (v, c, P) -> R v' !! (c', P') = Some p' <-> (v', c', P', p') ∈ es1 ++ es2) ->
  forall v' c' P' p', set_route R v c P p v' !! (c', P') = Some p' <-> (v', c', P', p') ∈ es1 ++ (v, c, P, p) :: es2.
Proof.
  intros Hk HR v' c' P' p'. rewrite set_route_lookup, elem_of_app, elem_of_cons. case_decide as Hd.
  - injection Hd as -> -> ->. rewrite elem_of_keys in Hk. setoid_rewrite elem_of_app in Hk. split.
    + intros [= ->]. by right; left.
    + intros [H|[[= ->]|H]]; [destruct Hk; eauto|done|destruct Hk; eauto].
  - rewrite HR, elem_of_app by done. split; [tauto|]. intros [?|[[= -> -> -> ->]|?]]; tauto.
Qed.

(** An insertion sets the route. *)
Lemma insert_ordered_spec table R v c P p :
  holds table R -> is_prefix v c P -> holds (horrible_insert_ordered table (node_of v c P p)) (set_route R v c P p).
Proof.
  intros (es & -> & [Hpre Hsort Hnd HR]) HP. unfold horrible_insert_ordered.
  pose proof (replace_value_spec es v c P p Hpre HP) as Hrep. destruct (replace_value _ _) as [table|].
  - destruct Hrep as (es1 & p0 & es2 & -> & ->). exists (es1 ++ (v, c, P, p) :: es2). split; [done|].
    rewrite map_app in Hsort, Hnd. split; [|by rewrite map_app..|].
    + apply Forall_app in Hpre as [H1 H2]. inversion_clear H2. apply Forall_app. split; [done|]. by constructor.
    + apply set_route_entries.
      * cbn in Hnd. rewrite <- Permutation_middle in Hnd. apply NoDup_cons in Hnd as [Hnd _]. by rewrite map_app.
      * intros v' c' P' p' Hne. rewrite HR, !elem_of_app, elem_of_cons. split; [|tauto]. intros [?|[[= -> -> -> ->]|?]]; tauto.
  - destruct (add_ordered_spec es v c P p Hpre HP) as (es1 & es2 & -> & -> & Hlt & Hle).
    assert (Hkey : (v, c, P) ∉ map fst (es1 ++ es2)) by (rewrite elem_of_keys; intros [p0 H]; by apply (Hrep p0)).
    exists (es1 ++ (v, c, P, p) :: es2). split; [done|]. split.
    + apply Forall_app in Hpre as [H1 H2]. apply Forall_app. split; [done|]. by constructor.
    + rewrite map_app in Hsort |- *. apply sorted_insert; [done|by apply Forall_map|].
      intros x l'. destruct es2 as [|e es2]; [done|]. intros [= <- _]. by eapply Hle.
    + rewrite map_app in Hkey, Hnd |- *. cbn. rewrite <- Permutation_middle. by constructor.
    + by apply set_route_entries.
Qed.

Lemma horrible_insert_spec table R v mem a c p :
  holds table R -> is_addr v a -> 0 <= c <= width v ->
  exists ret table', horrible_insert v mem a c p table = (ret, table') /\
    ((mem = true /\ ret = 0 /\ holds table' (set_route R v c (pfx (width v) c (be_val a)) p)) \/
     (mem = false /\ ret = - ENOMEM /\ table' = table)).
Proof.
  intros Ht Ha Hc. pose proof (addr_length v a Ha) as Hl. pose proof (mask_self_spec v c a p Ha Hc) as Hn.
  unfold horrible_insert, horrible_allowedips_insert_v4, horrible_allowedips_insert_v6.
  destruct v, mem; cbn [negb]; (do 2 eexists; split; [done|]); try (by right); left.
  - rewrite take_ge by lia. rewrite app_nil_r in Hn. rewrite Hn. split_and!; [done..|].
    apply insert_ordered_spec; [done|]. by apply pfx_is_prefix.
  - rewrite take_ge by lia. rewrite Hn. split_and!; [done..|]. apply insert_ordered_spec; [done|]. by apply pfx_is_prefix.
Qed.

(** A route that no longer matching route exceeds is the longest-prefix match. *)
Lemma lpm_longest w m kv c p :
  0 <= c <= w -> m !! (c, pfx w c kv) = Some p ->
  (forall c' p', m !! (c', pfx w c' kv) = Some p' -> c' <= c) -> lpm w m kv = Some p.
Proof.
  intros Hc Hm Hmax. unfold lpm. pose proof (lpm_from_spec w m kv (Z.to_nat w)) as HS.
  destruct (lpm_from _ _ _ _) as [p'|].
  - destruct HS as (c' & Hle & Ht & Hnone). pose proof (Hmax _ _ Ht).
    destruct (decide (Z.of_nat c' = c)) as [<-|Hne]; [congruence|].
    specialize (Hnone (Z.to_nat c) ltac:(lia)). rewrite Z2Nat.id in Hnone by lia. congruence.
  - specialize (HS (Z.to_nat c) ltac:(lia)). rewrite Z2Nat.id in HS by lia. congruence.
Qed.

Lemma lpm_no_match w m kv : (forall c p, m !! (c, pfx w c kv) <> Some p) -> lpm w m kv = None.
Proof.
  intros H. unfold lpm. pose proof (lpm_from_spec w m kv (Z.to_nat w)) as HS.
  destruct (lpm_from _ _ _ _) as [p'|]; [|done]. destruct HS as (c' & _ & Ht & _). by apply H in Ht.
Qed.

Lemma lpm_some w m kv p : lpm w m kv = Some p -> exists c, m !! (c, pfx w c kv) = Some p.
Proof.
  unfold lpm. pose proof (lpm_from_spec w m kv (Z.to_nat w)) as HS. intros E. rewrite E in HS.
  destruct HS as (c & _ & H & _). eauto.
Qed.

(** The search for an address of version [v] in either loop. *)
Lemma lookup_cons v e table a :
  horrible_lookup v (e :: table) a =
  if (ip_version e =? if v then 6 else 4) && horrible_match v e a then Some (value e) else horrible_lookup v table a.
Proof. by destruct v. Qed.

(** The first match of the list is its longest. *)
Lemma first_match es v a :
  is_addr v a -> Forall (fun e => is_prefix e.1.1.1 e.1.1.2 e.1.2) es -> StronglySorted Z.ge (map entry_cidr es) ->
  match horrible_lookup v (map node es) a with
  | Some p => exists c, (v, c, pfx (width v) c (be_val a), p) ∈ es /\
      forall c' p', (v, c', pfx (width v) c' (be_val a), p') ∈ es -> c' <= c
  | None => forall c p, (v, c, pfx (width v) c (be_val a), p) ∉ es
  end.
Proof.
  intros Ha. induction 1 as [|[[[v' c'] P'] p'] es He Hes IH]; intros Hs; cbn [map].
  { destruct v; intros c p; apply not_elem_of_nil. }
  cbn in He. inversion_clear Hs as [|?? Hs' Hmax]. rewrite Forall_map in Hmax. rewrite lookup_cons.
  cbn [node node_of ip_version value]. fold (node_of v' c' P' p').
  destruct (_ && _) eqn:Eb.
  - apply andb_true_iff in Eb as [Ev Em]. assert (v' = v) as -> by (by destruct v, v').
    apply match_spec in Em as <-; [|done..]. exists c'. split; [by left|].
    intros c0 p0 [[= -> _ _]|Hin]%elem_of_cons; [lia|]. rewrite Forall_forall in Hmax. specialize (Hmax _ Hin). cbn in Hmax. lia.
  - assert (Hno : forall c p, (v, c, pfx (width v) c (be_val a), p) <> (v', c', P', p')).
    { intros c p [= <- -> HP ->]. rewrite (proj2 (match_spec v c' P' p' a Ha He) HP), Z.eqb_refl in Eb. done. }
    specialize (IH Hs'). destruct (horrible_lookup v (map node es) a) as [p|].
    + destruct IH as (c & Hin & Hle). exists c. split; [by right|].
      intros c0 p0 [E|H0]%elem_of_cons; [by apply Hno in E|by eapply Hle].
    + intros c p [E|H0]%elem_of_cons; [by apply Hno in E|by eapply IH].
Qed.

Lemma horrible_lookup_spec table R v a :
  holds table R -> is_addr v a -> horrible_lookup v table a = lpm (width v) (R v) (be_val a).
Proof.
  intros (es & -> & [Hpre Hsort Hnd HR]) Ha. pose proof (first_match es v a Ha Hpre Hsort) as Hf. symmetry.
  destruct (horrible_lookup v (map node es) a) as [p|].
  - destruct Hf as (c & Hin & Hmax). apply (lpm_longest _ _ _ c).
    + rewrite Forall_forall in Hpre. by apply Hpre in Hin as [Hc _].
    + by apply HR.
    + intros c' p' H%HR. by eapply Hmax.
  - apply lpm_no_match. intros c p H%HR. by eapply Hf.
Qed.

(** Removing a value removes its routes. *)
Lemma remove_by_value_filter es p :
  horrible_allowedips_remove_by_value (map node es) p = map node (List.filter (fun e => negb (bool_decide (e.2 = p))) es).
Proof.
  induction es as [|[[[v c] P] q] es IH]; [done|]. cbn [map horrible_allowedips_remove_by_value List.filter node node_of value snd].
  rewrite IH. by case_match.
Qed.

Lemma filter_sorted (f : entry -> bool) es :
  StronglySorted Z.ge (map entry_cidr es) -> StronglySorted Z.ge (map entry_cidr (List.filter f es)).
Proof.
  induction es as [|e es IH]; cbn; [done|]. intros H. inversion_clear H as [|?? Hs Hm]. case_match; [|by apply IH].
  cbn. constructor; [by apply IH|]. rewrite Forall_map in Hm |- *. rewrite Forall_forall in Hm |- *.
  intros x [H1 _]%list_elem_of_In%filter_In. by apply Hm, list_elem_of_In.
Qed.

Lemma remove_by_value_spec table R p :
  holds table R -> holds (horrible_allowedips_remove_by_value table p) (drop_peer R p).
Proof.
  intros (es & -> & [Hpre Hsort Hnd HR]). rewrite remove_by_value_filter. eexists. split; [done|].
  set (f := fun e : entry => negb (bool_decide (e.2 = p))).
  assert (Hin : forall e, e ∈ List.filter f es <-> e ∈ es /\ e.2 <> p).
  { intros e. rewrite list_elem_of_In, filter_In, <- list_elem_of_In. unfold f. rewrite negb_true_iff, bool_decide_eq_false. done. }
  split.
  - rewrite Forall_forall in Hpre |- *. intros e [H _]%Hin. by apply Hpre.
  - by apply filter_sorted.
  - clear -Hnd. induction es as [|e es IH]; cbn; [done|]. apply NoDup_cons in Hnd as [H1 H2]. case_match; [|by apply IH].
    cbn. constructor; [|by apply IH]. rewrite elem_of_keys. intros [q [Hq _]%list_elem_of_In%filter_In].
    apply H1, elem_of_keys. exists q. by apply list_elem_of_In.
  - intros v c P q. unfold drop_peer. rewrite Hin, map_lookup_filter_Some, HR. done.
Qed.

Lemma horrible_free_spec table : horrible_allowedips_free table = [].
Proof. by induction table. Qed.

End Horrible.
