(* ===== verification/AllowedIpsSelftest.v ===== *)
(** * AllowedIpsSelftest: selftest/allowedips.c

    The unit test of the routing trie that a DEBUG build runs when the module is loaded: a fixed
    sequence of insertions, lookups and removals, and (with DEBUG_RANDOM_TRIE) a comparison with the
    reference table of Horrible on random routes and queries. A run threads the trie, the reference
    table and the state of the kernel (random numbers, memory) through its steps; it can go on, jump
    to the label [free] with one of its messages, or get stuck on a bad pointer. The self-test
    prints the tries only when DEBUG_PRINT_TRIE_GRAPHVIZ is set, which is not modelled. *)

From S2P Require Import Prelude Skb AllowedIps AllowedIpsBits AllowedIpsTree AllowedIpsInv AllowedIpsRead AllowedIpsAdd AllowedIpsProps Horrible.
Import Horrible.

Module Selftest.

(** ** The kernel around the test *)

(** Random numbers and memory. An insertion in the trie asks for at most two nodes; whether and
    where they are found is asked for once. *)
Class TestKernel := {
  kernel : Type;
  prandom_bytes : nat -> kernel -> bytes * kernel;
  prandom_u32_max : Z -> kernel -> Z * kernel;
  kzalloc : kernel -> option positive * kernel;
  kmem_cache_zalloc : allowedips -> kernel -> (option nid * option nid) * kernel
}.

(** What their documentation promises: as many bytes as asked for, numbers below the bound, and
    memory that is not in use. *)
Class TestKernelOk (K : TestKernel) : Prop := {
  prandom_bytes_ok n k : wf_bytes (prandom_bytes n k).1 /\ length (prandom_bytes n k).1 = n;
  prandom_u32_max_ok m k : 0 < m -> 0 <= (prandom_u32_max m k).1 < m;
  kmem_cache_zalloc_ok t k : fresh t (kmem_cache_zalloc t k).1.1 (kmem_cache_zalloc t k).1.2
}.

(** No allocation fails. *)
Definition memory_available (K : TestKernel) : Prop :=
  (forall k, is_Some (kzalloc k).1) /\
  (forall t k, is_Some (kmem_cache_zalloc t k).1.1 /\ is_Some (kmem_cache_zalloc t k).1.2).

(** ** Runs *)

(** The messages with which the random test gives up. *)
Inductive failure := malloc_FAIL | random_v4_FAIL | random_v6_FAIL | removal_FAIL.

(** A line of the fixed test: version, peer, address and, for an insertion, prefix length. *)
Abbreviation route_line := (bool * peer_id * bytes * Z)%type.
Abbreviation test_line := (bool * peer_id * bytes)%type.

Section Runs.
Context `{K : TestKernel}.

Record test_state := TS { trie : allowedips; table : horrible_allowedips; kern : kernel }.

Inductive run (A : Type) := Go (a : A) (s : test_state) | Goto_free (f : failure) (s : test_state) | Stuck.
Arguments Go {A}.
Arguments Goto_free {A}.
Arguments Stuck {A}.

Definition M (A : Type) := test_state -> run A.

#[export] Instance M_ret : MRet M := fun A a s => Go a s.
#[export] Instance M_bind : MBind M := fun A B f m s =>
  match m s with Go a s => f a s | Goto_free msg s => Goto_free msg s | Stuck => Stuck end.

Definition goto_free {A} (f : failure) : M A := fun s => Goto_free f s.
Definition get_trie : M allowedips := fun s => Go (trie s) s.
Definition put_trie (t : allowedips) : M unit := fun s => Go tt (TS t (table s) (kern s)).
Definition get_table : M horrible_allowedips := fun s => Go (table s) s.
Definition put_table (h : horrible_allowedips) : M unit := fun s => Go tt (TS (trie s) h (kern s)).
Definition ask {A} (f : kernel -> A * kernel) : M A := fun s =>
  let '(a, k) := f (kern s) in Go a (TS (trie s) (table s) k).
Definition or_stuck {A} (o : option A) : M A := fun s => match o with Some a => Go a s | None => Stuck end.

(** [for (i = 0; i < n; ++i) body] *)
Fixpoint for_ (n : nat) (body : M unit) : M unit :=
  match n with O => mret tt | S n => _ ← body; for_ n body end.

Fixpoint for_each {A} (l : list A) (body : A -> M unit) : M unit :=
  match l with [] => mret tt | x :: l => _ ← body x; for_each l body end.

(** ** Insertions and lookups *)

(** [wg_allowedips_insert_v4] and [wg_allowedips_insert_v6] on the trie. *)
Definition trie_insert (v : bool) (a : bytes) (cidr : Z) (p : peer_id) : M Z :=
  t ← get_trie;
  mem ← ask (kmem_cache_zalloc t);
  r ← or_stuck (wg_allowedips_insert v a cidr (Some p) mem.1 mem.2 t);
  _ ← put_trie r.2;
  mret r.1.

(** [lookup] on the trie; the peers of the test keep their reference. *)
Definition trie_lookup (v : bool) (a : bytes) : M (option peer_id) :=
  t ← get_trie; or_stuck (lookup_addr v 0 (fun _ => true) t a).

Definition trie_remove (p : peer_id) : M unit :=
  t ← get_trie; t ← or_stuck (wg_allowedips_remove_by_peer p t); put_trie t.

Definition trie_free : M unit :=
  t ← get_trie; t ← or_stuck (wg_allowedips_free t); put_trie t.

Definition trie_init : M unit := t ← get_trie; put_trie (wg_allowedips_init t).

(** [init_peer]: a peer with an empty list, or NULL. *)
Definition init_peer : M (option peer_id) :=
  p ← ask kzalloc;
  match p with
  | None => mret None
  | Some p => t ← get_trie; _ ← put_trie (set_peer_lists (insert p []) t); mret (Some p)
  end.

(** ** The random test *)

Definition NUM_PEERS : Z := 2000.
Definition NUM_RAND_ROUTES : Z := 400.
Definition NUM_MUTATED_ROUTES : Z := 100.
Definition NUM_QUERIES : Z := NUM_RAND_ROUTES * NUM_MUTATED_ROUTES * 30.

(** The number of bytes of an address. *)
Definition addr_size (v : bool) : nat := if v then 16 else 4.

(** The same route in the trie and in the reference table; [bad] is the test on the result of the
    second insertion ([< 0] for the first route of a round, [!= 0] for the mutated ones). *)
Definition insert_both (bad : Z -> bool) (v : bool) (a : bytes) (cidr : Z) (p : peer_id) : M unit :=
  ret ← trie_insert v a cidr p;
  if ret <? 0 then goto_free malloc_FAIL else
  mem ← ask kzalloc;
  h ← get_table;
  let '(ret, h) := horrible_insert v (match mem with Some _ => true | None => false end) a cidr p h in
  _ ← put_table h;
  if bad ret then goto_free malloc_FAIL else mret tt.

(** The loops that fill [mutate_mask], where [k = mutate_amount / 8] after the first one; the third
    loop starts at the byte the assignment in between has written. *)
Definition make_mutate_mask (mutate_mask : bytes) (mutate_amount : Z) : bytes :=
  let k := Z.to_nat (mutate_amount / 8) in
  let mutate_mask := replicate k 255 ++ drop k mutate_mask in
  let mutate_mask := <[k := u8 (Z.shiftl 255 ((8 - mutate_amount mod 8) mod 8))]> mutate_mask in
  take k mutate_mask ++ zeroes (4 - k) ++ drop (Nat.max 4 k) mutate_mask.

Definition mutate_byte (b m r : Z) : Z := u8 (Z.lor (Z.land b m) (Z.land (Z.lnot m) r)).

(** The last loop of the mutation, over the bytes [k] to 3. *)
Fixpoint mutate_bytes (n : nat) (k : nat) (mutated mutate_mask : bytes) : M bytes :=
  match n with
  | O => mret mutated
  | S n =>
      r ← ask (prandom_u32_max 256);
      let b := mutate_byte (default 0 (mutated !! k)) (default 0 (mutate_mask !! k)) r in
      mutate_bytes n (S k) (<[k := b]> mutated) mutate_mask
  end.

Definition mutate (v : bool) (a : bytes) : M bytes :=
  mutate_mask ← ask (prandom_bytes (addr_size v));
  mutate_amount ← ask (prandom_u32_max (width v));
  mutate_bytes 4 0 a (make_mutate_mask mutate_mask mutate_amount).

(** [cidr = prandom_u32_max(bits) + 1; peer = peers[prandom_u32_max(NUM_PEERS)];] *)
Definition draw_route (v : bool) (peers : list peer_id) : M (Z * peer_id) :=
  c ← ask (prandom_u32_max (width v));
  i ← ask (prandom_u32_max NUM_PEERS);
  p ← or_stuck (peers !! Z.to_nat i);
  mret (c + 1, p).

Definition mutated_route (v : bool) (peers : list peer_id) (a : bytes) : M unit :=
  mutated ← mutate v a;
  r ← draw_route v peers;
  insert_both (fun ret => negb (ret =? 0)) v mutated r.1 r.2.

(** One round of the loop over [NUM_RAND_ROUTES]. *)
Definition random_route (v : bool) (peers : list peer_id) : M unit :=
  a ← ask (prandom_bytes (addr_size v));
  r ← draw_route v peers;
  _ ← insert_both (fun ret => ret <? 0) v a r.1 r.2;
  for_ (Z.to_nat NUM_MUTATED_ROUTES) (mutated_route v peers a).

Definition random_query (v : bool) : M unit :=
  a ← ask (prandom_bytes (addr_size v));
  r ← trie_lookup v a;
  h ← get_table;
  if bool_decide (r = horrible_lookup v h a) then mret tt
  else goto_free (if v then random_v6_FAIL else random_v4_FAIL).

(** The endless loop over [j], which ends after the round without a peer left to remove. *)
Fixpoint query_rounds (peers : list peer_id) : M unit :=
  _ ← for_ (Z.to_nat NUM_QUERIES) (_ ← random_query false; random_query true);
  match peers with
  | [] => mret tt
  | p :: peers =>
      _ ← trie_remove p;
      h ← get_table;
      _ ← put_table (horrible_allowedips_remove_by_value h p);
      query_rounds peers
  end.

(** The loop that allocates the peers. *)
Fixpoint make_peers (n : nat) : M (list peer_id) :=
  match n with
  | O => mret []
  | S n =>
      p ← init_peer;
      match p with
      | None => goto_free malloc_FAIL
      | Some p => ps ← make_peers n; mret (p :: ps)
      end
  end.

Definition randomized_body : M unit :=
  array ← ask kzalloc;
  match array with
  | None => goto_free malloc_FAIL
  | Some _ =>
      peers ← make_peers (Z.to_nat NUM_PEERS);
      _ ← for_ (Z.to_nat NUM_RAND_ROUTES) (random_route false peers);
      _ ← for_ (Z.to_nat NUM_RAND_ROUTES) (random_route true peers);
      _ ← query_rounds peers;
      t ← get_trie;
      match root4 t, root6 t with
      | None, None => mret tt
      | _, _ => goto_free removal_FAIL
      end
  end.

(** The labels [free] and [free_locked]. *)
Definition randomized_free (s : test_state) : option test_state :=
  t ← wg_allowedips_free (trie s);
  Some (TS t (horrible_allowedips_free (table s)) (kern s)).

(** The verdict, the message when it is false, and the final state. *)
Definition randomized_test (k : kernel) : option (bool * option failure * test_state) :=
  match randomized_body (TS empty_table horrible_allowedips_init k) with
  | Go _ s => s ← randomized_free s; Some (true, None, s)
  | Goto_free f s => s ← randomized_free s; Some (false, Some f, s)
  | Stuck => None
  end.

(** ** The fixed test *)

Definition ip4 (a b c d : Z) : bytes := [a; b; c; d].
Definition ip6 (a b c d : Z) : bytes := be_bytes 4 a ++ be_bytes 4 b ++ be_bytes 4 c ++ be_bytes 4 d.

(** The macro [insert]: version, peer, address, prefix length; its result is not looked at. *)
Definition insert4 (p : peer_id) (a b c d cidr : Z) : route_line := (false, p, ip4 a b c d, cidr).
Definition insert6 (p : peer_id) (a b c d cidr : Z) : route_line := (true, p, ip6 a b c d, cidr).
Definition insert_line (l : route_line) : M unit :=
  let '(v, p, a, cidr) := l in _ ← trie_insert v a cidr p; mret tt.

(** The macros [test] and [test_negative]: version, peer, address. *)
Definition test4 (p : peer_id) (a b c d : Z) : test_line := (false, p, ip4 a b c d).
Definition test6 (p : peer_id) (a b c d : Z) : test_line := (true, p, ip6 a b c d).
Definition test_one (l : test_line) : M bool :=
  let '(v, p, a) := l in r ← trie_lookup v a; mret (bool_decide (r = Some p)).
Definition test_negative_one (l : test_line) : M bool :=
  let '(v, p, a) := l in r ← trie_lookup v a; mret (bool_decide (r <> Some p)).

(** All tests of a list are made; [success] stays true when none fails. *)
Fixpoint tests {A} (one : A -> M bool) (l : list A) : M bool :=
  match l with [] => mret true | x :: l => b ← one x; bs ← tests one l; mret (b && bs) end.

Definition first_inserts (a b c d e f g h : peer_id) : list route_line :=
  [insert4 a 192 168 4 0 24;
   insert4 b 192 168 4 4 32;
   insert4 c 192 168 0 0 16;
   insert4 d 192 95 5 64 27;
   insert4 c 192 95 5 65 27;
   insert6 d 0x26075300 0x60006b00 0 0xc05f0543 128;
   insert6 c 0x26075300 0x60006b00 0 0 64;
   insert4 e 0 0 0 0 0;
   insert6 e 0 0 0 0 0;
   insert6 f 0 0 0 0 0;
   insert6 g 0x24046800 0 0 0 32;
   insert6 h 0x24046800 0x40040800 0xdeadbeef 0xdeadbeef 64;
   insert6 a 0x24046800 0x40040800 0xdeadbeef 0xdeadbeef 128;
   insert6 c 0x24446800 0x40e40800 0xdeaebeef 0xdefbeef 128;
   insert6 b 0x24446800 0xf0e40800 0xeeaebeef 0 98;
   insert4 g 64 15 112 0 20;
   insert4 h 64 15 123 211 25;
   insert4 a 10 0 0 0 25;
   insert4 b 10 0 0 128 25;
   insert4 a 10 1 0 0 30;
   insert4 b 10 1 0 4 30;
   insert4 c 10 1 0 8 29;
   insert4 d 10 1 0 16 29].

Definition first_tests (a b c d e f g h : peer_id) : list test_line :=
  [test4 a 192 168 4 20;
   test4 a 192 168 4 0;
   test4 b 192 168 4 4;
   test4 c 192 168 200 182;
   test4 c 192 95 5 68;
   test4 e 192 95 5 96;
   test6 d 0x26075300 0x60006b00 0 0xc05f0543;
   test6 c 0x26075300 0x60006b00 0 0xc02e01ee;
   test6 f 0x26075300 0x60006b01 0 0;
   test6 g 0x24046800 0x40040806 0 0x1006;
   test6 g 0x24046800 0x40040806 0x1234 0x5678;
   test6 f 0x240467ff 0x40040806 0x1234 0x5678;
   test6 f 0x24046801 0x40040806 0x1234 0x5678;
   test6 h 0x24046800 0x40040800 0x1234 0x5678;
   test6 h 0x24046800 0x40040800 0 0;
   test6 h 0x24046800 0x40040800 0x10101010 0x10101010;
   test6 a 0x24046800 0x40040800 0xdeadbeef 0xdeadbeef;
   test4 g 64 15 116 26;
   test4 g 64 15 127 3;
   test4 g 64 15 123 1;
   test4 h 64 15 123 128;
   test4 h 64 15 123 129;
   test4 a 10 0 0 52;
   test4 b 10 0 0 220;
   test4 a 10 1 0 2;
   test4 b 10 1 0 6;
   test4 c 10 1 0 10;
   test4 d 10 1 0 20].

Definition second_inserts (a : peer_id) : list route_line :=
  [insert4 a 1 0 0 0 32; insert4 a 64 0 0 0 32; insert4 a 128 0 0 0 32; insert4 a 192 0 0 0 32; insert4 a 255 0 0 0 32].

Definition second_tests (a : peer_id) : list test_line :=
  [test4 a 1 0 0 0; test4 a 64 0 0 0; test4 a 128 0 0 0; test4 a 192 0 0 0; test4 a 255 0 0 0].

(** The two insertions of round [i] of the loop that builds a deep trie, and the one after it. *)
Definition deep_inserts (a : peer_id) (i : Z) : list route_line :=
  let part := be_bytes 8 (u64 (Z.shiftl (2 ^ 64 - 1) i)) in
  [(true, a, replicate 8 255 ++ part, 128); (true, a, part ++ zeroes 8, 128)].

Definition last_inserts (a : peer_id) : list route_line :=
  [insert4 a 192 95 5 93 27;
   insert6 a 0x26075300 0x60006b00 0 0xc05f0543 128;
   insert4 a 10 1 0 20 29;
   insert6 a 0x26075300 0x6d8a6bf8 0xdab1f1df 0xc05f1523 83;
   insert6 a 0x26075300 0x6d8a6bf8 0xdab1f1df 0xc05f1523 21].

(** Which of the flags the body of [list_for_each_entry] sets for a node. *)
Inductive found := found_a | found_b | found_c | found_d | found_e | found_other.
#[export] Instance found_eq_dec : EqDecision found.
Proof. solve_decision. Defined.

Definition classify (r : Z * bytes * Z) : found :=
  let '(family, a, cidr) := r in
  if (cidr =? 27) && (family =? AF_INET) && bytes_eqb a (ip4 192 95 5 64) then found_a
  else if (cidr =? 128) && (family =? AF_INET6) && bytes_eqb a (ip6 0x26075300 0x60006b00 0 0xc05f0543) then found_b
  else if (cidr =? 29) && (family =? AF_INET) && bytes_eqb a (ip4 10 1 0 16) then found_c
  else if (cidr =? 83) && (family =? AF_INET6) && bytes_eqb a (ip6 0x26075300 0x6d8a6bf8 0xdab1e000 0) then found_d
  else if (cidr =? 21) && (family =? AF_INET6) && bytes_eqb a (ip6 0x26075000 0 0 0) then found_e
  else found_other.

(** The iteration over the list of a peer: the flags set, once per node. *)
Fixpoint iterate (t : allowedips) (l : list nid) : M (list found) :=
  match l with
  | [] => mret []
  | n :: l => nd ← or_stuck (nodes t !! n); fs ← iterate t l; mret (classify (wg_allowedips_read_node nd) :: fs)
  end.

Definition list_tests (a : peer_id) : M bool :=
  t ← get_trie;
  seen ← iterate t (plist t a);
  mret ((length seen =? 5)%nat && bool_decide (found_a ∈ seen) && bool_decide (found_b ∈ seen) &&
        bool_decide (found_c ∈ seen) && bool_decide (found_d ∈ seen) && bool_decide (found_e ∈ seen) &&
        negb (bool_decide (found_other ∈ seen))).

(** The tests between the allocation of the peers and the label [free], part by part. *)
Definition routes_part (a b c d e f g h : peer_id) : M bool :=
  _ ← for_each (first_inserts a b c d e f g h) insert_line;
  tests test_one (first_tests a b c d e f g h).

Definition removal_part (a : peer_id) : M bool :=
  _ ← for_each (second_inserts a) insert_line;
  _ ← trie_remove a;
  tests test_negative_one (second_tests a).

Definition refill_part (a : peer_id) : M bool :=
  _ ← trie_free;
  _ ← trie_init;
  _ ← for_each [insert4 a 192 168 0 0 16; insert4 a 192 168 0 0 24] insert_line;
  _ ← trie_remove a;
  tests test_negative_one [test4 a 192 168 0 1].

Definition deep_part (a : peer_id) : M unit :=
  _ ← for_each (seqZ 0 64) (fun i => for_each (deep_inserts a i) insert_line);
  _ ← insert_line (true, a, zeroes 16, 128);
  trie_free.

Definition list_part (a : peer_id) : M bool :=
  _ ← trie_init;
  _ ← for_each (last_inserts a) insert_line;
  list_tests a.

Definition fixed_tests (a b c d e f g h : peer_id) : M bool :=
  b1 ← routes_part a b c d e f g h;
  b2 ← removal_part a;
  b3 ← refill_part a;
  _ ← deep_part a;
  b4 ← list_part a;
  mret (b1 && b2 && b3 && b4).

(** [DEBUG_RANDOM_TRIE] adds the random test, on a table of its own. *)
Definition maybe_random (debug_random_trie success : bool) : M bool :=
  if debug_random_trie && success then
    fun s => match randomized_test (kern s) with
             | Some (ret, _, s') => Go ret (TS (trie s) (table s) (kern s'))
             | None => Stuck
             end
  else mret success.

Definition wg_allowedips_selftest (debug_random_trie : bool) : M bool :=
  a ← init_peer; b ← init_peer; c ← init_peer; d ← init_peer;
  e ← init_peer; f ← init_peer; g ← init_peer; h ← init_peer;
  _ ← trie_init;
  success ←
    match a, b, c, d, e, f, g, h with
    | Some a, Some b, Some c, Some d, Some e, Some f, Some g, Some h =>
        success ← fixed_tests a b c d e f g h; maybe_random debug_random_trie success
    | _, _, _, _, _, _, _, _ => mret false
    end;
  _ ← trie_free;
  mret success.

End Runs.
#[global] Arguments Go {K A}.
#[global] Arguments Goto_free {K A}.
#[global] Arguments Stuck {K A}.
End Selftest.
