(* ===== verification/AllowedIpsSelftestProps.v ===== *)
(** * AllowedIpsSelftestProps: the self-test of the routing trie passes

    The trie and the reference table are two implementations of one specification, so every query
    of the random test gets the same answer from both, whatever is drawn; the fixed test passes too,
    for every kernel that has memory. When an allocation fails the test says so, and no node stays
    allocated in either case. *)

From S2P Require Import Prelude Skb AllowedIps AllowedIpsBits AllowedIpsTree AllowedIpsHeap AllowedIpsInv AllowedIpsRead AllowedIpsAdd AllowedIpsProps Horrible AllowedIpsSelftest.
Import Horrible Selftest.

Module SelftestProps.

(** ** Postconditions of runs *)

Section Post.
Context `{K : TestKernel}.

(** [m] does not get stuck from [s]; [Q] holds where it goes on, [F] where it jumps to [free]. *)
Definition post {A} (F : failure -> test_state -> Prop) (m : M A) (s : test_state) (Q : A -> test_state -> Prop) : Prop :=
  match m s with Go a s => Q a s | Goto_free f s => F f s | Stuck => False end.

Lemma post_ret {A} F (a : A) s Q : Q a s -> post F (mret a) s Q.
Proof. done. Qed.

Lemma post_bind {A B} F (m : M A) (f : A -> M B) s Q :
  post F m s (fun a s => post F (f a) s Q) -> post F (m ≫= f) s Q.
Proof. unfold post, mbind, M_bind. by destruct (m s). Qed.

Lemma post_mono {A} F (m : M A) s Q Q' : post F m s Q -> (forall a s, Q a s -> Q' a s) -> post F m s Q'.
Proof. unfold post. destruct (m s); auto. Qed.

Lemma post_for F n body (I : test_state -> Prop) s :
  (forall s, I s -> post F body s (fun _ => I)) -> I s -> post F (for_ n body) s (fun _ => I).
Proof.
  intros Hb. revert s. induction n as [|n IH]; intros s HI; cbn [for_]; [by apply post_ret|].
  apply post_bind. eapply post_mono; [by apply Hb|]. intros ? s' HI'. by apply IH.
Qed.

Lemma post_for_each {A} F (l : list A) body (I : list A -> test_state -> Prop) s :
  (forall x l s, I (x :: l) s -> post F (body x) s (fun _ => I l)) -> I l s ->
  post F (for_each l body) s (fun _ => I []).
Proof.
  intros Hb. revert s. induction l as [|x l IH]; intros s HI; cbn [for_each]; [by apply post_ret|].
  apply post_bind. eapply post_mono; [by apply Hb|]. intros ? s' HI'. by apply IH.
Qed.

Lemma post_ask {A} F (f : kernel -> A * kernel) s Q :
  Q (f (kern s)).1 (TS (trie s) (table s) (f (kern s)).2) -> post F (ask f) s Q.
Proof. unfold post, ask. by destruct (f (kern s)). Qed.

Lemma post_stuck {A} F (o : option A) a s Q : o = Some a -> Q a s -> post F (or_stuck o) s Q.
Proof. unfold post, or_stuck. by intros ->. Qed.

End Post.

(** ** The trie in a run *)

Section Steps.
Context `{K : TestKernel} {KO : TestKernelOk K}.

Definition same_tables (s s' : test_state) : Prop := trie s' = trie s /\ table s' = table s.

Lemma trie_insert_post F v a c p s R :
  routing (trie s) R -> is_addr v a -> 0 <= c <= width v ->
  post F (trie_insert v a c p) s (fun ret s' => table s' = table s /\
    ((ret = 0 /\ routing (trie s') (set_route R v c (pfx (width v) c (be_val a)) p)) \/
     (ret = - ENOMEM /\ ~ memory_available K /\ routing (trie s') R))).
Proof.
  intros HR Ha Hc. unfold trie_insert. apply post_bind, post_bind, post_ask.
  pose proof (kmem_cache_zalloc_ok (trie s) (kern s)) as Hf.
  destruct (route_insert_spec (trie s) R v a c p _ _ HR Ha Hc Hf) as (ret & t' & E & Hret).
  apply post_bind. eapply post_stuck; [exact E|]. cbn. split; [done|]. destruct Hret as [H|(-> & Hm & H)]; [by left|right].
  split_and!; [done| |done]. intros [_ Hav]. destruct (Hav (trie s) (kern s)) as [[? E1] [? E2]].
  rewrite E1, E2 in Hm. by destruct Hm.
Qed.

Lemma trie_lookup_post F v a s R :
  routing (trie s) R -> is_addr v a ->
  post F (trie_lookup v a) s (fun r s' => s' = s /\ r = lpm (width v) (R v) (be_val a)).
Proof.
  intros HR Ha. unfold trie_lookup. apply post_bind. eapply post_stuck; [by apply lookup_spec|]. done.
Qed.

Lemma trie_remove_post F p s R :
  routing (trie s) R ->
  post F (trie_remove p) s (fun _ s' => table s' = table s /\ routing (trie s') (drop_peer R p)).
Proof.
  intros HR. destruct (remove_by_peer_spec (trie s) R p HR) as (t' & E & H & _).
  unfold trie_remove. apply post_bind, post_bind. eapply post_stuck; [exact E|]. done.
Qed.

Lemma trie_free_post F s R :
  routing (trie s) R -> post F trie_free s (fun _ s' => table s' = table s /\ routing (trie s') no_routes).
Proof.
  intros HR. destruct (routing_free (trie s) R HR) as (t' & E & H).
  unfold trie_free. apply post_bind, post_bind. eapply post_stuck; [exact E|]. done.
Qed.

(** A table without routes has no nodes in its tries. *)
Lemma routing_no_roots t R v : routing t R -> R v = ∅ -> root_ptr t v = None.
Proof.
  intros (T & dead & I & HR) He. assert (Hr : routes (width v) (T v) = []).
  { destruct (routes (width v) (T v)) as [|[[c P] p] l] eqn:El; [done|].
    assert (H : (c, P, p) ∈ routes (width v) (T v)) by (rewrite El; left).
    apply table_spec in H; [|apply (inv_wf _ _ _ I)]. by rewrite HR, He, lookup_empty in H. }
  assert (Ho : owners (T v) = []).
  { destruct (owners (T v)) as [|[n p] l] eqn:El; [done|].
    destruct (owner_route (width v) (nodes t) (base v) (root_ptr t v) (T v) n p) as (nd & c & k & _ & _ & H);
      [apply (inv_repr _ _ _ I)|rewrite El; left|]. rewrite Hr in H. by apply not_elem_of_nil in H. }
  pose proof (inv_repr _ _ _ I v) as Hrep. rewrite (compact_no_owner _ (inv_compact _ _ _ I v) Ho) in Hrep. exact Hrep.
Qed.

Lemma routing_init t : routing t no_routes -> routing (wg_allowedips_init t) no_routes.
Proof.
  intros HR. assert (Hroot : forall v, root_ptr t v = None) by (intros v; by eapply routing_no_roots).
  destruct HR as (T & dead & I & HR). exists T, dead. split; [|done].
  eapply (inv_same t); [exact I|done| |done..]. intros v. rewrite Hroot. by destruct v.
Qed.

Lemma trie_init_post F s :
  routing (trie s) no_routes -> post F trie_init s (fun _ s' => table s' = table s /\ routing (trie s') no_routes).
Proof. intros H%routing_init. done. Qed.

Lemma init_peer_post F s :
  routing (trie s) no_routes ->
  post F init_peer s (fun p s' => table s' = table s /\ routing (trie s') no_routes /\ (p = None -> ~ memory_available K)).
Proof.
  intros HR. unfold init_peer. apply post_bind, post_ask. destruct (kzalloc (kern s)) as [[p|] k] eqn:E; cbn [fst snd].
  - apply post_bind, post_bind, post_ret. cbn. split_and!; [done| |done]. apply routing_new_list; [done|].
    intros v key. unfold no_routes. by rewrite lookup_empty.
  - apply post_ret. split_and!; [done..|]. intros _ [Hk _]. specialize (Hk (kern s)). rewrite E in Hk. by destruct Hk.
Qed.

End Steps.

(** ** The random test *)

Section Random.
Context `{K : TestKernel} {KO : TestKernelOk K}.

(** Both tables hold the same routes, all of them of the peers [ps]. *)
Definition agree (ps : list peer_id) (s : test_state) : Prop :=
  exists R, routing (trie s) R /\ holds (table s) R /\ forall v k p, R v !! k = Some p -> p ∈ ps.

(** The only way to give up: an allocation has failed. *)
Definition gives_up (f : failure) (s : test_state) : Prop :=
  f = malloc_FAIL /\ ~ memory_available K /\ exists R, routing (trie s) R.

Lemma agree_same ps s s' : same_tables s s' -> agree ps s -> agree ps s'.
Proof. intros [E1 E2]. unfold agree. by rewrite E1, E2. Qed.

Lemma draw_bytes_post F v s :
  post F (ask (prandom_bytes (addr_size v))) s (fun a s' => is_addr v a /\ same_tables s s').
Proof.
  apply post_ask. destruct (prandom_bytes_ok (addr_size v) (kern s)) as [Hw Hl].
  split; [|done]. split; [done|]. rewrite Hl. by destruct v.
Qed.

Lemma draw_u32_post F m s :
  0 < m -> post F (ask (prandom_u32_max m)) s (fun x s' => 0 <= x < m /\ same_tables s s').
Proof. intros Hm. apply post_ask. split; [by apply prandom_u32_max_ok|done]. Qed.

Lemma same_trans s1 s2 s3 : same_tables s1 s2 -> same_tables s2 s3 -> same_tables s1 s3.
Proof. unfold same_tables. intros [-> ->] [-> ->]. done. Qed.

Lemma mutate_bytes_post F n k v a m s :
  is_addr v a -> post F (mutate_bytes n k a m) s (fun a' s' => is_addr v a' /\ same_tables s s').
Proof.
  revert k a s. induction n as [|n IH]; intros k a s Ha; cbn [mutate_bytes]; [by apply post_ret|].
  apply post_bind. eapply post_mono; [by apply draw_u32_post|]. intros r s' [Hr Hs].
  eapply post_mono; [apply IH|].
  - destruct Ha as [Hw Hl]. split; [|by rewrite length_insert]. apply Forall_insert; [done|].
    apply (wrap_range 8). lia.
  - intros a' s'' [Ha' Hs']. split; [done|]. by eapply same_trans.
Qed.

Lemma mutate_post F v a s : is_addr v a -> post F (mutate v a) s (fun a' s' => is_addr v a' /\ same_tables s s').
Proof.
  intros Ha. unfold mutate. apply post_bind. eapply post_mono; [apply draw_bytes_post|]. intros m s1 [_ H1].
  apply post_bind. eapply post_mono; [apply draw_u32_post; by destruct v|]. intros x s2 [_ H2].
  eapply post_mono; [by apply mutate_bytes_post|]. intros a' s3 [Ha' H3]. split; [done|].
  eapply same_trans; [exact H1|]. by eapply same_trans.
Qed.

Lemma draw_route_post F v ps s :
  length ps = Z.to_nat NUM_PEERS ->
  post F (draw_route v ps) s (fun r s' => (0 <= r.1 <= width v /\ r.2 ∈ ps) /\ same_tables s s').
Proof.
  intros Hl. unfold draw_route. apply post_bind. eapply post_mono; [apply draw_u32_post; by destruct v|]. intros c s1 [Hc H1].
  apply post_bind. eapply post_mono; [by apply draw_u32_post|]. intros i s2 [Hi H2].
  destruct (lookup_lt_is_Some_2 ps (Z.to_nat i)) as [p Hp]; [rewrite Hl; apply Z2Nat.inj_lt; lia|].
  apply post_bind. eapply post_stuck; [exact Hp|]. apply post_ret. cbn [fst snd].
  split; [split; [lia|by eapply list_elem_of_lookup_2]|]. by eapply same_trans.
Qed.

(** A route that goes into both tables keeps them in agreement. *)
Lemma insert_both_post bad v a c p ps s :
  (bad 0 = false /\ bad (- ENOMEM) = true) -> agree ps s -> is_addr v a -> 0 <= c <= width v -> p ∈ ps ->
  post gives_up (insert_both bad v a c p) s (fun _ => agree ps).
Proof.
  intros [B0 B1] (R & HR & HT & Hps) Ha Hc Hp. unfold insert_both. apply post_bind.
  eapply post_mono; [by apply trie_insert_post|]. intros ret s1 (Ht1 & [[-> H1]|(-> & Hm & H1)]).
  2: { split; [done|]. split; [done|]. eauto. }
  cbn [Z.ltb Z.compare]. apply post_bind, post_ask.
  set (mem := match (kzalloc (kern s1)).1 with Some _ => true | None => false end).
  destruct (horrible_insert_spec (table s) R v mem a c p HT Ha Hc) as (ret & h' & E & Hret).
  apply post_bind. change (post gives_up (let '(ret, h) := horrible_insert v mem a c p (table s1) in _ ← put_table h; if bad ret then goto_free malloc_FAIL else mret tt)
    (TS (trie s1) (table s1) (kzalloc (kern s1)).2) (fun _ => agree ps)).
  rewrite Ht1, E. apply post_bind. destruct Hret as [(_ & -> & H2)|(Hmem & -> & ->)].
  - rewrite B0. apply post_ret. eexists. split; [exact H1|]. split; [exact H2|].
    intros v' [c' P'] q. rewrite set_route_lookup. case_decide; [by intros [= <-]|apply Hps].
  - rewrite B1. split; [done|]. split; [|eauto]. intros [Hk _]. specialize (Hk (kern s1)). unfold mem in Hmem.
    destruct (kzalloc (kern s1)).1; [done|by destruct Hk].
Qed.

Lemma random_route_post v ps s :
  length ps = Z.to_nat NUM_PEERS -> agree ps s -> post gives_up (random_route v ps) s (fun _ => agree ps).
Proof.
  intros Hl Hag. unfold random_route. apply post_bind. eapply post_mono; [apply draw_bytes_post|]. intros a s1 [Ha H1].
  apply (agree_same _ _ _ H1) in Hag. apply post_bind. eapply post_mono; [by apply draw_route_post|].
  intros r s2 [[Hc Hp] H2]. apply (agree_same _ _ _ H2) in Hag. apply post_bind.
  eapply post_mono; [by apply insert_both_post|]. clear -KO Hl Ha. intros ? s Hag. apply post_for; [|exact Hag].
  clear -KO Hl Ha. intros s Hag. unfold mutated_route. apply post_bind. eapply post_mono; [by apply mutate_post|].
  intros a' s1 [Ha' H1]. apply (agree_same _ _ _ H1) in Hag. apply post_bind. eapply post_mono; [by apply draw_route_post|].
  intros r s2 [[Hc Hp] H2]. apply (agree_same _ _ _ H2) in Hag. by apply insert_both_post.
Qed.

(** Tables that agree answer every query alike. *)
Lemma random_query_post v ps s : agree ps s -> post gives_up (random_query v) s (fun _ => agree ps).
Proof.
  intros Hag. unfold random_query. apply post_bind. eapply post_mono; [apply draw_bytes_post|]. intros a s1 [Ha H1].
  apply (agree_same _ _ _ H1) in Hag. destruct Hag as (R & HR & HT & Hps).
  apply post_bind. eapply post_mono; [by apply trie_lookup_post|]. intros r s2 [-> ->]. apply post_bind.
  unfold post, get_table. rewrite (horrible_lookup_spec _ _ _ _ HT Ha), bool_decide_eq_true_2 by done. exists R. done.
Qed.

Lemma queries_post n ps s :
  agree ps s -> post gives_up (for_ n (_ ← random_query false; random_query true)) s (fun _ => agree ps).
Proof.
  apply post_for. intros s' Hag. apply post_bind. eapply post_mono; [by apply random_query_post|].
  intros ? s'' Hag'. by apply random_query_post.
Qed.

Lemma query_rounds_post ps s :
  agree ps s -> post gives_up (query_rounds ps) s (fun _ => agree []).
Proof.
  revert s. induction ps as [|p ps IH]; intros s Hag; cbn [query_rounds]; apply post_bind;
    (eapply post_mono; [by apply queries_post|]); intros ? s1 H1.
  - by apply post_ret.
  - destruct H1 as (R & HR & HT & Hps). apply post_bind. eapply post_mono; [by apply trie_remove_post|].
    intros ? s2 [Ht2 HR2]. apply post_bind, post_bind. apply IH. exists (drop_peer R p). split; [done|].
    split; [cbn; rewrite Ht2; by apply remove_by_value_spec|].
    intros v k q. unfold drop_peer. rewrite map_lookup_filter_Some. cbn. intros [Hq Hne]. apply Hps, elem_of_cons in Hq. tauto.
Qed.

Lemma make_peers_post n s :
  routing (trie s) no_routes ->
  post gives_up (make_peers n) s (fun ps s' => length ps = n /\ table s' = table s /\ routing (trie s') no_routes).
Proof.
  revert s. induction n as [|n IH]; intros s HR; cbn [make_peers]; [by apply post_ret|].
  apply post_bind. eapply post_mono; [by apply init_peer_post|]. intros [p|] s1 (H1 & H2 & H3).
  - apply post_bind. eapply post_mono; [by apply IH|]. intros ps s2 (Hl & Ht & H). apply post_ret.
    cbn [length]. rewrite Hl, Ht. done.
  - split; [done|]. split; [by apply H3|]. eauto.
Qed.

Lemma randomized_body_post k :
  post gives_up randomized_body (TS empty_table horrible_allowedips_init k) (fun _ => agree []).
Proof.
  unfold randomized_body. apply post_bind, post_ask. cbn [trie table kern].
  destruct (kzalloc k) as [[arr|] k'] eqn:E; cbn [fst snd].
  2: { split; [done|]. split; [|exists no_routes; apply routing_empty].
    intros [Hk _]. specialize (Hk k). rewrite E in Hk. by destruct Hk. }
  apply post_bind. eapply post_mono; [apply make_peers_post, routing_empty|]. intros ps s1 (Hl & Ht & HR).
  assert (Hag : agree ps s1).
  { exists no_routes. split; [done|]. split; [rewrite Ht; apply holds_init|]. intros v key p. unfold no_routes. by rewrite lookup_empty. }
  apply post_bind. eapply post_mono; [apply (post_for _ _ _ (agree ps)); [|exact Hag]; intros; by apply random_route_post|].
  clear s1 Ht HR Hag. intros ? s1 Hag.
  apply post_bind. eapply post_mono; [apply (post_for _ _ _ (agree ps)); [|exact Hag]; intros; by apply random_route_post|].
  clear s1 Hag. intros ? s1 Hag.
  apply post_bind. eapply post_mono; [by apply query_rounds_post|]. intros ? s2 H2.
  apply post_bind. destruct H2 as (R & HR & HT & Hno). unfold post at 1, get_trie.
  assert (Hroot : forall v, root_ptr (trie s2) v = None).
  { intros v. eapply routing_no_roots; [exact HR|]. apply map_empty. intros key.
    apply eq_None_not_Some. intros [p Hp]. by apply Hno, not_elem_of_nil in Hp. }
  pose proof (Hroot false) as H4. pose proof (Hroot true) as H6. cbn in H4, H6. rewrite H4, H6. apply post_ret. exists R. done.
Qed.

(** The verdict of the random test, with all its ends. *)
Lemma randomized_test_spec k :
  exists ret msg s, randomized_test k = Some (ret, msg, s) /\ routing (trie s) no_routes /\ table s = [] /\
    ((ret = true /\ msg = None) \/ (ret = false /\ msg = Some malloc_FAIL /\ ~ memory_available K)).
Proof.
  pose proof (randomized_body_post k) as H. unfold post in H. unfold randomized_test, randomized_free.
  destruct (randomized_body _) as [a s|f s|]; [|destruct H as (-> & Hm & R & HR)|done].
  - destruct H as (R & HR & _). destruct (routing_free _ _ HR) as (t & E & Ht). rewrite E. cbn.
    do 3 eexists. split; [done|]. split; [done|]. split; [apply horrible_free_spec|by left].
  - destruct (routing_free _ _ HR) as (t & E & Ht). rewrite E. cbn.
    do 3 eexists. split; [done|]. split; [done|]. split; [apply horrible_free_spec|by right].
Qed.

End Random.

(** ** The list of a peer *)

Lemma owners_routes_length w t : length (owners t) = length (routes w t).
Proof. induction t as [|n [p|] c k l IHl r IHr]; cbn; [done|..]; rewrite !length_app; lia. Qed.

Lemma owners_ids t : (owners t).*1 ⊆+ ids t.
Proof.
  induction t as [|n [p|] c k l IHl r IHr]; cbn; [done|..]; rewrite fmap_app.
  - apply submseteq_skip. by apply submseteq_app.
  - apply submseteq_cons. by apply submseteq_app.
Qed.

Lemma table_size w t : wf w 0 0 t -> size (AllowedIpsTree.table w t) = length (routes w t).
Proof.
  intros Hwf. rewrite <- length_map_to_list. unfold AllowedIpsTree.table.
  rewrite map_to_list_to_map by (by eapply routes_keys_NoDup). by rewrite length_map.
Qed.

(** When every route is of [p], its list is as long as the tables together. *)
Lemma plist_length t R p :
  routing t R -> (forall v k q, R v !! k = Some q -> q = p) ->
  length (plist t p) = (size (R false) + size (R true))%nat.
Proof.
  intros (T & dead & I & HR) Hp.
  assert (Hall : Forall (fun np => np.2 = p) (fowners T)).
  { apply Forall_forall. intros [n q] Hin. unfold fowners in Hin.
    assert (exists v, (n, q) ∈ owners (T v)) as [v Hv] by (apply elem_of_app in Hin as [?|?]; eauto).
    destruct (owner_route _ _ _ _ _ _ _ (inv_repr _ _ _ I v) Hv) as (nd & c & k & _ & _ & H).
    apply table_spec in H; [|apply (inv_wf _ _ _ I)]. rewrite HR in H. by eapply Hp. }
  assert (Hperm : plist t p ≡ₚ (fowners T).*1).
  { apply NoDup_Permutation; [apply (inv_lists_nodup _ _ _ I)|..].
    - destruct (submseteq_Permutation (fowners T).*1 (fids T)) as [k Hk].
      { unfold fids, fowners. rewrite fmap_app. apply submseteq_app; apply owners_ids. }
      pose proof (inv_nodup _ _ _ I) as Hn. apply NoDup_app in Hn as [Hn _]. rewrite Hk in Hn. by apply NoDup_app in Hn as [Hn _].
    - intros n. rewrite (inv_lists _ _ _ I), list_elem_of_fmap. split; [intros H; by exists (n, p)|].
      intros ([n' q] & -> & Hin). rewrite Forall_forall in Hall. pose proof (Hall _ Hin) as E. cbn in E. by subst q. }
  rewrite Hperm, length_fmap. unfold fowners. rewrite length_app, <- !HR, !table_size by apply I.
  by rewrite (owners_routes_length (width false)), (owners_routes_length (width true)).
Qed.

(** ** The fixed test *)

Section Fixed.
Context `{K : TestKernel} {KO : TestKernelOk K}.
Abbreviation run_ok := (post (fun _ _ => False)).

Lemma post_when {A} F (m : M A) s (H : Prop) Q0 Q :
  post F m s Q0 -> (H -> post F m s Q) -> post F m s (fun a s => Q0 a s /\ (H -> Q a s)).
Proof. unfold post. destruct (m s); [|done..]. auto. Qed.

(** The trie is in a good state, and holds the routes [R] when no allocation fails. *)
Definition meant (R : bool -> rtable) (s : test_state) : Prop :=
  (exists R', routing (trie s) R') /\ (memory_available K -> routing (trie s) R).

Lemma meant_routing R s : routing (trie s) R -> meant R s.
Proof. split; eauto. Qed.

Definition line_route (R : bool -> rtable) (l : route_line) : bool -> rtable :=
  let '(v, p, a, c) := l in set_route R v c (pfx (width v) c (be_val a)) p.
Definition line_ok (l : route_line) : Prop := let '(v, p, a, c) := l in is_addr v a /\ 0 <= c <= width v.

Lemma insert_line_post R l s : meant R s -> line_ok l -> run_ok (insert_line l) s (fun _ => meant (line_route R l)).
Proof.
  destruct l as [[[v p] a] c]. intros [[R' HR'] HR] [Ha Hc]. unfold insert_line. apply post_bind.
  eapply post_mono; [apply post_when; [by apply (trie_insert_post _ v a c p s R')|]|].
  - intros Hm. by apply (trie_insert_post _ v a c p s R (HR Hm)).
  - cbv beta. intros ret s' [[_ H1] H2]. apply post_ret. split; [destruct H1 as [[_ ?]|(_ & _ & ?)]; eauto|].
    intros Hm. by destruct (H2 Hm) as [_ [[_ ?]|(_ & ? & _)]].
Qed.

Lemma insert_lines_post ls R s :
  meant R s -> Forall line_ok ls -> run_ok (for_each ls insert_line) s (fun _ => meant (foldl line_route R ls)).
Proof.
  intros HR Hok.
  eapply post_mono; [apply (post_for_each _ ls _ (fun l s => exists R', meant R' s /\ Forall line_ok l /\
      foldl line_route R' l = foldl line_route R ls))|].
  - intros l ls' s' (R' & H1 & H2 & H3). inversion_clear H2 as [|?? Hl Hls].
    eapply post_mono; [by apply insert_line_post|]. intros ? s'' H. cbn in H3. by exists (line_route R' l).
  - by exists R.
  - intros ? s' (R' & H1 & _ & H3). cbn in H3. by subst.
Qed.

(** Tests that leave the state alone all succeed when each one does. *)
Lemma tests_post {A} (one : A -> M bool) (good : A -> Prop) l s :
  (forall x, x ∈ l -> run_ok (one x) s (fun b s' => s' = s /\ (good x -> b = true))) ->
  run_ok (tests one l) s (fun b s' => s' = s /\ (Forall good l -> b = true)).
Proof.
  induction l as [|x l IH]; intros H; cbn [tests]; [by apply post_ret|].
  apply post_bind. eapply post_mono; [apply H; left|]. intros b s' [-> Hb].
  apply post_bind. eapply post_mono; [apply IH; intros y Hy; apply H; by right|]. intros bs s' [-> Hbs].
  apply post_ret. split; [done|]. inversion_clear 1. rewrite Hb, Hbs; done.
Qed.

Definition positive (R : bool -> rtable) (l : test_line) : Prop :=
  let '(v, p, a) := l in lpm (width v) (R v) (be_val a) = Some p.
Definition negative (R : bool -> rtable) (l : test_line) : Prop :=
  let '(v, p, a) := l in lpm (width v) (R v) (be_val a) <> Some p.
Definition test_ok (l : test_line) : Prop := is_addr l.1.1 l.2.

Lemma lookup_meant R v a s :
  meant R s -> is_addr v a ->
  run_ok (trie_lookup v a) s (fun r s' => s' = s /\ (memory_available K -> r = lpm (width v) (R v) (be_val a))).
Proof.
  intros [[R' HR'] HR] Ha. eapply post_mono; [apply post_when; [by apply (trie_lookup_post _ v a s R')|]|].
  - intros Hm. by apply (trie_lookup_post _ v a s R (HR Hm)).
  - cbv beta. intros r s' [[-> _] H]. split; [done|]. intros Hm. by apply H.
Qed.

Lemma test_one_post R l s :
  meant R s -> test_ok l ->
  run_ok (test_one l) s (fun b s' => s' = s /\ (memory_available K /\ positive R l -> b = true)).
Proof.
  destruct l as [[v p] a]. intros HR Ha. apply post_bind. eapply post_mono; [by apply (lookup_meant R)|].
  intros r s' [-> Hr]. apply post_ret. split; [done|]. intros [Hm Hp]. by rewrite (Hr Hm), Hp, bool_decide_eq_true_2.
Qed.

Lemma test_negative_one_post R l s :
  meant R s -> test_ok l ->
  run_ok (test_negative_one l) s (fun b s' => s' = s /\ (memory_available K /\ negative R l -> b = true)).
Proof.
  destruct l as [[v p] a]. intros HR Ha. apply post_bind. eapply post_mono; [by apply (lookup_meant R)|].
  intros r s' [-> Hr]. apply post_ret. split; [done|]. intros [Hm Hp]. rewrite (Hr Hm). by apply bool_decide_eq_true_2.
Qed.

Lemma remove_meant R p s : meant R s -> run_ok (trie_remove p) s (fun _ => meant (drop_peer R p)).
Proof.
  intros [[R' HR'] HR]. eapply post_mono; [apply post_when; [by apply (trie_remove_post _ p s R')|]|].
  - intros Hm. by apply (trie_remove_post _ p s R (HR Hm)).
  - cbv beta. intros ? s' [[_ H1] H2]. split; [eauto|]. intros Hm. by apply H2.
Qed.

(** After a removal no address leads to the peer. *)
Lemma dropped_negative R p v a : negative (drop_peer R p) (v, p, a).
Proof.
  intros [c H]%lpm_some. unfold drop_peer in H. apply map_lookup_filter_Some in H as [_ H]. by apply H.
Qed.

(** The addresses of the test are addresses. *)
Lemma ip6_addr a b c d : is_addr true (ip6 a b c d).
Proof. split; [|by unfold ip6; rewrite !length_app, !be_bytes_length]. unfold ip6. rewrite !Forall_app. auto with wg. Qed.

Ltac lines_ok :=
  repeat (apply Forall_cons; split); try apply Forall_nil; try done; cbn -[ip4 ip6 Z.le];
  try (split; [|lia]); first [apply ip6_addr | apply is_addr_v4; unfold is_byte; lia].

Lemma first_inserts_ok a b c d e f g h : Forall line_ok (first_inserts a b c d e f g h).
Proof. unfold first_inserts. lines_ok. Qed.

Lemma first_tests_ok a b c d e f g h : Forall test_ok (first_tests a b c d e f g h).
Proof. unfold first_tests. lines_ok. Qed.

Lemma second_inserts_ok a : Forall line_ok (second_inserts a).
Proof. unfold second_inserts. lines_ok. Qed.

Lemma second_tests_ok a : Forall test_ok (second_tests a).
Proof. unfold second_tests. lines_ok. Qed.

Lemma last_inserts_ok a : Forall line_ok (last_inserts a).
Proof. unfold last_inserts. lines_ok. Qed.

Lemma deep_inserts_ok a i : Forall line_ok (deep_inserts a i).
Proof.
  assert (H8 : wf_bytes (replicate 8 255)) by (apply Forall_replicate; unfold is_byte; lia).
  assert (Hone : forall x y, wf_bytes x -> wf_bytes y -> length x = 8%nat -> length y = 8%nat ->
    line_ok (true, a, x ++ y, 128)).
  { intros x y Hx Hy Lx Ly. split; [|cbn; lia]. split; [by apply Forall_app|by rewrite length_app, Lx, Ly]. }
  unfold deep_inserts. apply Forall_cons. split; [|apply Forall_cons; split; [|apply Forall_nil; done]];
    apply Hone; auto with wg; apply be_bytes_length.
Qed.

(** The routes of the first part lead where the tests say, whoever the peers are. *)
Lemma first_tests_positive a b c d e f g h :
  Forall (positive (foldl line_route no_routes (first_inserts a b c d e f g h))) (first_tests a b c d e f g h).
Proof.
  set (R := foldl line_route no_routes (first_inserts a b c d e f g h)).
  assert (H : map (fun '(v, p, a) => lpm (width v) (R v) (be_val a)) (first_tests a b c d e f g h)
    = map (fun '(v, p, a) => Some p) (first_tests a b c d e f g h)) by (vm_compute; reflexivity).
  clearbody R. revert H. generalize (first_tests a b c d e f g h). clear.
  induction l as [|[[v p] a] l IH]; cbn; [constructor|]. intros [= H1 H2]. constructor; [exact H1|by apply IH].
Qed.

Lemma iterate_post t l s :
  (forall n, n ∈ l -> is_Some (nodes t !! n)) ->
  run_ok (iterate t l) s (fun seen s' => s' = s /\ length seen = length l /\
    forall f, f ∈ seen <-> exists n nd, n ∈ l /\ nodes t !! n = Some nd /\ f = classify (wg_allowedips_read_node nd)).
Proof.
  induction l as [|n l IH]; intros H; cbn [iterate].
  { apply post_ret. split_and!; [done..|]. intros f. split; [by intros ?%not_elem_of_nil|].
    by intros (n & nd & ?%not_elem_of_nil & _). }
  destruct (H n ltac:(left)) as [nd Hnd]. apply post_bind. eapply post_stuck; [exact Hnd|].
  apply post_bind. eapply post_mono; [apply IH; intros m Hm; apply H; by right|]. intros fs s' (-> & Hl & Hf).
  apply post_ret. split; [done|]. split; [cbn; lia|]. intros f. rewrite elem_of_cons, Hf. split.
  - intros [->|(m & md & Hm & Hmd & ->)]; [exists n, nd|exists m, md]; rewrite elem_of_cons; auto.
  - intros (m & md & [->|Hm]%elem_of_cons & Hmd & ->); [left; by simplify_eq|right; eauto].
Qed.

(** What the last five insertions leave: five routes of [a], one for each flag. *)
Definition last_routes (a : peer_id) : bool -> rtable := foldl line_route no_routes (last_inserts a).
Definition read_route (v : bool) (k : Z * Z) : found := classify (family (width v), masked_addr (width v) k.1 k.2, k.1).

Lemma last_routes_all a v k q : last_routes a v !! k = Some q -> q = a /\ read_route v k <> found_other.
Proof.
  rewrite <- elem_of_map_to_list. destruct v;
    match goal with |- _ ∈ ?l -> _ => let l' := eval vm_compute in l in replace l with l' by (vm_compute; reflexivity) end;
    intros H; repeat (apply elem_of_cons in H as [[= -> ->]|H]; [split; [done|by vm_compute]|]); by apply not_elem_of_nil in H.
Qed.

Lemma last_routes_each a f : f <> found_other -> exists v k, last_routes a v !! k = Some a /\ read_route v k = f.
Proof.
  set (at_line := fun (l : route_line) => let '(v, _, x, c) := l in (v, (c, pfx (width v) c (be_val x)))).
  intros Hf. assert (exists l, last_routes a (at_line l).1 !! (at_line l).2 = Some a /\ read_route (at_line l).1 (at_line l).2 = f) as (l & H) by
    (destruct f; [exists (insert4 a 192 95 5 93 27)|exists (insert6 a 0x26075300 0x60006b00 0 0xc05f0543 128)
      |exists (insert4 a 10 1 0 20 29)|exists (insert6 a 0x26075300 0x6d8a6bf8 0xdab1f1df 0xc05f1523 83)
      |exists (insert6 a 0x26075300 0x6d8a6bf8 0xdab1f1df 0xc05f1523 21)|done]; by vm_compute).
  eauto.
Qed.

Lemma list_tests_post a s :
  meant (last_routes a) s -> run_ok (list_tests a) s (fun b s' => s' = s /\ (memory_available K -> b = true)).
Proof.
  intros [[R' HR'] HR]. unfold list_tests. apply post_bind. unfold post at 1, get_trie. apply post_bind.
  eapply post_mono; [apply iterate_post|].
  { intros n Hn. destruct (proj1 (read_back_spec _ _ a HR') n Hn) as (_ & _ & _ & nd & H & _). by exists nd. }
  intros seen s' (-> & Hl & Hseen). apply post_ret. split; [done|]. intros Hm. specialize (HR Hm).
  destruct (read_back_spec _ _ a HR) as [Hread Hroute].
  assert (Hall : forall f, f <> found_other -> f ∈ seen).
  { intros f Hf. destruct (last_routes_each a f Hf) as (v & [c P] & Hk & Hr).
    destruct (Hroute v c P Hk) as (n & nd & Hn & Hnd & Hrd). apply Hseen. exists n, nd. rewrite Hrd. auto. }
  assert (Hother : found_other ∉ seen).
  { intros (n & nd & Hn & Hnd & E)%Hseen. destruct (Hread n Hn) as (v & c & P & nd' & Hnd' & HP & Hrd).
    simplify_eq. apply last_routes_all in HP as [_ HP]. apply HP. unfold read_route. cbn [fst snd]. rewrite <- Hrd. by symmetry. }
  rewrite !bool_decide_eq_true_2, bool_decide_eq_false_2, Hl by (done || by apply Hall).
  rewrite (plist_length _ _ a HR) by (intros v k q H; by apply last_routes_all in H as [H _]).
  vm_compute. reflexivity.
Qed.

(** Tests made right after the removal of a peer. *)
Lemma negative_tests_post R p l s :
  meant (drop_peer R p) s -> Forall (fun x => test_ok x /\ x.1.2 = p) l ->
  run_ok (tests test_negative_one l) s (fun b s' => s' = s /\ (memory_available K -> b = true)).
Proof.
  intros HR Hok. rewrite Forall_forall in Hok.
  eapply post_mono; [apply (tests_post _ (fun x => memory_available K /\ negative (drop_peer R p) x))|].
  - intros x Hx. apply test_negative_one_post; [done|]. by apply Hok.
  - intros b s' [-> Hb]. split; [done|]. intros Hm. apply Hb. apply Forall_forall. intros [[v q] a] Hx. split; [done|].
    destruct (Hok _ Hx) as [_ Eq]. cbn in Eq. subst q. apply dropped_negative.
Qed.

Lemma free_meant R s : meant R s -> run_ok trie_free s (fun _ s' => routing (trie s') no_routes).
Proof. intros [[R' HR] _]. eapply post_mono; [by apply (trie_free_post _ _ R')|]. by intros ? s' [_ H]. Qed.

Lemma init_meant s : routing (trie s) no_routes -> run_ok trie_init s (fun _ => meant no_routes).
Proof. intros HR. eapply post_mono; [by apply trie_init_post|]. intros ? s' [_ H]. by apply meant_routing. Qed.

Lemma routes_part_post a b c d e f g h s :
  meant no_routes s ->
  run_ok (routes_part a b c d e f g h) s (fun ok s' => (exists R, meant R s') /\ (memory_available K -> ok = true)).
Proof.
  intros HR. apply post_bind. eapply post_mono; [apply insert_lines_post; [exact HR|apply first_inserts_ok]|]. intros ? s1 H1.
  set (R := foldl line_route no_routes (first_inserts a b c d e f g h)) in *.
  eapply post_mono; [apply (tests_post _ (fun x => memory_available K /\ positive R x))|].
  - intros x Hx. apply test_one_post; [exact H1|]. pose proof (first_tests_ok a b c d e f g h) as Hok.
    rewrite Forall_forall in Hok. by apply Hok.
  - intros ok s' [-> Hb]. split; [by exists R|]. intros Hm. apply Hb.
    eapply Forall_impl; [apply first_tests_positive|]. done.
Qed.

Lemma removal_part_post a R s :
  meant R s -> run_ok (removal_part a) s (fun ok s' => (exists R, meant R s') /\ (memory_available K -> ok = true)).
Proof.
  intros HR. apply post_bind. eapply post_mono; [apply insert_lines_post; [exact HR|apply second_inserts_ok]|]. intros ? s1 H1.
  apply post_bind. eapply post_mono; [apply remove_meant, H1|]. intros ? s2 H2.
  eapply post_mono; [eapply negative_tests_post; [exact H2|]|].
  - pose proof (second_tests_ok a) as Hok. rewrite Forall_forall in Hok |- *. intros x Hx. split; [by apply Hok|].
    unfold second_tests in Hx. by repeat (apply elem_of_cons in Hx as [->|Hx]; [done|]); apply not_elem_of_nil in Hx.
  - intros ok s' [-> Hb]. split; [eexists; exact H2|done].
Qed.

Lemma refill_part_post a R s :
  meant R s -> run_ok (refill_part a) s (fun ok s' => (exists R, meant R s') /\ (memory_available K -> ok = true)).
Proof.
  intros HR. apply post_bind. eapply post_mono; [eapply free_meant, HR|]. intros ? s1 H1.
  apply post_bind. eapply post_mono; [apply init_meant, H1|]. intros ? s2 H2.
  apply post_bind. eapply post_mono; [apply insert_lines_post; [exact H2|lines_ok]|]. intros ? s3 H3.
  apply post_bind. eapply post_mono; [apply remove_meant, H3|]. intros ? s4 H4.
  eapply post_mono; [eapply negative_tests_post; [exact H4|]|].
  - apply Forall_singleton. split; [|done]. apply is_addr_v4; unfold is_byte; lia.
  - intros ok s' [-> Hb]. split; [eexists; exact H4|done].
Qed.

Lemma deep_part_post a R s : meant R s -> run_ok (deep_part a) s (fun _ s' => routing (trie s') no_routes).
Proof.
  intros HR. apply post_bind.
  eapply post_mono; [apply (post_for_each _ _ _ (fun _ s => exists R, meant R s))|]; [|by exists R|].
  - intros i l s' [R' H]. eapply post_mono; [apply insert_lines_post; [exact H|apply deep_inserts_ok]|].
    intros ? s'' H'. eexists. exact H'.
  - intros ? s1 [R1 H1]. apply post_bind. eapply post_mono; [apply insert_line_post; [exact H1|]|].
    + split; [split; [apply zeroes_wf|done]|cbn; lia].
    + intros ? s2 H2. eapply free_meant. exact H2.
Qed.

Lemma list_part_post a s :
  routing (trie s) no_routes ->
  run_ok (list_part a) s (fun ok s' => (exists R, meant R s') /\ (memory_available K -> ok = true)).
Proof.
  intros HR. apply post_bind. eapply post_mono; [apply init_meant, HR|]. intros ? s1 H1.
  apply post_bind. eapply post_mono; [apply insert_lines_post; [exact H1|apply last_inserts_ok]|]. intros ? s2 H2.
  eapply post_mono; [by apply list_tests_post|]. intros ok s' [-> Hb]. split; [eexists; exact H2|done].
Qed.

(** The part of the test between the allocations and the label [free]. *)
Lemma fixed_tests_post a b c d e f g h s :
  meant no_routes s ->
  run_ok (fixed_tests a b c d e f g h) s (fun ok s' => (exists R, meant R s') /\ (memory_available K -> ok = true)).
Proof.
  intros HR. apply post_bind. eapply post_mono; [by apply routes_part_post|]. intros b1 s1 [[R1 H1] Hb1].
  apply post_bind. eapply post_mono; [by eapply removal_part_post|]. intros b2 s2 [[R2 H2] Hb2].
  apply post_bind. eapply post_mono; [by eapply refill_part_post|]. intros b3 s3 [[R3 H3] Hb3].
  apply post_bind. eapply post_mono; [by eapply deep_part_post|]. intros ? s4 H4.
  apply post_bind. eapply post_mono; [by apply list_part_post|]. intros b4 s5 [H5 Hb4].
  apply post_ret. split; [done|]. intros Hm. by rewrite Hb1, Hb2, Hb3, Hb4.
Qed.

Lemma maybe_random_post dbg ok R s :
  meant R s -> (memory_available K -> ok = true) ->
  run_ok (maybe_random dbg ok) s (fun ok s' => (exists R, meant R s') /\ (memory_available K -> ok = true)).
Proof.
  intros HR Hok. unfold maybe_random. destruct (dbg && ok); [|apply post_ret; split; [eexists; exact HR|done]].
  destruct (randomized_test_spec (kern s)) as (ret & msg & s' & E & _ & _ & H). unfold post. rewrite E.
  split; [by exists R|]. intros Hm. by destruct H as [[-> _]|(_ & _ & H)].
Qed.


(** The peers are allocated before anything is tested. *)
Lemma init_peer_next {A} (k : option peer_id -> M A) s Q :
  routing (trie s) no_routes ->
  (forall p s', routing (trie s') no_routes -> (memory_available K -> is_Some p) -> run_ok (k p) s' Q) ->
  run_ok (p ← init_peer; k p) s Q.
Proof.
  intros HR Hk. apply post_bind. eapply post_mono; [by apply init_peer_post|]. intros p s' (_ & H1 & H2).
  apply Hk; [done|]. intros Hm. destruct p; [eauto|]. by apply H2 in Hm.
Qed.

Lemma selftest_post dbg s :
  routing (trie s) no_routes ->
  run_ok (wg_allowedips_selftest dbg) s (fun ok s' => routing (trie s') no_routes /\ (memory_available K -> ok = true)).
Proof.
  intros HR. unfold wg_allowedips_selftest. do 8 (apply init_peer_next; [done|]; clear s HR; intros ? s HR ?).
  apply post_bind. eapply post_mono; [by apply init_meant|]. intros ? s1 Hinit.
  apply post_bind. eapply post_mono with (Q := fun ok s' => (exists R, meant R s') /\ (memory_available K -> ok = true)).
  - repeat case_match; try (apply post_ret; split; [eexists; exact Hinit|]; intros Hm; exfalso;
      repeat match goal with H : memory_available K -> is_Some _ |- _ => destruct (H Hm) as [? ?]; clear H end; congruence).
    apply post_bind. eapply post_mono; [by apply fixed_tests_post|]. intros ok s2 [[R Hs2] Hok]. by eapply maybe_random_post.
  - intros ok s2 [[R Hs2] Hok]. apply post_bind. eapply post_mono; [by eapply free_meant|]. intros ? s3 ?. by apply post_ret.
Qed.

End Fixed.

(** ** What the random test does not draw *)

(** The byte of the mask that should keep [mutate_amount mod 8] bits is overwritten with zero by the
    loop that follows its assignment, so whole bytes are kept only. *)
Lemma mutate_mask_partial_byte_lost m amount :
  0 <= amount < 32 -> (4 <= length m)%nat -> make_mutate_mask m amount !! Z.to_nat (amount / 8) = Some 0.
Proof.
  intros Ha Hl. assert (Hk : (Z.to_nat (amount / 8) < 4)%nat).
  { pose proof (Z.div_lt_upper_bound amount 8 4 ltac:(lia) ltac:(lia)). pose proof (Z.div_pos amount 8). lia. }
  unfold make_mutate_mask. set (k := Z.to_nat (amount / 8)) in *. set (x := u8 _).
  assert (Hlen : length (take k (<[k := x]> (replicate k 255 ++ drop k m))) = k)
    by (rewrite length_take, length_insert, length_app, length_replicate, length_drop; lia).
  rewrite lookup_app_r, Hlen, Nat.sub_diag by lia. destruct (4 - k)%nat eqn:E; [lia|done].
Qed.

(** An IPv6 route is mutated in its first four bytes only. *)
Lemma mutation_keeps_tail `{K : TestKernel} F n k a m s :
  (k + n <= 4)%nat -> post F (mutate_bytes n k a m) s (fun a' _ => drop 4 a' = drop 4 a).
Proof.
  revert k a s. induction n as [|n IH]; intros k a s Hk; cbn [mutate_bytes]; [by apply post_ret|].
  apply post_bind, post_ask. eapply post_mono; [apply IH; lia|]. cbv beta. intros a' s' ->. apply drop_insert_lt. lia.
Qed.

(** ** The properties *)

(** C28: the trie and the trivial implementation are equivalent. Whatever the random numbers are
    and wherever memory is found, the random test of the self-test runs to its end, every query of
    every round gets the same answer from the trie and from the ordered list, nothing is left after
    the last peer is removed, and the test says so; it fails only when an allocation has failed, with
    the message for that. In every case both tables are empty when it returns. *)
Theorem randomized_test_passes `{K : TestKernel, !TestKernelOk K} (k : kernel) :
  exists ret msg s, randomized_test k = Some (ret, msg, s) /\ routing (trie s) no_routes /\ table s = [] /\
    (ret = false -> msg = Some malloc_FAIL) /\ (memory_available K -> ret = true).
Proof.
  destruct (randomized_test_spec k) as (ret & msg & s & E & H1 & H2 & H3). exists ret, msg, s.
  split_and!; [done..| |]; destruct H3 as [[-> ->]|(-> & -> & Hm)]; done.
Qed.

(** The kernel of the witnesses: memory never runs out and the random numbers are all 1 (or 0). *)
Definition plain_kernel : TestKernel :=
  {| kernel := nid;
     prandom_bytes n k := (replicate n 1, k);
     prandom_u32_max m k := (Z.min 1 (m - 1), k);
     kzalloc k := (Some k, Pos.succ k);
     kmem_cache_zalloc t k :=
       let n := base.fresh (dom (nodes t)) in ((Some n, Some (base.fresh ({[n]} ∪ dom (nodes t)))), k) |}.

Lemma plain_kernel_ok : TestKernelOk plain_kernel.
Proof.
  split.
  - intros n k. split; [apply Forall_replicate; unfold is_byte; lia|apply length_replicate].
  - intros m k Hm. cbn. lia.
  - intros t k. cbn. pose proof (is_fresh (dom (nodes t))) as H1.
    pose proof (is_fresh ({[base.fresh (dom (nodes t))]} ∪ dom (nodes t))) as H2. split.
    + intros n [= <-]. by apply not_elem_of_dom.
    + intros n [= <-]. apply not_elem_of_union in H2 as [H2 H3]. split; [by apply not_elem_of_dom|].
      intros [= E]. apply H2. rewrite <- E. by apply elem_of_singleton.
Qed.

Lemma plain_kernel_memory : memory_available plain_kernel.
Proof. split; [by intros k; eexists|]. intros t k. split; by eexists. Qed.

Lemma randomized_test_passes_witness :
  exists msg s, randomized_test (K := plain_kernel) 1%positive = Some (true, msg, s) /\ table s = [].
Proof.
  destruct (randomized_test_passes (TestKernelOk0 := plain_kernel_ok) (1%positive : @kernel plain_kernel))
    as (ret & msg & s & E & _ & H2 & _ & H). rewrite (H plain_kernel_memory) in E. exists msg, s. split; [exact E|exact H2].
Defined.

(** C38: the self-test of the trie passes. Whoever the eight peers are and wherever the nodes are
    allocated, [wg_allowedips_selftest] follows no bad pointer and returns true (with the random test
    or without it) unless an allocation fails, and it leaves no route behind. *)
Theorem allowedips_selftest_passes `{K : TestKernel, !TestKernelOk K} (debug_random_trie : bool) (k : kernel) :
  exists ret s, wg_allowedips_selftest debug_random_trie (TS empty_table horrible_allowedips_init k) = Go ret s /\
    routing (trie s) no_routes /\ (memory_available K -> ret = true).
Proof.
  pose proof (selftest_post debug_random_trie (TS empty_table horrible_allowedips_init k) routing_empty) as H.
  unfold post in H. destruct (wg_allowedips_selftest _ _) as [ret s| |]; [|done..]. exists ret, s. tauto.
Qed.

Lemma allowedips_selftest_passes_witness :
  exists s, wg_allowedips_selftest (K := plain_kernel) false
    (TS (K := plain_kernel) empty_table horrible_allowedips_init 1%positive) = Go true s.
Proof.
  destruct (allowedips_selftest_passes (TestKernelOk0 := plain_kernel_ok) false (1%positive : @kernel plain_kernel))
    as (ret & s & E & _ & H). rewrite (H plain_kernel_memory) in E. exists s. exact E.
Defined.

End SelftestProps.
