(* ===== verification/RateLimiter.v ===== *)
(** * RateLimiter: ratelimiter.c, the per-source token buckets of handshake packets

    The static variables of ratelimiter.c are one record; the two hash tables are lists of buckets
    and a bucket is the list of its entries, the newest first. The hash functions of
    linux/siphash.h, the clock and the results of allocations are arguments. Each
    function is given as it runs when no other call runs at the same time; RateLimiterSteps has the
    steps of [wg_ratelimiter_allow] and [wg_ratelimiter_gc_entries] between which others may run. *)

From S2P Require Import Prelude Skb.

Definition PACKETS_PER_SECOND : Z := 20.
Definition PACKETS_BURSTABLE : Z := 5.
Definition PACKET_COST : Z := NSEC_PER_SEC / PACKETS_PER_SECOND.
Definition TOKEN_MAX : Z := PACKET_COST * PACKETS_BURSTABLE.

Record ratelimiter_entry := { last_time_ns : Z; tokens : Z; ip : Z; net : Z }.

Abbreviation hlist_heads := (list (list ratelimiter_entry)).

(** [rcu_pending] counts the entries waiting for [entry_free]; [table_v4], [table_v6] and
    [entry_cache] are allocated between the first init and the last uninit. *)
Record ratelimiter := {
  init_refcnt : Z;
  total_entries : Z;
  max_entries : Z;
  table_size : Z;
  key : Z;
  table_v4 : hlist_heads;
  table_v6 : hlist_heads;
  entry_cache : bool;
  rcu_pending : Z;
  gc_work_queued : bool
}.

Definition set_total (z : Z) (s : ratelimiter) : ratelimiter :=
  {| init_refcnt := init_refcnt s; total_entries := z; max_entries := max_entries s; table_size := table_size s;
     key := key s; table_v4 := table_v4 s; table_v6 := table_v6 s; entry_cache := entry_cache s;
     rcu_pending := rcu_pending s; gc_work_queued := gc_work_queued s |}.
Definition set_tables (v4 v6 : hlist_heads) (s : ratelimiter) : ratelimiter :=
  {| init_refcnt := init_refcnt s; total_entries := total_entries s; max_entries := max_entries s;
     table_size := table_size s; key := key s; table_v4 := v4; table_v6 := v6; entry_cache := entry_cache s;
     rcu_pending := rcu_pending s; gc_work_queued := gc_work_queued s |}.
Definition set_pending (n : Z) (s : ratelimiter) : ratelimiter :=
  {| init_refcnt := init_refcnt s; total_entries := total_entries s; max_entries := max_entries s;
     table_size := table_size s; key := key s; table_v4 := table_v4 s; table_v6 := table_v6 s;
     entry_cache := entry_cache s; rcu_pending := n; gc_work_queued := gc_work_queued s |}.
Definition set_refcnt (n : Z) (s : ratelimiter) : ratelimiter :=
  {| init_refcnt := n; total_entries := total_entries s; max_entries := max_entries s;
     table_size := table_size s; key := key s; table_v4 := table_v4 s; table_v6 := table_v6 s;
     entry_cache := entry_cache s; rcu_pending := rcu_pending s; gc_work_queued := gc_work_queued s |}.
Definition set_gc (b : bool) (s : ratelimiter) : ratelimiter :=
  {| init_refcnt := init_refcnt s; total_entries := total_entries s; max_entries := max_entries s;
     table_size := table_size s; key := key s; table_v4 := table_v4 s; table_v6 := table_v6 s;
     entry_cache := entry_cache s; rcu_pending := rcu_pending s; gc_work_queued := b |}.

(** The table of an IP version, [false] for IPv4. *)
Definition tables (s : ratelimiter) (v6 : bool) : hlist_heads := if v6 then table_v6 s else table_v4 s.
Definition set_table (v6 : bool) (t : hlist_heads) (s : ratelimiter) : ratelimiter :=
  if v6 then set_tables (table_v4 s) t s else set_tables t (table_v6 s) s.

(** ** Garbage collection *)

Definition entry_free (s : ratelimiter) : ratelimiter :=
  set_total (total_entries s - 1) (set_pending (rcu_pending s - 1) s).

(** [rcu_barrier] of the kernel, as the callers here see it: every pending [entry_free] runs. *)
Definition rcu_barrier (s : ratelimiter) : ratelimiter := Nat.iter (Z.to_nat (rcu_pending s)) entry_free s.

(** The condition under which [wg_ratelimiter_gc_entries] unlinks an entry. *)
Definition gc_evicts (work : bool) (now : Z) (e : ratelimiter_entry) : bool :=
  negb work || (NSEC_PER_SEC <? u64 (now - last_time_ns e)).

(** A bucket without its evicted entries, and their number. *)
Definition gc_bucket (work : bool) (now : Z) (b : list ratelimiter_entry) : list ratelimiter_entry :=
  List.filter (fun e => negb (gc_evicts work now e)) b.

Definition entries (t : hlist_heads) : Z := Z.of_nat (length (concat t)).

Definition wg_ratelimiter_gc_entries (work : bool) (now : Z) (s : ratelimiter) : ratelimiter :=
  let v4 := map (gc_bucket work now) (table_v4 s) in
  let v6 := map (gc_bucket work now) (table_v6 s) in
  let evicted := entries (table_v4 s) + entries (table_v6 s) - entries v4 - entries v6 in
  let s := set_pending (rcu_pending s + evicted) (set_tables v4 v6 s) in
  if work then set_gc true s else s.

(** ** The check of a packet *)

Definition matches (net_ ip_ : Z) (e : ratelimiter_entry) : bool := (net e =? net_) && (ip e =? ip_).

(** The critical section of an entry: the verdict and the updated entry. *)
Definition take_token (now : Z) (e : ratelimiter_entry) : bool * ratelimiter_entry :=
  let tk := Z.min TOKEN_MAX (u64 (tokens e + now - last_time_ns e)) in
  let ret := PACKET_COST <=? tk in
  (ret, {| last_time_ns := now; tokens := if ret then tk - PACKET_COST else tk; ip := ip e; net := net e |}).

(** The walk over a bucket: the first entry of the source takes a token. *)
Fixpoint walk_bucket (now net_ ip_ : Z) (b : list ratelimiter_entry) : option (bool * list ratelimiter_entry) :=
  match b with
  | [] => None
  | e :: b =>
      if matches net_ ip_ e then let '(ret, e) := take_token now e in Some (ret, e :: b)
      else '(ret, b) ← walk_bucket now net_ ip_ b; Some (ret, e :: b)
  end.

Section Ratelimiter.
(** The hash functions of linux/siphash.h, with their key. *)
Context (hsiphash_2u32 : Z -> Z -> Z -> Z) (hsiphash_3u32 : Z -> Z -> Z -> Z -> Z).

(** The version, the limited part of the source address and the bucket of a packet. *)
Definition source (skb : sk_buff) : option (bool * Z) :=
  if protocol skb =? ETH_P_IP then Some (false, le_val (take 4 (saddr skb)))
  else if protocol skb =? ETH_P_IPV6 then Some (true, le_val (take 8 (saddr skb)))
  else None.

Definition bucket_of (s : ratelimiter) (v6 : bool) (net_ ip_ : Z) : nat :=
  let net_word := u32 net_ in
  let h := if v6 then hsiphash_3u32 net_word (u32 (Z.shiftr ip_ 32)) (u32 ip_) (key s)
           else hsiphash_2u32 net_word (u32 ip_) (key s) in
  Z.to_nat (Z.land (u32 h) (table_size s - 1)).

(** [alloc]: whether the allocation of an entry succeeds. [None]: there is no such bucket. *)
Definition wg_ratelimiter_allow (skb : sk_buff) (net_ now : Z) (alloc : bool) (s : ratelimiter)
  : option (bool * ratelimiter) :=
  match source skb with
  | None => Some (false, s)
  | Some (v6, ip_) =>
      let i := bucket_of s v6 net_ ip_ in
      bucket ← tables s v6 !! i;
      match walk_bucket now net_ ip_ bucket with
      | Some (ret, bucket) => Some (ret, set_table v6 (<[i := bucket]> (tables s v6)) s)
      | None =>
          let s := set_total (total_entries s + 1) s in
          if max_entries s <? u32 (total_entries s) then Some (false, set_total (total_entries s - 1) s)
          else if negb alloc then Some (false, set_total (total_entries s - 1) s)
          else
            let e := {| last_time_ns := now; tokens := TOKEN_MAX - PACKET_COST; ip := ip_; net := net_ |} in
            Some (true, set_table v6 (<[i := e :: bucket]> (tables s v6)) s)
      end
  end.
End Ratelimiter.

(** ** Initialisation and teardown *)

Definition PAGE_SHIFT : Z := 12.
Definition PAGE_SIZE : Z := 2 ^ PAGE_SHIFT.
Definition roundup_pow_of_two (n : Z) : Z := 2 ^ fls (n - 1).

(** [sizeof(struct hlist_head)] is 8. *)
Definition choose_table_size (totalram_pages : Z) : Z :=
  if Z.shiftl 1 30 / PAGE_SIZE <? totalram_pages then 8192
  else Z.max 16 (roundup_pow_of_two (Z.shiftl totalram_pages PAGE_SHIFT / Z.shiftl 1 14 / 8)).

(** The memory the first init asks for. *)
Record init_memory := { kmem_cache_ok : bool; v4_ok : bool; v6_ok : bool; random_key : Z; totalram : Z }.

Definition wg_ratelimiter_init (m : init_memory) (s : ratelimiter) : Z * ratelimiter :=
  let s := set_refcnt (u64 (init_refcnt s + 1)) s in
  let undo s := set_refcnt (u64 (init_refcnt s - 1)) s in
  if negb (init_refcnt s =? 1) then (0, s)
  else if negb (kmem_cache_ok m) then (- ENOMEM, undo s)
  else
    let size := choose_table_size (totalram m) in
    let s := {| init_refcnt := init_refcnt s; total_entries := total_entries s; max_entries := u32 (size * 8);
                table_size := size; key := key s; table_v4 := table_v4 s; table_v6 := table_v6 s;
                entry_cache := true; rcu_pending := rcu_pending s; gc_work_queued := gc_work_queued s |} in
    let drop_cache s :=
      {| init_refcnt := init_refcnt s; total_entries := total_entries s; max_entries := max_entries s;
         table_size := table_size s; key := key s; table_v4 := []; table_v6 := [];
         entry_cache := false; rcu_pending := rcu_pending s; gc_work_queued := gc_work_queued s |} in
    if negb (v4_ok m) then (- ENOMEM, undo (drop_cache s))
    else if negb (v6_ok m) then (- ENOMEM, undo (drop_cache s))
    else
      (0, {| init_refcnt := init_refcnt s; total_entries := total_entries s; max_entries := max_entries s;
             table_size := table_size s; key := random_key m;
             table_v4 := replicate (Z.to_nat size) []; table_v6 := replicate (Z.to_nat size) [];
             entry_cache := true; rcu_pending := rcu_pending s; gc_work_queued := true |}).

Definition wg_ratelimiter_uninit (now : Z) (s : ratelimiter) : ratelimiter :=
  if init_refcnt s =? 0 then s
  else
    let s := set_refcnt (u64 (init_refcnt s - 1)) s in
    if negb (init_refcnt s =? 0) then s
    else
      let s := wg_ratelimiter_gc_entries false now (set_gc false s) in
      let s := rcu_barrier s in
      {| init_refcnt := init_refcnt s; total_entries := total_entries s; max_entries := max_entries s;
         table_size := table_size s; key := key s; table_v4 := []; table_v6 := [];
         entry_cache := false; rcu_pending := rcu_pending s; gc_work_queued := gc_work_queued s |}.

(** The static variables when the module is loaded. *)
Definition ratelimiter_static : ratelimiter :=
  {| init_refcnt := 0; total_entries := 0; max_entries := 0; table_size := 0; key := 0; table_v4 := [];
     table_v6 := []; entry_cache := false; rcu_pending := 0; gc_work_queued := false |}.

(** ** selftest/ratelimiter.c *)

Section Selftest.
Context (hsiphash_2u32 : Z -> Z -> Z -> Z) (hsiphash_3u32 : Z -> Z -> Z -> Z -> Z).
Abbreviation allow := (wg_ratelimiter_allow hsiphash_2u32 hsiphash_3u32).

Definition MSEC_PER_SEC : Z := 1000.
Definition NSEC_PER_MSEC : Z := 1000000.

(** [expected_results]: the verdict and the sleep before the packet. *)
Definition expected_results : list (bool * Z) :=
  replicate (Z.to_nat PACKETS_BURSTABLE) (true, 0) ++
  [(false, 0); (true, MSEC_PER_SEC / PACKETS_PER_SECOND); (false, 0);
   (true, MSEC_PER_SEC / PACKETS_PER_SECOND * 2); (true, 0); (false, 0)].

Definition skb4 (saddr : Z) : sk_buff :=
  {| protocol := ETH_P_IP; saddr := be_bytes 4 saddr; daddr := zeroes 4; udp_source := []; skb_iif := 0; data := [] |}.
Definition skb6 (w0 w1 w2 w3 : Z) : sk_buff :=
  {| protocol := ETH_P_IPV6; saddr := be_bytes 4 w0 ++ be_bytes 4 w1 ++ be_bytes 4 w2 ++ be_bytes 4 w3;
     daddr := zeroes 16; udp_source := []; skb_iif := 0; data := [] |}.

Definition init_net : Z := 0.

(** A call whose verdict must be the expected one. *)
Definition expect (skb : sk_buff) (now : Z) (want : bool) (s : ratelimiter) : option ratelimiter :=
  '(ret, s) ← allow skb init_net now true s;
  if Bool.eqb ret want then Some s else None.

(** The loop of [timings_test], on a clock that advances by the sleeps only. *)
Fixpoint timings_loop (i now : Z) (rs : list (bool * Z)) (s : ratelimiter) : option ratelimiter :=
  match rs with
  | [] => Some s
  | (result, msec_to_sleep_before) :: rs =>
      let now := now + msec_to_sleep_before * NSEC_PER_MSEC in
      s ← expect (skb4 8182) now result s;
      s ← expect (skb4 (8182 + i + 1)) now true s;
      s ← expect (skb6 1212 289188 i i) now result s;
      s ← expect (skb6 (1212 + i + 1) 289188 i i) now true s;
      timings_loop (i + 1) now rs s
  end.

Definition timings_test (now : Z) (s : ratelimiter) : option ratelimiter :=
  timings_loop 0 now expected_results (rcu_barrier (wg_ratelimiter_gc_entries false now s)).

(** The loop of [capacity_test]. *)
Fixpoint capacity_loop (n : nat) (i now : Z) (s : ratelimiter) : option ratelimiter :=
  match n with
  | O => Some s
  | S n => s ← expect (skb4 i) now (negb (i =? max_entries s)) s; capacity_loop n (i + 1) now s
  end.

Definition capacity_test (now : Z) (s : ratelimiter) : option ratelimiter :=
  let s := rcu_barrier (wg_ratelimiter_gc_entries false now s) in
  if total_entries s =? 0 then capacity_loop (S (Z.to_nat (max_entries s))) 0 now s else None.

(** [wg_ratelimiter_selftest]: three inits, the tests, four uninits. *)
Definition wg_ratelimiter_selftest (m : init_memory) (now : Z) (s : ratelimiter) : option ratelimiter :=
  let '(r1, s) := wg_ratelimiter_init m s in
  let '(r2, s) := wg_ratelimiter_init m s in
  let '(r3, s) := wg_ratelimiter_init m s in
  if (r1 =? 0) && (r2 =? 0) && (r3 =? 0) then
    s ← timings_test now s;
    s ← capacity_test (now + NSEC_PER_SEC) s;
    Some (Nat.iter 4 (wg_ratelimiter_uninit (now + 2 * NSEC_PER_SEC)) s)
  else None.
End Selftest.
