(* ===== verification/RateLimiterProps.v ===== *)
(** * RateLimiterProps: correctness of the handshake rate limiter

    Seen from one source, the hash table, its garbage collection and its capacity limit are a
    single token bucket: over any interval at most a burst plus the refill of the interval is let
    through. The number of entries never exceeds the limit, and teardown frees all of them. *)

From S2P Require Import Prelude Skb RateLimiter.

Abbreviation src := (bool * Z * Z)%type.  (** version, net, limited address *)

Definition find_src (net_ ip_ : Z) (b : list ratelimiter_entry) : option ratelimiter_entry :=
  List.find (matches net_ ip_) b.

(** The tokens a source has at a time. *)
Definition available (o : option ratelimiter_entry) (now : Z) : Z :=
  match o with None => TOKEN_MAX | Some e => Z.min TOKEN_MAX (tokens e + (now - last_time_ns e)) end.

Definition entry_ok (clock : Z) (e : ratelimiter_entry) : Prop :=
  0 <= tokens e <= TOKEN_MAX /\ 0 <= last_time_ns e <= clock.

Definition src_keys (b : list ratelimiter_entry) : list (Z * Z) := map (fun e => (net e, ip e)) b.

(** The state between the first init and the last uninit. *)
Record good (clock : Z) (s : ratelimiter) : Prop := {
  good_size : 0 < table_size s;
  good_length v : length (tables s v) = Z.to_nat (table_size s);
  good_max : 0 <= max_entries s < 2 ^ 32 - 1;
  good_pending : 0 <= rcu_pending s;
  good_total : total_entries s = entries (table_v4 s) + entries (table_v6 s) + rcu_pending s;
  good_limit : total_entries s <= max_entries s;
  good_keys v b : b ∈ tables s v -> NoDup (src_keys b);
  good_entries v b : b ∈ tables s v -> Forall (entry_ok clock) b
}.

Lemma PACKET_COST_val : PACKET_COST = 50000000. Proof. done. Qed.
Lemma TOKEN_MAX_val : TOKEN_MAX = 250000000. Proof. done. Qed.

(** ** Lists of entries *)

Lemma matches_true n i e : matches n i e = true <-> (net e, ip e) = (n, i).
Proof. unfold matches. rewrite andb_true_iff, !Z.eqb_eq. split; [by intros [-> ->]|by intros [= -> ->]]. Qed.

Lemma find_src_none n i b : find_src n i b = None <-> (n, i) ∉ src_keys b.
Proof.
  unfold find_src, src_keys. induction b as [|e b IH]; cbn; [split; [intros _; apply not_elem_of_nil|done]|].
  rewrite elem_of_cons. destruct (matches n i e) eqn:Em.
  - apply matches_true in Em. split; [done|]. intros []. left. done.
  - rewrite IH. assert ((net e, ip e) <> (n, i)) by (rewrite <- matches_true; by destruct (matches n i e)). naive_solver.
Qed.

Lemma find_src_in n i b e : find_src n i b = Some e -> e ∈ b /\ net e = n /\ ip e = i.
Proof.
  intros [Hin Hm]%List.find_some. apply matches_true in Hm as [= -> ->].
  split; [by apply list_elem_of_In|done].
Qed.

(** An eviction of other entries does not change the entry found. *)
Lemma find_src_filter n i f b :
  NoDup (src_keys b) ->
  find_src n i (List.filter f b) = match find_src n i b with Some e => if f e then Some e else None | None => None end.
Proof.
  unfold find_src, src_keys. induction b as [|e b IH]; [done|]. cbn. intros [Hn Hnd]%NoDup_cons.
  destruct (matches n i e) eqn:Em; destruct (f e) eqn:Ef; cbn; rewrite ?Em; [done| |by apply IH|by apply IH].
  apply matches_true in Em. injection Em as <- <-. rewrite IH by done.
  fold (find_src (net e) (ip e) b). fold (src_keys b) in Hn. by apply find_src_none in Hn as ->.
Qed.

Lemma src_keys_filter f b : NoDup (src_keys b) -> NoDup (src_keys (List.filter f b)).
Proof.
  unfold src_keys. induction b as [|e b IH]; [done|]. cbn. intros [Hn Hnd]%NoDup_cons.
  destruct (f e); [|by apply IH]. cbn. apply NoDup_cons. split; [|by apply IH].
  intros Hin. apply Hn. apply list_elem_of_fmap in Hin as (e' & -> & Hin'). apply list_elem_of_fmap.
  exists e'. split; [done|]. apply list_elem_of_In, filter_In in Hin' as [Hin' _]. by apply list_elem_of_In.
Qed.

(** ** Taking a token *)

Lemma take_token_spec clock now e :
  entry_ok clock e -> clock <= now < 2 ^ 63 ->
  let '(ret, e') := take_token now e in
  ret = (PACKET_COST <=? available (Some e) now) /\ entry_ok now e' /\ net e' = net e /\ ip e' = ip e /\
  available (Some e') now = available (Some e) now - (if ret then PACKET_COST else 0).
Proof.
  intros [Ht Hl] Hn. unfold take_token, available. rewrite TOKEN_MAX_val in *.
  rewrite wrap_small by lia. replace (tokens e + now - last_time_ns e) with (tokens e + (now - last_time_ns e)) by lia.
  set (a := Z.min 250000000 (tokens e + (now - last_time_ns e))).
  assert (0 <= a <= 250000000) by lia. unfold entry_ok. rewrite TOKEN_MAX_val.
  destruct (Z.leb_spec PACKET_COST a); cbn [tokens last_time_ns net ip]; rewrite PACKET_COST_val in *;
    split_and!; (done || lia).
Qed.

Lemma walk_bucket_spec clock now n i b :
  Forall (entry_ok clock) b -> clock <= now < 2 ^ 63 ->
  match walk_bucket now n i b with
  | None => find_src n i b = None
  | Some (ret, b') =>
      exists e e', find_src n i b = Some e /\ take_token now e = (ret, e') /\
        find_src n i b' = Some e' /\ (forall n' i', (n', i') <> (n, i) -> find_src n' i' b' = find_src n' i' b) /\
        src_keys b' = src_keys b /\ Forall (entry_ok now) b' /\ length b' = length b
  end.
Proof.
  intros Hb Hn. unfold find_src. induction Hb as [|e b He Hb IH]; cbn [walk_bucket List.find]; [done|].
  destruct (matches n i e) eqn:Em.
  - pose proof (take_token_spec clock now e He Hn) as Ht. destruct (take_token now e) as [ret e'] eqn:Et.
    destruct Ht as (_ & Hok & Hn' & Hi' & _). exists e, e'. split; [done|]. split; [done|].
    assert (Hm : forall n' i', matches n' i' e' = matches n' i' e) by (intros; unfold matches; by rewrite Hn', Hi').
    cbn [List.find]. rewrite Hm, Em. split; [done|]. split.
    + intros n' i' Hne. cbn [List.find]. rewrite Hm. destruct (matches n' i' e) eqn:E2; [|done].
      apply matches_true in E2, Em. congruence.
    + split; [unfold src_keys; cbn; by rewrite Hn', Hi'|]. split; [|done]. constructor; [done|].
      eapply Forall_impl; [exact Hb|]. intros x [? ?]. split; [done|]. lia.
  - destruct (walk_bucket now n i b) as [[ret b']|]; cbn [mbind option_bind]; [|done].
    destruct IH as (e0 & e' & H1 & H2 & H3 & H4 & H5 & H6 & H7). exists e0, e'. split; [done|]. split; [done|].
    cbn [List.find]. rewrite Em. split; [done|]. split.
    + intros n' i' Hne. cbn [List.find]. destruct (matches n' i' e); [done|]. by apply H4.
    + split; [unfold src_keys in *; cbn; by rewrite H5|]. split; [|cbn; by rewrite H7].
      constructor; [|done]. destruct He. split; [done|]. lia.
Qed.

(** ** Tables *)

Lemma tables_set_table v v' t s :
  tables (set_table v t s) v' = if Bool.eqb v v' then t else tables s v'.
Proof. by destruct v, v'. Qed.

Lemma entries_insert t (i : nat) b b' :
  t !! i = Some b -> entries (<[i := b']> t) = entries t - Z.of_nat (length b) + Z.of_nat (length b').
Proof.
  unfold entries. revert i. induction t as [|x t IH]; intros [|i]; simpl; try done.
  - intros [= ->]. rewrite !length_app. lia.
  - intros H. apply IH in H. rewrite !length_app. lia.
Qed.

Lemma entries_gc work now t : 0 <= entries (map (gc_bucket work now) t) <= entries t.
Proof.
  unfold entries. induction t as [|b t IH]; cbn; [lia|]. rewrite !length_app.
  pose proof (List.filter_length_le (fun e => negb (gc_evicts work now e)) b). fold (gc_bucket work now b) in *. lia.
Qed.

(** ** The invariant *)

Section Ratelimit.
Context (hsiphash_2u32 : Z -> Z -> Z -> Z) (hsiphash_3u32 : Z -> Z -> Z -> Z -> Z).
Abbreviation allow := (wg_ratelimiter_allow hsiphash_2u32 hsiphash_3u32).
Abbreviation bucket_index := (bucket_of hsiphash_2u32 hsiphash_3u32).

(** The entry of a source. *)
Definition entry_of (s : ratelimiter) (v : bool) (n i : Z) : option ratelimiter_entry :=
  match tables s v !! bucket_index s v n i with Some b => find_src n i b | None => None end.

Lemma bucket_in_range clock s v n i : good clock s -> exists b, tables s v !! bucket_index s v n i = Some b.
Proof.
  intros G. apply lookup_lt_is_Some_2. rewrite (good_length _ _ G). unfold bucket_of.
  pose proof (good_size _ _ G). set (h := u32 _). assert (0 <= h) by (apply wrap_range; lia).
  pose proof (land_range h (table_size s - 1)). lia.
Qed.

(** Storing a bucket that is as good as the one it replaces. *)
Lemma good_store clock now s v i b b' total :
  good clock s -> clock <= now -> tables s v !! i = Some b -> NoDup (src_keys b') -> Forall (entry_ok now) b' ->
  total = total_entries s + Z.of_nat (length b') - Z.of_nat (length b) -> total <= max_entries s ->
  good now (set_table v (<[i := b']> (tables s v)) (set_total total s)).
Proof.
  intros G Hn Hi Hk He Ht Hm. destruct G as [G1 G2 G3 G4 G5 G6 G7 G8].
  assert (Hold : forall v b, b ∈ tables s v -> Forall (entry_ok now) b).
  { intros v0 b0 Hb0. eapply Forall_impl; [by eapply G8|]. intros e [? ?]. split; [done|lia]. }
  assert (Htab : forall v0 b0, b0 ∈ tables (set_table v (<[i := b']> (tables s v)) (set_total total s)) v0 ->
            b0 = b' \/ b0 ∈ tables s v0).
  { intros v0 b0. rewrite tables_set_table. destruct (Bool.eqb_spec v v0) as [<-|].
    - intros Hin. apply list_elem_of_lookup in Hin as [j Hj]. apply list_lookup_insert_Some in Hj.
      destruct Hj as [(? & ? & ?)|[? Hj]]; [by left|right]. by eapply list_elem_of_lookup_2.
    - intros Hin. right. by destruct v0. }
  split; try (by destruct v).
  - intros v0. rewrite tables_set_table. destruct (Bool.eqb_spec v v0) as [<-|].
    + rewrite length_insert, G2. by destruct v.
    + destruct v, v0; (done || apply (G2 true) || apply (G2 false)).
  - pose proof (entries_insert (tables s v) i b b' Hi) as Hent. destruct v; cbn in *; lia.
  - intros v0 b0 [->|Hin]%Htab; [done|by eapply G7].
  - intros v0 b0 [->|Hin]%Htab; [done|by eapply Hold].
Qed.

(** The entries of the sources after a bucket was stored. *)
Lemma entry_of_store s v n i b b' total v' n' i' :
  tables s v !! bucket_index s v n i = Some b ->
  ((n', i') <> (n, i) -> find_src n' i' b' = find_src n' i' b) ->
  entry_of (set_table v (<[bucket_index s v n i := b']> (tables s v)) (set_total total s)) v' n' i'
  = if decide ((v', n', i') = (v, n, i)) then find_src n i b' else entry_of s v' n' i'.
Proof.
  intros Hb Hoth. unfold entry_of. rewrite tables_set_table.
  assert (Hidx : bucket_index (set_table v (<[bucket_index s v n i := b']> (tables s v)) (set_total total s)) v' n' i'
                 = bucket_index s v' n' i') by (by destruct v). rewrite Hidx.
  case_decide as Hd.
  - simplify_eq. rewrite Bool.eqb_reflx. rewrite list_lookup_insert_eq; [done|]. by eapply lookup_lt_Some.
  - destruct (Bool.eqb_spec v v') as [<-|Hv]; [|by destruct v, v'].
    destruct (decide (bucket_index s v n' i' = bucket_index s v n i)) as [Heq|Hne].
    + rewrite Heq, list_lookup_insert_eq by (by eapply lookup_lt_Some). rewrite Hb. apply Hoth. congruence.
    + by rewrite list_lookup_insert_ne.
Qed.

Lemma good_later clock now s : good clock s -> clock <= now -> good now s.
Proof.
  intros [G1 G2 G3 G4 G5 G6 G7 G8] Hn. split; try done. intros v b Hb.
  eapply Forall_impl; [by eapply G8|]. intros e [? ?]. split; [done|lia].
Qed.

(** A packet of a source was judged: the source has paid for it, or had not enough, or was refused
    for lack of room; the other sources are as before. *)
Definition charged (s s' : ratelimiter) (v : bool) (n i now : Z) (alloc ret : bool) : Prop :=
  (available (entry_of s' v n i) now = available (entry_of s v n i) now - (if ret then PACKET_COST else 0) /\
   (ret = true -> PACKET_COST <= available (entry_of s v n i) now) /\
   (ret = false -> available (entry_of s v n i) now < PACKET_COST \/ max_entries s <= total_entries s \/ alloc = false)) /\
  forall v' n' i', (v', n', i') <> (v, n, i) -> entry_of s' v' n' i' = entry_of s v' n' i'.

(** A source that has an entry. *)
Lemma charge_known clock now s v n i b alloc ret b' :
  good clock s -> clock <= now < 2 ^ 63 -> tables s v !! bucket_index s v n i = Some b ->
  walk_bucket now n i b = Some (ret, b') ->
  let s' := set_table v (<[bucket_index s v n i := b']> (tables s v)) s in good now s' /\ charged s s' v n i now alloc ret.
Proof.
  intros G Hn Hb Ew s'. pose proof (good_entries _ _ G v b ltac:(by eapply list_elem_of_lookup_2)) as Hents.
  pose proof (good_keys _ _ G v b ltac:(by eapply list_elem_of_lookup_2)) as Hkeys. pose proof (good_limit _ _ G) as Hlim.
  assert (Hent : entry_of s v n i = find_src n i b) by (unfold entry_of; by rewrite Hb).
  pose proof (walk_bucket_spec clock now n i b Hents Hn) as Hw. rewrite Ew in Hw.
  destruct Hw as (e & e' & F1 & F2 & F3 & F4 & F5 & F6 & F7).
  assert (Hok : entry_ok clock e).
  { apply find_src_in in F1 as [Hin _]. rewrite Forall_forall in Hents. by apply Hents. }
  pose proof (take_token_spec clock now e Hok Hn) as Ht. rewrite F2 in Ht. destruct Ht as (Hret & _ & _ & _ & Hav).
  assert (Hs : s' = set_table v (<[bucket_index s v n i := b']> (tables s v)) (set_total (total_entries s) s)) by (by destruct s).
  rewrite Hs. split; [eapply good_store; try done; [lia|by rewrite F5|lia]|]. split.
  - rewrite (entry_of_store s v n i b b'), decide_True by (done || by intros; apply F4).
    rewrite Hent, F1, F3, Hav. split; [done|]. subst ret. split; intros H; bool_to_prop; [done|by left].
  - intros v' n' i' Hne. rewrite (entry_of_store s v n i b b') by (done || by intros; apply F4). by rewrite decide_False.
Qed.

(** A source without one gets an entry, and pays from a full bucket. *)
Lemma charge_new clock now s v n i b alloc :
  good clock s -> clock <= now < 2 ^ 63 -> 0 <= now -> tables s v !! bucket_index s v n i = Some b ->
  find_src n i b = None -> total_entries s + 1 <= max_entries s ->
  let e := {| last_time_ns := now; tokens := TOKEN_MAX - PACKET_COST; ip := i; net := n |} in
  let s' := set_table v (<[bucket_index s v n i := e :: b]> (tables s v)) (set_total (total_entries s + 1) s) in
  good now s' /\ charged s s' v n i now alloc true.
Proof.
  intros G Hn Hn0 Hb Hno Hroom e s'. pose proof (good_entries _ _ G v b ltac:(by eapply list_elem_of_lookup_2)) as Hents.
  pose proof (good_keys _ _ G v b ltac:(by eapply list_elem_of_lookup_2)) as Hkeys.
  assert (Hent : entry_of s v n i = find_src n i b) by (unfold entry_of; by rewrite Hb).
  assert (Hm : forall n' i', matches n' i' e = bool_decide ((n', i') = (n, i))).
  { intros n' i'. apply eq_true_iff_eq. rewrite matches_true, bool_decide_eq_true. cbn. naive_solver. }
  assert (Hoth : forall n' i', (n', i') <> (n, i) -> find_src n' i' (e :: b) = find_src n' i' b).
  { intros n' i' Hne. unfold find_src. cbn [List.find]. by rewrite Hm, bool_decide_false. }
  split; [eapply good_store; try done; try lia|split].
  - unfold src_keys in *; cbn. apply NoDup_cons. split; [by apply find_src_none|done].
  - constructor; [split; cbn; rewrite ?TOKEN_MAX_val, ?PACKET_COST_val; lia|].
    eapply Forall_impl; [exact Hents|]. intros e' [? ?]. split; [done|lia].
  - cbn [length]. lia.
  - unfold s'. rewrite (entry_of_store s v n i b (e :: b)), decide_True by (done || by apply Hoth).
    unfold find_src at 1. cbn [List.find]. rewrite Hm, bool_decide_true by done.
    rewrite Hent, Hno. cbn. rewrite TOKEN_MAX_val, PACKET_COST_val. split; [lia|]. split; [lia|done].
  - intros v' n' i' Hne. unfold s'. rewrite (entry_of_store s v n i b (e :: b)) by (done || by apply Hoth). by rewrite decide_False.
Qed.

Lemma allow_source clock now s skb v n i alloc :
  good clock s -> clock <= now < 2 ^ 63 -> 0 <= now -> source skb = Some (v, i) ->
  exists ret s', allow skb n now alloc s = Some (ret, s') /\ good now s' /\ charged s s' v n i now alloc ret.
Proof.
  intros G Hn Hn0 Es. unfold wg_ratelimiter_allow. rewrite Es.
  destruct (bucket_in_range clock s v n i G) as [b Hb]. rewrite Hb. cbn [mbind option_bind].
  pose proof (good_entries _ _ G v b ltac:(by eapply list_elem_of_lookup_2)) as Hents.
  pose proof (good_limit _ _ G) as Hlim. pose proof (good_max _ _ G) as Hmax.
  pose proof (good_total _ _ G) as Htot. pose proof (good_pending _ _ G) as Hpend.
  pose proof (walk_bucket_spec clock now n i b Hents Hn) as Hw.
  destruct (walk_bucket now n i b) as [[ret b']|] eqn:Ew.
  { exists ret. eexists. split; [done|]. by apply (charge_known clock now s v n i b). }
  cbn [total_entries set_total max_entries].
  assert (Hu : u32 (total_entries s + 1) = total_entries s + 1) by (apply wrap_small; unfold entries in Htot; lia).
  rewrite Hu. destruct ((max_entries s <? total_entries s + 1) || negb alloc) eqn:Erej.
  - exists false, s. split; [|split; [by apply (good_later clock); [|lia]|split; [|done]]].
    + replace (set_total (total_entries s + 1 - 1) (set_total (total_entries s + 1) s)) with s
        by (destruct s; unfold set_total; cbn; f_equal; lia).
      apply orb_true_iff in Erej as [-> | ->]; [done|]. by case_if.
    + split; [lia|]. split; [done|]. intros _. apply orb_true_iff in Erej as [E|E]; bool_to_prop; [right; left; lia|auto].
  - apply orb_false_iff in Erej as [E1 E2]. rewrite E1, E2. bool_to_prop. do 2 eexists. split; [done|].
    apply (charge_new clock now s v n i b); (done || lia).
Qed.

(** What a call does to the source of its packet, and to the others. *)
Lemma allow_spec clock now s skb n alloc :
  good clock s -> clock <= now < 2 ^ 63 -> 0 <= now ->
  exists ret s', allow skb n now alloc s = Some (ret, s') /\ good now s' /\
    (source skb = None -> ret = false) /\
    forall v' n' i', 
      (source skb = Some (v', i') /\ n' = n ->
         available (entry_of s' v' n' i') now
           = available (entry_of s v' n' i') now - (if ret then PACKET_COST else 0) /\
         (ret = true -> PACKET_COST <= available (entry_of s v' n' i') now) /\
         (ret = false -> available (entry_of s v' n' i') now < PACKET_COST \/ max_entries s <= total_entries s \/ alloc = false)) /\
      (~ (source skb = Some (v', i') /\ n' = n) -> entry_of s' v' n' i' = entry_of s v' n' i').
Proof.
  intros G Hn Hn0. destruct (source skb) as [[v i]|] eqn:Es.
  - destruct (allow_source clock now s skb v n i alloc G Hn Hn0 Es) as (ret & s' & E & G' & Hch & Hoth).
    exists ret, s'. split_and!; [done..|]. intros v' n' i'. split; [by intros [[= <- <-] ->]|].
    intros Hne. apply Hoth. naive_solver.
  - unfold wg_ratelimiter_allow. rewrite Es. exists false, s. split; [done|]. split; [by apply (good_later clock); [|lia]|].
    split; [done|]. intros v' n' i'. split; [by intros [? _]|done].
Qed.

(** Garbage collection is invisible: an entry it evicts had a full bucket. *)
Lemma gc_spec clock now s :
  good clock s -> clock <= now < 2 ^ 63 ->
  let s' := wg_ratelimiter_gc_entries true now s in
  good now s' /\ forall v n i, available (entry_of s' v n i) now = available (entry_of s v n i) now.
Proof.
  intros G Hn s'. destruct G as [G1 G2 G3 G4 G5 G6 G7 G8].
  assert (Htab : forall v, tables s' v = map (gc_bucket true now) (tables s v)) by (by intros []).
  assert (Hmap : forall v b, b ∈ tables s' v -> exists b0, b = gc_bucket true now b0 /\ b0 ∈ tables s v).
  { intros v b. rewrite Htab, list_elem_of_fmap. done. }
  split.
  - split; try done.
    + intros v. rewrite Htab, length_map. apply G2.
    + cbn. pose proof (entries_gc true now (table_v4 s)). pose proof (entries_gc true now (table_v6 s)). lia.
    + cbn. lia.
    + intros v b (b0 & -> & Hb0)%Hmap. apply src_keys_filter. by eapply G7.
    + intros v b (b0 & -> & Hb0)%Hmap. apply G8 in Hb0. rewrite Forall_forall in *. intros e He.
      apply list_elem_of_In, filter_In in He as [He _]. apply list_elem_of_In, Hb0 in He as [? ?]. split; [done|lia].
  - intros v n i. unfold entry_of. rewrite Htab.
    change (bucket_index s' v n i) with (bucket_index s v n i). rewrite list_lookup_fmap.
    destruct (tables s v !! bucket_index s v n i) as [b|] eqn:Eb; [|done]. cbn.
    apply list_elem_of_lookup_2 in Eb. unfold gc_bucket. rewrite find_src_filter by (by eapply G7).
    destruct (find_src n i b) as [e|] eqn:Ef; [|done].
    apply find_src_in in Ef as [Hin _]. apply G8 in Eb. rewrite Forall_forall in Eb. destruct (Eb e Hin) as [Ht Hl].
    unfold gc_evicts. cbn [negb orb]. rewrite wrap_small by lia.
    destruct (Z.ltb_spec NSEC_PER_SEC (now - last_time_ns e)) as [Hlt|]; [|done]. cbn.
    rewrite TOKEN_MAX_val. lia.
Qed.

(** Tokens refill with time. *)
Lemma available_later o t t' : t <= t' -> available o t <= available o t' <= available o t + (t' - t).
Proof. intros. unfold available. destruct o; [|lia]. lia. Qed.

Lemma available_max o t : available o t <= TOKEN_MAX.
Proof. unfold available. destruct o; lia. Qed.

Lemma available_nonneg clock s v n i t : good clock s -> clock <= t -> 0 <= available (entry_of s v n i) t.
Proof.
  intros G Ht. unfold entry_of. destruct (tables s v !! _) as [b|] eqn:Eb; [|cbn; rewrite TOKEN_MAX_val; lia].
  destruct (find_src n i b) as [e|] eqn:Ef; cbn; rewrite TOKEN_MAX_val; [|lia].
  apply find_src_in in Ef as [Hin _]. apply list_elem_of_lookup_2, (good_entries _ _ G) in Eb.
  rewrite Forall_forall in Eb. destruct (Eb e Hin). lia.
Qed.

(** ** Histories *)

(** What happens to the limiter while it is initialised, with the time it happens. *)
Inductive event := Packet (skb : sk_buff) (net_ : Z) (alloc : bool) | Gc | Grace.

Definition step (now : Z) (ev : event) (s : ratelimiter) : option (bool * ratelimiter) :=
  match ev with
  | Packet skb n alloc => allow skb n now alloc s
  | Gc => Some (false, wg_ratelimiter_gc_entries true now s)
  | Grace => Some (false, rcu_barrier s)
  end.

Definition is_from (ev : event) (v : bool) (n i : Z) : bool :=
  match ev with
  | Packet skb n' _ => bool_decide (source skb = Some (v, i) /\ n = n')
  | _ => false
  end.

(** The number of packets of a source let through. *)
Fixpoint accepted (v : bool) (n i : Z) (evs : list (Z * event)) (s : ratelimiter) : option (Z * ratelimiter) :=
  match evs with
  | [] => Some (0, s)
  | (now, ev) :: evs =>
      '(ret, s) ← step now ev s;
      '(k, s) ← accepted v n i evs s;
      Some ((if ret && is_from ev v n i then k + 1 else k), s)
  end.

(** The clock never goes back. *)
Fixpoint timed (clock last : Z) (evs : list (Z * event)) : Prop :=
  match evs with
  | [] => clock <= last < 2 ^ 63
  | (now, _) :: evs => clock <= now /\ timed now last evs
  end.

Lemma timed_le clock last evs : timed clock last evs -> clock <= last < 2 ^ 63.
Proof. revert clock. induction evs as [|[now ev] evs IH]; intros clock; cbn; [done|]. intros [? ?%IH]. lia. Qed.

Lemma barrier_spec s :
  0 <= rcu_pending s ->
  rcu_barrier s = set_total (total_entries s - rcu_pending s) (set_pending 0 s).
Proof.
  intros Hp. unfold rcu_barrier.
  assert (H : forall k s, Nat.iter k entry_free s = set_total (total_entries s - Z.of_nat k) (set_pending (rcu_pending s - Z.of_nat k) s)).
  { clear. intros k s. induction k as [|k IH].
    - destruct s; unfold set_total, set_pending; cbn. f_equal; lia.
    - change (Nat.iter (S k) entry_free s) with (entry_free (Nat.iter k entry_free s)).
      rewrite IH. unfold entry_free, set_total, set_pending. cbn. f_equal; lia. }
  rewrite H, Z2Nat.id by done. by rewrite Z.sub_diag.
Qed.

Lemma grace_good clock now s : good clock s -> clock <= now -> good now (rcu_barrier s).
Proof.
  intros [G1 G2 G3 G4 G5 G6 G7 G8] Hn. rewrite barrier_spec by done. split; try done; cbn; try lia.
  intros v b Hb. eapply Forall_impl; [by eapply G8|]. intros e [? ?]. split; [done|lia].
Qed.

(** The token bucket of a source never promises more than it holds. *)
Lemma accepted_spec v n i evs clock last s :
  good clock s -> 0 <= clock -> timed clock last evs ->
  exists k s', accepted v n i evs s = Some (k, s') /\ good last s' /\ 0 <= k /\
    k * PACKET_COST + available (entry_of s' v n i) last
      <= available (entry_of s v n i) clock + (last - clock).
Proof.
  revert clock s. induction evs as [|[now ev] evs IH]; intros clock s G Hc0 Ht; cbn [accepted timed] in *.
  - exists 0, s. split; [done|]. pose proof (available_later (entry_of s v n i) clock last).
    split; [|split; [done|lia]].
    destruct G as [G1 G2 G3 G4 G5 G6 G7 G8]. split; try done. intros v0 b0 Hb0.
    eapply Forall_impl; [by eapply G8|]. intros e [? ?]. split; [done|lia].
  - destruct Ht as [Hc Ht]. pose proof (timed_le _ _ _ Ht) as Hlast.
    assert (Hstep : exists ret s1, step now ev s = Some (ret, s1) /\ good now s1 /\
      available (entry_of s1 v n i) now + (if ret && is_from ev v n i then PACKET_COST else 0)
        <= available (entry_of s v n i) now).
    { destruct ev as [skb n' alloc| |]; cbn [step is_from].
      - destruct (allow_spec clock now s skb n' alloc G ltac:(lia) ltac:(lia)) as (ret & s1 & E & G1 & _ & Hs).
        exists ret, s1. split; [done|]. split; [done|]. destruct (Hs v n i) as [Hin Hout].
        case_bool_decide as Hd.
        + destruct (Hin Hd) as [-> _]. destruct ret; cbn; lia.
        + rewrite Hout by done. rewrite andb_false_r. lia.
      - destruct (gc_spec clock now s G ltac:(lia)) as [G1 Hav]. do 2 eexists. split; [done|]. split; [done|].
        rewrite Hav. cbn. lia.
      - do 2 eexists. split; [done|]. split; [by eapply grace_good|]. 
        assert (entry_of (rcu_barrier s) v n i = entry_of s v n i) as -> by (rewrite barrier_spec by apply G; by destruct v).
        cbn. lia. }
    destruct Hstep as (ret & s1 & E1 & G1 & Hav). rewrite E1. cbn [mbind option_bind].
    destruct (IH now s1 G1 ltac:(lia) Ht) as (k & s2 & E2 & G2 & Hk & Hacc). rewrite E2. cbn [mbind option_bind].
    do 2 eexists. split; [done|]. split; [done|]. pose proof (available_later (entry_of s v n i) clock now Hc).
    destruct (ret && is_from ev v n i); rewrite PACKET_COST_val in *; lia.
Qed.

Lemma step_refcnt now ev s ret s' : step now ev s = Some (ret, s') -> init_refcnt s' = init_refcnt s.
Proof.
  destruct ev as [skb n alloc| |]; cbn [step].
  - unfold wg_ratelimiter_allow. destruct (source skb) as [[v i]|]; [|by intros [= <- <-]].
    destruct (tables s v !! _); cbn [mbind option_bind]; [|done].
    destruct (walk_bucket now n i l) as [[??]|]; [intros [= <- <-]; by destruct v|].
    repeat case_if; intros [= <- <-]; (done || by destruct v).
  - by intros [= <- <-].
  - intros [= <- <-]. unfold rcu_barrier. generalize (Z.to_nat (rcu_pending s)). intros k. by induction k.
Qed.

Lemma accepted_refcnt v n i evs s k s' : accepted v n i evs s = Some (k, s') -> init_refcnt s' = init_refcnt s.
Proof.
  revert s k s'. induction evs as [|[now ev] evs IH]; intros s k s'; cbn [accepted]; [by intros [= <- <-]|].
  destruct (step now ev s) as [[ret s1]|] eqn:E1; cbn [mbind option_bind]; [|done].
  destruct (accepted v n i evs s1) as [[k2 s2]|] eqn:E2; cbn [mbind option_bind]; [|done].
  intros [= <- <-]. apply IH in E2. apply step_refcnt in E1. congruence.
Qed.
End Ratelimit.

(** ** Initialisation and teardown *)

Lemma choose_table_size_bounds ram : 0 <= ram -> 16 <= choose_table_size ram <= 8192.
Proof.
  intros Hr. unfold choose_table_size. change (Z.shiftl 1 30 / PAGE_SIZE) with 262144.
  destruct (Z.ltb_spec 262144 ram); [lia|].
  rewrite Z.shiftl_mul_pow2 by done. change (2 ^ PAGE_SHIFT) with 4096. change (Z.shiftl 1 14) with 16384.
  assert (0 <= ram * 4096 / 16384 / 8 <= 8192) as Hx.
  { split; [repeat apply Z.div_pos; lia|]. apply Z.div_le_upper_bound; [lia|]. apply Z.div_le_upper_bound; lia. }
  set (x := ram * 4096 / 16384 / 8) in *. unfold roundup_pow_of_two.
  assert (0 <= fls (x - 1) <= 13).
  { destruct (Z.eq_dec x 0) as [->|]; [done|]. split; [apply fls_range; lia|]. apply fls_le; [lia..|].
    change (2 ^ 13) with 8192. lia. }
  pose proof (Z.pow_le_mono_r 2 (fls (x - 1)) 13). change (2 ^ 13) with 8192 in *. lia.
Qed.

Lemma entries_replicate n : entries (replicate n []) = 0.
Proof. unfold entries. induction n as [|n IH]; cbn; [done|]. lia. Qed.

(** A first, successful init gives a good state. *)
Lemma init_good m s :
  init_refcnt s = 0 -> total_entries s = 0 -> rcu_pending s = 0 -> 0 <= totalram m ->
  kmem_cache_ok m = true -> v4_ok m = true -> v6_ok m = true ->
  exists s', wg_ratelimiter_init m s = (0, s') /\ good 0 s' /\ init_refcnt s' = 1.
Proof.
  intros H0 Ht Hp Hr Hk H4 H6. unfold wg_ratelimiter_init. cbn [init_refcnt set_refcnt]. rewrite H0, Hk, H4, H6.
  cbn [negb]. change (u64 (0 + 1) =? 1) with true. cbn [negb]. eexists. split; [done|].
  pose proof (choose_table_size_bounds (totalram m) Hr) as Hb. set (sz := choose_table_size (totalram m)) in *.
  assert (Hu : u32 (sz * 8) = sz * 8) by (apply wrap_small; lia).
  assert (Hnil : forall (v : bool) b, b ∈ (if v then replicate (Z.to_nat sz) [] else replicate (Z.to_nat sz) []) ->
     b = @nil ratelimiter_entry).
  { intros v b Hb0. destruct v; by apply elem_of_replicate in Hb0 as [-> _]. }
  split; [|done]. split; cbn; rewrite ?Ht, ?Hp, ?entries_replicate, ?Hu; try lia.
  - intros v. destruct v; apply length_replicate.
  - intros v b Hb0%Hnil. subst b. constructor.
  - intros v b Hb0%Hnil. subst b. constructor.
Qed.

Lemma gc_all now t : entries (map (gc_bucket false now) t) = 0.
Proof.
  unfold entries. induction t as [|b t IH]; [done|]. cbn. rewrite length_app.
  assert (gc_bucket false now b = []) as ->.
  { unfold gc_bucket, gc_evicts. cbn. induction b; cbn; done. }
  cbn. lia.
Qed.

(** ** The properties *)

(** When calls, collections and grace periods do not overlap, the packets of one source that are let
    through number at most five plus one per 50 ms elapsed. RateLimiterRate has the bound for calls
    that do. *)
Theorem ratelimiter_rate_bound_alone h2 h3 v n i evs clock last s :
  good clock s -> 0 <= clock -> timed clock last evs ->
  exists k s', accepted h2 h3 v n i evs s = Some (k, s') /\
    k * PACKET_COST <= PACKETS_BURSTABLE * PACKET_COST + (last - clock).
Proof.
  intros G Hc Ht. destruct (accepted_spec h2 h3 v n i evs clock last s G Hc Ht) as (k & s' & E & G' & Hk & Hb).
  exists k, s'. split; [done|]. pose proof (available_max (entry_of h2 h3 s v n i) clock).
  pose proof (available_nonneg h2 h3 last s' v n i last G' ltac:(lia)).
  rewrite TOKEN_MAX_val, PACKET_COST_val in *. unfold PACKETS_BURSTABLE. lia.
Qed.

Definition ex_memory : init_memory :=
  {| kmem_cache_ok := true; v4_ok := true; v6_ok := true; random_key := 7; totalram := 100 |}.
Definition ex_limiter : ratelimiter := snd (wg_ratelimiter_init ex_memory ratelimiter_static).
Definition ex_h2 (a b k : Z) : Z := a + b + k.
Definition ex_h3 (a b c k : Z) : Z := a + b + c + k.

Lemma ex_limiter_good : good 0 ex_limiter.
Proof.
  destruct (init_good ex_memory ratelimiter_static) as (s' & E & G & _); try done. unfold ex_limiter. by rewrite E.
Qed.

(** C31: a packet of a known protocol is let through exactly when its source has a whole packet's
    worth of tokens left (a source without an entry has all of them), as long as the table is not
    full and the allocation of an entry does not fail. *)
Theorem ratelimiter_allows_iff_token h2 h3 clock now s skb n v i :
  good clock s -> clock <= now < 2 ^ 63 -> 0 <= now -> source skb = Some (v, i) -> total_entries s < max_entries s ->
  exists ret s', wg_ratelimiter_allow h2 h3 skb n now true s = Some (ret, s') /\ good now s' /\
    (ret = true <-> PACKET_COST <= available (entry_of h2 h3 s v n i) now).
Proof.
  intros G Hn H0 Hs Hroom. destruct (allow_spec h2 h3 clock now s skb n true G Hn H0) as (ret & s' & E & G' & _ & Hall).
  exists ret, s'. split; [done|]. split; [done|]. destruct (Hall v n i) as [Hin _].
  destruct (Hin (conj Hs eq_refl)) as (_ & Ht & Hf). split; [done|]. intros Hav. destruct ret; [done|].
  destruct (Hf eq_refl) as [?|[?|?]]; [lia|lia|done].
Qed.

Lemma ratelimiter_allows_iff_token_witness :
  exists ret s', wg_ratelimiter_allow ex_h2 ex_h3 (skb4 8182) 0 5 true ex_limiter = Some (ret, s') /\ ret = true.
Proof.
  destruct (ratelimiter_allows_iff_token ex_h2 ex_h3 0 5 ex_limiter (skb4 8182) 0 false (le_val (take 4 (be_bytes 4 8182))))
    as (ret & s' & E & _ & Hr); [apply ex_limiter_good|lia|lia|done|vm_compute; done|].
  exists ret, s'. split; [done|]. apply Hr. vm_compute. discriminate.
Defined.

(** C39: the counter of entries is exact and bounded in every state reached (no leak, never more
    than [max_entries]), and when the last user calls uninit every entry and both tables are
    freed; a further uninit does nothing. *)
Theorem ratelimiter_teardown_frees_all h2 h3 v n i evs m last :
  kmem_cache_ok m = true -> v4_ok m = true -> v6_ok m = true -> 0 <= totalram m -> timed 0 last evs ->
  exists s1 k s2, wg_ratelimiter_init m ratelimiter_static = (0, s1) /\
    accepted h2 h3 v n i evs s1 = Some (k, s2) /\ good last s2 /\
    let s3 := wg_ratelimiter_uninit last s2 in
    init_refcnt s3 = 0 /\ total_entries s3 = 0 /\ rcu_pending s3 = 0 /\ table_v4 s3 = [] /\ table_v6 s3 = [] /\
    entry_cache s3 = false /\ gc_work_queued s3 = false /\ wg_ratelimiter_uninit last s3 = s3.
Proof.
  intros Hk H4 H6 Hr Ht. destruct (init_good m ratelimiter_static) as (s1 & E1 & G1 & Hrc); try done.
  destruct (accepted_spec h2 h3 v n i evs 0 last s1 G1 ltac:(lia) Ht) as (k & s2 & E2 & G2 & _).
  exists s1, k, s2. split; [done|]. split; [done|]. split; [done|].
  assert (Hrc2 : init_refcnt s2 = 1) by (rewrite <- Hrc; by eapply accepted_refcnt).
  pose proof (good_total _ _ G2) as Htot. pose proof (good_pending _ _ G2) as Hpend.
  pose proof (entries_gc false last (table_v4 s2)) as L4. pose proof (entries_gc false last (table_v6 s2)) as L6.
  pose proof (gc_all last (table_v4 s2)) as Z4. pose proof (gc_all last (table_v6 s2)) as Z6.
  assert (Hs3 : wg_ratelimiter_uninit last s2 =
    {| init_refcnt := 0; total_entries := 0; max_entries := max_entries s2; table_size := table_size s2; key := key s2;
       table_v4 := []; table_v6 := []; entry_cache := false; rcu_pending := 0; gc_work_queued := false |}).
  { unfold wg_ratelimiter_uninit. rewrite Hrc2. cbn [Z.eqb Pos.eqb init_refcnt set_refcnt].
    change (u64 (1 - 1) =? 0) with true. cbn [negb]. rewrite barrier_spec by (cbn; lia).
    cbn. f_equal. lia. }
  cbv zeta. rewrite Hs3. done.
Qed.

Lemma ratelimiter_teardown_frees_all_witness :
  exists s1 k s2, wg_ratelimiter_init ex_memory ratelimiter_static = (0, s1) /\
    accepted ex_h2 ex_h3 false 0 0 [(3, Packet (skb4 1) 0 true); (4, Packet (skb4 2) 0 true)] s1 = Some (k, s2) /\
    total_entries (wg_ratelimiter_uninit 9 s2) = 0.
Proof.
  destruct (ratelimiter_teardown_frees_all ex_h2 ex_h3 false 0 0
    [(3, Packet (skb4 1) 0 true); (4, Packet (skb4 2) 0 true)] ex_memory 9) as (s1 & k & s2 & E1 & E2 & _ & _ & Ht & _);
    [done..|cbn; lia|]. by exists s1, k, s2.
Defined.

(** The self-test of the module passes: its timings test and its capacity test see the expected
    verdicts, and after the inits have been undone nothing is left allocated. *)
Theorem ratelimiter_selftest_passes :
  exists s, wg_ratelimiter_selftest ex_h2 ex_h3 ex_memory 1000 ratelimiter_static = Some s /\
    init_refcnt s = 0 /\ total_entries s = 0 /\ rcu_pending s = 0.
Proof. eexists. split; [vm_compute; reflexivity|]. done. Qed.
