(* ===== verification/RateLimiterSteps.v ===== *)
(** * RateLimiterSteps: ratelimiter.c as its workers and its garbage collector interleave

    RateLimiter.v gives each call as it runs alone. Here any number of workers may be between two of
    the steps of [wg_ratelimiter_allow] and the garbage collection between two of its own: a bucket
    is a chain of entries linked by pointers, a walk over it holds one pointer at a time and no lock,
    an entry that was unlinked keeps its pointer and lives until the readers of that time have left
    ([rcu_read_unlock]), the collector samples its clock once and takes [table_lock] bucket by bucket.
    Entries are named by numbers that are never used again. *)

From S2P Require Import Prelude Skb RateLimiter RateLimiterProps.

(** ** The system *)

(** An entry with [hash.next]. For the proofs only: the table it is linked into and the worker that
    linked it. *)
Record node := { ent : ratelimiter_entry; next : option nat; n_v6 : bool; n_by : nat }.

Definition set_ent (e : ratelimiter_entry) (nd : node) : node :=
  {| ent := e; next := next nd; n_v6 := n_v6 nd; n_by := n_by nd |}.
Definition set_next (o : option nat) (nd : node) : node :=
  {| ent := ent nd; next := o; n_v6 := n_v6 nd; n_by := n_by nd |}.

(** Where a call of [wg_ratelimiter_allow] is. *)
Inductive pc :=
| Walking (cur : option nat)            (** inside [rcu_read_lock], about to look at [cur] *)
| Found (id : nat)                      (** inside [rcu_read_lock], about to lock the entry *)
| Missed                                (** after [rcu_read_unlock], before [atomic_inc_return] *)
| Reserved                              (** counted, before [kmem_cache_alloc] *)
| Filled (e : ratelimiter_entry)        (** with a new entry, before [table_lock] *)
| Failing.                              (** at [err_oom] *)

(** Where [wg_ratelimiter_gc_entries] is; [now] is the time it has sampled. *)
Inductive gc_pc :=
| GcIdle
| GcBetween (now : Z) (i : nat)                                     (** before bucket [i], no lock *)
| GcIn (now : Z) (i : nat) (v6 : bool) (cur : option nat)           (** in [table_lock], at [cur] *)
| GcUnlink (now : Z) (i : nat) (v6 : bool) (id : nat) (temp : option nat).  (** about to unlink [id] *)

(** [heads]: the buckets that are not empty. [dying]: the unlinked entries, each with the readers its
    [call_rcu] waits for. *)
Record sys := {
  clock : Z;
  heads : gmap (bool * nat) nat;
  heap : gmap nat node;
  dying : gmap nat (gset nat);
  fresh : nat;
  total : Z;
  calls : gmap nat (src * pc);
  gc : gc_pc
}.

Definition set_clock (z : Z) (s : sys) : sys :=
  {| clock := z; heads := heads s; heap := heap s; dying := dying s; fresh := fresh s; total := total s;
     calls := calls s; gc := gc s |}.
Definition set_heap (m : gmap nat node) (s : sys) : sys :=
  {| clock := clock s; heads := heads s; heap := m; dying := dying s; fresh := fresh s; total := total s;
     calls := calls s; gc := gc s |}.
Definition set_sys_total (z : Z) (s : sys) : sys :=
  {| clock := clock s; heads := heads s; heap := heap s; dying := dying s; fresh := fresh s; total := z;
     calls := calls s; gc := gc s |}.
Definition set_sys_gc (g : gc_pc) (s : sys) : sys :=
  {| clock := clock s; heads := heads s; heap := heap s; dying := dying s; fresh := fresh s; total := total s;
     calls := calls s; gc := g |}.
Definition set_pc (c : nat) (sr : src) (p : pc) (s : sys) : sys :=
  {| clock := clock s; heads := heads s; heap := heap s; dying := dying s; fresh := fresh s; total := total s;
     calls := <[c := (sr, p)]> (calls s); gc := gc s |}.
Definition end_call (c : nat) (s : sys) : sys :=
  {| clock := clock s; heads := heads s; heap := heap s; dying := dying s; fresh := fresh s; total := total s;
     calls := delete c (calls s); gc := gc s |}.

(** [rcu_read_unlock]: no grace period waits for this reader any more. *)
Definition read_unlock (c : nat) (s : sys) : sys :=
  {| clock := clock s; heads := heads s; heap := heap s; dying := (fun W => W ∖ {[c]}) <$> dying s;
     fresh := fresh s; total := total s; calls := calls s; gc := gc s |}.

Definition reading (p : pc) : bool := match p with Walking _ | Found _ => true | _ => false end.
Definition readers (s : sys) : gset nat := dom (filter (fun kv => reading kv.2.2 = true) (calls s)).

(** [hlist_del_rcu] and [call_rcu]: the pointer that leads to the entry, the head of the bucket or the
    [next] of a linked entry, is set to its successor; the entry keeps its own. *)
Definition entry_unlink (b : bool * nat) (id : nat) (nd : node) (s : sys) : sys :=
  {| clock := clock s;
     heads := if bool_decide (heads s !! b = Some id)
              then match next nd with Some y => <[b := y]> (heads s) | None => delete b (heads s) end
              else heads s;
     heap := map_imap (fun j m => Some (if bool_decide (next m = Some id /\ dying s !! j = None)
                                        then set_next (next nd) m else m)) (heap s);
     dying := <[id := readers s]> (dying s);
     fresh := fresh s; total := total s; calls := calls s; gc := gc s |}.

(** [hlist_add_head_rcu] *)
Definition entry_link (b : bool * nat) (e : ratelimiter_entry) (v6 : bool) (c : nat) (s : sys) : sys :=
  {| clock := clock s; heads := <[b := fresh s]> (heads s);
     heap := <[fresh s := {| ent := e; next := heads s !! b; n_v6 := v6; n_by := c |}]> (heap s);
     dying := dying s; fresh := S (fresh s); total := total s; calls := calls s; gc := gc s |}.

(** What a step shows: a packet of a source is let through or not, an entry of a source is unlinked. *)
Inductive event := Passed (sr : src) | Refused (sr : src) | Evicted (sr : src) | Silent.

(** A step: time passes, a worker begins a call, a worker takes the next step of its call ([alloc]: the
    result of its allocation), the collector takes its next step, [entry_free] runs. *)
Inductive action := Tick (d : Z) | Begin (c : nat) (sr : src) | Call (c : nat) (alloc : bool) | Gc | Free (id : nat).

Definition gc_locked (s : sys) : bool :=
  match gc s with GcIn _ _ _ _ | GcUnlink _ _ _ _ _ => true | _ => false end.

Section Steps.
Context (hsiphash_2u32 : Z -> Z -> Z -> Z) (hsiphash_3u32 : Z -> Z -> Z -> Z -> Z).
(** The variables that stay as the first init has set them. *)
Context (rl : ratelimiter).
(** The number of workers. *)
Context (workers : nat).

Definition bucket (sr : src) : bool * nat :=
  let '(v6, n, i) := sr in (v6, bucket_of hsiphash_2u32 hsiphash_3u32 rl v6 n i).

Definition begin_call (c : nat) (sr : src) (s : sys) : option (event * sys) :=
  if bool_decide (c < workers)%nat && bool_decide (calls s !! c = None)
  then Some (Silent, set_pc c sr (Walking (heads s !! bucket sr)) s) else None.

(** The next step of a call. *)
Definition allow_step (c : nat) (alloc : bool) (s : sys) : option (event * sys) :=
  '(sr, p) ← calls s !! c;
  let '(v6, n, i) := sr in
  match p with
  | Walking None => Some (Silent, set_pc c sr Missed (read_unlock c s))
  | Walking (Some id) =>
      nd ← heap s !! id;
      Some (Silent, set_pc c sr (if matches n i (ent nd) then Found id else Walking (next nd)) s)
  | Found id =>
      nd ← heap s !! id;
      let '(ret, e) := take_token (clock s) (ent nd) in
      let s := set_heap (<[id := set_ent e nd]> (heap s)) s in
      Some (if ret then Passed sr else Refused sr, end_call c (read_unlock c s))
  | Missed =>
      let s := set_sys_total (total s + 1) s in
      Some (Silent, set_pc c sr (if max_entries rl <? u32 (total s) then Failing else Reserved) s)
  | Reserved =>
      let e := {| last_time_ns := clock s; tokens := TOKEN_MAX - PACKET_COST; ip := i; net := n |} in
      Some (Silent, set_pc c sr (if alloc then Filled e else Failing) s)
  | Filled e =>
      if gc_locked s then None else Some (Passed sr, end_call c (entry_link (bucket sr) e v6 c s))
  | Failing => Some (Refused sr, end_call c (set_sys_total (total s - 1) s))
  end.

(** The next step of [wg_ratelimiter_gc_entries]; its work item queues itself again. *)
Definition gc_step (s : sys) : option (event * sys) :=
  match gc s with
  | GcIdle => Some (Silent, set_sys_gc (GcBetween (clock s) 0) s)
  | GcBetween now i =>
      if Z.of_nat i <? table_size rl then Some (Silent, set_sys_gc (GcIn now i false (heads s !! (false, i))) s)
      else Some (Silent, set_sys_gc GcIdle s)
  | GcIn now i v6 None =>
      Some (Silent, set_sys_gc (if v6 then GcBetween now (S i) else GcIn now i true (heads s !! (true, i))) s)
  | GcIn now i v6 (Some id) =>
      nd ← heap s !! id;
      Some (Silent, set_sys_gc (if gc_evicts true now (ent nd) then GcUnlink now i v6 id (next nd)
                                else GcIn now i v6 (next nd)) s)
  | GcUnlink now i v6 id temp =>
      nd ← heap s !! id;
      Some (Evicted (v6, net (ent nd), ip (ent nd)), set_sys_gc (GcIn now i v6 temp) (entry_unlink (v6, i) id nd s))
  end.

(** [entry_free], once no reader is left that could hold the entry. *)
Definition free_step (id : nat) (s : sys) : option (event * sys) :=
  if bool_decide (dying s !! id = Some ∅) then
    Some (Silent, {| clock := clock s; heads := heads s; heap := delete id (heap s); dying := delete id (dying s);
                     fresh := fresh s; total := total s - 1; calls := calls s; gc := gc s |})
  else None.

Definition exec (a : action) (s : sys) : option (event * sys) :=
  match a with
  | Tick d => if 0 <=? d then Some (Silent, set_clock (clock s + d) s) else None
  | Begin c sr => begin_call c sr s
  | Call c alloc => allow_step c alloc s
  | Gc => gc_step s
  | Free id => free_step id s
  end.

Fixpoint run (acts : list action) (s : sys) : option (list event * sys) :=
  match acts with
  | [] => Some ([], s)
  | a :: acts => '(e, s) ← exec a s; '(es, s) ← run acts s; Some (e :: es, s)
  end.

(** The system when the tables have been allocated. *)
Definition initial (now : Z) : sys :=
  {| clock := now; heads := ∅; heap := ∅; dying := ∅; fresh := 0; total := 0; calls := ∅; gc := GcIdle |}.
End Steps.

(** ** Chains of pointers *)

Abbreviation links := (gmap nat (option nat)).

Fixpoint chain (N : links) (o : option nat) (l : list nat) : Prop :=
  match l with
  | [] => o = None
  | x :: l => o = Some x /\ exists o', N !! x = Some o' /\ chain N o' l
  end.

Lemma filter_absent (x : nat) (l : list nat) : x ∉ l -> filter (fun y => y <> x) l = l.
Proof.
  induction l as [|y l IH]; [done|]. intros [Hy Hl]%not_elem_of_cons.
  rewrite filter_cons_True by congruence. by rewrite IH.
Qed.

Lemma length_filter_present (x : nat) (l : list nat) :
  NoDup l -> x ∈ l -> Z.of_nat (length (filter (fun y => y <> x) l)) = Z.of_nat (length l) - 1.
Proof.
  induction l as [|y l IH]; [by intros _ ?%elem_of_nil|]. intros [Hy Hnd]%NoDup_cons [->|Hx]%elem_of_cons.
  - rewrite filter_cons_False by tauto. rewrite filter_absent by done. cbn. lia.
  - rewrite filter_cons_True by (intros ->; done). cbn. rewrite Nat2Z.inj_succ, IH by done. lia.
Qed.

(** What a reader at [o] may still come to. *)
Inductive reach (N : links) : option nat -> nat -> Prop :=
| reach_here x : reach N (Some x) x
| reach_next x o y : N !! x = Some o -> reach N o y -> reach N (Some x) y.

(** The pointers after [x], whose successor is [nx], has been unlinked; [D]: the entries unlinked before. *)
Definition unlinked (x : nat) (nx : option nat) (D : nat -> Prop) (N N' : links) : Prop :=
  forall j, N' !! j = N !! j \/ (~ D j /\ N !! j = Some (Some x) /\ N' !! j = Some nx).
Definition unlinked_all (x : nat) (nx : option nat) (D : nat -> Prop) (N N' : links) : Prop :=
  unlinked x nx D N N' /\ forall j, ~ D j -> N !! j = Some (Some x) -> N' !! j = Some nx.

Lemma chain_reach N o l : chain N o l -> forall y, reach N o y <-> y ∈ l.
Proof.
  revert o. induction l as [|x l IH]; intros o; cbn [chain].
  - intros -> y. split; [by inversion 1|by intros ?%elem_of_nil].
  - intros (-> & o' & Ho & Hc) y. rewrite elem_of_cons. split.
    + inversion 1; subst; [by left|]. right. apply (IH o'); [done|]. congruence.
    + intros [->|Hy]; [constructor|]. eapply reach_next; [done|]. by apply (IH o').
Qed.

Lemma chain_mono N N' o l : (forall x, x ∈ l -> N' !! x = N !! x) -> chain N o l -> chain N' o l.
Proof.
  revert o. induction l as [|x l IH]; intros o He; cbn [chain]; [done|]. intros (-> & o' & Ho & Hc).
  split; [done|]. exists o'. rewrite He by apply list_elem_of_here. split; [done|]. apply IH; [|done].
  intros y Hy. apply He. by apply list_elem_of_further.
Qed.

Lemma chain_unlink_other N N' D o l x nx : unlinked x nx D N N' -> x ∉ l -> chain N o l -> chain N' o l.
Proof.
  intros Hu. revert o. induction l as [|y l IH]; intros o Hx; cbn [chain]; [done|].
  apply not_elem_of_cons in Hx as [Hxy Hx]. intros (-> & o' & Ho & Hc). split; [done|]. exists o'. split; [|by apply IH].
  destruct (Hu y) as [->|(_ & Hy & _)]; [done|]. exfalso. rewrite Ho in Hy. injection Hy as ->.
  destruct l as [|z l]; cbn [chain] in Hc; [done|]. destruct Hc as [[= ->] _]. apply Hx, list_elem_of_here.
Qed.

Lemma chain_unlink N N' D o l x nx :
  unlinked_all x nx D N N' -> N !! x = Some nx -> NoDup l -> (forall y, y ∈ l -> ~ D y) -> chain N o l ->
  chain N' (if bool_decide (o = Some x) then nx else o) (filter (fun y => y <> x) l).
Proof.
  intros [Hu Ha] Hnx. revert o. induction l as [|y l IH]; intros o Hnd HD; cbn [chain].
  - intros ->. rewrite bool_decide_eq_false_2 by done. done.
  - apply NoDup_cons in Hnd as [Hy Hnd]. intros (-> & o' & Ho & Hc).
    assert (HDl : forall z, z ∈ l -> ~ D z) by (intros; apply HD; by apply list_elem_of_further).
    destruct (decide (y = x)) as [->|Hne].
    + rewrite bool_decide_eq_true_2 by done. rewrite filter_cons_False by tauto.
      rewrite Hnx in Ho. injection Ho as ->.
      rewrite filter_absent by done. by eapply chain_unlink_other.
    + rewrite bool_decide_eq_false_2 by congruence. rewrite filter_cons_True by done. cbn [chain].
      split; [done|]. exists (if bool_decide (o' = Some x) then nx else o'). split; [|by apply IH].
      case_bool_decide as Hd.
      * subst o'. apply Ha; [|done]. apply HD, list_elem_of_here.
      * destruct (Hu y) as [->|(_ & Hy' & _)]; [done|]. congruence.
Qed.

Lemma reach_unlink N N' D o x nx y : unlinked x nx D N N' -> N !! x = Some nx -> reach N' o y -> reach N o y.
Proof.
  intros Hu Hnx. induction 1 as [z|z o' y Ho _ IH]; [constructor|]. destruct (Hu z) as [He|(_ & Hz & Hz')].
  - rewrite He in Ho. by eapply reach_next.
  - rewrite Hz' in Ho. injection Ho as ->. eapply reach_next; [done|]. by eapply reach_next.
Qed.

Lemma reach_unlink_keep N N' D o x nx y :
  unlinked x nx D N N' -> N !! x = Some nx -> y <> x -> reach N o y -> reach N' o y.
Proof.
  intros Hu Hnx Hne. induction 1 as [z|z o' y Ho _ IH]; [constructor|]. specialize (IH Hne).
  destruct (Hu z) as [He|(_ & Hz & Hz')]; [eapply reach_next; [by rewrite He|done]|].
  rewrite Ho in Hz. injection Hz as ->. inversion IH as [|? o2 ? Ho2 Hr]; subst; [done|].
  assert (o2 = nx) as ->.
  { destruct (Hu x) as [He|(_ & _ & He)]; rewrite He in Ho2; congruence. }
  by eapply reach_next.
Qed.

Lemma reach_subset N N' o y : N ⊆ N' -> reach N o y -> reach N' o y.
Proof. intros Hs. induction 1; [constructor|]. eapply reach_next; [|done]. by eapply lookup_weaken. Qed.

Lemma chain_next_ne N o l x y : chain N o l -> NoDup l -> x ∈ l -> N !! x = Some (Some y) -> y <> x.
Proof.
  revert o. induction l as [|z l IH]; intros o; [by intros _ _ ?%elem_of_nil|]. cbn [chain].
  intros (-> & o' & Ho & Hc) [Hz Hnd]%NoDup_cons [->|Hx]%elem_of_cons Hn ->; [|by eapply IH].
  rewrite Ho in Hn. injection Hn as ->. destruct l as [|w l]; cbn [chain] in Hc; [done|].
  destruct Hc as [[= ->] _]. apply Hz, list_elem_of_here.
Qed.

Lemma reach_insert N o y f h :
  (forall z, reach N o z -> is_Some (N !! z)) -> N !! f = None -> reach (<[f := h]> N) o y -> reach N o y.
Proof.
  intros Hd Hf Hr. revert Hd. induction Hr as [z|z o' y Ho _ IH]; intros Hd; [constructor|].
  destruct (decide (z = f)) as [->|Hne].
  - destruct (Hd f) as [? ?]; [constructor|]. congruence.
  - rewrite lookup_insert_ne in Ho by done. eapply reach_next; [done|]. apply IH. intros w Hw. apply Hd. by eapply reach_next.
Qed.

Lemma reach_delete N o y x : ~ reach N o x -> reach N o y -> reach (delete x N) o y.
Proof.
  intros Hx Hr. revert Hx. induction Hr as [z|z o' y Ho Hr IH]; intros Hx; [constructor|].
  apply (reach_next _ z o').
  - rewrite lookup_delete_ne; [done|]. intros ->. apply Hx. constructor.
  - apply IH. intros Hw. apply Hx. by eapply reach_next.
Qed.

(** ** The invariant *)

Definition src_of (nd : node) : src := (n_v6 nd, net (ent nd), ip (ent nd)).
Definition linked (s : sys) (id : nat) (nd : node) : Prop := heap s !! id = Some nd /\ dying s !! id = None.
Abbreviation links_of h := (next <$> h).

(** The entries a call may still read. *)
Definition holds (h : gmap nat node) (p : pc) (x : nat) : Prop :=
  match p with Walking cur => reach (links_of h) cur x | Found id => x = id | _ => False end.

(** A linked entry that the worker of the call has linked itself is one the walk will come to; there
    is none once the walk has missed. *)
Definition will_meet (h : gmap nat node) (p : pc) (x : nat) : Prop :=
  match p with Walking cur => reach (links_of h) cur x | Found _ | Failing => True | _ => False end.

Section Invariant.
Context (h2 : Z -> Z -> Z -> Z) (h3 : Z -> Z -> Z -> Z -> Z) (rl : ratelimiter) (workers : nat).
Abbreviation bucket := (bucket h2 h3 rl).
Abbreviation exec := (exec h2 h3 rl workers).
Abbreviation run := (run h2 h3 rl workers).

(** What is true of a call: it stands in the bucket of its source, the entries it may read are there
    and wait for it if they are unlinked. *)
Record call_ok (s : sys) (c : nat) (sr : src) (p : pc) : Prop := {
  call_worker : (c < workers)%nat;
  call_filled e : p = Filled e -> entry_ok (clock s) e /\ (net e, ip e) = (sr.1.2, sr.2);
  call_found id nd : p = Found id -> heap s !! id = Some nd -> src_of nd = sr;
  call_holds x : holds (heap s) p x ->
    exists nd, heap s !! x = Some nd /\ bucket (src_of nd) = bucket sr /\ (forall W, dying s !! x = Some W -> c ∈ W);
  call_meets x nd : linked s x nd -> n_by nd = c -> src_of nd = sr -> will_meet (heap s) p x
}.

Definition gc_ok (s : sys) : Prop :=
  match gc s with
  | GcIn _ i v6 (Some id) => exists nd, linked s id nd /\ bucket (src_of nd) = (v6, i)
  | GcUnlink _ i v6 id temp => exists nd, linked s id nd /\ bucket (src_of nd) = (v6, i) /\ next nd = temp
  | _ => True
  end.

Definition chain_ok (s : sys) (b : bool * nat) (l : list nat) : Prop :=
  chain (links_of (heap s)) (heads s !! b) l /\ NoDup l /\
  forall id, id ∈ l <-> exists nd, linked s id nd /\ bucket (src_of nd) = b.

Record inv (s : sys) : Prop := {
  inv_clock : 0 <= clock s;
  inv_entry id nd : heap s !! id = Some nd -> entry_ok (clock s) (ent nd);
  inv_fresh id nd : heap s !! id = Some nd -> (id < fresh s)%nat;
  inv_dying id W : dying s !! id = Some W -> is_Some (heap s !! id);
  inv_chain b : exists l, chain_ok s b l;
  inv_call c sr p : calls s !! c = Some (sr, p) -> call_ok s c sr p;
  inv_by id nd : linked s id nd -> (n_by nd < workers)%nat;
  inv_uniq id id' nd nd' : linked s id nd -> linked s id' nd' -> n_by nd = n_by nd' -> src_of nd = src_of nd' -> id = id';
  inv_gc : gc_ok s
}.

Lemma bucket_v6 sr : (bucket sr).1 = sr.1.1.
Proof. by destruct sr as [[v n] i]. Qed.

(** The chain of a bucket: its first entry, and the one after each of its entries. *)
Lemma head_linked s b id : inv s -> heads s !! b = Some id -> exists nd, linked s id nd /\ bucket (src_of nd) = b.
Proof.
  intros I Hh. destruct (inv_chain s I b) as (l & Hc & _ & Hl). apply Hl, (chain_reach _ _ _ Hc). rewrite Hh. constructor.
Qed.

Lemma next_linked s id nd y : inv s -> linked s id nd -> next nd = Some y ->
  exists nd', linked s y nd' /\ bucket (src_of nd') = bucket (src_of nd).
Proof.
  intros I Hid Hy. destruct (inv_chain s I (bucket (src_of nd))) as (l & Hc & _ & Hl). apply Hl.
  assert (id ∈ l) as Hin by (apply Hl; by exists nd). apply (chain_reach _ _ _ Hc) in Hin.
  apply (chain_reach _ _ _ Hc). assert (Hn : links_of (heap s) !! id = Some (Some y)).
  { rewrite lookup_fmap, (proj1 Hid). cbn. by rewrite Hy. }
  clear -Hin Hn. induction Hin as [x|x o z Ho _ IH].
  - eapply reach_next; [done|]. constructor.
  - eapply reach_next; [done|]. by apply IH.
Qed.

(** ** Steps that only move a call *)

Lemma inv_set_pc s c sr p : inv s -> call_ok s c sr p -> inv (set_pc c sr p s).
Proof.
  intros [I1 I2 I3 I9 I4 I5 I6 I7 I8] Hok. constructor; try done.
  intros c' sr' p'. cbn. rewrite lookup_insert_Some. intros [[<- [= <- <-]]|[Hne Hc]]; [|by apply I5 in Hc as []].
  by destruct Hok.
Qed.

Lemma inv_end_call s c : inv s -> inv (end_call c s).
Proof.
  intros [I1 I2 I3 I9 I4 I5 I6 I7 I8]. constructor; try done.
  intros c' sr' p'. cbn. rewrite lookup_delete_Some. intros [Hne Hc]. by apply I5 in Hc as [].
Qed.

Lemma inv_total s z : inv s -> inv (set_sys_total z s).
Proof. intros [I1 I2 I3 I9 I4 I5 I6 I7 I8]. constructor; try done. intros c sr p Hc. by apply I5 in Hc as []. Qed.

Lemma inv_set_gc s g : inv s -> gc_ok (set_sys_gc g s) -> inv (set_sys_gc g s).
Proof. intros [I1 I2 I3 I9 I4 I5 I6 I7 I8] Hg. constructor; try done. intros c sr p Hc. by apply I5 in Hc as []. Qed.

Lemma inv_tick s d : inv s -> 0 <= d -> inv (set_clock (clock s + d) s).
Proof.
  intros [I1 I2 I3 I9 I4 I5 I6 I7 I8] Hd. constructor; try done; cbn.
  - lia.
  - intros id nd [? ?]%I2. split; lia.
  - intros c sr p [H1 H2 H3 H4 H5]%I5. constructor; try done. intros e He. destruct (H2 e He) as [[? ?] ?].
    split; [split; cbn; lia|done].
Qed.

Lemma linked_unlock s c id nd : linked (read_unlock c s) id nd <-> linked s id nd.
Proof. unfold linked. cbn. rewrite lookup_fmap, fmap_None. done. Qed.

Lemma gc_ok_iff s s' : gc s' = gc s -> (forall id nd, linked s' id nd <-> linked s id nd) -> gc_ok s -> gc_ok s'.
Proof.
  intros Hg Hl. unfold gc_ok. rewrite Hg. repeat case_match; try done; setoid_rewrite Hl; done.
Qed.

Lemma inv_read_unlock s c :
  inv s -> (forall sr p, calls s !! c = Some (sr, p) -> reading p = false) -> inv (read_unlock c s).
Proof.
  intros [I1 I2 I3 I9 I4 I5 I6 I7 I8] Hr. constructor; try done.
  - intros id W. cbn. rewrite lookup_fmap, fmap_Some. intros (W0 & HW0 & _). by eapply I9.
  - intros b. destruct (I4 b) as (l & H1 & H2 & H3). exists l. split; [done|]. split; [done|].
    intros id. rewrite H3. setoid_rewrite linked_unlock. done.
  - intros c' sr p Hc. pose proof (Hr sr p) as Hrp. destruct (I5 c' sr p Hc) as [H1 H2 H3 H4 H5]. constructor; try done.
    + intros x Hx. destruct (H4 x Hx) as (nd & Hnd & Hb & HW). exists nd. split; [done|]. split; [done|].
      intros W. cbn. rewrite lookup_fmap, fmap_Some. intros (W0 & HW0 & ->). apply HW in HW0.
      apply elem_of_difference. split; [done|]. rewrite elem_of_singleton. intros ->.
      specialize (Hrp Hc). by destruct p.
    + intros x nd. rewrite linked_unlock. apply H5.
  - intros id nd. rewrite linked_unlock. apply I6.
  - intros id id' nd nd'. rewrite !linked_unlock. apply I7.
  - eapply gc_ok_iff; [| |done]; [done|]. intros. apply linked_unlock.
Qed.

(** ** Steps that change the entries *)

Lemma links_set_ent (h : gmap nat node) id nd e : h !! id = Some nd -> links_of (<[id := set_ent e nd]> h) = links_of h.
Proof.
  intros H. apply map_eq. intros j. rewrite !lookup_fmap. destruct (decide (j = id)) as [->|Hj].
  - by rewrite lookup_insert_eq, H.
  - by rewrite lookup_insert_ne.
Qed.

Lemma inv_take s id nd e :
  inv s -> heap s !! id = Some nd -> entry_ok (clock s) e -> net e = net (ent nd) -> ip e = ip (ent nd) ->
  inv (set_heap (<[id := set_ent e nd]> (heap s)) s).
Proof.
  intros [I1 I2 I3 I9 I4 I5 I6 I7 I8] Hid He Hn Hi. set (s' := set_heap _ s).
  assert (Hlk : forall x nd', heap s' !! x = Some nd' -> exists nd0, heap s !! x = Some nd0 /\ src_of nd' = src_of nd0 /\
    n_by nd' = n_by nd0 /\ next nd' = next nd0).
  { intros x nd'. cbn. rewrite lookup_insert_Some. intros [[<- <-]|[Hne Hx]]; [|by exists nd'].
    exists nd. split_and!; try done. unfold src_of. cbn. by rewrite Hn, Hi. }
  assert (Hlk' : forall x nd0, heap s !! x = Some nd0 -> exists nd', heap s' !! x = Some nd' /\ src_of nd' = src_of nd0 /\
    n_by nd' = n_by nd0 /\ next nd' = next nd0).
  { intros x nd0 Hx. destruct (decide (x = id)) as [->|Hne]; cbn.
    - rewrite Hid in Hx. injection Hx as <-. exists (set_ent e nd). rewrite lookup_insert_eq. split_and!; try done.
      unfold src_of. cbn. by rewrite Hn, Hi.
    - exists nd0. by rewrite lookup_insert_ne. }
  assert (HN : links_of (heap s') = links_of (heap s)) by (by apply links_set_ent).
  constructor; try done.
  - intros x nd'. cbn. rewrite lookup_insert_Some. intros [[<- <-]|[Hne Hx]]; [done|by eapply I2].
  - intros x nd' (nd0 & Hx & _)%Hlk. by eapply I3.
  - intros x W Hx. destruct (I9 x W Hx) as [nd0 Hnd0]. destruct (Hlk' _ _ Hnd0) as (? & ? & _). by eexists.
  - intros b. destruct (I4 b) as (l & H1 & H2 & H3). exists l. split; [by rewrite HN|]. split; [done|]. intros x. rewrite H3.
    split; intros (y & [Hy Hd] & Hb).
    + destruct (Hlk' _ _ Hy) as (y' & ? & Hs & _). exists y'. by rewrite Hs.
    + destruct (Hlk _ _ Hy) as (y' & ? & Hs & _). exists y'. by rewrite <- Hs.
  - intros c sr p [H1 H2 H3 H4 H5]%I5. constructor; try done.
    + intros x y Hp (y' & ? & Hs & _)%Hlk. rewrite Hs. by eapply H3.
    + intros x. replace (holds (heap s') p x) with (holds (heap s) p x) by (unfold holds; by rewrite HN).
      intros (y & Hy & Hb & HW)%H4. destruct (Hlk' _ _ Hy) as (y' & ? & Hs & _). exists y'. by rewrite Hs.
    + intros x y [Hy Hd] Hby Hsr. destruct (Hlk _ _ Hy) as (y' & ? & Hs & Hb & _).
      unfold will_meet. rewrite HN. apply (H5 x y'); [done|congruence..].
  - intros x y [Hy Hd]. destruct (Hlk _ _ Hy) as (y' & ? & Hs & Hb & _). rewrite Hb. by eapply I6.
  - intros x y nd1 nd2 [Hx Hdx] [Hy Hdy] Hb Hs. destruct (Hlk _ _ Hx) as (nx & ? & Hsx & Hbx & _).
    destruct (Hlk _ _ Hy) as (ny & ? & Hsy & Hby & _). apply (I7 x y nx ny); [done..|congruence|congruence].
  - unfold gc_ok in *. cbn [gc s' set_heap]. case_match; try done.
    + case_match; [|done]. destruct I8 as (y & [Hy Hd] & Hb). destruct (Hlk' _ _ Hy) as (y' & ? & Hs & _).
      exists y'. by rewrite Hs.
    + destruct I8 as (y & [Hy Hd] & Hb & Ht). destruct (Hlk' _ _ Hy) as (y' & ? & Hs & _ & Hn').
      exists y'. by rewrite Hs, Hn'.
Qed.

Lemma inv_link s c e v6 :
  let sr := (v6, net e, ip e) in
  inv s -> calls s !! c = Some (sr, Filled e) -> gc_locked s = false ->
  inv (end_call c (entry_link (bucket sr) e v6 c s)).
Proof.
  intros sr I Hc Hg. pose proof I as [I1 I2 I3 I9 I4 I5 I6 I7 I8]. set (b := bucket sr).
  set (nd := {| ent := e; next := heads s !! b; n_v6 := v6; n_by := c |}). set (s' := end_call _ _).
  destruct (I5 _ _ _ Hc) as [Hw Hf _ _ Hmeet]. destruct (Hf e eq_refl) as [He _].
  assert (Hfh : heap s !! fresh s = None).
  { destruct (heap s !! fresh s) eqn:E; [|done]. apply I3 in E. lia. }
  assert (Hfd : dying s !! fresh s = None).
  { destruct (dying s !! fresh s) eqn:E; [|done]. apply I9 in E as [? E]. congruence. }
  assert (Hold : forall x y, heap s !! x = Some y -> heap s' !! x = Some y).
  { intros x y Hx. cbn. rewrite lookup_insert_ne; [done|]. congruence. }
  assert (Hlk : forall x y, linked s' x y <-> linked s x y \/ (x = fresh s /\ y = nd)).
  { intros x y. unfold linked. cbn. rewrite lookup_insert_Some. naive_solver congruence. }
  assert (HN : links_of (heap s') = <[fresh s := heads s !! b]> (links_of (heap s))) by (cbn; by rewrite fmap_insert).
  assert (Hsub : links_of (heap s) ⊆ links_of (heap s')).
  { rewrite HN. apply insert_subseteq. by rewrite lookup_fmap, Hfh. }
  assert (Hnf : forall x y, linked s x y -> x <> fresh s) by (intros x y [Hx _] ->; congruence).
  constructor; try done.
  - intros x y. cbn. rewrite lookup_insert_Some. intros [[<- <-]|[Hne Hx]]; [done|by eapply I2].
  - intros x y. cbn. rewrite lookup_insert_Some. intros [[<- <-]|[Hne Hx]]; [lia|]. apply I3 in Hx. lia.
  - intros x W Hx. destruct (I9 x W Hx) as [y Hy]. exists y. by apply Hold.
  - intros b'. destruct (I4 b') as (l & H1 & H2 & H3).
    assert (Hl : fresh s ∉ l) by (intros (y & Hy & _)%H3; by apply Hnf in Hy).
    assert (H1' : chain (links_of (heap s')) (heads s !! b') l).
    { eapply chain_mono; [|done]. intros x Hx. rewrite HN. apply lookup_insert_ne. congruence. }
    destruct (decide (b' = b)) as [->|Hb].
    + exists (fresh s :: l). split; [|split; [by constructor|]].
      * cbn. rewrite lookup_insert_eq. split; [done|]. eexists. split; [|done]. by rewrite lookup_fmap, lookup_insert_eq.
      * intros x. rewrite elem_of_cons, H3. setoid_rewrite Hlk. split.
        -- intros [->|(y & Hy & Hyb)]; [exists nd; naive_solver|exists y; naive_solver].
        -- intros (y & [Hy|[-> ->]] & Hyb); [right; by exists y|by left].
    + exists l. split; [cbn; by rewrite lookup_insert_ne|]. split; [done|]. intros x. rewrite H3. setoid_rewrite Hlk.
      split; [intros (y & Hy & Hyb); exists y; naive_solver|]. intros (y & [Hy|[-> ->]] & Hyb); [by exists y|].
      by destruct Hb.
  - intros c' sr' p. cbn [calls s' end_call entry_link]. rewrite lookup_delete_Some. intros [Hne Hc'].
    apply I5 in Hc' as [H1 H2 H3 H4 H5]. constructor; try done.
    + intros x y Hp Hx. apply (H3 x y Hp). destruct (H4 x) as (y' & Hy' & _); [by rewrite Hp|].
      apply Hold in Hy' as Hy2. congruence.
    + intros x Hx. destruct (H4 x) as (y & Hy & Hb & HW); [|exists y; split; [by apply Hold|done]].
      destruct p as [cur| | | | |]; try done. cbn [holds] in Hx |- *. rewrite HN in Hx. eapply reach_insert; [|by rewrite lookup_fmap, Hfh|done].
      intros z Hz. destruct (H4 z Hz) as (y & Hy & _). rewrite lookup_fmap, Hy. by eexists.
    + intros x y [Hx|[-> ->]]%Hlk Hby Hsr; [|done]. specialize (H5 x y Hx Hby Hsr).
      destruct p; try done. cbn [will_meet] in *. by eapply reach_subset.
  - intros x y [Hx|[-> ->]]%Hlk; [by eapply I6|done].
  - intros x x' y y' [Hx|[-> ->]]%Hlk [Hx'|[-> ->]]%Hlk Hb Hs; [by eapply I7| | |done].
    + by destruct (Hmeet x y Hx Hb Hs).
    + by destruct (Hmeet x' y' Hx' (eq_sym Hb) (eq_sym Hs)).
  - unfold gc_ok. cbn [gc s' end_call entry_link]. unfold gc_locked in Hg. by destruct (gc s).
Qed.

Lemma elem_of_readers s c : c ∈ readers s <-> exists sr p, calls s !! c = Some (sr, p) /\ reading p = true.
Proof.
  unfold readers. rewrite elem_of_dom. split.
  - intros [[sr p] [Hc Hp]%map_lookup_filter_Some]. by exists sr, p.
  - intros (sr & p & Hc & Hp). exists (sr, p). by apply map_lookup_filter_Some.
Qed.

Section Unlink.
Context (s : sys) (id : nat) (nd : node) (I : inv s) (Hid : linked s id nd).
Let b := bucket (src_of nd).
Let s' := entry_unlink b id nd s.

Lemma unlink_heap x y : heap s' !! x = Some y -> exists y0, heap s !! x = Some y0 /\ ent y = ent y0 /\ src_of y = src_of y0 /\ n_by y = n_by y0.
Proof.
  cbn. rewrite map_lookup_imap, bind_Some. intros (y0 & Hx & [= <-]). exists y0. split; [done|]. by case_bool_decide.
Qed.

Lemma unlink_heap' x y0 : heap s !! x = Some y0 -> exists y, heap s' !! x = Some y /\ src_of y = src_of y0.
Proof. intros Hx. cbn. rewrite map_lookup_imap, Hx. cbn. eexists. split; [done|]. by case_bool_decide. Qed.

Lemma unlink_linked x y : linked s' x y -> x <> id /\ exists y0, linked s x y0 /\ ent y = ent y0 /\ src_of y = src_of y0 /\ n_by y = n_by y0.
Proof.
  intros [Hx Hd]. cbn in Hd. apply lookup_insert_None in Hd as [Hd Hne]. split; [done|].
  destruct (unlink_heap _ _ Hx) as (y0 & ? & ?). by exists y0.
Qed.

Lemma unlink_linked' x y0 : linked s x y0 -> x <> id -> exists y, linked s' x y /\ src_of y = src_of y0.
Proof.
  intros [Hx Hd] Hne. destruct (unlink_heap' _ _ Hx) as (y & ? & ?). exists y. split; [|done]. split; [done|].
  cbn. by apply lookup_insert_None.
Qed.

Lemma unlink_links : unlinked_all id (next nd) (fun j => dying s !! j <> None) (links_of (heap s)) (links_of (heap s')).
Proof.
  split.
  - intros j. rewrite !lookup_fmap. cbn. rewrite map_lookup_imap. destruct (heap s !! j) as [m|] eqn:E; cbn; [|by left].
    case_bool_decide as Hd; [|by left]. right. destruct Hd as [-> Hd]. split; [rewrite Hd; tauto|done].
  - intros j Hd. rewrite !lookup_fmap. cbn. rewrite map_lookup_imap. destruct (heap s !! j) as [m|] eqn:E; cbn; [|done].
    intros [= Hm]. rewrite bool_decide_eq_true_2; [done|]. split; [done|].
    destruct (dying s !! j); [by destruct Hd|done].
Qed.

Lemma unlink_next : links_of (heap s) !! id = Some (next nd).
Proof. by rewrite lookup_fmap, (proj1 Hid). Qed.

Lemma unlink_head b' : heads s' !! b' = if bool_decide (b' = b /\ heads s !! b = Some id) then next nd else heads s !! b'.
Proof.
  cbn. case_bool_decide as H1; case_bool_decide as H2; try naive_solver.
  - destruct H2 as [-> _]. destruct (next nd); [apply lookup_insert_eq|apply lookup_delete_eq].
  - assert (b <> b') by naive_solver. destruct (next nd); [by apply lookup_insert_ne|by apply lookup_delete_ne].
Qed.

Lemma unlink_chain b' : exists l, chain_ok s' b' l.
Proof.
  destruct (inv_chain s I b') as (l & H1 & H2 & H3).
  assert (Hd : forall y, y ∈ l -> ~ dying s !! y <> None) by (intros y (y' & [_ Hy] & _)%H3; rewrite Hy; tauto).
  exists (filter (fun y => y <> id) l). split; [|split].
  - rewrite unlink_head. destruct (decide (b' = b)) as [->|Hb].
    + rewrite (bool_decide_ext _ (heads s !! b = Some id)) by tauto.
      eapply chain_unlink; [apply unlink_links|apply unlink_next|done..].
    + rewrite bool_decide_eq_false_2 by tauto. assert (id ∉ l) as Hl.
      { intros (y & Hy & Hyb)%H3. apply Hb. rewrite <- Hyb. unfold b. f_equal. f_equal.
        destruct Hy as [Hy _], Hid as [Hx _]. congruence. }
      rewrite filter_absent by done. eapply chain_unlink_other; [apply unlink_links|done|done].
  - by apply NoDup_filter.
  - intros x. rewrite list_elem_of_filter, H3. split.
    + intros [Hx (y & Hy & <-)]. destruct (unlink_linked' x y Hy Hx) as (y' & ? & Hs). exists y'. by rewrite Hs.
    + intros (y & (Hx & y0 & Hy0 & _ & Hs & _)%unlink_linked & <-). split; [done|]. exists y0. by rewrite Hs.
Qed.

Lemma unlink_call c sr p : calls s !! c = Some (sr, p) -> call_ok s' c sr p.
Proof.
  intros Hc. destruct (inv_call s I _ _ _ Hc) as [H1 H2 H3 H4 H5]. constructor; try done.
  - intros x y Hp (y0 & Hy0 & _ & -> & _)%unlink_heap. by eapply H3.
  - intros x Hx.
    assert (holds (heap s) p x) as Hx0.
    { destruct p; try done. cbn [holds] in *. eapply reach_unlink; [apply unlink_links|apply unlink_next|done]. }
    destruct (H4 x Hx0) as (y & Hy & Hb & HW). destruct (unlink_heap' _ _ Hy) as (y' & Hy' & Hs). exists y'. rewrite Hs.
    split; [done|]. split; [done|]. intros W. cbn. rewrite lookup_insert_Some. intros [[_ <-]|[_ HW']]; [|by apply HW].
    apply elem_of_readers. exists sr, p. split; [done|]. by destruct p.
  - intros x y (Hne & y0 & Hy0 & _ & Hs & Hb)%unlink_linked Hby Hsr.
    specialize (H5 x y0 Hy0 ltac:(congruence) ltac:(congruence)). destruct p; try done. cbn [will_meet] in *.
    eapply reach_unlink_keep; [apply unlink_links|apply unlink_next|done|done].
Qed.

Lemma inv_unlink now i v6 : b = (v6, i) -> inv (set_sys_gc (GcIn now i v6 (next nd)) s').
Proof.
  intros Hb. assert (Hl : forall x y, linked (set_sys_gc (GcIn now i v6 (next nd)) s') x y <-> linked s' x y) by done.
  constructor.
  - apply (inv_clock s I).
  - intros x y (y0 & Hx & He & _)%unlink_heap. rewrite He. by apply (inv_entry s I x).
  - intros x y (y0 & Hx & _)%unlink_heap. by apply (inv_fresh s I x y0).
  - intros x W. cbn. rewrite map_lookup_imap, lookup_insert_Some. intros [[<- _]|[_ Hx]].
    + rewrite (proj1 Hid). by eexists.
    + apply (inv_dying s I) in Hx as [? ->]. by eexists.
  - intros b'. apply unlink_chain.
  - intros c sr p Hc. by destruct (unlink_call c sr p Hc).
  - intros x y (_ & y0 & Hy0 & _ & _ & ->)%Hl%unlink_linked. by apply (inv_by s I x).
  - intros x x' y y' (_ & z & Hz & _ & Hs & Hn)%Hl%unlink_linked (_ & z' & Hz' & _ & Hs' & Hn')%Hl%unlink_linked ??.
    apply (inv_uniq s I x x' z z'); congruence.
  - unfold gc_ok. cbn [gc set_sys_gc]. destruct (next nd) as [y|] eqn:Hy; [|done].
    destruct (next_linked s id nd y I Hid Hy) as (ny & Hny & Hnb).
    assert (y <> id) as Hne.
    { destruct (inv_chain s I b) as (l & H1 & H2 & H3). eapply chain_next_ne; [done|done| |].
      - apply H3. by exists nd.
      - by rewrite lookup_fmap, (proj1 Hid), <- Hy. }
    destruct (unlink_linked' y ny Hny Hne) as (y' & Hy' & Hs). exists y'. split; [apply Hl, Hy'|]. by rewrite Hs, Hnb.
Qed.
End Unlink.

Lemma inv_free s id s' ev : inv s -> free_step id s = Some (ev, s') -> inv s'.
Proof.
  intros I. unfold free_step. case_bool_decide as Hd; [|done]. intros [= <- <-].
  pose proof I as [I1 I2 I3 I9 I4 I5 I6 I7 I8].
  assert (Hl : forall x y, linked {| clock := clock s; heads := heads s; heap := delete id (heap s); dying := delete id (dying s);
                     fresh := fresh s; total := total s - 1; calls := calls s; gc := gc s |} x y <-> linked s x y).
  { intros x y. unfold linked. cbn. rewrite lookup_delete_Some, lookup_delete_None. split; [naive_solver congruence|].
    intros [Hx Hxd]. assert (id <> x) by congruence. naive_solver. }
  assert (HN : links_of (delete id (heap s)) = delete id (links_of (heap s))) by apply fmap_delete.
  constructor; try done.
  - intros x y Hx. cbn [heap] in Hx. apply lookup_delete_Some in Hx as [_ Hx]. by apply (I2 x).
  - intros x y Hx. cbn [heap] in Hx. apply lookup_delete_Some in Hx as [_ Hx]. by apply (I3 x y).
  - intros x W Hx. cbn [dying] in Hx. apply lookup_delete_Some in Hx as [Hne Hx]. cbn [heap]. rewrite lookup_delete_ne by done. by apply (I9 x W).
  - intros b. destruct (I4 b) as (l & H1 & H2 & H3). exists l. split; [|split; [done|]].
    + eapply chain_mono; [|done]. intros x (y & [_ Hy] & _)%H3. cbn [heap]. rewrite HN. apply lookup_delete_ne. congruence.
    + intros x. rewrite H3. by setoid_rewrite Hl.
  - intros c sr p [H1 H2 H3 H4 H5]%I5.
    assert (Hid : ~ holds (heap s) p id).
    { intros (y & _ & _ & HW)%H4. specialize (HW ∅ Hd). by apply elem_of_empty in HW. }
    constructor; try done.
    + intros x y Hp Hx. cbn [heap] in Hx. apply lookup_delete_Some in Hx as [_ Hx]. by apply (H3 x).
    + intros x Hx. assert (holds (heap s) p x) as Hx0.
      { destruct p; try done. cbn [holds heap] in *. rewrite HN in Hx. eapply reach_subset; [|done]. apply delete_subseteq. }
      assert (id <> x) by congruence. destruct (H4 x Hx0) as (y & Hy & Hb & HW). exists y. cbn [heap dying].
      rewrite !lookup_delete_ne by done. done.
    + intros x y Hx Hb Hs. apply Hl in Hx. specialize (H5 x y Hx Hb Hs). destruct p; try done.
      cbn [will_meet holds heap] in *. rewrite HN. by apply reach_delete.
  - intros x y Hx%Hl. by apply (I6 x).
  - intros x x' y y' Hx%Hl Hx'%Hl. by apply I7.
  - apply (gc_ok_iff s); [done|intros; apply Hl|done].
Qed.

(** ** Every step keeps the invariant *)

Lemma begin_inv c sr s ev s' : inv s -> begin_call h2 h3 rl workers c sr s = Some (ev, s') -> inv s'.
Proof.
  intros I. unfold begin_call. case_if; [|done]. bool_to_prop. apply bool_decide_eq_true in H, H0.
  intros [= <- <-]. apply inv_set_pc; [done|]. destruct (inv_chain s I (bucket sr)) as (l & H1 & H2 & H3).
  constructor; try done.
  - intros x Hx. apply (chain_reach _ _ _ H1), H3 in Hx as (nd & [Hnd Hd] & Hb). exists nd. split_and!; [done..|].
    intros W HW. congruence.
  - intros x nd Hx _ <-. cbn. apply (chain_reach _ _ _ H1), H3. by exists nd.
Qed.

Lemma walk_inv s c sr id nd : inv s -> calls s !! c = Some (sr, Walking (Some id)) -> heap s !! id = Some nd ->
  inv (set_pc c sr (if matches sr.1.2 sr.2 (ent nd) then Found id else Walking (next nd)) s).
Proof.
  intros I Hc Hid. apply inv_set_pc; [done|]. destruct (inv_call s I _ _ _ Hc) as [H1 H2 H3 H4 H5].
  assert (Hn : links_of (heap s) !! id = Some (next nd)) by (by rewrite lookup_fmap, Hid).
  destruct (matches _ _ _) eqn:Em.
  - apply matches_true in Em. injection Em as En Ei. constructor; try done.
    + intros x y [= <-] Hy. rewrite Hid in Hy. injection Hy as <-.
      destruct (H4 id) as (y & Hy & Hb & _); [constructor|]. rewrite Hid in Hy. injection Hy as <-.
      apply (f_equal fst) in Hb. rewrite !bucket_v6 in Hb. destruct sr as [[v n] i]. unfold src_of. cbn in *. congruence.
    + intros x ->. apply H4. constructor.
  - constructor; try done.
    + intros x Hx. apply H4. by eapply reach_next.
    + intros x y Hx Hb Hs. specialize (H5 x y Hx Hb Hs). cbn in *. inversion H5 as [|? o ? Ho Hr]; subst; [|congruence].
      exfalso. destruct Hx as [Hx _]. rewrite Hid in Hx. injection Hx as ->. unfold matches, src_of in Em. cbn in Em.
      by rewrite !Z.eqb_refl in Em.
Qed.

Lemma missed_inv s c sr : inv s -> calls s !! c = Some (sr, Walking None) -> inv (set_pc c sr Missed (read_unlock c s)).
Proof.
  intros I Hc. change (inv (read_unlock c (set_pc c sr Missed s))). apply inv_read_unlock.
  - apply inv_set_pc; [done|]. destruct (inv_call s I _ _ _ Hc) as [H1 H2 H3 H4 H5]. constructor; try done.
    intros x y Hx Hb Hs. specialize (H5 x y Hx Hb Hs). inversion H5.
  - intros sr' p. cbn. rewrite lookup_insert_eq. by intros [= <- <-].
Qed.

Lemma take_inv s c sr id nd e :
  inv s -> heap s !! id = Some nd -> entry_ok (clock s) e -> net e = net (ent nd) -> ip e = ip (ent nd) ->
  calls s !! c = Some (sr, Found id) ->
  inv (end_call c (read_unlock c (set_heap (<[id := set_ent e nd]> (heap s)) s))).
Proof.
  intros I Hid He Hn Hi Hc. change (inv (read_unlock c (end_call c (set_heap (<[id := set_ent e nd]> (heap s)) s)))).
  apply inv_read_unlock; [by apply inv_end_call, inv_take|]. intros sr' p. cbn. by rewrite lookup_delete_eq.
Qed.

(** Once the walk has missed, the call has nothing it may read and nothing of its own that is linked. *)
Lemma after_miss_ok s c sr p p' :
  call_ok s c sr p -> p = Missed \/ p = Reserved ->
  match p' with Reserved | Failing => True | Filled e => entry_ok (clock s) e /\ (net e, ip e) = (sr.1.2, sr.2) | _ => False end ->
  call_ok s c sr p'.
Proof.
  intros [H1 H2 H3 H4 H5] Hp Hp'. constructor; [done| | | |].
  - intros e ->. done.
  - intros id nd ->. done.
  - intros x Hx. by destruct p'.
  - intros x nd Hx Hb Hs. specialize (H5 x nd Hx Hb Hs). by destruct Hp as [-> | ->].
Qed.

Lemma allow_step_inv c alloc s ev s' :
  inv s -> clock s < 2 ^ 63 -> allow_step h2 h3 rl c alloc s = Some (ev, s') -> inv s'.
Proof.
  intros I Hck. unfold allow_step. destruct (calls s !! c) as [[[[v n] i] p]|] eqn:Hc; cbn [mbind option_bind]; [|done].
  pose proof (inv_call s I _ _ _ Hc) as Hok. destruct p as [[id|]|id| | |e|].
  - destruct (heap s !! id) as [nd|] eqn:Hid; cbn [mbind option_bind]; [|done]. intros [= <- <-].
    by apply (walk_inv s c (v, n, i) id nd).
  - intros [= <- <-]. by apply missed_inv.
  - destruct (heap s !! id) as [nd|] eqn:Hid; cbn [mbind option_bind]; [|done].
    pose proof (take_token_spec (clock s) (clock s) (ent nd) (inv_entry s I _ _ Hid) ltac:(lia)) as Ht.
    destruct (take_token (clock s) (ent nd)) as [ret e]. destruct Ht as (_ & He & Hn & Hi & _). intros [= <- <-].
    by apply (take_inv s c (v, n, i)).
  - intros [= <- <-]. apply inv_set_pc; [by apply inv_total|]. assert (Hok' : call_ok (set_sys_total (total s + 1) s) c (v, n, i) Missed) by (by destruct Hok).
    eapply after_miss_ok; [done|by left|]. by case_if.
  - intros [= <- <-]. apply inv_set_pc; [done|]. eapply after_miss_ok; [done|by right|]. destruct alloc; [|done].
    split; [|done]. pose proof (inv_clock s I). unfold entry_ok. cbn [tokens last_time_ns].
    rewrite TOKEN_MAX_val, PACKET_COST_val. lia.
  - destruct (gc_locked s) eqn:Hg; [done|]. intros [= <- <-]. destruct (call_filled _ _ _ _ Hok e eq_refl) as [_ [= <- <-]].
    by apply inv_link.
  - intros [= <- <-]. by apply inv_end_call, inv_total.
Qed.

Lemma gc_step_inv s ev s' : inv s -> gc_step rl s = Some (ev, s') -> inv s'.
Proof.
  intros I. unfold gc_step. pose proof (inv_gc s I) as Hg. unfold gc_ok in Hg.
  destruct (gc s) as [|now i|now i v6 [id|]|now i v6 id temp].
  - intros [= <- <-]. by apply inv_set_gc.
  - case_if; intros [= <- <-]; apply inv_set_gc; try done. unfold gc_ok. cbn [gc set_sys_gc].
    destruct (heads s !! (false, i)) as [id|] eqn:Hh; [|done]. destruct (head_linked s _ _ I Hh) as (nd & ? & ?). by exists nd.
  - destruct Hg as (nd & Hnd & Hb). rewrite (proj1 Hnd). cbn [mbind option_bind]. intros [= <- <-]. apply inv_set_gc; [done|].
    unfold gc_ok. cbn [gc set_sys_gc]. case_if; [by exists nd|]. destruct (next nd) as [y|] eqn:Hy; [|done].
    destruct (next_linked s id nd y I Hnd Hy) as (ny & ? & Hny). exists ny. by rewrite Hny.
  - destruct v6; intros [= <- <-]; apply inv_set_gc; try done. unfold gc_ok. cbn [gc set_sys_gc].
    destruct (heads s !! (true, i)) as [id|] eqn:Hh; [|done]. destruct (head_linked s _ _ I Hh) as (nd & ? & ?). by exists nd.
  - destruct Hg as (nd & Hnd & Hb & Ht). rewrite (proj1 Hnd). cbn [mbind option_bind]. intros [= <- <-].
    rewrite <- Hb. subst temp. by apply inv_unlink.
Qed.

Lemma exec_inv a s ev s' : inv s -> clock s < 2 ^ 63 -> exec a s = Some (ev, s') -> inv s'.
Proof.
  intros I Hck. destruct a as [d|c sr|c alloc| |id]; cbn.
  - destruct (Z.leb_spec 0 d); [|done]. intros [= <- <-]. by apply inv_tick.
  - by apply begin_inv.
  - by apply allow_step_inv.
  - by apply gc_step_inv.
  - by apply inv_free.
Qed.

Lemma initial_inv now : 0 <= now -> inv (initial now).
Proof.
  intros Hn. constructor; try done; try (by intros ?? [? _]); try (by intros ???? [? _]).
  intros b. exists []. split; [done|]. split; [constructor|]. intros id. split; [by intros ?%elem_of_nil|].
    by intros (nd & [? _] & _).
Qed.

(** The clock never goes back. *)
Lemma exec_clock a s ev s' : exec a s = Some (ev, s') -> clock s <= clock s'.
Proof.
  destruct a as [d|c sr|c alloc| |id]; cbn.
  - destruct (Z.leb_spec 0 d); [|done]. intros [= <- <-]. cbn. lia.
  - unfold begin_call. case_if; [|done]. by intros [= <- <-].
  - unfold allow_step. destruct (calls s !! c) as [[[[v n] i] p]|]; cbn [mbind option_bind]; [|done].
    destruct p as [[id|]|id| | |e|]; try (by intros [= <- <-]).
    + destruct (heap s !! id); cbn [mbind option_bind]; [|done]. by intros [= <- <-].
    + destruct (heap s !! id); cbn [mbind option_bind]; [|done]. destruct (take_token _ _). by intros [= <- <-].
    + destruct (gc_locked s); [done|]. by intros [= <- <-].
  - unfold gc_step. destruct (gc s) as [|now i|now i v6 [id|]|now i v6 id temp]; try (by intros [= <- <-]).
    + case_if; by intros [= <- <-].
    + destruct (heap s !! id); cbn [mbind option_bind]; [|done]. by intros [= <- <-].
    + destruct (heap s !! id); cbn [mbind option_bind]; [|done]. by intros [= <- <-].
  - unfold free_step. case_if; [|done]. by intros [= <- <-].
Qed.

Lemma run_clock acts s es s' : run acts s = Some (es, s') -> clock s <= clock s'.
Proof.
  revert s es. induction acts as [|a acts IH]; intros s es; cbn; [by intros [= <- <-]|].
  destruct (exec a s) as [[ev s1]|] eqn:E; cbn; [|done]. destruct (run acts s1) as [[es1 s2]|] eqn:R; cbn; [|done].
  intros [= <- <-]. apply exec_clock in E. apply IH in R. lia.
Qed.

Lemma run_inv acts s es s' : inv s -> run acts s = Some (es, s') -> clock s' < 2 ^ 63 -> inv s'.
Proof.
  revert s es. induction acts as [|a acts IH]; intros s es I; cbn; [by intros [= <- <-]|].
  destruct (exec a s) as [[ev s1]|] eqn:E; cbn; [|done]. destruct (run acts s1) as [[es1 s2]|] eqn:R; cbn; [|done].
  intros [= <- <-] Hck. pose proof (exec_clock _ _ _ _ E). pose proof (run_clock _ _ _ _ R).
  eapply IH; [|done|done]. eapply exec_inv; [done|lia|done].
Qed.
End Invariant.
