(* ===== verification/RateLimiterRate.v ===== *)
(** * RateLimiterRate: what the rate limiter promises when its calls interleave

    The theorems on the system of RateLimiterSteps: the rate of a source, the number and the lifetime of
    the entries, and the eviction of an entry that is in use. *)

From S2P Require Import Prelude Skb RateLimiter RateLimiterProps RateLimiterSteps.

(** ** Counting the packets of a source *)

Definition zsum (f : nat -> Z) (l : list nat) : Z := foldr (fun x a => f x + a) 0 l.

Lemma zsum_le f g l d : (forall x, x ∈ l -> g x <= f x + d) -> zsum g l <= zsum f l + Z.of_nat (length l) * d.
Proof.
  induction l as [|x l IH]; intros H; cbn [zsum foldr length]; [lia|]. fold (zsum f l) (zsum g l).
  pose proof (H x ltac:(apply list_elem_of_here)). assert (zsum g l <= zsum f l + Z.of_nat (length l) * d).
  { apply IH. intros y Hy. apply H. by apply list_elem_of_further. }
  lia.
Qed.

Lemma zsum_zero l : zsum (fun _ => 0) l = 0.
Proof. induction l as [|x l IH]; [done|]. exact IH. Qed.

Lemma zsum_ext f g l : (forall x, x ∈ l -> g x = f x) -> zsum g l = zsum f l.
Proof.
  induction l as [|x l IH]; intros H; cbn [zsum foldr]; [done|]. fold (zsum f l) (zsum g l).
  rewrite H by apply list_elem_of_here. f_equal. apply IH. intros y Hy. apply H. by apply list_elem_of_further.
Qed.

Lemma zsum_change f g l x : NoDup l -> x ∈ l -> (forall y, y <> x -> g y = f y) -> zsum g l = zsum f l + (g x - f x).
Proof.
  intros Hnd Hx He. induction l as [|y l IH]; [by apply elem_of_nil in Hx|]. apply NoDup_cons in Hnd as [Hy Hnd].
  cbn [zsum foldr]. fold (zsum f l) (zsum g l). apply elem_of_cons in Hx as [->|Hx].
  - rewrite (zsum_ext f g l); [lia|]. intros z Hz. apply He. by intros ->.
  - rewrite IH, (He y) by (done || by intros ->). lia.
Qed.

Definition passes (sr : src) (es : list event) : Z :=
  Z.of_nat (length (List.filter (fun ev => match ev with Passed sr' => bool_decide (sr' = sr) | _ => false end) es)).
Definition evictions (sr : src) (es : list event) : Z :=
  Z.of_nat (length (List.filter (fun ev => match ev with Evicted sr' => bool_decide (sr' = sr) | _ => false end) es)).

Lemma passes_cons sr ev es : passes sr (ev :: es) = passes sr [ev] + passes sr es.
Proof. unfold passes. cbn. destruct ev; try done. case_bool_decide; cbn; lia. Qed.

Lemma evictions_cons sr ev es : evictions sr (ev :: es) = evictions sr [ev] + evictions sr es.
Proof. unfold evictions. cbn. destruct ev; try done. case_bool_decide; cbn; lia. Qed.

(** The tokens in an entry at the present time; none once it has been freed. *)
Definition worth (s : sys) (id : nat) : Z :=
  match heap s !! id with Some nd => available (Some (ent nd)) (clock s) | None => 0 end.

Section Accounting.
Context (h2 : Z -> Z -> Z -> Z) (h3 : Z -> Z -> Z -> Z -> Z) (rl : ratelimiter) (workers : nat).
Abbreviation inv := (inv h2 h3 rl workers).
Abbreviation exec := (exec h2 h3 rl workers).
Abbreviation run := (run h2 h3 rl workers).
Context (sr : src).

(** The account of a source over an interval: [U] are the entries it has had, [L] those that are
    linked; [k] packets were let through and [v] entries evicted in [el] nanoseconds. *)
Record account (s : sys) (U L : list nat) (k v el : Z) : Prop := {
  ac_nodup : NoDup U;
  ac_nodup_linked : NoDup L;
  ac_linked id : id ∈ L <-> exists nd, linked s id nd /\ src_of nd = sr;
  ac_sub id : id ∈ L -> id ∈ U;
  ac_count : Z.of_nat (length U) = Z.of_nat (length L) + v;
  ac_fresh id : id ∈ U -> (id < fresh s)%nat;
  ac_src id nd : id ∈ U -> heap s !! id = Some nd -> src_of nd = sr;
  ac_held c sr' p x nd : calls s !! c = Some (sr', p) -> holds (heap s) p x -> heap s !! x = Some nd -> src_of nd = sr -> x ∈ U;
  ac_filled c sr' e : calls s !! c = Some (sr', Filled e) -> available (Some e) (clock s) + PACKET_COST <= TOKEN_MAX + el;
  ac_elapsed : 0 <= el;
  ac_sum : k * PACKET_COST + zsum (worth s) U <= Z.of_nat (length U) * (TOKEN_MAX + el)
}.

Lemma worth_range s id : inv s -> 0 <= worth s id <= TOKEN_MAX.
Proof.
  intros I. unfold worth. destruct (heap s !! id) as [nd|] eqn:E; rewrite TOKEN_MAX_val; [|lia].
  destruct (inv_entry _ _ _ _ _ I _ _ E). cbn. rewrite TOKEN_MAX_val in *. lia.
Qed.

(** A step that leaves entries, time and links as they are. *)
Lemma account_quiet s s' U L k v el :
  heap s' = heap s -> fresh s' = fresh s -> clock s' = clock s -> (forall x nd, linked s' x nd <-> linked s x nd) ->
  (forall c sr' p x, calls s' !! c = Some (sr', p) -> holds (heap s) p x ->
     (exists sr'' p', calls s !! c = Some (sr'', p') /\ holds (heap s) p' x) \/ exists nd, linked s x nd) ->
  (forall c sr' e, calls s' !! c = Some (sr', Filled e) ->
     calls s !! c = Some (sr', Filled e) \/ available (Some e) (clock s) + PACKET_COST <= TOKEN_MAX) ->
  account s U L k v el -> account s' U L k v el.
Proof.
  intros Hh Hf Hc Hl Hr He [A1 A2 A3 A4 A5 A6 A7 A8 A11 A9 A10]. constructor; try done.
  - intros x. rewrite A3. by setoid_rewrite Hl.
  - intros x Hx. rewrite Hf. by apply A6.
  - rewrite Hh. apply A7.
  - intros c sr' p x nd Hcl. rewrite Hh. intros Hx Hnd Hs. destruct (Hr _ _ _ _ Hcl Hx) as [(sr'' & p' & Hc' & Hx')|(nd' & [Hnd' Hd])].
    + by eapply A8.
    + apply A4, A3. exists nd'. split; [done|congruence].
  - intros c sr' e [Hx|Hx]%He; rewrite Hc; [by eapply A11|lia].
  - rewrite (zsum_ext (worth s) (worth s')); [done|]. intros x _. unfold worth. by rewrite Hh, Hc.
Qed.

(** The moves of a call at [c] that only read. *)
Lemma account_move s s' c sr' p p' U L k v el :
  heap s' = heap s -> fresh s' = fresh s -> clock s' = clock s -> (forall x nd, linked s' x nd <-> linked s x nd) ->
  calls s' = <[c := (sr', p')]> (calls s) \/ calls s' = delete c (calls s) -> calls s !! c = Some (sr', p) ->
  (forall x, holds (heap s) p' x -> holds (heap s) p x) ->
  (forall e, p' = Filled e -> available (Some e) (clock s) + PACKET_COST <= TOKEN_MAX) ->
  account s U L k v el -> account s' U L k v el.
Proof.
  intros Hh Hf Hck Hl Hcs Hc Hp He. apply account_quiet; try done.
  2: { intros c' sr0 e Hc'. destruct Hcs as [Hcs|Hcs]; rewrite Hcs in Hc'.
       - apply lookup_insert_Some in Hc' as [[<- [= <- ->]]|[Hne Hc']]; [right; by apply He|by left].
       - apply lookup_delete_Some in Hc' as [Hne Hc']. by left. }
  intros c' sr0 p0 x Hc' Hx. left.
  destruct Hcs as [Hcs|Hcs]; rewrite Hcs in Hc'.
  - apply lookup_insert_Some in Hc' as [[<- [= <- <-]]|[Hne Hc']]; [|by exists sr0, p0]. exists sr', p. split; [done|by apply Hp].
  - apply lookup_delete_Some in Hc' as [Hne Hc']. by exists sr0, p0.
Qed.

Lemma account_tick s d U L k v el : inv s -> 0 <= d -> account s U L k v el -> account (set_clock (clock s + d) s) U L k v (el + d).
Proof.
  intros I Hd [A1 A2 A3 A4 A5 A6 A7 A8 A11 A9 A10]. constructor; try done; [|lia|].
  { intros c sr' e He. pose proof (A11 _ _ _ He). cbn [clock set_clock].
    pose proof (available_later (Some e) (clock s) (clock s + d)). lia. }
  assert (zsum (worth (set_clock (clock s + d) s)) U <= zsum (worth s) U + Z.of_nat (length U) * d); [|lia].
  apply zsum_le. intros x _. unfold worth. cbn [heap set_clock clock]. destruct (heap s !! x) as [nd|]; [|lia].
  pose proof (available_later (Some (ent nd)) (clock s) (clock s + d)). lia.
Qed.

Lemma account_begin s c sr' U L k v el :
  inv s -> account s U L k v el -> account (set_pc c sr' (Walking (heads s !! bucket h2 h3 rl sr')) s) U L k v el.
Proof.
  intros I. apply account_quiet; try done.
  2: { intros c' sr0 e. cbn. rewrite lookup_insert_Some. intros [[_ [=]]|[_ ?]]. by left. }
  intros c' sr0 p0 x. cbn. rewrite lookup_insert_Some.
  intros [[<- [= <- <-]]|[Hne Hc']] Hx; [|left; by exists sr0, p0].
  right. destruct (inv_chain _ _ _ _ _ I (bucket h2 h3 rl sr')) as (l & H1 & _ & H3).
  apply (chain_reach _ _ _ H1), H3 in Hx as (nd & Hnd & _). by exists nd.
Qed.

Lemma account_take s c sr' id nd U L k v el :
  inv s -> clock s < 2 ^ 63 -> account s U L k v el -> calls s !! c = Some (sr', Found id) -> heap s !! id = Some nd ->
  let '(ret, e) := take_token (clock s) (ent nd) in
  account (end_call c (read_unlock c (set_heap (<[id := set_ent e nd]> (heap s)) s))) U L
    (k + passes sr [if ret then Passed sr' else Refused sr']) v el.
Proof.
  intros I Hck [A1 A2 A3 A4 A5 A6 A7 A8 A11 A9 A10] Hc Hid.
  pose proof (take_token_spec (clock s) (clock s) (ent nd) (inv_entry _ _ _ _ s I _ _ Hid) ltac:(lia)) as Ht.
  pose proof (call_found _ _ _ _ _ _ _ _ (inv_call _ _ _ _ s I _ _ _ Hc) id nd eq_refl Hid) as Hsr.
  destruct (take_token (clock s) (ent nd)) as [ret e]. destruct Ht as (_ & He & Hn & Hi & Hav).
  set (s' := end_call _ _).
  assert (Hse : src_of (set_ent e nd) = src_of nd) by (unfold src_of; cbn; by rewrite Hn, Hi).
  assert (Hlk : forall x y, heap s' !! x = Some y -> exists y0, heap s !! x = Some y0 /\ src_of y = src_of y0).
  { intros x y. cbn. rewrite lookup_insert_Some. intros [[<- <-]|[Hne Hx]]; [by exists nd|by exists y]. }
  assert (Hw : forall y, y <> id -> worth s' y = worth s y) by (intros y Hy; unfold worth; cbn; by rewrite lookup_insert_ne).
  assert (Hwid : worth s' id = worth s id - (if ret then PACKET_COST else 0)).
  { unfold worth. cbn [s' heap end_call read_unlock set_heap clock]. rewrite lookup_insert_eq, Hid. exact Hav. }
  assert (HN : links_of (heap s') = links_of (heap s)) by (by apply links_set_ent).
  constructor; try done.
  - intros x. rewrite A3. unfold linked. cbn. setoid_rewrite lookup_fmap. setoid_rewrite fmap_None.
    split; intros (y & [Hy Hd] & Hs).
    + destruct (decide (x = id)) as [->|Hne].
      * exists (set_ent e nd). rewrite lookup_insert_eq, Hse. rewrite Hid in Hy. by injection Hy as <-.
      * exists y. by rewrite lookup_insert_ne.
    + destruct (Hlk _ _ Hy) as (y0 & Hy0 & Hs0). exists y0. by rewrite <- Hs0.
  - intros x y Hx (y0 & Hy0 & ->)%Hlk. by apply (A7 x).
  - intros c' sr0 p x y. cbn [calls s' end_call read_unlock set_heap]. rewrite lookup_delete_Some. intros [_ Hc'] Hx (y0 & Hy0 & ->)%Hlk.
    apply (A8 c' sr0 p); [done| |done]. unfold holds in *. by rewrite <- HN.
  - intros c' sr0 e0. cbn [calls s' end_call read_unlock set_heap]. rewrite lookup_delete_Some. intros [_ Hc']. by eapply A11.
  - destruct (decide (sr' = sr)) as [->|Hne].
    + assert (id ∈ U) as Hin by (eapply (A8 c sr (Found id) id nd); done).
      rewrite (zsum_change (worth s) (worth s') U id) by done. rewrite Hwid. unfold passes. destruct ret; cbn [List.filter].
      * rewrite bool_decide_eq_true_2 by done. cbn [length]. lia.
      * cbn [length]. lia.
    + assert (id ∉ U) as Hin by (intros Hin; specialize (A7 _ _ Hin Hid); congruence).
      rewrite (zsum_ext (worth s) (worth s')) by (intros x Hx; apply Hw; by intros ->).
      unfold passes. destruct ret; cbn [List.filter]; rewrite ?bool_decide_eq_false_2 by done; cbn [length]; lia.
Qed.

Lemma account_link s c e v6 U L k v el :
  let sr' := (v6, net e, ip e) in
  inv s -> account s U L k v el -> calls s !! c = Some (sr', Filled e) ->
  exists U' L', account (end_call c (entry_link (bucket h2 h3 rl sr') e v6 c s)) U' L' (k + passes sr [Passed sr']) v el.
Proof.
  intros sr' I [A1 A2 A3 A4 A5 A6 A7 A8 A11 A9 A10] Hc.
  set (nd := {| ent := e; next := heads s !! bucket h2 h3 rl sr'; n_v6 := v6; n_by := c |}). set (s' := end_call _ _).
  assert (Hfh : heap s !! fresh s = None).
  { destruct (heap s !! fresh s) as [x|] eqn:E; [|done]. apply (inv_fresh _ _ _ _ _ I) in E. lia. }
  assert (Hfd : dying s !! fresh s = None).
  { destruct (dying s !! fresh s) as [x|] eqn:E; [|done]. apply (inv_dying _ _ _ _ _ I) in E as [? E]. congruence. }
  assert (Hlk : forall x y, linked s' x y <-> linked s x y \/ (x = fresh s /\ y = nd)).
  { intros x y. unfold linked. cbn. rewrite lookup_insert_Some. naive_solver congruence. }
  assert (HN : links_of (heap s') = <[fresh s := next nd]> (links_of (heap s))) by (cbn; by rewrite fmap_insert).
  assert (HwU : zsum (worth s') U = zsum (worth s) U).
  { apply zsum_ext. intros x Hx%A6. unfold worth. cbn. rewrite lookup_insert_ne by lia. done. }
  assert (Hheld : forall c' sr0 p x y, calls s' !! c' = Some (sr0, p) -> holds (heap s') p x -> heap s' !! x = Some y ->
    src_of y = sr -> x ∈ U).
  { intros c' sr0 p x y. cbn [calls s' end_call entry_link]. rewrite lookup_delete_Some. intros [Hne Hc'] Hx Hy Hs.
    pose proof (inv_call _ _ _ _ _ I _ _ _ Hc') as Hok.
    assert (holds (heap s) p x) as Hx0.
    { destruct p; try done. cbn [holds] in *. rewrite HN in Hx. eapply reach_insert; [|by rewrite lookup_fmap, Hfh|done].
      intros z Hz. destruct (call_holds _ _ _ _ _ _ _ _ Hok z Hz) as (y0 & Hy0 & _). rewrite lookup_fmap, Hy0. by eexists. }
    destruct (call_holds _ _ _ _ _ _ _ _ Hok x Hx0) as (y0 & Hy0 & _). cbn in Hy. rewrite lookup_insert_ne in Hy by congruence.
    exact (A8 _ _ _ _ _ Hc' Hx0 Hy Hs). }
  assert (Hfl : forall c' sr0 e0, calls s' !! c' = Some (sr0, Filled e0) -> available (Some e0) (clock s') + PACKET_COST <= TOKEN_MAX + el).
  { intros c' sr0 e0. cbn [calls s' end_call entry_link]. rewrite lookup_delete_Some. intros [_ Hc']. by eapply A11. }
  assert (Hsrc : src_of nd = sr') by done.
  destruct (decide (sr' = sr)) as [Heq|Hne].
  - exists (fresh s :: U), (fresh s :: L). assert (Hnf : fresh s ∉ U) by (intros Hx%A6; lia).
    constructor; try done.
    + by constructor.
    + constructor; [|done]. intros Hx%A4. done.
    + intros x. rewrite elem_of_cons, A3. setoid_rewrite Hlk. split.
      * intros [->|(y & Hy & Hs)]; [exists nd; split; [by right|congruence]|exists y; split; [by left|done]].
      * intros (y & [Hy|[-> ->]] & Hs); [right; by exists y|by left].
    + intros x. rewrite !elem_of_cons. intros [->|Hx]; [by left|right; by apply A4].
    + cbn [length]. lia.
    + intros x. rewrite elem_of_cons. cbn. intros [->|Hx%A6]; lia.
    + intros x y Hx. cbn. rewrite lookup_insert_Some. intros [[<- <-]|[Hne Hy]]; [by rewrite <- Heq|].
      apply elem_of_cons in Hx as [->|Hx]; [done|]. by apply (A7 x).
    + intros c' sr0 p x y H1 H2 H3 H4. apply list_elem_of_further. by eapply Hheld.
    + cbn [zsum foldr length]. fold (zsum (worth s') U). rewrite HwU. unfold passes. cbn [List.filter].
      rewrite bool_decide_eq_true_2 by done. cbn [length].
      assert (worth s' (fresh s) = available (Some e) (clock s)) as ->.
      { unfold worth. cbn [heap s' end_call entry_link clock]. by rewrite lookup_insert_eq. }
      pose proof (A11 _ _ _ Hc). lia.
  - exists U, L. constructor; try done.
    + intros x. rewrite A3. setoid_rewrite Hlk. split.
      * intros (y & Hy & Hs). exists y. split; [by left|done].
      * intros (y & [Hy|[-> ->]] & Hs); [by exists y|]. congruence.
    + intros x Hx%A6. cbn. lia.
    + intros x y Hx. cbn. pose proof (A6 x Hx). rewrite lookup_insert_ne by lia. by apply A7.
    + rewrite HwU. unfold passes. cbn [List.filter]. rewrite bool_decide_eq_false_2 by done. cbn [length]. lia.
Qed.

Lemma account_unlink s id nd now i v6 U L k v el :
  inv s -> linked s id nd -> bucket h2 h3 rl (src_of nd) = (v6, i) -> account s U L k v el ->
  exists L', account (set_sys_gc (GcIn now i v6 (next nd)) (entry_unlink (v6, i) id nd s)) U L' k
    (v + evictions sr [Evicted (src_of nd)]) el.
Proof.
  intros I Hid Hb [A1 A2 A3 A4 A5 A6 A7 A8 A11 A9 A10]. rewrite <- Hb. set (s1 := entry_unlink _ id nd s).
  set (s' := set_sys_gc _ s1).
  exists (filter (fun y => y <> id) L). constructor; try done.
  - by apply NoDup_filter.
  - intros x. rewrite list_elem_of_filter, A3. split.
    + intros [Hx (y & Hy & Hs)]. destruct (unlink_linked' h2 h3 rl s id nd x y Hy Hx) as (y' & Hy' & Hs').
      exists y'. rewrite Hs'. split; [exact Hy'|done].
    + intros (y & Hy & Hs). destruct (unlink_linked h2 h3 rl s id nd x y Hy) as (Hx & y0 & Hy0 & _ & Hs0 & _).
      split; [done|]. exists y0. by rewrite <- Hs0.
  - intros x [_ Hx]%list_elem_of_filter. by apply A4.
  - unfold evictions. cbn [List.filter]. case_bool_decide as Hs; cbn [length].
    + rewrite length_filter_present; [lia|done|]. apply A3. by exists nd.
    + rewrite filter_absent; [lia|]. intros (y & [Hy _] & Hys)%A3. destruct Hid as [Hid _]. congruence.
  - intros x y Hx Hy. destruct (unlink_heap h2 h3 rl s id nd x y Hy) as (y0 & Hy0 & _ & Hs0 & _). rewrite Hs0. by apply (A7 x).
  - intros c sr' p x y Hc Hx Hy Hs. destruct (unlink_heap h2 h3 rl s id nd x y Hy) as (y0 & Hy0 & _ & Hs0 & _).
    apply (A8 c sr' p x y0); [done| |done|congruence]. destruct p; try done. cbn [holds] in *.
    eapply reach_unlink; [apply (unlink_links h2 h3 rl s id nd)|by apply unlink_next|done].
  - rewrite (zsum_ext (worth s) (worth s')); [done|]. intros x _. unfold worth. cbn [clock s' set_sys_gc s1 entry_unlink].
    destruct (heap s' !! x) as [y|] eqn:E.
    + destruct (unlink_heap h2 h3 rl s id nd x y E) as (y0 & Hy0 & He & _). by rewrite Hy0, He.
    + destruct (heap s !! x) as [y0|] eqn:E0; [|done]. destruct (unlink_heap' h2 h3 rl s id nd x y0 E0) as (y & Hy & _).
      change (heap s' !! x = Some y) in Hy. congruence.
Qed.

Lemma account_free s id ev s' U L k v el :
  inv s -> account s U L k v el -> free_step id s = Some (ev, s') -> ev = Silent /\ account s' U L k v el.
Proof.
  intros I [A1 A2 A3 A4 A5 A6 A7 A8 A11 A9 A10]. unfold free_step. case_bool_decide as Hd; [|done].
  intros [= <- <-]. split; [done|]. set (s' := Build_sys _ _ _ _ _ _ _ _).
  assert (HN : links_of (heap s') = delete id (links_of (heap s))) by apply fmap_delete.
  constructor; try done.
  - intros x. rewrite A3. unfold linked. cbn. setoid_rewrite lookup_delete_Some. setoid_rewrite lookup_delete_None.
    split; intros (y & Hy & Hs); exists y; (split; [|done]); [|naive_solver].
    destruct Hy as [Hy Hyd]. assert (id <> x) by congruence. naive_solver.
  - intros x y Hx. cbn. intros [_ Hy]%lookup_delete_Some. by apply (A7 x).
  - intros c sr' p x y Hc Hx. cbn [heap s']. intros [_ Hy]%lookup_delete_Some. apply (A8 c sr' p x y Hc); [|done].
    destruct p; try done. cbn [holds] in *. rewrite HN in Hx. eapply reach_subset; [|done]. apply delete_subseteq.
  - assert (zsum (worth s') U <= zsum (worth s) U + Z.of_nat (length U) * 0); [|lia]. apply zsum_le. intros x _.
    pose proof (worth_range s x I). unfold worth in *. cbn [heap s' clock]. destruct (decide (id = x)) as [->|Hne].
    + rewrite lookup_delete_eq. lia.
    + rewrite lookup_delete_ne by done. lia.
Qed.

Lemma account_step s a ev s' U L k v el :
  inv s -> clock s < 2 ^ 63 -> account s U L k v el -> exec a s = Some (ev, s') ->
  exists U' L', account s' U' L' (k + passes sr [ev]) (v + evictions sr [ev]) (el + (clock s' - clock s)).
Proof.
  intros I Hck A. assert (Hz : forall s1 U1 L1 k1 v1 d, account s1 U1 L1 k1 v1 el -> d = 0 -> account s1 U1 L1 k1 v1 (el + d))
    by (intros ?????? ? ->; by rewrite Z.add_0_r).
  destruct a as [d|c sr'|c alloc| |id]; cbn.
  - destruct (Z.leb_spec 0 d); [|done]. intros [= <- <-]. exists U, L. cbn [passes evictions List.filter length Z.of_nat].
    rewrite !Z.add_0_r. replace (clock _ - clock s) with d by (cbn; lia). by apply account_tick.
  - unfold begin_call. case_if; [|done]. intros [= <- <-]. exists U, L. apply Hz; [|cbn; lia].
    rewrite !Z.add_0_r. by apply account_begin.
  - unfold allow_step. destruct (calls s !! c) as [[[[vv n] i] p]|] eqn:Hc; cbn [mbind option_bind]; [|done].
    destruct p as [[id|]|id| | |e|].
    + destruct (heap s !! id) as [nd|] eqn:Hid; cbn [mbind option_bind]; [|done]. intros [= <- <-].
      exists U, L. apply Hz; [|cbn; lia]. rewrite !Z.add_0_r.
      eapply (account_move s); [done|done|done|done|by left|done| |intros ?; by case_if|done].
      intros x. case_if; cbn [holds]; [intros ->; constructor|]. intros Hx. eapply reach_next; [|done]. by rewrite lookup_fmap, Hid.
    + intros [= <- <-]. exists U, L. apply Hz; [|cbn; lia]. rewrite !Z.add_0_r.
      eapply (account_move s); [done|done|done|apply linked_unlock|by left|done|done|done|done].
    + destruct (heap s !! id) as [nd|] eqn:Hid; cbn [mbind option_bind]; [|done].
      pose proof (account_take s c (vv, n, i) id nd U L k v el I Hck A Hc Hid) as Ht.
      destruct (take_token (clock s) (ent nd)) as [ret e]. intros [= <- <-]. exists U, L. apply Hz; [|cbn; lia].
      assert (evictions sr [if ret then Passed (vv, n, i) else Refused (vv, n, i)] = 0) as -> by (by destruct ret).
      by rewrite Z.add_0_r.
    + intros [= <- <-]. exists U, L. apply Hz; [|cbn; lia]. rewrite !Z.add_0_r.
      eapply (account_move s); [done|done|done|done|by left|done|intros ?; by case_if|intros ?; by case_if|done].
    + intros [= <- <-]. exists U, L. apply Hz; [|cbn; lia]. rewrite !Z.add_0_r.
      eapply (account_move s); [done|done|done|done|by left|done|intros ?; by destruct alloc| |done].
      intros e. destruct alloc; [|done]. intros [= <-]. unfold available. cbn [tokens last_time_ns].
      rewrite TOKEN_MAX_val, PACKET_COST_val. lia.
    + destruct (gc_locked s); [done|]. intros [= <- <-].
      destruct (call_filled _ _ _ _ _ _ _ _ (inv_call _ _ _ _ s I _ _ _ Hc) e eq_refl) as [_ [= <- <-]].
      destruct (account_link s c e vv U L k v el I A Hc) as (U' & L' & A'). exists U', L'. apply Hz; [|cbn; lia].
      by rewrite Z.add_0_r.
    + intros [= <- <-]. exists U, L. apply Hz; [|cbn; lia]. rewrite !Z.add_0_r.
      eapply (account_move s); [done|done|done|done|by right|done| | |done]; [instantiate (1 := Failing)|]; done.
  - assert (Hq : forall g, account (set_sys_gc g s) U L k v el).
    { intros g. eapply (account_quiet s); [done|done|done|done| | |done]; [|by left]. intros c' sr0 p0 x Hc' Hx. left. by exists sr0, p0. }
    unfold gc_step. pose proof (inv_gc _ _ _ _ s I) as Hg. unfold gc_ok in Hg.
    destruct (gc s) as [|now i|now i v6 [id|]|now i v6 id temp].
    + intros [= <- <-]. exists U, L. apply Hz; [|cbn; lia]. rewrite !Z.add_0_r. apply Hq.
    + case_if; intros [= <- <-]; exists U, L; (apply Hz; [|cbn; lia]); rewrite !Z.add_0_r; apply Hq.
    + destruct (heap s !! id); cbn [mbind option_bind]; [|done]. intros [= <- <-]. exists U, L. apply Hz; [|cbn; lia].
      rewrite !Z.add_0_r. apply Hq.
    + intros [= <- <-]. exists U, L. apply Hz; [|cbn; lia]. rewrite !Z.add_0_r. apply Hq.
    + destruct Hg as (nd & Hnd & Hb & <-). rewrite (proj1 Hnd). cbn [mbind option_bind]. intros [= <- <-].
      destruct (account_unlink s id nd now i v6 U L k v el I Hnd Hb A) as (L' & A').
      exists U, L'. apply Hz; [|cbn; lia]. change (passes sr [Evicted _]) with 0. rewrite Z.add_0_r.
      assert ((v6, net (ent nd), ip (ent nd)) = src_of nd) as ->; [|done].
      apply (f_equal fst) in Hb. rewrite bucket_v6 in Hb. cbn in Hb. unfold src_of. by rewrite Hb.
  - intros Hf. destruct (account_free s id ev s' U L k v el I A Hf) as [-> A']. exists U, L. apply Hz.
    + by rewrite !Z.add_0_r.
    + unfold free_step in Hf. case_if; [|done]. injection Hf as <-. cbn. lia.
Qed.

Lemma account_run acts s es s' U L k v el :
  inv s -> account s U L k v el -> run acts s = Some (es, s') -> clock s' < 2 ^ 63 ->
  exists U' L', account s' U' L' (k + passes sr es) (v + evictions sr es) (el + (clock s' - clock s)).
Proof.
  revert s es U L k v el. induction acts as [|a acts IH]; intros s es U L k v el I A; cbn.
  - intros [= <- <-] _. exists U, L. rewrite Z.sub_diag, !Z.add_0_r. done.
  - destruct (exec a s) as [[ev s1]|] eqn:E; cbn; [|done]. destruct (run acts s1) as [[es1 s2]|] eqn:R; cbn; [|done].
    intros [= <- <-] Hck. pose proof (exec_clock _ _ _ _ _ _ _ _ E). pose proof (run_clock _ _ _ _ _ _ _ _ R).
    destruct (account_step s a ev s1 U L k v el I ltac:(lia) A E) as (U1 & L1 & A1).
    destruct (IH s1 es1 U1 L1 _ _ _ ltac:(eapply exec_inv; [done|lia|done]) A1 R Hck) as (U2 & L2 & A2).
    exists U2, L2. rewrite passes_cons, evictions_cons.
    replace (k + (passes sr [ev] + passes sr es1)) with (k + passes sr [ev] + passes sr es1) by lia.
    replace (v + (evictions sr [ev] + evictions sr es1)) with (v + evictions sr [ev] + evictions sr es1) by lia.
    by replace (el + (clock s2 - clock s)) with (el + (clock s1 - clock s) + (clock s2 - clock s1)) by lia.
Qed.

Definition linked_of (s : sys) : list nat :=
  elements (dom (filter (fun kv => dying s !! kv.1 = None /\ src_of kv.2 = sr) (heap s))).

Lemma elem_of_linked_of s id : id ∈ linked_of s <-> exists nd, linked s id nd /\ src_of nd = sr.
Proof.
  unfold linked_of. rewrite elem_of_elements, elem_of_dom. unfold is_Some, linked. setoid_rewrite map_lookup_filter_Some.
  cbn. naive_solver.
Qed.

Lemma NoDup_linked_of s : NoDup (linked_of s).
Proof. unfold linked_of. apply NoDup_elements. Qed.

(** The account begins with no call under way. *)
Lemma account_start s : inv s -> calls s = ∅ -> account s (linked_of s) (linked_of s) 0 0 0.
Proof.
  intros I Hc. constructor; try (apply NoDup_linked_of || lia || done).
  - apply elem_of_linked_of.
  - intros x (nd & [Hx _] & _)%elem_of_linked_of. by eapply inv_fresh.
  - intros x nd (nd' & [Hx _] & Hs)%elem_of_linked_of Hnd. congruence.
  - intros c sr' p x nd. rewrite Hc. done.
  - intros c sr' e. rewrite Hc. done.
  - assert (zsum (worth s) (linked_of s) <= zsum (fun _ => 0) (linked_of s) + Z.of_nat (length (linked_of s)) * TOKEN_MAX).
    { apply zsum_le. intros x _. pose proof (worth_range s x I). lia. }
    rewrite zsum_zero in *. lia.
Qed.

(** A worker has at most one linked entry of a source. *)
Lemma linked_workers s L : inv s -> NoDup L -> (forall id, id ∈ L -> exists nd, linked s id nd /\ src_of nd = sr) ->
  (length L <= workers)%nat.
Proof.
  intros I Hnd HL. set (by_of := fun id => match heap s !! id with Some nd => n_by nd | None => 0%nat end).
  assert (length (by_of <$> L) <= length (seq 0 workers))%nat as Hle; [|by rewrite length_fmap, length_seq in Hle].
  apply submseteq_length, NoDup_submseteq.
  - apply NoDup_fmap_2_strong; [|done]. intros x y (nx & Hx & Hsx)%HL (ny & Hy & Hsy)%HL. unfold by_of.
    rewrite (proj1 Hx), (proj1 Hy). intros Hb. eapply inv_uniq; [done|done|done|done|congruence].
  - intros w (x & -> & (nd & Hx & _)%HL)%list_elem_of_fmap. unfold by_of. rewrite (proj1 Hx).
    apply elem_of_seq. pose proof (inv_by _ _ _ _ _ I _ _ Hx). lia.
Qed.
End Accounting.


(** ** Live entries and their number *)

Definition calls_in (f : pc -> bool) (m : gmap nat (src * pc)) : Z :=
  Z.of_nat (size (filter (fun kv => f kv.2.2 = true) m)).
Definition in_state (f : pc -> bool) (o : option (src * pc)) : Z :=
  match o with Some (_, p) => if f p then 1 else 0 | None => 0 end.

(** Calls that [total_entries] counts, and those of them that may still link an entry. *)
Definition counted (p : pc) : bool := match p with Reserved | Filled _ | Failing => true | _ => false end.
Definition linking (p : pc) : bool := match p with Reserved | Filled _ => true | _ => false end.

Lemma calls_in_delete f m c : calls_in f (delete c m) = calls_in f m - in_state f (m !! c).
Proof.
  unfold calls_in, in_state. rewrite map_filter_delete, map_size_delete.
  destruct (filter _ m !! c) as [[sr p]|] eqn:E.
  - pose proof E as Hn. apply map_lookup_filter_Some in E as [-> Hp]. cbn in Hp. rewrite Hp.
    assert (0 < size (filter (fun kv => f kv.2.2 = true) m))%nat; [|lia].
    destruct (size _) eqn:Es; [|lia]. apply map_size_empty_inv in Es. by rewrite Es in Hn.
  - unfold id. destruct (m !! c) as [[sr p]|] eqn:Em; [|lia]. destruct (f p) eqn:Ef; [|lia].
    apply map_lookup_filter_None in E as [E|E]; [congruence|]. by destruct (E (sr, p) Em).
Qed.

Lemma calls_in_insert f m c sr p : calls_in f (<[c := (sr, p)]> m) = calls_in f m - in_state f (m !! c) + in_state f (Some (sr, p)).
Proof.
  rewrite <- calls_in_delete, <- insert_delete_eq. unfold calls_in, in_state.
  rewrite map_filter_insert. cbn. case_decide as Hd; rewrite ?delete_delete_eq.
  - rewrite Hd, map_size_insert_None; [lia|]. rewrite map_lookup_filter_None. left. apply lookup_delete_eq.
  - destruct (f p); [done|lia].
Qed.

Section Bounded.
Context (h2 : Z -> Z -> Z -> Z) (h3 : Z -> Z -> Z -> Z -> Z) (rl : ratelimiter) (workers : nat).
Context (Hmax : 0 <= max_entries rl /\ max_entries rl + Z.of_nat workers < 2 ^ 32 - 1).
Abbreviation exec := (exec h2 h3 rl workers).
Abbreviation run := (run h2 h3 rl workers).

Record bounded (s : sys) : Prop := {
  bd_total : total s = Z.of_nat (size (heap s)) + calls_in counted (calls s);
  bd_max : Z.of_nat (size (heap s)) + calls_in linking (calls s) <= max_entries rl;
  bd_workers c x : calls s !! c = Some x -> (c < workers)%nat;
  bd_fresh id nd : heap s !! id = Some nd -> (id < fresh s)%nat;
  bd_dying id W : dying s !! id = Some W -> is_Some (heap s !! id)
}.

Lemma calls_in_workers f s : bounded s -> calls_in f (calls s) <= Z.of_nat workers.
Proof.
  intros B. unfold calls_in.
  assert (size (filter (fun kv => f kv.2.2 = true) (calls s)) <= size (list_to_set (C := gset nat) (seq 0 workers)))%nat as Hle.
  - rewrite <- size_dom. apply subseteq_size. intros c [x [Hc _]%map_lookup_filter_Some]%elem_of_dom.
    apply elem_of_list_to_set, elem_of_seq. pose proof (bd_workers s B _ _ Hc). lia.
  - rewrite size_list_to_set, length_seq in Hle by apply NoDup_seq. lia.
Qed.

(** The step of a call that changes neither the entries nor their count. *)
Lemma bounded_move s s' c sr p p' :
  bounded s -> calls s !! c = Some (sr, p) -> heap s' = heap s -> dying s' = dying s \/ dying s' = (fun W => W ∖ {[c]}) <$> dying s ->
  fresh s' = fresh s -> calls s' = <[c := (sr, p')]> (calls s) ->
  total s' = total s + in_state counted (Some (sr, p')) - in_state counted (Some (sr, p)) ->
  (linking p' = true -> linking p = true \/ total s + 1 <= max_entries rl) ->
  bounded s'.
Proof.
  intros [B1 B2 B3 B4 B5] Hc Hh Hd Hf Hcs Ht Hl.
  assert (0 <= calls_in counted (calls s) - calls_in linking (calls s)) as Hcl.
  { unfold calls_in. assert (size (filter (fun kv => linking kv.2.2 = true) (calls s)) <= size (filter (fun kv => counted kv.2.2 = true) (calls s)))%nat; [|lia].
    apply map_subseteq_size, map_filter_subseteq_ext. intros c' [sr' q] _. cbn. by destruct q. }
  constructor; rewrite ?Hh, ?Hcs, ?Hf.
  - rewrite calls_in_insert, Hc. lia.
  - rewrite calls_in_insert, Hc. cbn [in_state] in *. destruct (linking p') eqn:E; [|destruct (linking p); lia].
    destruct (Hl eq_refl) as [->|Hm]; [lia|]. destruct (linking p); lia.
  - intros c' x. rewrite lookup_insert_Some. intros [[<- _]|[_ Hx]]; by eapply B3.
  - done.
  - intros id W Hx. destruct Hd as [Hd|Hd]; rewrite Hd in Hx; [by eapply B5|].
    rewrite lookup_fmap, fmap_Some in Hx. destruct Hx as (W0 & Hx & _). by eapply B5.
Qed.

Lemma bounded_step s a ev s' : bounded s -> exec a s = Some (ev, s') -> bounded s'.
Proof.
  intros B. pose proof B as [B1 B2 B3 B4 B5]. destruct a as [d|c sr|c alloc| |id]; cbn.
  - destruct (Z.leb_spec 0 d); [|done]. by intros [= <- <-].
  - unfold begin_call. case_if; [|done]. bool_to_prop. apply bool_decide_eq_true in H, H0. intros [= <- <-].
    constructor; cbn; rewrite ?calls_in_insert, ?H0; cbn; try lia; try done.
    intros c' x. rewrite lookup_insert_Some. intros [[<- _]|[_ Hx]]; [done|by eapply B3].
  - unfold allow_step. destruct (calls s !! c) as [[[[v n] i] p]|] eqn:Hc; cbn [mbind option_bind]; [|done].
    destruct p as [[id|]|id| | |e|].
    + destruct (heap s !! id) as [nd|] eqn:Hid; cbn [mbind option_bind]; [|done]. intros [= <- <-].
      eapply (bounded_move s _ c); [done|done|done|by left|done|done| |]; case_if; cbn; (lia || done).
    + intros [= <- <-]. eapply (bounded_move s _ c); [done|done|done|by right|done|done|cbn; lia|done].
    + destruct (heap s !! id) as [nd|] eqn:Hid; cbn [mbind option_bind]; [|done]. destruct (take_token _ _) as [ret e].
      assert (size (<[id := set_ent e nd]> (heap s)) = size (heap s)) as Hsz by (apply map_size_insert_Some; by eexists).
      intros [= <- <-]. constructor; cbn; rewrite ?calls_in_delete, ?Hc, ?Hsz; cbn; try lia.
      * intros c' x [_ Hx]%lookup_delete_Some. by eapply B3.
      * intros x y. rewrite lookup_insert_Some. intros [[<- _]|[_ Hx]]; by eapply B4.
      * intros x W. rewrite lookup_fmap, fmap_Some. intros (W0 & HW0 & _). apply lookup_insert_is_Some'. right. by eapply B5.
    + intros [= <- <-]. pose proof (calls_in_workers counted s B) as Hw.
      assert (0 <= total s + 1 < 2 ^ 32) as Ht by (unfold calls_in in *; lia).
      eapply (bounded_move s _ c); [done|done|done|by left|done|done| |].
      * case_if; cbn; lia.
      * case_if; cbn; [done|]. intros _. right. bool_to_prop. cbn [total set_sys_total] in *.
        rewrite wrap_small in * by done. lia.
    + intros [= <- <-]. eapply (bounded_move s _ c); [done|done|done|by left|done|done| |]; destruct alloc; cbn; (lia || by left).
    + destruct (gc_locked s); [done|]. intros [= <- <-].
      assert (heap s !! fresh s = None) as Hf by (destruct (heap s !! fresh s) eqn:E; [apply B4 in E; lia|done]).
      constructor; cbn; rewrite ?calls_in_delete, ?Hc, ?map_size_insert_None by done; cbn; try lia.
      * intros c' x [_ Hx]%lookup_delete_Some. by eapply B3.
      * intros x y. rewrite lookup_insert_Some. intros [[<- _]|[_ Hx]]; [lia|]. apply B4 in Hx. lia.
      * intros x W Hx. apply lookup_insert_is_Some'. right. by eapply B5.
    + intros [= <- <-]. constructor; cbn; rewrite ?calls_in_delete, ?Hc; cbn; try lia; try done.
      intros c' x [_ Hx]%lookup_delete_Some. by eapply B3.
  - unfold gc_step. destruct (gc s) as [|now i|now i v6 [id|]|now i v6 id temp]; try (by intros [= <- <-]).
    + case_if; by intros [= <- <-].
    + destruct (heap s !! id); cbn [mbind option_bind]; [|done]. by intros [= <- <-].
    + destruct (heap s !! id) as [nd|] eqn:Hid; cbn [mbind option_bind]; [|done]. intros [= <- <-].
      assert (Hs : dom (map_imap (fun j m => Some (if bool_decide (next m = Some id /\ dying s !! j = None) then set_next (next nd) m else m)) (heap s)) = dom (heap s)).
      { apply set_eq. intros x. rewrite !elem_of_dom, map_lookup_imap. unfold is_Some. destruct (heap s !! x); cbn; naive_solver. }
      constructor; cbn; rewrite <- ?size_dom, ?Hs, ?size_dom; try done.
      * intros x y. rewrite map_lookup_imap, bind_Some. intros (y0 & Hx & _). by eapply B4.
      * intros x W. rewrite lookup_insert_Some, map_lookup_imap. intros [[<- _]|[_ Hx]]; [rewrite Hid; by eexists|].
        apply B5 in Hx as [? ->]. by eexists.
  - unfold free_step. case_bool_decide as Hd; [|done]. intros [= <- <-]. destruct (B5 id ∅ Hd) as [nd Hid].
    assert (0 < size (heap s))%nat as Hpos.
    { destruct (size (heap s)) eqn:Es; [|lia]. apply map_size_empty_inv in Es. by rewrite Es in Hid. }
    constructor; cbn; rewrite ?map_size_delete, ?Hid; try lia; try done.
    + intros x y [_ Hx]%lookup_delete_Some. by eapply B4.
    + intros x W [Hne Hx]%lookup_delete_Some. rewrite lookup_delete_ne by done. by eapply B5.
Qed.

Lemma bounded_run acts s es s' : bounded s -> run acts s = Some (es, s') -> bounded s'.
Proof.
  revert s es. induction acts as [|a acts IH]; intros s es B; cbn; [by intros [= <- <-]|].
  destruct (exec a s) as [[ev s1]|] eqn:E; cbn; [|done]. destruct (run acts s1) as [[es1 s2]|] eqn:R; cbn; [|done].
  intros [= <- <-]. eapply IH; [|done]. by eapply bounded_step.
Qed.

Lemma bounded_initial t : bounded (initial t).
Proof. constructor; cbn; try done; try lia. by rewrite map_size_empty; unfold calls_in; rewrite map_filter_empty, map_size_empty; lia. Qed.
End Bounded.
(** ** The properties *)

(** C22: the rate of one source is bounded. However the workers and the garbage collection interleave, over an interval that begins with no
    call under way, the packets of one source (one IPv4 address, one IPv6 /64) that are let through
    are at most, for each worker and for each time the collector has evicted an entry of the source
    in the interval, five plus one per 50 ms elapsed: workers that miss at the same time insert an
    entry each, and an eviction forgets what the source has used. With one worker and no eviction
    this is the rate of the limiter. *)
Theorem ratelimiter_rate_bound h2 h3 rl workers t0 acts0 es0 s0 acts es s sr :
  0 <= t0 -> run h2 h3 rl workers acts0 (initial t0) = Some (es0, s0) -> calls s0 = ∅ ->
  run h2 h3 rl workers acts s0 = Some (es, s) -> clock s < 2 ^ 63 ->
  passes sr es * PACKET_COST <=
    (Z.of_nat workers + evictions sr es) * (PACKETS_BURSTABLE * PACKET_COST + (clock s - clock s0)).
Proof.
  intros Ht R0 Hc R Hck. pose proof (run_clock _ _ _ _ _ _ _ _ R) as Hle.
  assert (I0 : inv h2 h3 rl workers s0) by (eapply run_inv; [by apply initial_inv|done|lia]).
  assert (I : inv h2 h3 rl workers s) by (by eapply run_inv).
  destruct (account_run h2 h3 rl workers sr acts s0 es s _ _ 0 0 0 I0 (account_start h2 h3 rl workers sr s0 I0 Hc) R Hck)
    as (U & L & A).
  pose proof (linked_workers h2 h3 rl workers sr s L I (ac_nodup_linked _ _ _ _ _ _ _ A) (fun id => proj1 (ac_linked _ _ _ _ _ _ _ A id))).
  pose proof (ac_sum _ _ _ _ _ _ _ A) as Hs. pose proof (ac_count _ _ _ _ _ _ _ A).
  assert (Hw : zsum (fun _ => 0) U <= zsum (worth s) U + Z.of_nat (length U) * 0).
  { apply zsum_le. intros x _. pose proof (worth_range h2 h3 rl workers s x I). lia. }
  rewrite zsum_zero in Hw.
  change (PACKETS_BURSTABLE * PACKET_COST) with TOKEN_MAX. rewrite TOKEN_MAX_val in *. nia.
Qed.

(** C24: the tables of the rate limiter stay intact. However the workers and the collector interleave, no call and no step of the collector ever
    reads an entry that has been freed (a call can always take its next step, except that it may
    have to wait for [table_lock]), [total_entries] counts the entries and the calls that have
    reserved one, and there are never more entries than [max_entries]. *)
Theorem ratelimiter_entries_safe h2 h3 rl workers t0 acts es s :
  0 <= t0 -> 0 <= max_entries rl /\ max_entries rl + Z.of_nat workers < 2 ^ 32 - 1 ->
  run h2 h3 rl workers acts (initial t0) = Some (es, s) -> clock s < 2 ^ 63 ->
  (forall c alloc, allow_step h2 h3 rl c alloc s = None ->
     calls s !! c = None \/ exists sr e, calls s !! c = Some (sr, Filled e) /\ gc_locked s = true) /\
  gc_step rl s <> None /\
  total s = Z.of_nat (size (heap s)) + calls_in counted (calls s) /\
  Z.of_nat (size (heap s)) <= max_entries rl.
Proof.
  intros Ht Hm R Hck. assert (I : inv h2 h3 rl workers s) by (eapply run_inv; [by apply initial_inv|done|done]).
  destruct (bounded_run h2 h3 rl workers Hm acts _ es s (bounded_initial rl workers Hm t0) R) as [B1 B2 _ _ _].
  split; [|split; [|split; [done|unfold calls_in in B2; lia]]].
  - intros c alloc. unfold allow_step. destruct (calls s !! c) as [[[[v n] i] p]|] eqn:Hc; cbn [mbind option_bind]; [|by left].
    pose proof (call_holds _ _ _ _ _ _ _ _ (inv_call _ _ _ _ s I _ _ _ Hc)) as Hh.
    destruct p as [[id|]|id| | |e|]; try done.
    + destruct (Hh id) as (nd & -> & _); [constructor|done].
    + destruct (Hh id) as (nd & -> & _); [done|]. cbn [mbind option_bind]. by destruct (take_token _ _).
    + destruct (gc_locked s); [|done]. right. by exists (v, n, i), e.
  - unfold gc_step. pose proof (inv_gc _ _ _ _ s I) as Hg. unfold gc_ok in Hg.
    destruct (gc s) as [|now i|now i v6 [id|]|now i v6 id temp]; try done; [by case_if| |].
    + destruct Hg as (nd & [-> _] & _). done.
    + destruct Hg as (nd & [-> _] & _). done.
Qed.

(** C37: the garbage collection may evict an entry that is in use. [now] is sampled once, before the first bucket;
    for an entry that a packet has touched since, [now - entry->last_time_ns] is negative, as a [u64]
    more than a second, and the entry is unlinked. Its source is forgotten and may send a burst
    again. *)
Theorem gc_evicts_active_entry h2 h3 rl workers t0 acts es s now i v6 id nd :
  0 <= t0 -> run h2 h3 rl workers acts (initial t0) = Some (es, s) -> clock s < 2 ^ 63 ->
  gc s = GcIn now i v6 (Some id) -> heap s !! id = Some nd -> 0 <= now < last_time_ns (ent nd) ->
  exists s', run h2 h3 rl workers [Gc; Gc] s = Some ([Silent; Evicted (src_of nd)], s') /\
    clock s' = clock s /\ forall nd', ~ linked s' id nd'.
Proof.
  intros Ht R Hck Hg Hid Hlast. assert (I : inv h2 h3 rl workers s) by (eapply run_inv; [by apply initial_inv|done|done]).
  destruct (inv_entry _ _ _ _ s I _ _ Hid) as [_ Hl].
  pose proof (inv_gc _ _ _ _ s I) as Hok. unfold gc_ok in Hok. rewrite Hg in Hok. destruct Hok as (nd0 & [Hnd Hd] & Hb).
  assert (nd0 = nd) as -> by congruence.
  assert (Hev : gc_evicts true now (ent nd) = true).
  { unfold gc_evicts. cbn [negb orb]. apply Z.ltb_lt. unfold wrap.
    rewrite <- (Z.mod_unique_pos (now - last_time_ns (ent nd)) (2 ^ 64) (-1) (now - last_time_ns (ent nd) + 2 ^ 64)); lia. }
  set (s1 := set_sys_gc (GcUnlink now i v6 id (next nd)) s).
  assert (E1 : gc_step rl s = Some (Silent, s1)) by (unfold gc_step; rewrite Hg, Hid; cbn [mbind option_bind]; by rewrite Hev).
  assert (E2 : gc_step rl s1 = Some (Evicted (v6, net (ent nd), ip (ent nd)),
    set_sys_gc (GcIn now i v6 (next nd)) (entry_unlink (v6, i) id nd s1))).
  { unfold gc_step, s1. cbn [gc set_sys_gc heap]. by rewrite Hid. }
  eexists. cbn [run exec]. rewrite E1. cbn [mbind option_bind]. rewrite E2. cbn [mbind option_bind].
  split; [apply (f_equal fst) in Hb; rewrite bucket_v6 in Hb; cbn in Hb; unfold src_of; by rewrite Hb|].
  split; [done|]. intros nd' [_ Hx]. cbn in Hx. by rewrite lookup_insert_eq in Hx.
Qed.

(** ** Examples *)

(** Five packets of one source at one time, between the moment the collector has sampled its clock and
    the moment it comes to their bucket. *)
Definition ex_sr : src := (false, 0, 1).
Definition ex_packet (found : bool) : list action := Begin 0 ex_sr :: replicate (if found then 2 else 4) (Call 0 true).
Definition ex_race : list action :=
  [Gc; Tick 1] ++ ex_packet false ++ mjoin (replicate 4 (ex_packet true)) ++ [Gc].
Definition ex_zero2 (a b k : Z) : Z := 0.
Definition ex_zero3 (a b c k : Z) : Z := 0.

Definition sys_of (o : option (list event * sys)) : sys := match o with Some (_, s) => s | None => initial 0 end.
Definition events_of (o : option (list event * sys)) : list event := match o with Some (es, _) => es | None => [] end.
Definition ex_raced : sys := sys_of (run ex_zero2 ex_zero3 ex_limiter 1 ex_race (initial 0)).

(** Two workers that miss at the same time and insert an entry each. *)
Definition ex_two : list action :=
  [Begin 0 ex_sr; Begin 1 ex_sr] ++ replicate 4 (Call 0 true) ++ replicate 4 (Call 1 true).
Definition ex_two_run : option (list event * sys) := run ex_zero2 ex_zero3 ex_limiter 2 ex_two (initial 0).

Lemma ratelimiter_rate_bound_witness :
  passes ex_sr (events_of ex_two_run) = 2 /\ passes ex_sr (events_of ex_two_run) * PACKET_COST <=
    (Z.of_nat 2 + evictions ex_sr (events_of ex_two_run)) *
    (PACKETS_BURSTABLE * PACKET_COST + (clock (sys_of ex_two_run) - clock (initial 0))).
Proof.
  split; [vm_compute; reflexivity|].
  apply (ratelimiter_rate_bound ex_zero2 ex_zero3 ex_limiter 2 0 [] [] (initial 0) ex_two);
    [lia|vm_compute; reflexivity..].
Defined.

Lemma ratelimiter_entries_safe_witness : Z.of_nat (size (heap ex_raced)) <= max_entries ex_limiter.
Proof.
  apply (ratelimiter_entries_safe ex_zero2 ex_zero3 ex_limiter 1 0 ex_race
    (events_of (run ex_zero2 ex_zero3 ex_limiter 1 ex_race (initial 0))) ex_raced);
    [lia|vm_compute; split; [discriminate|reflexivity]|vm_compute; reflexivity|vm_compute; reflexivity].
Defined.

(** The source whose entry is evicted in this run has sent five packets, and sends a sixth at once. *)
Lemma gc_evicts_active_entry_witness :
  passes ex_sr (events_of (run ex_zero2 ex_zero3 ex_limiter 1 (ex_race ++ [Gc; Gc; Gc; Gc] ++ ex_packet false) (initial 0))) = 6 /\
  exists nd s', run ex_zero2 ex_zero3 ex_limiter 1 [Gc; Gc] ex_raced = Some ([Silent; Evicted (src_of nd)], s') /\ src_of nd = ex_sr.
Proof.
  split; [vm_compute; reflexivity|].
  destruct (heap ex_raced !! 0%nat) as [nd|] eqn:E; [|exfalso; vm_compute in E; discriminate].
  destruct (gc_evicts_active_entry ex_zero2 ex_zero3 ex_limiter 1 0 ex_race
    (events_of (run ex_zero2 ex_zero3 ex_limiter 1 ex_race (initial 0))) ex_raced 0 0 false 0 nd)
    as (s' & R & _); [lia|vm_compute; reflexivity|vm_compute; reflexivity|vm_compute; reflexivity|exact E| |].
  - vm_compute in E. injection E as <-. vm_compute. split; [discriminate|reflexivity].
  - exists nd, s'. split; [exact R|]. vm_compute in E. injection E as <-. reflexivity.
Defined.
