(* ===== verification/PeerLookup.v ===== *)
(** * PeerLookup: peerlookup.c, the tables from public keys to peers and from indices to sessions

    [struct index_hashtable_entry] is embedded in a handshake or in a keypair; the entries are
    named by the object they are embedded in. A hash bucket is the list of its entries, the head
    first. Random numbers are arguments; the walks of the buckets and the locked updates are
    atomic, and [wg_index_hashtable_insert] is also given as the separate steps between which
    other processors run. *)

From S2P Require Import Prelude Skb.

Abbreviation peer_id := positive.
Abbreviation keypair_id := positive.

(** enum index_hashtable_type *)
Definition INDEX_HASHTABLE_HANDSHAKE : Z := 1.
Definition INDEX_HASHTABLE_KEYPAIR : Z := 2.

(** The object an entry is embedded in. *)
Inductive entry_id := Handshake (p : peer_id) | Keypair (k : keypair_id).

#[export] Instance entry_id_eq_dec : EqDecision entry_id.
Proof. solve_decision. Defined.
#[export] Instance entry_id_countable : Countable entry_id.
Proof.
  apply (inj_countable' (fun e => match e with Handshake p => inl p | Keypair k => inr k end)
                        (fun s => match s with inl p => Handshake p | inr k => Keypair k end)).
  by intros [].
Defined.

Record index_hashtable_entry := {
  e_peer : option peer_id;
  e_hashed : bool;   (** [!hlist_unhashed(&entry->index_hash)] *)
  e_type : Z;
  e_index : Z
}.

(** The table with the entries of all handshakes and keypairs of the device. *)
Record index_hashtable := {
  ix_hashtable : gmap Z (list entry_id);
  ix_entries : gmap entry_id index_hashtable_entry
}.

(** ** The index table *)

Definition INDEX_HASH_BITS : Z := 13.

Definition index_bucket (index : Z) : Z := Z.land index (2 ^ INDEX_HASH_BITS - 1).

Definition bucket (t : index_hashtable) (b : Z) : list entry_id := default [] (ix_hashtable t !! b).

Definition wg_index_hashtable_alloc : index_hashtable := {| ix_hashtable := ∅; ix_entries := ∅ |}.

Definition set_entry (e : entry_id) (en : index_hashtable_entry) (t : index_hashtable) : index_hashtable :=
  {| ix_hashtable := ix_hashtable t; ix_entries := <[e := en]> (ix_entries t) |}.

Definition with_index (i : Z) (en : index_hashtable_entry) : index_hashtable_entry :=
  {| e_peer := e_peer en; e_hashed := e_hashed en; e_type := e_type en; e_index := i |}.
Definition with_hashed (b : bool) (en : index_hashtable_entry) : index_hashtable_entry :=
  {| e_peer := e_peer en; e_hashed := b; e_type := e_type en; e_index := e_index en |}.
Definition with_peer (p : option peer_id) (en : index_hashtable_entry) : index_hashtable_entry :=
  {| e_peer := p; e_hashed := e_hashed en; e_type := e_type en; e_index := e_index en |}.

(** [hlist_del_init_rcu(&entry->index_hash)] *)
Definition hlist_del_init (e : entry_id) (t : index_hashtable) : index_hashtable :=
  {| ix_hashtable := List.filter (fun e' => negb (bool_decide (e' = e))) <$> ix_hashtable t;
     ix_entries := alter (with_hashed false) e (ix_entries t) |}.

(** [hlist_add_head_rcu(&entry->index_hash, bucket)] *)
Definition hlist_add_head (e : entry_id) (b : Z) (t : index_hashtable) : index_hashtable :=
  {| ix_hashtable := <[b := e :: bucket t b]> (ix_hashtable t);
     ix_entries := alter (with_hashed true) e (ix_entries t) |}.

(** Does a walk over the bucket meet an entry with this index? *)
Definition index_in_use (t : index_hashtable) (index : Z) : bool :=
  existsb (fun e => match ix_entries t !! e with Some en => e_index en =? index | None => false end)
          (bucket t (index_bucket index)).

(** The steps of [wg_index_hashtable_insert]. *)
Definition insert_unlink (e : entry_id) (t : index_hashtable) : index_hashtable := hlist_del_init e t.

(** An unlocked look at a random index: the entry gets it, and whether it looks free. *)
Definition insert_search (e : entry_id) (random : Z) (t : index_hashtable) : bool * index_hashtable :=
  let t := {| ix_hashtable := ix_hashtable t; ix_entries := alter (with_index random) e (ix_entries t) |} in
  (negb (index_in_use t random), t).

(** The locked second look, and the insertion. *)
Definition insert_commit (e : entry_id) (t : index_hashtable) : option (bool * index_hashtable) :=
  en ← ix_entries t !! e;
  if index_in_use t (e_index en) then Some (false, t)
  else Some (true, hlist_add_head e (index_bucket (e_index en)) t).

(** The loop over the random numbers drawn; [None] when they run out. *)
Fixpoint insert_loop (e : entry_id) (randoms : list Z) (t : index_hashtable) : option (Z * index_hashtable) :=
  match randoms with
  | [] => None
  | r :: randoms =>
      let '(free, t) := insert_search e r t in
      if free then
        '(won, t) ← insert_commit e t;
        if won : bool then Some (r, t) else insert_loop e randoms t
      else insert_loop e randoms t
  end.

Definition wg_index_hashtable_insert (e : entry_id) (randoms : list Z) (t : index_hashtable)
  : option (Z * index_hashtable) := insert_loop e randoms (insert_unlink e t).

(** [hlist_replace_rcu] puts [new] where [old] was. *)
Definition wg_index_hashtable_replace (old new : entry_id) (t : index_hashtable) : option (bool * index_hashtable) :=
  o ← ix_entries t !! old;
  if negb (e_hashed o) then Some (false, t)
  else
    Some (true,
      {| ix_hashtable := map (fun e => if bool_decide (e = old) then new else e) <$> ix_hashtable t;
         ix_entries := alter (with_hashed false) old
                         (alter (fun n => with_hashed true (with_index (e_index o) n)) new (ix_entries t)) |}).

Definition wg_index_hashtable_remove (e : entry_id) (t : index_hashtable) : index_hashtable := hlist_del_init e t.

(** The walk of [wg_index_hashtable_lookup]: the first entry with the index. *)
Fixpoint lookup_walk (t : index_hashtable) (es : list entry_id) (index : Z) : option (entry_id * index_hashtable_entry) :=
  match es with
  | [] => None
  | e :: es =>
      match ix_entries t !! e with
      | Some en => if e_index en =? index then Some (e, en) else lookup_walk t es index
      | None => lookup_walk t es index
      end
  end.

(** [get_maybe_zero p] tells whether a reference on [p] could be taken; the entry and the peer
    found, with the table, in which [entry->peer] is overwritten. *)
Definition wg_index_hashtable_lookup (get_maybe_zero : peer_id -> bool) (type_mask index : Z) (t : index_hashtable)
  : option (entry_id * peer_id) * index_hashtable :=
  match lookup_walk t (bucket t (index_bucket index)) index with
  | Some (e, en) =>
      if Z.land (e_type en) type_mask =? 0 then (None, t)
      else
        match e_peer en with
        | Some p =>
            if get_maybe_zero p then (Some (e, p), t) else (None, set_entry e (with_peer None en) t)
        | None => (None, t)
        end
  | None => (None, t)
  end.

(** ** The public-key table *)

Definition PUBKEY_HASH_BITS : Z := 11.

Record pubkey_hashtable := { pk_key : Z; pk_hashtable : gmap Z (list peer_id) }.

Section Pubkey.
(** linux/siphash.h *)
Context (siphash : bytes -> Z -> Z).

Definition pubkey_bucket (t : pubkey_hashtable) (pubkey : bytes) : Z :=
  Z.land (siphash pubkey (pk_key t)) (2 ^ PUBKEY_HASH_BITS - 1).

Definition pk_bucket (t : pubkey_hashtable) (b : Z) : list peer_id := default [] (pk_hashtable t !! b).

Definition wg_pubkey_hashtable_alloc (random_key : Z) : pubkey_hashtable :=
  {| pk_key := random_key; pk_hashtable := ∅ |}.

(** [remote_static p] is [p->handshake.remote_static], which never changes. *)
Definition wg_pubkey_hashtable_add (remote_static : bytes) (p : peer_id) (t : pubkey_hashtable) : pubkey_hashtable :=
  let b := pubkey_bucket t remote_static in
  {| pk_key := pk_key t; pk_hashtable := <[b := p :: pk_bucket t b]> (pk_hashtable t) |}.

Definition wg_pubkey_hashtable_remove (p : peer_id) (t : pubkey_hashtable) : pubkey_hashtable :=
  {| pk_key := pk_key t;
     pk_hashtable := List.filter (fun q => negb (bool_decide (q = p))) <$> pk_hashtable t |}.

Definition wg_pubkey_hashtable_lookup (remote_static : peer_id -> option bytes) (get_maybe_zero : peer_id -> bool)
    (pubkey : bytes) (t : pubkey_hashtable) : option peer_id :=
  p ← List.find (fun q => match remote_static q with Some k => bytes_eqb pubkey k | None => false end)
                (pk_bucket t (pubkey_bucket t pubkey));
  if get_maybe_zero p then Some p else None.
End Pubkey.

(** ** What the tables promise *)

(** [index] leads to the entry [e]. *)
Definition holds (t : index_hashtable) (index : Z) (e : entry_id) : Prop :=
  exists en, ix_entries t !! e = Some en /\ e_hashed en = true /\ e_index en = index.

Record ix_ok (t : index_hashtable) : Prop := {
  ix_bucket_nodup b : NoDup (bucket t b);
  ix_in_bucket b e : e ∈ bucket t b <->
    exists en, ix_entries t !! e = Some en /\ e_hashed en = true /\ index_bucket (e_index en) = b;
  ix_unique i e e' : holds t i e -> holds t i e' -> e = e'
}.
