(* ===== verification/PeerLookupProps.v ===== *)
(** * PeerLookupProps: the index table is a finite map from indices to sessions

    Every operation of the table is described by its effect on [holds]; two entries never hold the
    same index, also when insertions of several processors interleave between their unlocked
    search and their locked commit. *)

From S2P Require Import Prelude Skb PeerLookup.

Definition unhashed (t : index_hashtable) (e : entry_id) : Prop :=
  exists en, ix_entries t !! e = Some en /\ e_hashed en = false.

Lemma holds_fun t e i i' : holds t i e -> holds t i' e -> i = i'.
Proof. intros (en & H1 & _ & H2) (en' & H1' & _ & H2'). congruence. Qed.

Lemma holds_in_bucket t i e : ix_ok t -> holds t i e -> e ∈ bucket t (index_bucket i).
Proof. intros O (en & H1 & H2 & H3). apply (ix_in_bucket _ O). exists en. by rewrite H3. Qed.

(** ** Deleting *)

Lemma bucket_del e t b : bucket (hlist_del_init e t) b = List.filter (fun e' => negb (bool_decide (e' = e))) (bucket t b).
Proof. unfold bucket, hlist_del_init; cbn. rewrite lookup_fmap. by destruct (ix_hashtable t !! b). Qed.

Lemma entries_del e t e' en :
  ix_entries (hlist_del_init e t) !! e' = Some en <->
  exists en0, ix_entries t !! e' = Some en0 /\ en = if decide (e' = e) then with_hashed false en0 else en0.
Proof.
  cbn. destruct (decide (e' = e)) as [->|Hne].
  - rewrite lookup_alter_eq. destruct (ix_entries t !! e); cbn; naive_solver.
  - rewrite lookup_alter_ne by congruence. naive_solver.
Qed.

Lemma holds_del e t i e' : holds (hlist_del_init e t) i e' <-> holds t i e' /\ e' <> e.
Proof.
  unfold holds. setoid_rewrite entries_del. split.
  - intros (en & (en0 & H1 & ->) & H2 & H3). case_decide; [done|]. split; [|done]. by exists en0.
  - intros ((en & H1 & H2 & H3) & Hne). exists en. split; [|done]. exists en. by rewrite decide_False.
Qed.

Lemma ix_ok_del e t : ix_ok t -> ix_ok (hlist_del_init e t).
Proof.
  intros O. split.
  - intros b. rewrite bucket_del. rewrite NoDup_ListNoDup. apply List.NoDup_filter, NoDup_ListNoDup, O.
  - intros b e'. rewrite bucket_del, list_elem_of_In, filter_In, <- list_elem_of_In, negb_true_iff, bool_decide_eq_false.
    rewrite (ix_in_bucket _ O). setoid_rewrite entries_del. split.
    + intros [(en & H1 & H2 & H3) Hne]. exists en. split; [|done]. exists en. by rewrite decide_False.
    + intros (en & (en0 & H1 & ->) & H2 & H3). case_decide; [done|]. split; [|done]. by exists en0.
  - intros i e1 e2 [H1 _]%holds_del [H2 _]%holds_del. by eapply (ix_unique _ O).
Qed.

Lemma unhashed_del e t : is_Some (ix_entries t !! e) -> unhashed (hlist_del_init e t) e.
Proof.
  intros [en H]. exists (with_hashed false en). split; [|done]. apply entries_del. exists en. by rewrite decide_True.
Qed.

(** ** Searching *)

Lemma index_in_use_spec t i : ix_ok t -> index_in_use t i = true <-> exists e, holds t i e.
Proof.
  intros O. unfold index_in_use. rewrite existsb_exists. setoid_rewrite <- list_elem_of_In. split.
  - intros (e & Hin & He). apply (ix_in_bucket _ O) in Hin as (en & H1 & H2 & _).
    rewrite H1 in He. apply Z.eqb_eq in He. exists e, en. done.
  - intros (e & He). exists e. split; [by apply holds_in_bucket|]. destruct He as (en & H1 & _ & H3).
    rewrite H1. by apply Z.eqb_eq.
Qed.

Lemma lookup_walk_spec t i e en :
  ix_ok t ->
  lookup_walk t (bucket t (index_bucket i)) i = Some (e, en) <-> holds t i e /\ ix_entries t !! e = Some en.
Proof.
  intros O.
  assert (Hw : forall es, (forall e', e' ∈ es -> e' ∈ bucket t (index_bucket i)) ->
    lookup_walk t es i = Some (e, en) <-> e ∈ es /\ holds t i e /\ ix_entries t !! e = Some en).
  { induction es as [|e0 es IH]; intros Hsub; cbn [lookup_walk].
    - rewrite elem_of_nil. naive_solver.
    - assert (Hin0 : e0 ∈ bucket t (index_bucket i)) by (apply Hsub; rewrite elem_of_cons; by left).
      apply (ix_in_bucket _ O) in Hin0 as (en0 & H1 & H2 & H3).
      rewrite H1, elem_of_cons. destruct (Z.eqb_spec (e_index en0) i) as [Hi|Hi].
      + assert (H0 : holds t i e0) by (by exists en0). split.
        * intros [= <- <-]. auto.
        * intros (_ & He & Hen). pose proof (ix_unique _ O i e0 e H0 He) as <-. congruence.
      + rewrite IH by (intros e' ?; apply Hsub; rewrite elem_of_cons; by right). split; [tauto|].
        intros ([->|?] & (en' & H1' & Hh' & ?) & ?); [congruence|]. split; [done|]. split; [by exists en'|done]. }
  rewrite Hw by done. split; [tauto|]. intros [H1 H2]. split; [by apply holds_in_bucket|done].
Qed.

(** ** Changing the index of an entry that is in no bucket *)

Definition set_index (e : entry_id) (r : Z) (t : index_hashtable) : index_hashtable :=
  {| ix_hashtable := ix_hashtable t; ix_entries := alter (with_index r) e (ix_entries t) |}.

Lemma set_index_entries e r t e' en :
  ix_entries (set_index e r t) !! e' = Some en <->
  exists en0, ix_entries t !! e' = Some en0 /\ en = if decide (e' = e) then with_index r en0 else en0.
Proof.
  cbn. destruct (decide (e' = e)) as [->|Hne].
  - rewrite lookup_alter_eq. destruct (ix_entries t !! e); cbn; naive_solver.
  - rewrite lookup_alter_ne by congruence. naive_solver.
Qed.

Lemma holds_set_index e r t i e' : unhashed t e -> holds (set_index e r t) i e' <-> holds t i e'.
Proof.
  intros (ne & Hn1 & Hn2). unfold holds. setoid_rewrite set_index_entries. split.
  - intros (en & (en0 & H1 & ->) & H2 & H3). case_decide; [subst; cbn in *; congruence|]. by exists en0.
  - intros (en & H1 & H2 & H3). exists en. split; [|done]. exists en. split; [done|].
    rewrite decide_False; [done|]. intros ->. congruence.
Qed.

Lemma ix_ok_set_index e r t : ix_ok t -> unhashed t e -> ix_ok (set_index e r t).
Proof.
  intros O Hu. split.
  - apply O.
  - intros b e'. change (bucket (set_index e r t) b) with (bucket t b). rewrite (ix_in_bucket _ O).
    setoid_rewrite set_index_entries. destruct Hu as (ne & Hn1 & Hn2). split.
    + intros (en & H1 & H2 & H3). exists en. split; [|done]. exists en. split; [done|].
      rewrite decide_False; [done|]. intros ->. congruence.
    + intros (en & (en0 & H1 & ->) & H2 & H3). case_decide; [subst; cbn in *; congruence|]. by exists en0.
  - intros i e1 e2 H1%holds_set_index H2%holds_set_index; [|done..]. by eapply (ix_unique _ O).
Qed.

(** ** Adding *)

Lemma entries_add e b t e' en :
  ix_entries (hlist_add_head e b t) !! e' = Some en <->
  exists en0, ix_entries t !! e' = Some en0 /\ en = if decide (e' = e) then with_hashed true en0 else en0.
Proof.
  cbn. destruct (decide (e' = e)) as [->|Hne].
  - rewrite lookup_alter_eq. destruct (ix_entries t !! e); cbn; naive_solver.
  - rewrite lookup_alter_ne by congruence. naive_solver.
Qed.

Lemma add_spec e t en :
  ix_ok t -> ix_entries t !! e = Some en -> e_hashed en = false -> (forall e', ~ holds t (e_index en) e') ->
  let t' := hlist_add_head e (index_bucket (e_index en)) t in
  ix_ok t' /\ forall i e', holds t' i e' <-> (i, e') = (e_index en, e) \/ holds t i e'.
Proof.
  intros O He Hh Hfree t'.
  assert (Hhold : forall i e', holds t' i e' <-> (i, e') = (e_index en, e) \/ holds t i e').
  { intros i e'. unfold holds, t'. setoid_rewrite entries_add. split.
    - intros (en1 & (en0 & H1 & ->) & H2 & H3). case_decide as Hd.
      + subst e'. left. cbn in H3. congruence.
      + right. by exists en0.
    - intros [[= -> ->]|(en0 & H1 & H2 & H3)].
      + exists (with_hashed true en). split; [|done]. exists en. by rewrite decide_True.
      + exists en0. split; [|done]. exists en0. split; [done|]. rewrite decide_False; [done|]. intros ->. congruence. }
  assert (Hb : forall b, bucket t' b = if decide (b = index_bucket (e_index en)) then e :: bucket t b else bucket t b).
  { intros b. unfold bucket at 1, t', hlist_add_head; cbn. rewrite lookup_insert.
    destruct (decide (b = index_bucket (e_index en))) as [->|]; [by rewrite decide_True|by rewrite decide_False by congruence]. }
  split; [|done]. split.
  - intros b. rewrite Hb. case_decide; [|apply O]. apply NoDup_cons. split; [|apply O].
    intros Hin. apply (ix_in_bucket _ O) in Hin as (en' & H1 & H2 & _). congruence.
  - intros b e'. rewrite Hb. unfold t'. setoid_rewrite entries_add. split.
    + intros Hin. assert (e' = e /\ b = index_bucket (e_index en) \/ e' ∈ bucket t b) as [[-> ->]|Hin'].
      { case_decide; [|tauto]. rewrite elem_of_cons in Hin. tauto. }
      * exists (with_hashed true en). split; [|done]. exists en. by rewrite decide_True.
      * apply (ix_in_bucket _ O) in Hin' as (en' & H1 & H2 & H3). exists en'. split; [|done]. exists en'.
        split; [done|]. rewrite decide_False; [done|]. intros ->. congruence.
    + intros (en1 & (en0 & H1 & ->) & H2 & H3). destruct (decide (e' = e)) as [->|Hne].
      * assert (en0 = en) as -> by congruence. cbn in H3. subst b. rewrite decide_True by done. rewrite elem_of_cons. by left.
      * assert (e' ∈ bucket t b) by (apply (ix_in_bucket _ O); by exists en0).
        case_decide; [rewrite elem_of_cons; by right|done].
  - intros i e1 e2 [E1|H1]%Hhold [E2|H2]%Hhold; simplify_eq; try done.
    + by apply Hfree in H2.
    + by apply Hfree in H1.
    + by eapply (ix_unique _ O).
Qed.

(** ** Replacing *)

Lemma replace_spec old new t o n :
  ix_ok t -> ix_entries t !! old = Some o -> ix_entries t !! new = Some n -> e_hashed n = false -> old <> new ->
  exists t', wg_index_hashtable_replace old new t = Some (e_hashed o, t') /\ ix_ok t' /\
    (e_hashed o = false -> t' = t) /\
    (e_hashed o = true -> unhashed t' old /\
       forall i e, holds t' i e <-> (e = new /\ i = e_index o) \/ (e <> old /\ e <> new /\ holds t i e)).
Proof.
  intros O Ho Hn Hnh Hne. unfold wg_index_hashtable_replace. rewrite Ho. cbn [mbind option_bind].
  destruct (e_hashed o) eqn:Eh; cbn [negb]; [|by exists t].
  set (t' := {| ix_hashtable := _; ix_entries := _ |}). exists t'. split; [done|].
  assert (Hent : forall e, ix_entries t' !! e = if decide (e = old) then Some (with_hashed false o)
    else if decide (e = new) then Some (with_hashed true (with_index (e_index o) n)) else ix_entries t !! e).
  { intros e. unfold t'; cbn. destruct (decide (e = old)) as [->|H1].
    - rewrite lookup_alter_eq, lookup_alter_ne by congruence. by rewrite Ho.
    - rewrite lookup_alter_ne by congruence. destruct (decide (e = new)) as [->|H2].
      + by rewrite lookup_alter_eq, Hn.
      + by rewrite lookup_alter_ne by congruence. }
  assert (Hhold : forall i e, holds t' i e <-> (e = new /\ i = e_index o) \/ (e <> old /\ e <> new /\ holds t i e)).
  { intros i e. unfold holds. rewrite Hent. destruct (decide (e = old)) as [->|H1].
    - split; [intros (? & [= <-] & ? & _); done|]. intros [[-> _]|(? & _)]; done.
    - destruct (decide (e = new)) as [->|H2].
      + split; [intros (? & [= <-] & _ & <-); by left|]. intros [[_ ->]|(_ & ? & _)]; [|done]. by eexists.
      + naive_solver. }
  assert (Hb : forall b, bucket t' b = map (fun e => if bool_decide (e = old) then new else e) (bucket t b)).
  { intros b. unfold bucket, t'; cbn. rewrite lookup_fmap. by destruct (ix_hashtable t !! b). }
  assert (Hnew : forall b, new ∉ bucket t b).
  { intros b Hin. apply (ix_in_bucket _ O) in Hin as (en & H1 & H2 & _). congruence. }
  split; [|split; [done|]].
  - split.
    + intros b. rewrite Hb. apply NoDup_fmap_2_strong; [|apply O]. intros e1 e2 H1 H2.
      do 2 case_bool_decide; subst; try done; intros ->; by destruct (Hnew b).
    + intros b e. rewrite Hb, list_elem_of_fmap, Hent. split.
      * intros (e0 & -> & Hin). case_bool_decide as Hd.
        -- subst e0. apply (ix_in_bucket _ O) in Hin as (o' & H1 & _ & H3). assert (o' = o) as -> by congruence.
           rewrite decide_False, decide_True by congruence. eexists. split; [done|]. by rewrite <- H3.
        -- rewrite !decide_False; [|by intros ->; by apply (Hnew b)|done]. by apply (ix_in_bucket _ O) in Hin.
      * intros (en & H1 & H2 & H3). destruct (decide (e = old)) as [->|Hd].
        { injection H1 as <-. done. }
        destruct (decide (e = new)) as [->|Hd2].
        -- injection H1 as <-. exists old. rewrite bool_decide_true by done. split; [done|].
           apply (ix_in_bucket _ O). exists o. cbn in H3. done.
        -- exists e. rewrite bool_decide_false by done. split; [done|]. apply (ix_in_bucket _ O). by exists en.
    + intros i e1 e2 H1%Hhold H2%Hhold.
      assert (Hold : holds t (e_index o) old) by (by exists o).
      destruct H1 as [[-> ->]|(A1 & A2 & A3)], H2 as [[-> B]|(B1 & B2 & B3)]; try done.
      * by destruct B1; eapply (ix_unique _ O).
      * subst i. by destruct A1; eapply (ix_unique _ O).
      * by eapply (ix_unique _ O).
  - intros _. split; [|done]. exists (with_hashed false o). split; [|done]. by rewrite Hent, decide_True.
Qed.

(** ** The whole insertion *)

Lemma insert_search_spec e r t :
  ix_ok t -> unhashed t e ->
  exists free t', insert_search e r t = (free, t') /\ t' = set_index e r t /\ ix_ok t' /\ unhashed t' e /\
    (free = true <-> forall e', ~ holds t r e').
Proof.
  intros O Hu. unfold insert_search. fold (set_index e r t). do 2 eexists. split; [done|]. split; [done|].
  pose proof (ix_ok_set_index e r t O Hu) as O'. split; [done|]. split.
  - destruct Hu as (en & H1 & H2). exists (with_index r en). split; [|done]. apply set_index_entries.
    exists en. by rewrite decide_True.
  - rewrite negb_true_iff, <- not_true_iff_false, (index_in_use_spec _ _ O'). setoid_rewrite (holds_set_index e r t); [|done].
    naive_solver.
Qed.

Lemma insert_commit_spec e t en :
  ix_ok t -> ix_entries t !! e = Some en -> e_hashed en = false ->
  exists won t', insert_commit e t = Some (won, t') /\ ix_ok t' /\
    (won = true -> (forall e', ~ holds t (e_index en) e') /\
       forall i e', holds t' i e' <-> (i, e') = (e_index en, e) \/ holds t i e') /\
    (won = false -> t' = t /\ exists e', holds t (e_index en) e').
Proof.
  intros O He Hh. unfold insert_commit. rewrite He. cbn [mbind option_bind].
  destruct (index_in_use t (e_index en)) eqn:Eu.
  - apply (index_in_use_spec _ _ O) in Eu. exists false, t. done.
  - assert (Hfree : forall e', ~ holds t (e_index en) e').
    { intros e' H. rewrite (proj2 (index_in_use_spec t (e_index en) O)) in Eu; [done|]. by exists e'. }
    destruct (add_spec e t en O He Hh Hfree) as [O' Hold]. do 2 eexists. split; [done|]. split; [done|]. done.
Qed.

Lemma insert_loop_spec e rs t :
  ix_ok t -> unhashed t e -> (exists r, r ∈ rs /\ forall e', ~ holds t r e') ->
  exists r t', insert_loop e rs t = Some (r, t') /\ r ∈ rs /\ ix_ok t' /\ (forall e', ~ holds t r e') /\
    forall i e', holds t' i e' <-> (i, e') = (r, e) \/ holds t i e'.
Proof.
  revert t. induction rs as [|r rs IH]; intros t O Hu (r0 & Hr0 & Hfree0); [by apply elem_of_nil in Hr0|].
  cbn [insert_loop]. destruct (insert_search_spec e r t O Hu) as (free & t1 & -> & Ht1 & O1 & Hu1 & Hf).
  assert (Hsame : forall i e', holds t1 i e' <-> holds t i e') by (intros; subst t1; by apply holds_set_index).
  destruct free.
  - destruct Hu1 as (en & He & Hh).
    destruct (insert_commit_spec e t1 en O1 He Hh) as (won & t2 & -> & O2 & Hw & Hl). cbn [mbind option_bind].
    assert (Hen : e_index en = r).
    { rewrite Ht1 in He. apply set_index_entries in He as (en0 & _ & ->). by rewrite decide_True. }
    destruct won.
    + destruct (Hw eq_refl) as [Hno Hold]. exists r, t2. rewrite Hen in *.
      split; [done|]. split; [rewrite elem_of_cons; by left|]. split; [done|].
      split; [intros e'; by rewrite <- Hsame|]. intros i e'. by rewrite Hold, Hsame.
    + destruct (Hl eq_refl) as (_ & e' & He'). rewrite Hen, Hsame in He'. exfalso. by eapply (proj1 Hf eq_refl).
  - destruct (IH t1 O1 Hu1) as (r' & t2 & E & Hin & O2 & Hno & Hold).
    { exists r0. split; [|intros e'; rewrite Hsame; apply Hfree0].
      apply elem_of_cons in Hr0 as [->|?]; [|done]. exfalso. by apply Hf in Hfree0. }
    exists r', t2. split; [done|]. split; [rewrite elem_of_cons; by right|]. split; [done|].
    split; [intros e'; by rewrite <- Hsame|]. intros i e'. by rewrite Hold, Hsame.
Qed.

Lemma insert_spec e rs t :
  ix_ok t -> is_Some (ix_entries t !! e) -> (exists r, r ∈ rs /\ forall e', e' <> e -> ~ holds t r e') ->
  exists r t', wg_index_hashtable_insert e rs t = Some (r, t') /\ r ∈ rs /\ ix_ok t' /\
    (forall e', e' <> e -> ~ holds t r e') /\
    forall i e', holds t' i e' <-> (i, e') = (r, e) \/ (e' <> e /\ holds t i e').
Proof.
  intros O Hs (r0 & Hr0 & Hfree). unfold wg_index_hashtable_insert, insert_unlink.
  destruct (insert_loop_spec e rs (hlist_del_init e t)) as (r & t' & E & Hin & O' & Hno & Hold).
  - by apply ix_ok_del.
  - by apply unhashed_del.
  - exists r0. split; [done|]. intros e' [H Hne]%holds_del. by eapply Hfree.
  - exists r, t'. split; [done|]. split; [done|]. split; [done|]. split.
    + intros e' Hne H. apply (Hno e'), holds_del. done.
    + intros i e'. rewrite Hold, holds_del. tauto.
Qed.

(** An insertion that returns has found a free index. *)
Lemma insert_loop_free e rs t r t' :
  ix_ok t -> unhashed t e -> insert_loop e rs t = Some (r, t') -> exists r0, r0 ∈ rs /\ forall e', ~ holds t r0 e'.
Proof.
  revert t. induction rs as [|r0 rs IH]; intros t O Hu H; [done|]. cbn [insert_loop] in H.
  destruct (insert_search_spec e r0 t O Hu) as (free & t1 & E & Ht1 & O1 & Hu1 & Hf). rewrite E in H. destruct free.
  - exists r0. split; [rewrite elem_of_cons; by left|]. by apply Hf.
  - destruct (IH t1 O1 Hu1 H) as (r1 & Hin & Hfree). exists r1. split; [rewrite elem_of_cons; by right|].
    intros e' He. apply (Hfree e'). subst t1. by apply holds_set_index.
Qed.

Lemma insert_result e rs t r t' :
  ix_ok t -> is_Some (ix_entries t !! e) -> wg_index_hashtable_insert e rs t = Some (r, t') ->
  ix_ok t' /\ holds t' r e.
Proof.
  intros O Hs H. pose proof (ix_ok_del e t O) as Od. pose proof (unhashed_del e t Hs) as Ud.
  destruct (insert_loop_spec e rs _ Od Ud (insert_loop_free _ _ _ _ _ Od Ud H)) as (r' & t2 & E & _ & O' & _ & Hold).
  unfold wg_index_hashtable_insert, insert_unlink in H. rewrite E in H. injection H as -> ->.
  split; [done|]. apply Hold. by left.
Qed.

(** No operation but [keypair_create] and the lookup touches the type and the peer of an entry. *)
Definition static_part (en : index_hashtable_entry) : Z * option peer_id := (e_type en, e_peer en).

Lemma static_part_alter f e (m : gmap entry_id index_hashtable_entry) e' :
  (forall en, static_part (f en) = static_part en) -> static_part <$> alter f e m !! e' = static_part <$> m !! e'.
Proof.
  intros Hf. destruct (decide (e = e')) as [->|]; [|by rewrite lookup_alter_ne].
  rewrite lookup_alter_eq. destruct (m !! e'); cbn; [by rewrite Hf|done].
Qed.

Lemma insert_loop_static e rs t r t' e' :
  insert_loop e rs t = Some (r, t') -> static_part <$> ix_entries t' !! e' = static_part <$> ix_entries t !! e'.
Proof.
  revert t. induction rs as [|r0 rs IH]; intros t H; [done|]. cbn [insert_loop insert_search] in H.
  set (t1 := {| ix_hashtable := _; ix_entries := _ |}) in H.
  assert (H1 : static_part <$> ix_entries t1 !! e' = static_part <$> ix_entries t !! e') by (by apply static_part_alter).
  rewrite <- H1. case_if; [|by apply IH]. unfold insert_commit in H. destruct (ix_entries t1 !! e) as [en|]; [|done].
  cbn [mbind option_bind] in H. destruct (index_in_use t1 (e_index en)); cbn [mbind option_bind] in H; [by apply IH|].
  injection H as <- <-. by apply static_part_alter.
Qed.

Lemma insert_static e rs t r t' e' :
  wg_index_hashtable_insert e rs t = Some (r, t') -> static_part <$> ix_entries t' !! e' = static_part <$> ix_entries t !! e'.
Proof.
  intros H. rewrite (insert_loop_static _ _ _ _ _ _ H). by apply static_part_alter.
Qed.

(** ** Looking up *)

Lemma lookup_table get mask i t : ix_ok t ->
  let t' := snd (wg_index_hashtable_lookup get mask i t) in
  ix_ok t' /\ (forall i' e, holds t' i' e <-> holds t i' e) /\ (forall e, unhashed t e -> unhashed t' e).
Proof.
  intros O t'.
  assert (Hset : forall e en q, ix_entries t !! e = Some en -> let t2 := set_entry e (with_peer q en) t in
    ix_ok t2 /\ (forall i' e', holds t2 i' e' <-> holds t i' e') /\ (forall e', unhashed t e' -> unhashed t2 e')).
  { intros e en q He t2.
    assert (Hent : forall e', ix_entries t2 !! e' = if decide (e' = e) then Some (with_peer q en) else ix_entries t !! e').
    { intros e'. unfold t2; cbn. destruct (decide (e' = e)) as [->|]; [apply lookup_insert_eq|by apply lookup_insert_ne]. }
    assert (Hh : forall i' e', holds t2 i' e' <-> holds t i' e').
    { intros i' e'. unfold holds. rewrite Hent. destruct (decide (e' = e)) as [->|]; [|done]. rewrite He. split.
      - intros (? & [= <-] & ? & ?). by exists en.
      - intros (? & [= <-] & ? & ?). by exists (with_peer q en). }
    split; [|split; [done|]].
    - split; [apply O| |intros ???; rewrite !Hh; apply O].
      intros b e'. change (bucket t2 b) with (bucket t b). rewrite (ix_in_bucket _ O), Hent.
      destruct (decide (e' = e)) as [->|]; [|done]. rewrite He. split.
      + intros (? & [= <-] & ? & ?). by exists (with_peer q en).
      + intros (? & [= <-] & ? & ?). by exists en.
    - intros e' (en' & H1 & H2). unfold unhashed. rewrite Hent. destruct (decide (e' = e)) as [->|]; [|by exists en'].
      exists (with_peer q en). split; [done|]. cbn. congruence. }
  unfold t', wg_index_hashtable_lookup. destruct (lookup_walk t _ i) as [[e en]|] eqn:Ew; [|done].
  apply (lookup_walk_spec t i e en O) in Ew as [_ Hen].
  case_if; [done|]. destruct (e_peer en); [|done]. case_if; [done|]. by apply Hset.
Qed.

(** ** Interleaved insertions *)

(** Where a processor is inside [wg_index_hashtable_insert] for an entry. *)
Inductive pc := Searching | Looked.

Record isys := { tbl : index_hashtable; pcs : gmap entry_id pc }.

Inductive istep : isys -> isys -> Prop :=
| is_create s e p ty : ix_entries (tbl s) !! e = None ->
    istep s {| tbl := set_entry e {| e_peer := Some p; e_hashed := false; e_type := ty; e_index := 0 |} (tbl s);
               pcs := pcs s |}
| is_start s e : pcs s !! e = None -> is_Some (ix_entries (tbl s) !! e) ->
    istep s {| tbl := insert_unlink e (tbl s); pcs := <[e := Searching]> (pcs s) |}
| is_search s e r free t : pcs s !! e = Some Searching -> insert_search e r (tbl s) = (free, t) ->
    istep s {| tbl := t; pcs := <[e := if free : bool then Looked else Searching]> (pcs s) |}
| is_commit s e won t : pcs s !! e = Some Looked -> insert_commit e (tbl s) = Some (won, t) ->
    istep s {| tbl := t; pcs := if won : bool then delete e (pcs s) else <[e := Searching]> (pcs s) |}
| is_remove s e : pcs s !! e = None -> istep s {| tbl := wg_index_hashtable_remove e (tbl s); pcs := pcs s |}
| is_replace s old new ret t : pcs s !! old = None -> pcs s !! new = None -> old <> new -> unhashed (tbl s) new ->
    wg_index_hashtable_replace old new (tbl s) = Some (ret, t) -> istep s {| tbl := t; pcs := pcs s |}
| is_lookup s get mask i :
    istep s {| tbl := snd (wg_index_hashtable_lookup get mask i (tbl s)); pcs := pcs s |}.

Inductive ireachable : isys -> Prop :=
| ir_init : ireachable {| tbl := wg_index_hashtable_alloc; pcs := ∅ |}
| ir_step s s' : ireachable s -> istep s s' -> ireachable s'.

(** An entry some processor is inserting is in no bucket. *)
Definition iinv (s : isys) : Prop := ix_ok (tbl s) /\ forall e x, pcs s !! e = Some x -> unhashed (tbl s) e.

Lemma unhashed_frame t t' e :
  unhashed t e -> ix_entries t' !! e = ix_entries t !! e -> unhashed t' e.
Proof. intros (en & H1 & H2) H. exists en. by rewrite H. Qed.

Lemma ix_ok_alloc : ix_ok wg_index_hashtable_alloc.
Proof.
  assert (Hno : forall i e, ~ holds wg_index_hashtable_alloc i e) by (intros i e (en & H & _); done).
  split; [intros b; constructor| |intros i e e' []%Hno].
  intros b e. split; [by intros ?%elem_of_nil|]. by intros (en & ? & _).
Qed.

Lemma ix_ok_create e en t : ix_ok t -> ix_entries t !! e = None -> e_hashed en = false -> ix_ok (set_entry e en t).
Proof.
  intros O Hn Hh.
  assert (Hent : forall e', ix_entries (set_entry e en t) !! e' = if decide (e' = e) then Some en else ix_entries t !! e').
  { intros e'. cbn. destruct (decide (e' = e)) as [->|]; [apply lookup_insert_eq|by apply lookup_insert_ne]. }
  assert (Hhold : forall i e', holds (set_entry e en t) i e' -> holds t i e').
  { intros i e'. unfold holds. rewrite Hent. case_decide; [|done]. intros (? & [= <-] & ? & _). congruence. }
  split; [apply O| |intros ??? ?%Hhold ?%Hhold; by eapply (ix_unique _ O)].
  intros b e'. change (bucket (set_entry e en t) b) with (bucket t b). rewrite (ix_in_bucket _ O), Hent.
  case_decide as Hd; [|done]. subst e'. split; [intros (? & ? & _); congruence|]. intros (? & [= <-] & ? & _). congruence.
Qed.

Lemma iinv_step s s' : iinv s -> istep s s' -> iinv s'.
Proof.
  intros [O Hpc] Hs. destruct Hs as [s e p ty Hn|s e Hp He|s e r free t Hp E|s e won t Hp E|s e Hp|s old new ret t Ho Hn Hne Hu E|s get mask i];
    unfold iinv; cbn [tbl pcs] in *.
  - split; [by apply ix_ok_create|]. intros e' x Hx. eapply unhashed_frame; [by eapply Hpc|]. cbn.
    apply lookup_insert_ne. intros ->. apply Hpc in Hx as (en & ? & _). congruence.
  - split; [by apply ix_ok_del|]. intros e' x. destruct (decide (e' = e)) as [->|Hd].
    + intros _. by apply unhashed_del.
    + rewrite lookup_insert_ne by done. intros Hx. eapply unhashed_frame; [by eapply Hpc|].
      cbn. by apply lookup_alter_ne.
  - destruct (insert_search_spec e r (tbl s) O ltac:(by eapply Hpc)) as (free' & t' & E' & -> & O' & Hu & _).
    rewrite E' in E. injection E as <- <-. split; [done|]. intros e' x. destruct (decide (e' = e)) as [->|Hd]; [done|].
    rewrite lookup_insert_ne by done. intros Hx. eapply unhashed_frame; [by eapply Hpc|]. cbn. by apply lookup_alter_ne.
  - pose proof (Hpc e _ Hp) as (en & He & Hh).
    destruct (insert_commit_spec e (tbl s) en O He Hh) as (won' & t' & E' & O' & _ & Hl).
    rewrite E' in E. injection E as <- <-. split; [done|]. intros e' x Hx.
    assert (Hcase : e' <> e \/ won' = false).
    { destruct won'; [|by right]. left. intros ->. by rewrite lookup_delete_eq in Hx. }
    destruct won'.
    + destruct Hcase as [Hd|]; [|done]. rewrite lookup_delete_ne in Hx by done.
      unfold insert_commit in E'. rewrite He in E'. cbn [mbind option_bind] in E'. case_if; [done|]. injection E' as <-.
      eapply unhashed_frame; [by eapply Hpc|]. cbn. by apply lookup_alter_ne.
    + destruct (Hl eq_refl) as [-> _]. destruct (decide (e' = e)) as [->|Hd]; [by exists en|].
      rewrite lookup_insert_ne in Hx by done. by eapply Hpc.
  - split; [by apply ix_ok_del|]. intros e' x Hx. eapply unhashed_frame; [by eapply Hpc|].
    cbn. apply lookup_alter_ne. congruence.
  - destruct Hu as (n & Hnn & Hnh). unfold wg_index_hashtable_replace in E.
    destruct (ix_entries (tbl s) !! old) as [o|] eqn:Eo; [|done]. cbn [mbind option_bind] in E.
    destruct (replace_spec old new (tbl s) o n O Eo Hnn Hnh Hne) as (t' & E' & O' & _).
    unfold wg_index_hashtable_replace in E'. rewrite Eo in E'. cbn [mbind option_bind] in E'.
    assert (t' = t) as -> by congruence. split; [done|]. intros e' x Hx. eapply unhashed_frame; [by eapply Hpc|].
    case_if; injection E as <- <-; [done|]. cbn. rewrite !lookup_alter_ne by congruence. done.
  - destruct (lookup_table get mask i (tbl s) O) as (O' & _ & Hun). split; [done|]. intros e' x Hx. by eapply Hun, Hpc.
Qed.

Lemma ireachable_iinv s : ireachable s -> iinv s.
Proof.
  induction 1 as [|s s' _ IH Hs]; [|by eapply iinv_step]. split; [apply ix_ok_alloc|]. intros e x Hx. done.
Qed.

(** ** The public-key table *)

Section PubkeyProps.
Context (siphash : bytes -> Z -> Z).

(** The table holds the peers of [S], under their keys. *)
Definition pk_holds (t : pubkey_hashtable) (S : gmap peer_id bytes) : Prop :=
  (forall b p, p ∈ pk_bucket t b <-> exists k, S !! p = Some k /\ pubkey_bucket siphash t k = b) /\
  (forall p q k, S !! p = Some k -> S !! q = Some k -> p = q).

Lemma pk_alloc random : pk_holds (wg_pubkey_hashtable_alloc random) ∅.
Proof.
  split; [|intros p q k H; by rewrite lookup_empty in H].
  intros b p. split; [by intros ?%elem_of_nil|]. intros (k & H & _). by rewrite lookup_empty in H.
Qed.

Lemma pk_add t S p k :
  pk_holds t S -> S !! p = None -> (forall q, S !! q <> Some k) ->
  pk_holds (wg_pubkey_hashtable_add siphash k p t) (<[p := k]> S).
Proof.
  intros [Hb Hu] Hp Hk. split.
  - intros b q. unfold wg_pubkey_hashtable_add, pk_bucket at 1; cbn. rewrite lookup_insert.
    change (pubkey_bucket siphash {| pk_key := pk_key t; pk_hashtable := _ |}) with (pubkey_bucket siphash t).
    assert (Hold : q ∈ default [] (pk_hashtable t !! b) <-> exists k', S !! q = Some k' /\ pubkey_bucket siphash t k' = b) by apply Hb.
    setoid_rewrite lookup_insert_Some.
    destruct (decide (pubkey_bucket siphash t k = b)) as [<-|Hne]; cbn.
    + rewrite elem_of_cons, Hb. split.
      * intros [->|(k' & H1 & H2)]; [eauto|]. exists k'. split; [|done]. right. split; [|done]. intros ->. congruence.
      * intros (k' & [[-> ->]|[? ?]] & ?); eauto.
    + rewrite Hold. split.
      * intros (k' & H1 & H2). exists k'. split; [|done]. right. split; [|done]. intros ->. congruence.
      * intros (k' & [[-> ->]|[? ?]] & ?); [done|eauto].
  - intros q q' k'. rewrite !lookup_insert_Some. intros [[-> ->]|[? H1]] [[-> H2]|[? H2]]; subst; try done.
    + by apply Hk in H2.
    + by apply Hk in H1.
    + by eapply Hu.
Qed.

Lemma pk_remove t S p : pk_holds t S -> pk_holds (wg_pubkey_hashtable_remove p t) (delete p S).
Proof.
  intros [Hb Hu]. split.
  - intros b q. unfold wg_pubkey_hashtable_remove, pk_bucket; cbn. rewrite lookup_fmap.
    change (pubkey_bucket siphash {| pk_key := pk_key t; pk_hashtable := _ |}) with (pubkey_bucket siphash t).
    assert (Hold : q ∈ default [] (pk_hashtable t !! b) <-> exists k', S !! q = Some k' /\ pubkey_bucket siphash t k' = b) by apply Hb.
    setoid_rewrite lookup_delete_Some.
    transitivity (q <> p /\ q ∈ default [] (pk_hashtable t !! b)).
    + destruct (pk_hashtable t !! b); cbn; [|rewrite elem_of_nil; tauto].
      rewrite list_elem_of_In, filter_In, <- list_elem_of_In, negb_true_iff, bool_decide_eq_false. tauto.
    + rewrite Hold. naive_solver.
  - intros q q' k'. rewrite !lookup_delete_Some. intros [_ ?] [_ ?]. by eapply Hu.
Qed.

Lemma pk_lookup t S get k :
  pk_holds t S ->
  wg_pubkey_hashtable_lookup siphash (fun p => S !! p) get k t
  = match list_find (fun pk => pk.2 = k) (map_to_list S) with
    | Some (_, (p, _)) => if get p then Some p else None
    | None => None
    end.
Proof.
  intros [Hb Hu]. unfold wg_pubkey_hashtable_lookup.
  destruct (List.find _ _) as [p|] eqn:Ef; cbn.
  - apply List.find_some in Ef as [Hin Hk]. apply list_elem_of_In, Hb in Hin as (k' & H1 & _).
    rewrite H1 in Hk. apply bytes_eqb_spec in Hk. subst k'.
    destruct (list_find _ _) as [[n [q kq]]|] eqn:El.
    + apply list_find_Some in El as (Hl & Hq & _). cbn in Hq. subst kq.
      apply list_elem_of_lookup_2, elem_of_map_to_list in Hl. by rewrite (Hu p q k H1 Hl).
    + exfalso. apply list_find_None in El. rewrite Forall_forall in El.
      apply (El (p, k)); [by apply elem_of_map_to_list|done].
  - destruct (list_find _ _) as [[n [q kq]]|] eqn:El; [|done]. exfalso.
    apply list_find_Some in El as (Hl & Hq & _). cbn in Hq. subst kq.
    apply list_elem_of_lookup_2, elem_of_map_to_list in Hl.
    assert (Hin : q ∈ pk_bucket t (pubkey_bucket siphash t k)) by (apply Hb; eauto).
    apply list_elem_of_In in Hin. eapply List.find_none in Ef; [|exact Hin]. cbv beta in Ef. rewrite Hl in Ef.
    unfold bytes_eqb in Ef. by rewrite bool_decide_true in Ef.
Qed.
End PubkeyProps.

(** ** The properties *)

(** C20: however the insertions of several processors interleave (each one unlinks its entry, looks
    for a free random index without the lock, and commits under the lock) with removals,
    replacements and lookups, no two entries are ever found under the same index. *)
Theorem index_entries_never_collide s i e e' :
  ireachable s -> holds (tbl s) i e -> holds (tbl s) i e' -> e = e'.
Proof. intros [O _]%ireachable_iinv. apply (ix_unique _ O). Qed.

(** Two processors that draw the same index: the one that commits second has to search again. *)
Definition race_entry (p : peer_id) : index_hashtable_entry :=
  {| e_peer := Some p; e_hashed := false; e_type := 1; e_index := 0 |}.
Definition race_t0 : index_hashtable :=
  set_entry (Handshake 2) (race_entry 2) (set_entry (Handshake 1) (race_entry 1) wg_index_hashtable_alloc).
Definition race_t1 : index_hashtable :=
  snd (insert_search (Handshake 2) 7 (snd (insert_search (Handshake 1) 7
    (insert_unlink (Handshake 2) (insert_unlink (Handshake 1) race_t0))))).
Definition race_t2 : index_hashtable := default race_t1 (snd <$> insert_commit (Handshake 1) race_t1).
Definition race_t3 : index_hashtable := default race_t2 (snd <$> insert_commit (Handshake 2) race_t2).

Lemma race_reachable : ireachable {| tbl := race_t3; pcs := {[ Handshake 2 := Searching ]} |}.
Proof.
  pose proof ir_init as H.
  eapply ir_step in H; [|apply (is_create _ (Handshake 1) 1 1); reflexivity]. cbn [tbl pcs] in H.
  eapply ir_step in H; [|apply (is_create _ (Handshake 2) 2 1); reflexivity]. cbn [tbl pcs] in H.
  eapply ir_step in H; [|apply (is_start _ (Handshake 1)); [reflexivity|vm_compute; by eexists]]. cbn [tbl pcs] in H.
  eapply ir_step in H; [|apply (is_start _ (Handshake 2)); [reflexivity|vm_compute; by eexists]]. cbn [tbl pcs] in H.
  eapply ir_step in H; [|eapply (is_search _ (Handshake 1) 7 true); reflexivity]. cbn [tbl pcs] in H.
  eapply ir_step in H; [|eapply (is_search _ (Handshake 2) 7 true); reflexivity]. cbn [tbl pcs] in H.
  eapply ir_step in H; [|eapply (is_commit _ (Handshake 1) true race_t2); [reflexivity|vm_compute; reflexivity]].
  cbn [tbl pcs] in H.
  eapply ir_step in H; [|eapply (is_commit _ (Handshake 2) false race_t3); [reflexivity|vm_compute; reflexivity]].
  cbn [tbl pcs] in H. exact H.
Qed.

Lemma index_entries_never_collide_witness :
  holds race_t3 7 (Handshake 1) /\ ~ holds race_t3 7 (Handshake 2) /\
  (forall e, holds race_t3 7 e -> e = Handshake 1).
Proof.
  assert (H1 : holds race_t3 7 (Handshake 1)) by (eexists; vm_compute; done).
  split; [exact H1|]. split; [intros (en & Hen & Hh & _); vm_compute in Hen; injection Hen as <-; discriminate Hh|]. intros e He.
  exact (index_entries_never_collide _ 7 e (Handshake 1) race_reachable He H1).
Defined.

(** C30: an insertion returns, as soon as one of the numbers drawn is not in use by another entry,
    with an index that no other entry had; afterwards the entry is found under it, under no other
    index, and all other entries are found as before. *)
Theorem index_insert_gives_fresh_index e rs t :
  ix_ok t -> is_Some (ix_entries t !! e) -> (exists r, r ∈ rs /\ forall e', e' <> e -> ~ holds t r e') ->
  exists r t', wg_index_hashtable_insert e rs t = Some (r, t') /\ r ∈ rs /\ ix_ok t' /\
    (forall e', e' <> e -> ~ holds t r e') /\
    forall i e', holds t' i e' <-> (i, e') = (r, e) \/ (e' <> e /\ holds t i e').
Proof. apply insert_spec. Qed.

Lemma index_insert_gives_fresh_index_witness :
  exists r t', wg_index_hashtable_insert (Handshake 2) [7; 9] race_t3 = Some (r, t') /\ holds t' r (Handshake 2).
Proof.
  destruct (index_insert_gives_fresh_index (Handshake 2) [7; 9] race_t3) as (r & t' & E & _ & _ & _ & H).
  - apply (ireachable_iinv _ race_reachable).
  - vm_compute. by eexists.
  - exists 9. split; [set_solver|]. intros e' _ He.
    assert (Hu : index_in_use race_t3 9 = true)
      by (apply index_in_use_spec; [apply (ireachable_iinv _ race_reachable)|by exists e']).
    vm_compute in Hu. discriminate Hu.
  - exists r, t'. split; [exact E|]. apply H. by left.
Defined.

Lemma lookup_result get mask i t e p :
  ix_ok t ->
  fst (wg_index_hashtable_lookup get mask i t) = Some (e, p) <->
  exists en, ix_entries t !! e = Some en /\ e_hashed en = true /\ e_index en = i /\
    Z.land (e_type en) mask <> 0 /\ e_peer en = Some p /\ get p = true.
Proof.
  intros O. unfold wg_index_hashtable_lookup.
  destruct (lookup_walk t (bucket t (index_bucket i)) i) as [[e0 en0]|] eqn:Ew.
  - apply (lookup_walk_spec t i e0 en0 O) in Ew as [H0 Hen]. split.
    + case_if; [done|]. bool_to_prop. destruct (e_peer en0) eqn:Ep; [|done]. case_if; [|done]. intros [= <- <-].
      destruct H0 as (en & H1 & H2 & H3). assert (en = en0) as -> by congruence. by exists en0.
    + intros (en & H1 & H2 & H3 & H4 & H5 & H6). assert (holds t i e) as He by (by exists en).
      pose proof (ix_unique _ O i e0 e H0 He) as <-. assert (en = en0) as -> by congruence.
      apply Z.eqb_neq in H4. by rewrite H4, H5, H6.
  - split; [done|]. intros (en & H1 & H2 & H3 & _).
    assert (Hw : lookup_walk t (bucket t (index_bucket i)) i = Some (e, en)).
    { apply (lookup_walk_spec t i e en O). split; [by exists en|done]. }
    congruence.
Qed.

(** A lookup finds exactly the entry that holds the index, when its type is one of those asked
    for and a reference on its peer can be taken, and otherwise nothing; it changes no index. *)
Theorem index_lookup_exact get mask i t e p :
  ix_ok t ->
  (fst (wg_index_hashtable_lookup get mask i t) = Some (e, p) <->
   exists en, ix_entries t !! e = Some en /\ e_hashed en = true /\ e_index en = i /\
     Z.land (e_type en) mask <> 0 /\ e_peer en = Some p /\ get p = true) /\
  (forall i' e', holds (snd (wg_index_hashtable_lookup get mask i t)) i' e' <-> holds t i' e').
Proof. intros O. split; [by apply lookup_result|apply lookup_table, O]. Qed.

Lemma index_lookup_exact_witness :
  fst (wg_index_hashtable_lookup (fun _ => true) INDEX_HASHTABLE_HANDSHAKE 7 race_t3) = Some (Handshake 1, 1%positive).
Proof.
  apply (index_lookup_exact (fun _ => true) INDEX_HASHTABLE_HANDSHAKE 7 race_t3).
  - apply (ireachable_iinv _ race_reachable).
  - eexists. split; [vm_compute; reflexivity|]. by split_and!.
Defined.
