(* ===== verification/Crypto.v ===== *)
(** * Crypto: the kernel's cryptographic functions the program calls

    The functions of crypto/blake2s.h, crypto/curve25519.h, crypto/chacha20poly1305.h and of the
    "gcm(aes)" transform are not part of the repository: they are the fields of the class [Crypto],
    and what the program relies on is the class [CryptoLaws] (documented behaviour: lengths of
    outputs, decryption undoes encryption, Diffie-Hellman agreement, clamping is part of
    the scalar multiplication). [toy_crypto] is an executable instance that satisfies the laws. *)

From S2P Require Import Prelude Messages.

Class Crypto := {
  (** [blake2s(out, in, key, outlen, inlen, keylen)]; an empty key for the unkeyed hash. The
      incremental interface hashes the concatenation of its updates. *)
  blake2s (outlen : nat) (key input : bytes) : bytes;
  (** [None]: the function returns false. *)
  curve25519 (secret point : bytes) : option bytes;
  curve25519_generate_public (secret : bytes) : option bytes;
  curve25519_clamp_secret (secret : bytes) : bytes;
  chacha20poly1305_encrypt (src ad : bytes) (nonce : Z) (key : bytes) : bytes;
  chacha20poly1305_decrypt (src ad : bytes) (nonce : Z) (key : bytes) : option bytes;
  xchacha20poly1305_encrypt (src ad nonce key : bytes) : bytes;
  xchacha20poly1305_decrypt (src ad nonce key : bytes) : option bytes;
  (** "gcm(aes)" with a 16-byte tag, a 12-byte IV and no associated data *)
  aes_gcm_encrypt (key iv src : bytes) : bytes;
  aes_gcm_decrypt (key iv src : bytes) : option bytes
}.

Class CryptoLaws (C : Crypto) : Prop := {
  blake2s_length n k m : length (blake2s n k m) = n;
  curve25519_agree a b A B :
    curve25519_generate_public a = Some A -> curve25519_generate_public b = Some B ->
    curve25519 a B = curve25519 b A;
  curve25519_clamp s p : curve25519 (curve25519_clamp_secret s) p = curve25519 s p;
  chacha_roundtrip m ad n k : chacha20poly1305_decrypt (chacha20poly1305_encrypt m ad n k) ad n k = Some m;
  chacha_length m ad n k : length (chacha20poly1305_encrypt m ad n k) = noise_encrypted_len (length m);
  xchacha_roundtrip m ad n k : xchacha20poly1305_decrypt (xchacha20poly1305_encrypt m ad n k) ad n k = Some m;
  xchacha_length m ad n k : length (xchacha20poly1305_encrypt m ad n k) = noise_encrypted_len (length m);
  gcm_roundtrip k iv m : aes_gcm_decrypt k iv (aes_gcm_encrypt k iv m) = Some m;
  gcm_length k iv m : length (aes_gcm_encrypt k iv m) = noise_encrypted_len (length m)
}.

(** The keyed hash functions of linux/siphash.h. *)
Class Hashes := {
  siphash (input : bytes) (key : Z) : Z;
  hsiphash_2u32 (a b key : Z) : Z;
  hsiphash_3u32 (a b c key : Z) : Z
}.

(** ** An executable instance *)

(** A checksum that keeps the order and the number of its bytes. *)
Fixpoint toy_sum (bs : bytes) (acc : Z) : Z :=
  match bs with [] => acc | b :: bs => toy_sum bs (Z.land (acc * 257 + b + 1) 65535) end.

Definition toy_hash (n : nat) (k m : bytes) : bytes :=
  let h := toy_sum (k ++ [0] ++ m) (Z.of_nat n) in le_bytes n (h * h * h + 12345).

Definition toy_prime : Z := 65521.

Definition toy_point (z : Z) : option bytes := if z =? 0 then None else Some (le_bytes 32 z).
Definition toy_public (s : bytes) : option bytes := toy_point ((le_val s * 9) mod toy_prime).
Definition toy_dh (s p : bytes) : option bytes := toy_point ((le_val s * le_val p) mod toy_prime).

Definition toy_seal (k ad m : bytes) : bytes := m ++ toy_hash 16 (k ++ [1] ++ ad) m.
Definition toy_open (k ad c : bytes) : option bytes :=
  let m := take (length c - 16) c in
  if (16 <=? length c)%nat && bytes_eqb c (toy_seal k ad m) then Some m else None.

Definition toy_crypto : Crypto := {|
  blake2s := toy_hash;
  curve25519 := toy_dh;
  curve25519_generate_public := toy_public;
  curve25519_clamp_secret := id;
  chacha20poly1305_encrypt m ad n k := toy_seal k (le_bytes 8 n ++ ad) m;
  chacha20poly1305_decrypt c ad n k := toy_open k (le_bytes 8 n ++ ad) c;
  xchacha20poly1305_encrypt m ad n k := toy_seal k (n ++ ad) m;
  xchacha20poly1305_decrypt c ad n k := toy_open k (n ++ ad) c;
  aes_gcm_encrypt k iv m := toy_seal k iv m;
  aes_gcm_decrypt k iv c := toy_open k iv c
|}.

Definition toy_hashes : Hashes := {|
  siphash input key := le_val input + key;
  hsiphash_2u32 a b key := a + b + key;
  hsiphash_3u32 a b c key := a + b + c + key
|}.

Lemma toy_seal_open k ad m : toy_open k ad (toy_seal k ad m) = Some m.
Proof.
  unfold toy_open. assert (Hl : length (toy_seal k ad m) = (length m + 16)%nat).
  { unfold toy_seal, toy_hash. by rewrite length_app, le_bytes_length. }
  assert (Ht : take (length (toy_seal k ad m) - 16) (toy_seal k ad m) = m).
  { rewrite Hl. replace (length m + 16 - 16)%nat with (length m) by lia. unfold toy_seal. by rewrite take_app_length. }
  rewrite Ht. rewrite (proj2 (bytes_eqb_spec _ _) eq_refl). rewrite Hl.
  destruct (Nat.leb_spec 16 (length m + 16)); [done|lia].
Qed.

Lemma toy_public_val a A : toy_public a = Some A -> le_val A mod toy_prime = (le_val a * 9) mod toy_prime.
Proof.
  unfold toy_public, toy_point. case_if; [done|]. intros [= <-]. rewrite le_val_le_bytes.
  rewrite (Z.mod_small _ (2 ^ (8 * Z.of_nat 32))); [by rewrite Zmod_mod|].
  assert (0 < toy_prime < 2 ^ (8 * Z.of_nat 32)) by done.
  pose proof (Z.mod_pos_bound (le_val a * 9) toy_prime). lia.
Qed.

Lemma toy_agree a b A B : toy_public a = Some A -> toy_public b = Some B -> toy_dh a B = toy_dh b A.
Proof.
  intros HA%toy_public_val HB%toy_public_val. unfold toy_dh. f_equal.
  rewrite (Z.mul_mod (le_val a)), (Z.mul_mod (le_val b) (le_val A)) by done. rewrite HA, HB.
  rewrite <- !Z.mul_mod by done. f_equal. ring.
Qed.

Lemma toy_crypto_laws : CryptoLaws toy_crypto.
Proof.
  split; cbn.
  - intros. apply le_bytes_length.
  - apply toy_agree.
  - done.
  - intros. apply toy_seal_open.
  - intros. unfold toy_seal, toy_hash. by rewrite length_app, le_bytes_length.
  - intros. apply toy_seal_open.
  - intros. unfold toy_seal, toy_hash. by rewrite length_app, le_bytes_length.
  - intros. apply toy_seal_open.
  - intros. unfold toy_seal, toy_hash. by rewrite length_app, le_bytes_length.
Qed.
