(* ===== verification/NoiseCrypto.v ===== *)
(** * NoiseCrypto: the key-derivation and transcript functions of noise.c

    [hmac] and [kdf] are followed buffer by buffer and shown to be HMAC (RFC 2104) and HKDF
    (RFC 5869) over BLAKE2s; the [mix_*] and [message_*] functions take and return the chaining key
    and the transcript hash, the C arguments they update in place. *)

From S2P Require Import Prelude Messages Crypto.

Definition BLAKE2S_BLOCK_SIZE : nat := 64.
Definition BLAKE2S_HASH_SIZE : nat := 32.

(** C strings without their terminating zero. *)
Definition handshake_name : bytes :=
  [78; 111; 105; 115; 101; 95; 73; 75; 112; 115; 107; 50; 95; 50; 53; 53; 49; 57; 95; 67; 104; 97; 67; 104; 97; 80;
   111; 108; 121; 95; 66; 76; 65; 75; 69; 50; 115].
Definition identifier_name : bytes :=
  [87; 105; 114; 101; 71; 117; 97; 114; 100; 32; 118; 49; 32; 122; 120; 50; 99; 52; 32; 74; 97; 115; 111; 110; 64; 122;
   120; 50; 99; 52; 46; 99; 111; 109].

Section NoiseCrypto.
Context {C : Crypto}.

(** [memcpy(dst, src, len)] into the beginning of a buffer. *)
Definition memcpy (dst src : bytes) (len : nat) : bytes := take len src ++ drop len dst.

Definition xor_all (v : Z) (x : bytes) : bytes := map (fun b => Z.lxor b v) x.

Definition hmac (input key : bytes) : bytes :=
  let x_key := zeroes BLAKE2S_BLOCK_SIZE in
  let x_key :=
    if (BLAKE2S_BLOCK_SIZE <? length key)%nat
    then memcpy x_key (blake2s BLAKE2S_HASH_SIZE [] key) BLAKE2S_HASH_SIZE
    else memcpy x_key key (length key) in
  let x_key := xor_all 0x36 x_key in
  let i_hash := blake2s BLAKE2S_HASH_SIZE [] (x_key ++ input) in
  let x_key := xor_all (Z.lxor 0x5c 0x36) x_key in
  let i_hash := blake2s BLAKE2S_HASH_SIZE [] (x_key ++ i_hash) in
  i_hash.

(** [kdf]: a length of zero stands for a destination that is not asked for. The 33-byte buffer
    [output] is reused by the expansion steps; [garbage] is its uninitialised content. *)
Definition kdf (garbage : bytes) (data : bytes) (first_len second_len third_len : nat) (chaining_key : bytes)
  : bytes * bytes * bytes :=
  let secret := hmac data (take NOISE_HASH_LEN chaining_key) in
  if (first_len =? 0)%nat then ([], [], [])
  else
    let output := <[0%nat := 1]> garbage in
    let output := memcpy output (hmac (take 1 output) secret) BLAKE2S_HASH_SIZE in
    let first := take first_len output in
    if (second_len =? 0)%nat then (first, [], [])
    else
      let output := <[BLAKE2S_HASH_SIZE := 2]> output in
      let output := memcpy output (hmac (take (BLAKE2S_HASH_SIZE + 1) output) secret) BLAKE2S_HASH_SIZE in
      let second := take second_len output in
      if (third_len =? 0)%nat then (first, second, [])
      else
        let output := <[BLAKE2S_HASH_SIZE := 3]> output in
        let output := memcpy output (hmac (take (BLAKE2S_HASH_SIZE + 1) output) secret) BLAKE2S_HASH_SIZE in
        (first, second, take third_len output).

(** The buffer as it is for the callers below: its content does not matter. *)
Definition output_buffer : bytes := zeroes (BLAKE2S_HASH_SIZE + 1).

(** [mix_dh]: the new chaining key and the key. *)
Definition mix_dh (chaining_key private public : bytes) : option (bytes * bytes) :=
  dh ← curve25519 private public;
  let '(ck, key, _) := kdf output_buffer dh NOISE_HASH_LEN NOISE_SYMMETRIC_KEY_LEN 0 chaining_key in
  Some (ck, key).

(** [mix_dh] with a NULL key. *)
Definition mix_dh_nokey (chaining_key private public : bytes) : option bytes :=
  dh ← curve25519 private public;
  let '(ck, _, _) := kdf output_buffer dh NOISE_HASH_LEN 0 0 chaining_key in
  Some ck.

Definition mix_precomputed_dh (chaining_key precomputed : bytes) : option (bytes * bytes) :=
  if bytes_eqb precomputed (zeroes NOISE_PUBLIC_KEY_LEN) then None
  else
    let '(ck, key, _) := kdf output_buffer precomputed NOISE_HASH_LEN NOISE_SYMMETRIC_KEY_LEN 0 chaining_key in
    Some (ck, key).

Definition mix_hash (hash src : bytes) : bytes := blake2s NOISE_HASH_LEN [] (hash ++ src).

(** The new chaining key, hash and key. *)
Definition mix_psk (chaining_key hash psk : bytes) : bytes * bytes * bytes :=
  let '(ck, temp_hash, key) := kdf output_buffer psk NOISE_HASH_LEN NOISE_HASH_LEN NOISE_SYMMETRIC_KEY_LEN chaining_key in
  (ck, mix_hash hash temp_hash, key).

(** [wg_noise_init] *)
Definition handshake_init_chaining_key : bytes := blake2s NOISE_HASH_LEN [] handshake_name.
Definition handshake_init_hash : bytes := blake2s NOISE_HASH_LEN [] (handshake_init_chaining_key ++ identifier_name).

(** The initial chaining key and hash. *)
Definition handshake_init (remote_static : bytes) : bytes * bytes :=
  (handshake_init_chaining_key, mix_hash handshake_init_hash remote_static).

(** The ciphertext and the new hash. *)
Definition message_encrypt (plaintext key hash : bytes) : bytes * bytes :=
  let ciphertext := chacha20poly1305_encrypt plaintext hash 0 key in
  (ciphertext, mix_hash hash ciphertext).

(** The plaintext and the new hash. *)
Definition message_decrypt (ciphertext key hash : bytes) : option (bytes * bytes) :=
  plaintext ← chacha20poly1305_decrypt ciphertext hash 0 key;
  Some (plaintext, mix_hash hash ciphertext).

(** The new chaining key and hash. *)
Definition message_ephemeral (ephemeral chaining_key hash : bytes) : bytes * bytes :=
  let hash := mix_hash hash ephemeral in
  let '(ck, _, _) := kdf output_buffer ephemeral NOISE_HASH_LEN 0 0 chaining_key in
  (ck, hash).
End NoiseCrypto.

(** [derive_keys]: the keys of the two directions. *)
Definition derive_keys `{C : Crypto} (chaining_key : bytes) : bytes * bytes :=
  let '(first, second, _) := kdf output_buffer [] NOISE_SYMMETRIC_KEY_LEN NOISE_SYMMETRIC_KEY_LEN 0 chaining_key in
  (first, second).

(** ** TAI64N time stamps *)

Definition rounddown_pow_of_two (n : Z) : Z := 2 ^ (fls n - 1).

(** The granularity the nanoseconds are rounded down to. *)
Definition TIMESTAMP_GRANULARITY : Z := rounddown_pow_of_two (NSEC_PER_SEC / INITIATIONS_PER_SECOND).

Definition tai64n_now (tv_sec tv_nsec : Z) : bytes :=
  be_bytes 8 (u64 (0x400000000000000a + tv_sec)) ++ be_bytes 4 (ALIGN_DOWN tv_nsec TIMESTAMP_GRANULARITY).

(** ** The specifications: RFC 2104 and RFC 5869 *)

Module Rfc.
Section Rfc.
Context {C : Crypto}.

Definition H (m : bytes) : bytes := blake2s BLAKE2S_HASH_SIZE [] m.

(** K padded with zeros to the block size. *)
Definition block_key (K : bytes) : bytes :=
  let K := if (BLAKE2S_BLOCK_SIZE <? length K)%nat then H K else K in
  K ++ zeroes (BLAKE2S_BLOCK_SIZE - length K).

Definition hmac (K text : bytes) : bytes :=
  let opad := replicate BLAKE2S_BLOCK_SIZE 0x5c in
  let ipad := replicate BLAKE2S_BLOCK_SIZE 0x36 in
  let xor := zip_with Z.lxor (block_key K) in
  H (xor opad ++ H (xor ipad ++ text)).

Definition extract (salt ikm : bytes) : bytes := hmac salt ikm.

(** T(i) of the expansion with empty info. *)
Fixpoint T (prk : bytes) (i : nat) : bytes :=
  match i with O => [] | S i => hmac prk (T prk i ++ [Z.of_nat (S i)]) end.
End Rfc.
End Rfc.

Section NoiseCryptoProps.
Context {C : Crypto} {L : CryptoLaws C}.

Lemma xor_all_zip v x : xor_all v x = zip_with Z.lxor x (replicate (length x) v).
Proof. induction x as [|b x IH]; cbn; [done|]. by rewrite <- IH. Qed.

Lemma xor_all_twice v w x : xor_all (Z.lxor w v) (xor_all v x) = xor_all w x.
Proof.
  unfold xor_all. rewrite map_map. apply map_ext. intros b.
  rewrite (Z.lxor_comm w v), <- Z.lxor_assoc, (Z.lxor_assoc b v v), Z.lxor_nilpotent, Z.lxor_0_r. done.
Qed.

Lemma hmac_rfc2104 input key : hmac input key = Rfc.hmac key input.
Proof.
  unfold hmac, Rfc.hmac.
  assert (Hk : (if (BLAKE2S_BLOCK_SIZE <? length key)%nat
    then memcpy (zeroes BLAKE2S_BLOCK_SIZE) (blake2s BLAKE2S_HASH_SIZE [] key) BLAKE2S_HASH_SIZE
    else memcpy (zeroes BLAKE2S_BLOCK_SIZE) key (length key)) = Rfc.block_key key).
  { unfold Rfc.block_key, memcpy, Rfc.H. unfold zeroes.
    destruct (Nat.ltb_spec BLAKE2S_BLOCK_SIZE (length key)).
    - rewrite blake2s_length, drop_replicate, take_ge by (by rewrite blake2s_length). done.
    - by rewrite drop_replicate, take_ge by done. }
  rewrite Hk.
  assert (Hl : length (Rfc.block_key key) = BLAKE2S_BLOCK_SIZE).
  { unfold Rfc.block_key. rewrite length_app. unfold zeroes. rewrite length_replicate.
    destruct (Nat.ltb_spec BLAKE2S_BLOCK_SIZE (length key)); unfold BLAKE2S_BLOCK_SIZE, Rfc.H, BLAKE2S_HASH_SIZE in *;
      rewrite ?blake2s_length; lia. }
  rewrite xor_all_twice, !xor_all_zip, Hl. done.
Qed.

Lemma hmac_length input key : length (hmac input key) = 32%nat.
Proof. apply blake2s_length. Qed.

(** C29: the key derivation is HKDF. For a 32-byte chaining key and outputs of at most 32 bytes,
    [kdf] gives the blocks T(1), T(2) and T(3) of the HKDF expansion (RFC 5869) of its input over
    HMAC-BLAKE2s, cut to the lengths asked for, whatever its scratch buffer held before. *)
Theorem kdf_is_hkdf garbage data l1 l2 l3 ck :
  length garbage = 33%nat -> length ck = 32%nat -> (l1 <= 32)%nat -> (l2 <= 32)%nat -> (l3 <= 32)%nat ->
  let prk := Rfc.extract ck data in
  kdf garbage data l1 l2 l3 ck =
    (take l1 (Rfc.T prk 1),
     (if (l1 =? 0)%nat then [] else take l2 (Rfc.T prk 2)),
     (if (l1 =? 0)%nat || (l2 =? 0)%nat then [] else take l3 (Rfc.T prk 3))).
Proof.
  intros Hg Hck H1 H2 H3 prk. unfold kdf. rewrite (take_ge ck) by (unfold NOISE_HASH_LEN; lia).
  assert (Hs : hmac data ck = prk) by apply hmac_rfc2104. rewrite Hs.
  destruct (Nat.eqb_spec l1 0) as [->|N1]; [done|]. cbn [orb].
  assert (HT1 : hmac (take 1 (<[0%nat := 1]> garbage)) prk = Rfc.T prk 1).
  { destruct garbage as [|g garbage]; [done|]. cbn. apply hmac_rfc2104. }
  assert (HTlen : forall i, length (Rfc.T prk (S i)) = 32%nat) by (intros; apply blake2s_length).
  (* one expansion step with the buffer holding the previous block *)
  assert (Hstep : forall i v output, (exists x, output = Rfc.T prk (S i) ++ [x]) -> v = Z.of_nat (S (S i)) ->
    memcpy (<[BLAKE2S_HASH_SIZE := v]> output) (hmac (take (BLAKE2S_HASH_SIZE + 1) (<[BLAKE2S_HASH_SIZE := v]> output)) prk) BLAKE2S_HASH_SIZE
    = Rfc.T prk (S (S i)) ++ [v]).
  { intros i v output [x ->] ->.
    assert (Hins : <[BLAKE2S_HASH_SIZE := Z.of_nat (S (S i))]> (Rfc.T prk (S i) ++ [x]) = Rfc.T prk (S i) ++ [Z.of_nat (S (S i))]).
    { rewrite insert_app_r_alt by (rewrite HTlen; done). by rewrite HTlen. }
    rewrite Hins, take_ge by (rewrite length_app, HTlen; done).
    rewrite hmac_rfc2104. change (Rfc.hmac prk (Rfc.T prk (S i) ++ [Z.of_nat (S (S i))])) with (Rfc.T prk (S (S i))).
    unfold memcpy. rewrite take_ge by (by rewrite HTlen). rewrite drop_app_ge by (by rewrite HTlen).
    by rewrite HTlen. }
  assert (Hout1 : exists x, memcpy (<[0%nat := 1]> garbage) (Rfc.T prk 1) BLAKE2S_HASH_SIZE = Rfc.T prk 1 ++ [x]).
  { unfold memcpy. rewrite take_ge by (by rewrite HTlen).
    assert (Hd : length (drop BLAKE2S_HASH_SIZE (<[0%nat := 1]> garbage)) = 1%nat).
    { rewrite length_drop, length_insert, Hg. done. }
    destruct (drop BLAKE2S_HASH_SIZE (<[0%nat := 1]> garbage)) as [|x [|]]; try done. by exists x. }
  rewrite HT1. destruct Hout1 as [x1 Hx1]. rewrite Hx1.
  assert (Htake : forall l i v, (l <= 32)%nat -> take l (Rfc.T prk (S i) ++ [v]) = take l (Rfc.T prk (S i))).
  { intros. by rewrite take_app_le by (rewrite HTlen; lia). }
  rewrite !Htake by lia. destruct (Nat.eqb_spec l2 0) as [->|N2]; [done|].
  rewrite (Hstep 0%nat 2) by eauto. rewrite Htake by lia.
  destruct (Nat.eqb_spec l3 0) as [->|N3]; [done|].
  rewrite (Hstep 1%nat 3) by eauto. by rewrite Htake by lia.
Qed.
End NoiseCryptoProps.

Lemma kdf_is_hkdf_witness :
  kdf (C := toy_crypto) (replicate 33 170) [1; 2; 3] 32 32 32 (replicate 32 9)
  = (let prk := Rfc.extract (C := toy_crypto) (replicate 32 9) [1; 2; 3] in
     (take 32 (Rfc.T (C := toy_crypto) prk 1), take 32 (Rfc.T (C := toy_crypto) prk 2), take 32 (Rfc.T (C := toy_crypto) prk 3))).
Proof.
  apply (kdf_is_hkdf (C := toy_crypto) (L := toy_crypto_laws) (replicate 33 170) [1; 2; 3] 32 32 32 (replicate 32 9)).
  - reflexivity.
  - reflexivity.
  - lia.
  - lia.
  - lia.
Defined.

(** ** The order of time stamps *)

Lemma compare_pair (a b x y m : Z) :
  0 < m -> 0 <= x < m -> 0 <= y < m ->
  (a * m + x ?= b * m + y) = match a ?= b with Eq => x ?= y | c => c end.
Proof.
  intros Hm Hx Hy. destruct (Z.compare_spec a b) as [->|Hlt|Hlt].
  - destruct (Z.compare_spec x y); [apply Z.compare_eq_iff|apply Z.compare_lt_iff|apply Z.compare_gt_iff]; lia.
  - apply Z.compare_lt_iff. nia.
  - apply Z.compare_gt_iff. nia.
Qed.

Lemma compare_scale a b m : 0 < m -> (a * m ?= b * m) = (a ?= b).
Proof.
  intros. destruct (Z.compare_spec a b) as [->|?|?]; [apply Z.compare_eq_iff|apply Z.compare_lt_iff|apply Z.compare_gt_iff]; nia.
Qed.

Lemma compare_shift a b m : (m + a ?= m + b) = (a ?= b).
Proof. destruct (Z.compare_spec a b) as [->|?|?]; [apply Z.compare_eq_iff|apply Z.compare_lt_iff|apply Z.compare_gt_iff]; lia. Qed.

(** [memcmp] orders time stamps by time. Two TAI64N stamps compare as their seconds do and, in
    the same second, as the numbers of whole periods of 2^24 nanoseconds do: rounding hides the
    exact time but never swaps two stamps. *)
Theorem tai64n_orders_times s1 n1 s2 n2 :
  0 <= s1 < 2 ^ 62 -> 0 <= s2 < 2 ^ 62 -> 0 <= n1 < NSEC_PER_SEC -> 0 <= n2 < NSEC_PER_SEC ->
  memcmp (tai64n_now s1 n1) (tai64n_now s2 n2)
  = match s1 ?= s2 with Eq => n1 / 2 ^ 24 ?= n2 / 2 ^ 24 | c => c end.
Proof.
  intros H1 H2 H3 H4. unfold tai64n_now.
  rewrite memcmp_be_val by (try apply Forall_app_2; auto with wg; by rewrite !length_app, !be_bytes_length).
  rewrite !be_val_app, !be_val_be_bytes, !be_bytes_length.
  assert (Hu : forall s, 0 <= s < 2 ^ 62 -> u64 (0x400000000000000a + s) mod 2 ^ (8 * Z.of_nat 8) = 0x400000000000000a + s).
  { intros s Hs. unfold wrap. change (2 ^ (8 * Z.of_nat 8)) with (2 ^ 64). rewrite Zmod_mod. apply Z.mod_small. lia. }
  assert (Hn : forall n, 0 <= n < NSEC_PER_SEC ->
    ALIGN_DOWN n TIMESTAMP_GRANULARITY mod 2 ^ (8 * Z.of_nat 4) = n / 2 ^ 24 * 2 ^ 24 /\ 0 <= n / 2 ^ 24 * 2 ^ 24 < 2 ^ (8 * Z.of_nat 4)).
  { intros n Hn. pose proof (ALIGN_DOWN_bounds n (2 ^ 24) ltac:(lia)) as B. unfold ALIGN_DOWN in *.
    change TIMESTAMP_GRANULARITY with (2 ^ 24). change (2 ^ (8 * Z.of_nat 4)) with (2 ^ 32).
    pose proof (Z.div_pos n (2 ^ 24) ltac:(lia) ltac:(lia)). rewrite Z.mod_small; lia. }
  destruct (Hn n1 H3) as [-> B1], (Hn n2 H4) as [-> B2]. rewrite !Hu by done.
  rewrite compare_pair by (done || lia). rewrite compare_shift, compare_scale by lia. done.
Qed.

Lemma tai64n_orders_times_witness : memcmp (tai64n_now 1700000000 20000000) (tai64n_now 1700000000 10000000) = Gt.
Proof. rewrite (tai64n_orders_times 1700000000 20000000 1700000000 10000000); [reflexivity|lia|lia|lia|lia]. Defined.

#[global] Arguments kdf : simpl never.
#[global] Arguments mix_dh : simpl never.
#[global] Arguments mix_dh_nokey : simpl never.
#[global] Arguments mix_precomputed_dh : simpl never.
#[global] Arguments mix_hash : simpl never.
#[global] Arguments mix_psk : simpl never.
#[global] Arguments message_encrypt : simpl never.
#[global] Arguments message_decrypt : simpl never.
#[global] Arguments message_ephemeral : simpl never.
#[global] Arguments handshake_init : simpl never.
#[global] Arguments derive_keys : simpl never.
#[global] Arguments tai64n_now : simpl never.
