(* ===== verification/PrevQueue.v ===== *)
(** * PrevQueue: the multi-producer single-consumer queue of queueing.c

    The packets are linked through [NEXT(skb)]; [STUB] is the node inside the queue. The functions
    are given as they run alone and, for the proof that they may run together, as the atomic steps
    they consist of: any number of producers may be between any two of their steps, and the one
    consumer between any two of its own. Steps are taken one after the other (the accesses are
    release and acquire operations on the words that are shared). *)

From S2P Require Import Prelude Messages.

Abbreviation skb_id := positive.

(** [STUB(queue)] or a packet. *)
Inductive node := STUB | Pkt (skb : skb_id).

#[export] Instance node_eq_dec : EqDecision node.
Proof. solve_decision. Defined.
#[export] Instance node_countable : Countable node.
Proof.
  apply (inj_countable' (fun n => match n with STUB => None | Pkt x => Some x end)
                        (fun o => match o with None => STUB | Some x => Pkt x end)).
  by intros [].
Defined.

(** struct prev_queue; [q_next] holds the [NEXT] words that are not NULL. *)
Record prev_queue := {
  q_next : gmap node node;
  q_head : node;
  q_tail : node;
  q_peeked : option skb_id;
  q_count : Z
}.

Definition NEXT (q : prev_queue) (n : node) : option node := q_next q !! n.
Definition set_NEXT (n : node) (v : option node) (q : prev_queue) : prev_queue :=
  {| q_next := match v with Some m => <[n := m]> (q_next q) | None => delete n (q_next q) end;
     q_head := q_head q; q_tail := q_tail q; q_peeked := q_peeked q; q_count := q_count q |}.
Definition set_head (n : node) (q : prev_queue) : prev_queue :=
  {| q_next := q_next q; q_head := n; q_tail := q_tail q; q_peeked := q_peeked q; q_count := q_count q |}.
Definition set_tail (n : node) (q : prev_queue) : prev_queue :=
  {| q_next := q_next q; q_head := q_head q; q_tail := n; q_peeked := q_peeked q; q_count := q_count q |}.
Definition set_peeked (v : option skb_id) (q : prev_queue) : prev_queue :=
  {| q_next := q_next q; q_head := q_head q; q_tail := q_tail q; q_peeked := v; q_count := q_count q |}.
Definition add_count (d : Z) (q : prev_queue) : prev_queue :=
  {| q_next := q_next q; q_head := q_head q; q_tail := q_tail q; q_peeked := q_peeked q; q_count := q_count q + d |}.

(** ** The functions *)

Definition wg_prev_queue_init (q : prev_queue) : prev_queue :=
  {| q_next := delete STUB (q_next q); q_head := STUB; q_tail := STUB; q_peeked := None; q_count := 0 |}.

Definition __wg_prev_queue_enqueue (n : node) (q : prev_queue) : prev_queue :=
  let q := set_NEXT n None q in
  let old := q_head q in
  let q := set_head n q in
  set_NEXT old (Some n) q.

(** [atomic_add_unless(&queue->count, 1, MAX_QUEUED_PACKETS)] *)
Definition wg_prev_queue_enqueue (skb : skb_id) (q : prev_queue) : bool * prev_queue :=
  if q_count q =? MAX_QUEUED_PACKETS then (false, q)
  else (true, __wg_prev_queue_enqueue (Pkt skb) (add_count 1 q)).

Definition skb_of (n : node) : option skb_id := match n with Pkt x => Some x | STUB => None end.

Definition wg_prev_queue_dequeue (q : prev_queue) : option skb_id * prev_queue :=
  let tail := q_tail q in
  let next := NEXT q tail in
  let rest tail next q :=
    match next with
    | Some n => (skb_of tail, add_count (-1) (set_tail n q))
    | None =>
        if negb (bool_decide (tail = q_head q)) then (None, q)
        else
          let q := __wg_prev_queue_enqueue STUB q in
          match NEXT q tail with
          | Some n => (skb_of tail, add_count (-1) (set_tail n q))
          | None => (None, q)
          end
    end in
  if bool_decide (tail = STUB) then
    match next with
    | None => (None, q)
    | Some n => let q := set_tail n q in rest n (NEXT q n) q
    end
  else rest tail next q.

Definition wg_prev_queue_peek (q : prev_queue) : option skb_id * prev_queue :=
  match q_peeked q with
  | Some x => (Some x, q)
  | None => let '(x, q) := wg_prev_queue_dequeue q in (x, set_peeked x q)
  end.

Definition wg_prev_queue_drop_peeked (q : prev_queue) : prev_queue := set_peeked None q.

(** ** The steps *)

(** Where the consumer is between two accesses to shared words. *)
Inductive consumer :=
| CIdle                    (** not in [wg_prev_queue_dequeue] *)
| CLoad                    (** went past the stub, before the load of [NEXT(next)] *)
| CCheckHead               (** found no successor, before the load of [queue->head] *)
| CStubClear               (** before the store to [NEXT(STUB)] *)
| CStubXchg                (** before the exchange of [queue->head] *)
| CStubLink (old : node)   (** before the store to [NEXT(old)] *)
| CLast.                   (** before the last load of [NEXT(tail)] *)

(** The queue with the producers and the consumer. [s_waiting]: the producers that have counted
    their packet, with whether [NEXT(skb)] has been cleared. [s_linking]: those that have exchanged
    [head], with the node it was. [s_pushed] and [s_popped] record the packets in the order of the
    exchanges of [head] and of the returns of the consumer. *)
Record sys := {
  s_q : prev_queue;
  s_waiting : gmap skb_id bool;
  s_linking : gmap skb_id node;
  s_cons : consumer;
  s_pushed : list skb_id;
  s_popped : list skb_id
}.

Inductive event := Reserve (x : skb_id) | Clear (x : skb_id) | Xchg (x : skb_id) | Link (x : skb_id) | Consume.

Definition with_q (f : prev_queue -> prev_queue) (s : sys) : sys :=
  {| s_q := f (s_q s); s_waiting := s_waiting s; s_linking := s_linking s; s_cons := s_cons s;
     s_pushed := s_pushed s; s_popped := s_popped s |}.
Definition with_cons (c : consumer) (s : sys) : sys :=
  {| s_q := s_q s; s_waiting := s_waiting s; s_linking := s_linking s; s_cons := c;
     s_pushed := s_pushed s; s_popped := s_popped s |}.
Definition with_waiting (f : gmap skb_id bool -> gmap skb_id bool) (s : sys) : sys :=
  {| s_q := s_q s; s_waiting := f (s_waiting s); s_linking := s_linking s; s_cons := s_cons s;
     s_pushed := s_pushed s; s_popped := s_popped s |}.
Definition with_linking (f : gmap skb_id node -> gmap skb_id node) (s : sys) : sys :=
  {| s_q := s_q s; s_waiting := s_waiting s; s_linking := f (s_linking s); s_cons := s_cons s;
     s_pushed := s_pushed s; s_popped := s_popped s |}.
Definition pushed (x : skb_id) (s : sys) : sys :=
  {| s_q := s_q s; s_waiting := s_waiting s; s_linking := s_linking s; s_cons := s_cons s;
     s_pushed := s_pushed s ++ [x]; s_popped := s_popped s |}.

(** The consumer returns its tail and moves on to the successor. *)
Definition pop (n : node) (s : sys) : sys :=
  {| s_q := add_count (-1) (set_tail n (s_q s)); s_waiting := s_waiting s; s_linking := s_linking s; s_cons := CIdle;
     s_pushed := s_pushed s;
     s_popped := s_popped s ++ match skb_of (q_tail (s_q s)) with Some x => [x] | None => [] end |}.

(** The packets that are in the queue. *)
Definition queued (s : sys) : list skb_id := drop (length (s_popped s)) (s_pushed s).

Definition consume (s : sys) : sys :=
  let q := s_q s in
  let tail := q_tail q in
  let after_load := match NEXT q tail with Some n => pop n s | None => with_cons CCheckHead s end in
  match s_cons s with
  | CIdle =>
      if bool_decide (tail = STUB) then
        match NEXT q tail with
        | None => s
        | Some n => with_cons CLoad (with_q (set_tail n) s)
        end
      else after_load
  | CLoad => after_load
  | CCheckHead => if bool_decide (tail = q_head q) then with_cons CStubClear s else with_cons CIdle s
  | CStubClear => with_cons CStubXchg (with_q (set_NEXT STUB None) s)
  | CStubXchg => with_cons (CStubLink (q_head q)) (with_q (set_head STUB) s)
  | CStubLink old => with_cons CLast (with_q (set_NEXT old (Some STUB)) s)
  | CLast => match NEXT q tail with Some n => pop n s | None => with_cons CIdle s end
  end.

(** A step; [None] when it is not possible. A packet is enqueued by one caller at a time, and not
    while it is in the queue. *)
Definition exec (ev : event) (s : sys) : option sys :=
  match ev with
  | Reserve x =>
      if bool_decide (x ∈ queued s) || bool_decide (is_Some (s_waiting s !! x)) || bool_decide (is_Some (s_linking s !! x)) then None
      else if q_count (s_q s) =? MAX_QUEUED_PACKETS then Some s
      else Some (with_waiting (insert x false) (with_q (add_count 1) s))
  | Clear x =>
      match s_waiting s !! x with
      | Some false => Some (with_waiting (insert x true) (with_q (set_NEXT (Pkt x) None) s))
      | _ => None
      end
  | Xchg x =>
      match s_waiting s !! x with
      | Some true =>
          Some (pushed x (with_linking (insert x (q_head (s_q s))) (with_waiting (delete x) (with_q (set_head (Pkt x)) s))))
      | _ => None
      end
  | Link x =>
      match s_linking s !! x with
      | Some old => Some (with_linking (delete x) (with_q (set_NEXT old (Some (Pkt x))) s))
      | None => None
      end
  | Consume => Some (consume s)
  end.

Fixpoint execs (evs : list event) (s : sys) : option sys :=
  match evs with [] => Some s | ev :: evs => s ← exec ev s; execs evs s end.

(** A queue that has just been initialised. *)
Definition sys_init (q : prev_queue) : sys :=
  {| s_q := wg_prev_queue_init q; s_waiting := ∅; s_linking := ∅; s_cons := CIdle; s_pushed := []; s_popped := [] |}.
