(* ===== verification/PrevQueueProps.v ===== *)
(** * PrevQueueProps: the queue is first in, first out, however its steps interleave *)

From S2P Require Import Prelude Messages PrevQueue.

(** The store to [NEXT(a)] that makes [b] its successor is still to come. *)
Definition pending (s : sys) (a b : node) : Prop :=
  match b with Pkt x => s_linking s !! x = Some a | STUB => s_cons s = CStubLink a end.

Definition pkts (c : list node) : list skb_id := omap skb_of c.

Definition past_stub (s : sys) (c : list node) : Prop :=
  match s_cons s with
  | CIdle => True
  | CLoad | CCheckHead | CStubLink _ | CLast => q_tail (s_q s) <> STUB
  | CStubClear => q_tail (s_q s) <> STUB /\ (STUB ∉ c)
  | CStubXchg => q_tail (s_q s) <> STUB /\ (STUB ∉ c) /\ NEXT (s_q s) STUB = None
  end.

(** [c] is the chain of nodes from the tail to the head, in the order of the exchanges of [head]. *)
Record chain (s : sys) (c : list node) : Prop := {
  ch_nodup : NoDup c;
  ch_tail : head c = Some (q_tail (s_q s));
  ch_head : last c = Some (q_head (s_q s));
  ch_end : NEXT (s_q s) (q_head (s_q s)) = None;
  ch_link l1 a b l2 : c = l1 ++ a :: b :: l2 ->
    (NEXT (s_q s) a = Some b /\ ~ pending s a b) \/ (NEXT (s_q s) a = None /\ pending s a b);
  ch_pending a b : pending s a b -> exists l1 l2, c = l1 ++ a :: b :: l2;
  ch_waiting x v : s_waiting s !! x = Some v -> (Pkt x ∉ c) /\ s_linking s !! x = None /\ (v = true -> NEXT (s_q s) (Pkt x) = None);
  ch_history : s_popped s ++ pkts c = s_pushed s;
  ch_count : q_count (s_q s) = Z.of_nat (size (s_waiting s)) + Z.of_nat (length (pkts c));
  ch_cons : past_stub s c
}.

Lemma chain_init q : chain (sys_init q) [STUB].
Proof.
  split; cbn; try done.
  - apply NoDup_singleton.
  - apply lookup_delete_eq.
  - intros l1 a b l2 H. apply (f_equal length) in H. rewrite length_app in H. cbn in H. lia.
  - intros a [|x]; cbn; [done|]. by rewrite lookup_empty.
Qed.

Lemma split_app_inv {A} (c : list A) x l1 a b l2 :
  c ++ [x] = l1 ++ a :: b :: l2 ->
  (exists l, l2 = l ++ [x] /\ c = l1 ++ a :: b :: l) \/ (l2 = [] /\ b = x /\ c = l1 ++ [a]).
Proof.
  intros H. destruct l2 as [|y l _] using rev_ind.
  - right. replace (l1 ++ [a; b]) with ((l1 ++ [a]) ++ [b]) in H by (by rewrite <- app_assoc). by apply app_inj_tail in H as [-> ->].
  - left. exists l. replace (l1 ++ a :: b :: l ++ [y]) with ((l1 ++ a :: b :: l) ++ [y]) in H by (by rewrite <- app_assoc).
    by apply app_inj_tail in H as [-> ->].
Qed.

(** Distinct nodes have distinct successors and predecessors. *)
Lemma nodup_adjacent (c : list node) l1 a b l2 l1' a' b' l2' :
  NoDup c -> c = l1 ++ a :: b :: l2 -> c = l1' ++ a' :: b' :: l2' -> (a = a' <-> b = b').
Proof.
  intros Hn H1 H2.
  assert (Ha : c !! length l1 = Some a) by (rewrite H1; apply list_lookup_middle; done).
  assert (Ha' : c !! length l1' = Some a') by (rewrite H2; apply list_lookup_middle; done).
  assert (Hb : c !! S (length l1) = Some b).
  { rewrite H1. replace (l1 ++ a :: b :: l2) with ((l1 ++ [a]) ++ b :: l2) by (by rewrite <- app_assoc).
    apply list_lookup_middle. rewrite length_app. cbn. lia. }
  assert (Hb' : c !! S (length l1') = Some b').
  { rewrite H2. replace (l1' ++ a' :: b' :: l2') with ((l1' ++ [a']) ++ b' :: l2') by (by rewrite <- app_assoc).
    apply list_lookup_middle. rewrite length_app. cbn. lia. }
  split; intros <-.
  - assert (length l1 = length l1') as E by (by eapply NoDup_lookup). rewrite E in Hb. congruence.
  - assert (S (length l1) = S (length l1')) as E by (by eapply NoDup_lookup). injection E as E. rewrite E in Ha. congruence.
Qed.

Lemma pkts_app c d : pkts (c ++ d) = pkts c ++ pkts d.
Proof. apply omap_app. Qed.

Lemma in_pkts x c : x ∈ pkts c <-> Pkt x ∈ c.
Proof.
  unfold pkts. rewrite list_elem_of_omap. split.
  - intros (n & Hn & Hx). destruct n; [done|]. cbn in Hx. by injection Hx as ->.
  - intros H. by exists (Pkt x).
Qed.

Lemma chain_queued s c : chain s c -> queued s = pkts c.
Proof. intros H. unfold queued. rewrite <- (ch_history _ _ H). by rewrite drop_app_length. Qed.

(** The last node of the chain has no successor in it. *)
Lemma head_no_next s c l1 b l2 : chain s c -> c = l1 ++ q_head (s_q s) :: b :: l2 -> False.
Proof.
  intros H Hc. pose proof (ch_head _ _ H) as Hl. pose proof (ch_nodup _ _ H) as Hn.
  rewrite Hc in Hl, Hn. replace (l1 ++ q_head (s_q s) :: b :: l2) with ((l1 ++ [q_head (s_q s)]) ++ b :: l2) in Hl, Hn by (by rewrite <- app_assoc).
  rewrite last_app_cons in Hl. apply NoDup_app in Hn as (_ & Hd & _).
  apply (Hd (q_head (s_q s))); [set_solver|]. by apply last_Some_elem_of in Hl.
Qed.

(** ** The steps preserve the chain *)

(** A new node becomes the head; the store that links it is pending. *)
Lemma chain_xchg s c n s' :
  chain s c -> n ∉ c -> NEXT (s_q s) n = None -> q_next (s_q s') = q_next (s_q s) ->
  q_tail (s_q s') = q_tail (s_q s) -> q_head (s_q s') = n ->
  (forall a b, pending s' a b <-> (pending s a b /\ b <> n) \/ (a = q_head (s_q s) /\ b = n)) ->
  (forall x v, s_waiting s' !! x = Some v -> s_waiting s !! x = Some v /\ Pkt x <> n) ->
  (forall x, s_linking s !! x = None -> Pkt x <> n -> s_linking s' !! x = None) ->
  s_popped s' ++ pkts (c ++ [n]) = s_pushed s' ->
  q_count (s_q s') = Z.of_nat (size (s_waiting s')) + Z.of_nat (length (pkts (c ++ [n]))) ->
  past_stub s' (c ++ [n]) ->
  chain s' (c ++ [n]).
Proof.
  intros H Hn Hnext Enext Etail Ehead Hpend Hwait Hlink Hhist Hcount Hcons.
  assert (EN : forall m, NEXT (s_q s') m = NEXT (s_q s) m) by (intros; unfold NEXT; by rewrite Enext).
  assert (Hne : forall l1 a b l2, c = l1 ++ a :: b :: l2 -> b <> n) by (intros l1 a b l2 Hc ->; apply Hn; rewrite Hc; set_solver).
  split; try done.
  - apply NoDup_app. split; [apply H|]. split; [set_solver|apply NoDup_singleton].
  - rewrite Etail, <- (ch_tail _ _ H). destruct c; [by pose proof (ch_tail _ _ H)|done].
  - by rewrite last_snoc, Ehead.
  - by rewrite Ehead, EN.
  - intros l1 a b l2 Hc. apply split_app_inv in Hc as [(l & -> & Hc)|(-> & -> & Hc)].
    + rewrite EN, Hpend. pose proof (Hne _ _ _ _ Hc). destruct (ch_link _ _ H _ _ _ _ Hc) as [[H1 H2]|[H1 H2]]; [left|right]; tauto.
    + right. assert (a = q_head (s_q s)) as ->.
      { pose proof (ch_head _ _ H) as Hl. rewrite Hc, last_snoc in Hl. by injection Hl. }
      rewrite EN, Hpend. split; [apply H|]. by right.
  - intros a b Hp. apply Hpend in Hp as [[Hp Hb]|[-> ->]].
    + destruct (ch_pending _ _ H a b Hp) as (l1 & l2 & ->). exists l1, (l2 ++ [n]). by rewrite <- app_assoc.
    + pose proof (ch_head _ _ H) as Hl. apply last_Some in Hl as [l ->]. exists l, []. by rewrite <- app_assoc.
  - intros x v Hx. apply Hwait in Hx as [Hx Hxn]. destruct (ch_waiting _ _ H x v Hx) as (H1 & H2 & H3).
    rewrite EN. split_and!; [set_solver|by apply Hlink|done].
Qed.

(** The pending store to [NEXT(old)] happens. *)
Lemma chain_link s c old n s' :
  chain s c -> pending s old n -> s_q s' = set_NEXT old (Some n) (s_q s) -> s_waiting s' = s_waiting s ->
  s_popped s' = s_popped s -> s_pushed s' = s_pushed s ->
  (forall a b, pending s' a b <-> pending s a b /\ b <> n) ->
  (forall x, s_linking s !! x = None -> s_linking s' !! x = None) -> past_stub s' c ->
  chain s' c.
Proof.
  intros H Hp Eq Ew Epop Epush Hpend Hlink Hcons.
  destruct (ch_pending _ _ H old n Hp) as (k1 & k2 & Hk).
  assert (EN : forall m, NEXT (s_q s') m = if bool_decide (m = old) then Some n else NEXT (s_q s) m).
  { intros m. rewrite Eq. unfold NEXT, set_NEXT. cbn. case_bool_decide as E; [rewrite E; apply lookup_insert_eq|by rewrite lookup_insert_ne]. }
  assert (Hold : old ∈ c) by (rewrite Hk; set_solver).
  assert (Hhd : q_head (s_q s) <> old) by (intros <-; by eapply head_no_next).
  split; rewrite ?Ew, ?Epop, ?Epush; try apply H.
  - rewrite Eq. apply H.
  - rewrite Eq. apply H.
  - assert (q_head (s_q s') = q_head (s_q s)) as -> by (by rewrite Eq). rewrite EN, bool_decide_false by done. apply H.
  - intros l1 a b l2 Hc. rewrite EN, Hpend. pose proof (nodup_adjacent c _ _ _ _ _ _ _ _ (ch_nodup _ _ H) Hc Hk) as Hadj.
    case_bool_decide as E.
    + left. apply Hadj in E as ->. tauto.
    + destruct (ch_link _ _ H _ _ _ _ Hc) as [[H1 H2]|[H1 H2]]; [left|right]; tauto.
  - intros a b Hab. apply Hpend in Hab as [Hab _]. by apply (ch_pending _ _ H).
  - intros x v Hx. destruct (ch_waiting _ _ H x v Hx) as (H1 & H2 & H3). rewrite EN, bool_decide_false by (intros <-; done).
    split_and!; [done|by apply Hlink|done].
  - rewrite Eq. apply H.
  - done.
Qed.

(** The tail has a successor: it is the next node of the chain. *)
Lemma chain_next s c n : chain s c -> NEXT (s_q s) (q_tail (s_q s)) = Some n -> exists l, c = q_tail (s_q s) :: n :: l.
Proof.
  intros H Hn. pose proof (ch_tail _ _ H) as Ht. destruct c as [|a [|b l]]; [done| |]; cbn in Ht; injection Ht as ->.
  - pose proof (ch_head _ _ H) as Hl. cbn in Hl. injection Hl as Hl. rewrite Hl, (ch_end _ _ H) in Hn. done.
  - destruct (ch_link _ _ H [] _ _ _ eq_refl) as [[H1 _]|[H1 _]]; [|congruence]. exists l. congruence.
Qed.

(** The consumer moves its tail on. *)
Lemma chain_advance s c n l s' :
  chain s c -> c = q_tail (s_q s) :: n :: l -> NEXT (s_q s) (q_tail (s_q s)) = Some n ->
  q_next (s_q s') = q_next (s_q s) -> q_head (s_q s') = q_head (s_q s) -> q_tail (s_q s') = n ->
  s_waiting s' = s_waiting s -> s_linking s' = s_linking s -> s_pushed s' = s_pushed s ->
  (forall a, s_cons s <> CStubLink a) -> (forall a, s_cons s' <> CStubLink a) ->
  s_popped s' ++ pkts (n :: l) = s_pushed s' ->
  q_count (s_q s') = Z.of_nat (size (s_waiting s')) + Z.of_nat (length (pkts (n :: l))) ->
  past_stub s' (n :: l) -> chain s' (n :: l).
Proof.
  intros H Hc Hn Enext Ehead Etail Ew El Epush Hc1 Hc2 Hhist Hcount Hcons.
  assert (EN : forall m, NEXT (s_q s') m = NEXT (s_q s) m) by (intros; unfold NEXT; by rewrite Enext).
  assert (Hpend : forall a b, pending s' a b <-> pending s a b).
  { intros a [|x]; cbn; [|by rewrite El]. split; intros E; [by destruct (Hc2 a)|by destruct (Hc1 a)]. }
  split; try done.
  - pose proof (ch_nodup _ _ H) as Hd. rewrite Hc in Hd. by inversion Hd.
  - by rewrite Etail.
  - rewrite Ehead, <- (ch_head _ _ H), Hc. done.
  - rewrite Ehead, EN. apply H.
  - intros l1 a b l2 Hs. rewrite EN, Hpend. apply (ch_link _ _ H (q_tail (s_q s) :: l1) a b l2). by rewrite Hc, Hs.
  - intros a b Hab. apply Hpend in Hab. destruct (ch_pending _ _ H a b Hab) as (l1 & l2 & Hs). destruct l1 as [|y l1].
    + rewrite Hc in Hs. cbn in Hs. injection Hs as <- <- <-. destruct (ch_link _ _ H [] _ _ _ Hc) as [[_ ?]|[? _]]; [done|congruence].
    + rewrite Hc in Hs. cbn in Hs. injection Hs as _ Hs. by exists l1, l2.
  - intros x v Hx. rewrite Ew in Hx. destruct (ch_waiting _ _ H x v Hx) as (H1 & H2 & H3). rewrite EN, El.
    split_and!; [|done|done]. rewrite Hc in H1. set_solver.
Qed.

(** A node outside the chain gets its [NEXT] cleared. *)
Lemma chain_clear s c n s' :
  chain s c -> n ∉ c -> s_q s' = set_NEXT n None (s_q s) ->
  (forall x v, s_waiting s' !! x = Some v -> exists v', s_waiting s !! x = Some v' /\ (v = true -> v' = true \/ n = Pkt x)) ->
  size (s_waiting s') = size (s_waiting s) -> s_linking s' = s_linking s ->
  s_popped s' = s_popped s -> s_pushed s' = s_pushed s ->
  (forall a b, pending s' a b <-> pending s a b) -> past_stub s' c ->
  chain s' c.
Proof.
  intros H Hn Eq Hw Esize El Epop Epush Hpend Hcons.
  assert (EN : forall m, NEXT (s_q s') m = if bool_decide (m = n) then None else NEXT (s_q s) m).
  { intros m. rewrite Eq. unfold NEXT, set_NEXT. cbn. case_bool_decide as E; [rewrite E; apply lookup_delete_eq|by rewrite lookup_delete_ne]. }
  assert (Hin : forall m, m ∈ c -> NEXT (s_q s') m = NEXT (s_q s) m) by (intros m Hm; rewrite EN, bool_decide_false by (intros ->; done); done).
  split; rewrite ?Epop, ?Epush; try apply H.
  - rewrite Eq. apply H.
  - rewrite Eq. apply H.
  - assert (q_head (s_q s') = q_head (s_q s)) as -> by (by rewrite Eq). rewrite Hin; [apply H|].
    pose proof (ch_head _ _ H) as Hl. by apply last_Some_elem_of in Hl.
  - intros l1 a b l2 Hc. rewrite Hpend, Hin; [by apply (ch_link _ _ H _ _ _ _ Hc)|]. rewrite Hc. set_solver.
  - intros a b Hab. apply Hpend in Hab. by apply (ch_pending _ _ H).
  - intros x v Hx. destruct (Hw x v Hx) as (v' & Hx' & Hv). destruct (ch_waiting _ _ H x v' Hx') as (H1 & H2 & H3).
    rewrite El, EN. split_and!; [done|done|]. intros Ev. case_bool_decide as E; [done|].
    destruct (Hv Ev) as [E'|E']; [by apply H3|by destruct E].
  - rewrite Esize, Eq. apply H.
  - done.
Qed.

Lemma chain_cons s c k :
  chain s c -> (forall a, s_cons s <> CStubLink a) -> (forall a, k <> CStubLink a) -> past_stub (with_cons k s) c ->
  chain (with_cons k s) c.
Proof.
  intros H Hc1 Hc2 Hp.
  assert (Hpend : forall a b, pending (with_cons k s) a b <-> pending s a b).
  { intros a [|x]; cbn; [|done]. split; intros E; [by destruct (Hc2 a)|by destruct (Hc1 a)]. }
  split; try apply H.
  - intros l1 a b l2 Hc. rewrite Hpend. by apply (ch_link _ _ H _ _ _ _ Hc).
  - intros a b. rewrite Hpend. apply (ch_pending _ _ H).
  - done.
Qed.

(** The packet at the tail is returned. *)
Lemma chain_pop s c n :
  chain s c -> q_tail (s_q s) <> STUB -> (forall a, s_cons s <> CStubLink a) -> NEXT (s_q s) (q_tail (s_q s)) = Some n ->
  exists c', chain (pop n s) c'.
Proof.
  intros H Ht Hc Hn. destruct (chain_next s c n H Hn) as [l Hl]. exists (n :: l).
  destruct (q_tail (s_q s)) as [|x] eqn:Et; [done|].
  assert (Hp : pkts c = x :: pkts (n :: l)) by (by rewrite Hl).
  eapply (chain_advance s c n l); rewrite ?Et; try done.
  - cbn [s_popped s_pushed pop skb_of]. rewrite <- (ch_history _ _ H), Hp, Et. cbn [skb_of]. by rewrite <- app_assoc.
  - cbn [s_q pop q_count add_count set_tail s_waiting]. rewrite (ch_count _ _ H), Hp. cbn [length]. lia.
Qed.

Lemma chain_consume s c : chain s c -> exists c', chain (consume s) c'.
Proof.
  intros H. pose proof (ch_cons _ _ H) as Hp. unfold past_stub in Hp. unfold consume.
  assert (Hload : q_tail (s_q s) <> STUB -> (forall a, s_cons s <> CStubLink a) ->
    exists c', chain (match NEXT (s_q s) (q_tail (s_q s)) with Some n => pop n s | None => with_cons CCheckHead s end) c').
  { intros Ht Hc. destruct (NEXT (s_q s) (q_tail (s_q s))) as [n|] eqn:En; [by eapply chain_pop|].
    exists c. by apply chain_cons. }
  destruct (s_cons s) as [| | | | |old|] eqn:Ec.
  - case_bool_decide as Et; [|by apply Hload].
    destruct (NEXT (s_q s) (q_tail (s_q s))) as [n|] eqn:En; [|by exists c].
    destruct (chain_next s c n H En) as [l Hl]. exists (n :: l). eapply (chain_advance s c n l); try done.
    + intros a. by rewrite Ec.
    + cbn [s_popped s_pushed with_cons with_q]. rewrite <- (ch_history _ _ H), Hl, Et. done.
    + cbn [s_q with_cons with_q q_count set_tail s_waiting]. rewrite (ch_count _ _ H), Hl, Et. done.
    + cbn. intros ->. pose proof (ch_nodup _ _ H) as Hd. rewrite Hl, Et in Hd. inversion Hd as [|?? Hnot]. apply Hnot. set_solver.
  - by apply Hload.
  - case_bool_decide as Et; [|by exists c; apply chain_cons; rewrite ?Ec].
    exists c. apply chain_cons; rewrite ?Ec; try done. cbn. split; [done|].
    pose proof (ch_tail _ _ H) as Hh. pose proof (ch_head _ _ H) as Hl. pose proof (ch_nodup _ _ H) as Hd.
    destruct c as [|a c]; [done|]. cbn in Hh. injection Hh as ->. destruct c as [|b c _] using rev_ind.
    + intros HS%list_elem_of_singleton. by rewrite HS in Hp.
    + rewrite app_comm_cons, last_snoc in Hl. injection Hl as ->. rewrite Et in Hd.
      apply NoDup_cons in Hd as [Hd _]. set_solver.
  - destruct Hp as [Hp Hs]. exists c. eapply (chain_clear s c STUB); try done.
    + cbn. intros x v Hx. exists v. auto.
    + intros a [|x]; cbn; [by rewrite Ec|done].
    + cbn. split_and!; [done|done|apply lookup_delete_eq].
  - destruct Hp as (Hp & Hs & Hnext). exists (c ++ [STUB]). eapply (chain_xchg s c STUB); try done.
    + intros a [|x]; cbn.
      * rewrite Ec. split; [intros [= <-]; by right|]. intros [[? ?]|[-> _]]; done.
      * split; [intros E; by left|]. intros [[E _]|[_ ?]]; done.
    + cbn [s_popped s_pushed with_cons with_q]. rewrite pkts_app, app_nil_r. apply H.
    + cbn [s_q with_cons with_q q_count set_head s_waiting]. rewrite pkts_app, app_nil_r. apply H.
  - exists c. eapply (chain_link s c old STUB); try done.
    intros a [|x]; cbn; rewrite ?Ec; [by split; [|intros [_ ?]]|by split; [|intros [? _]]].
  - destruct (NEXT (s_q s) (q_tail (s_q s))) as [n|] eqn:En; [by eapply chain_pop; rewrite ?Ec|].
    exists c. by apply chain_cons; rewrite ?Ec.
Qed.

Lemma chain_reserve s c x :
  chain s c -> x ∉ queued s -> s_waiting s !! x = None -> s_linking s !! x = None ->
  chain (with_waiting (insert x false) (with_q (add_count 1) s)) c.
Proof.
  intros H Hq Hw Hl. rewrite (chain_queued s c H), in_pkts in Hq. split; try apply H.
  - intros y v Hy. cbn in Hy. apply lookup_insert_Some in Hy as [[<- <-]|[_ Hy]]; [done|]. by apply (ch_waiting _ _ H).
  - cbn [s_q with_waiting with_q q_count add_count s_waiting]. rewrite map_size_insert_None, (ch_count _ _ H) by done. lia.
Qed.

Lemma chain_exec ev s s' c : chain s c -> exec ev s = Some s' -> exists c', chain s' c'.
Proof.
  intros H He. destruct ev as [x|x|x|x|]; cbn [exec] in He.
  - case_if; [done|]. apply orb_false_iff in Heqb as [[B1 B2]%orb_false_iff B3].
    apply bool_decide_eq_false in B1, B2, B3. apply eq_None_not_Some in B2, B3.
    case_if; injection He as <-; [by exists c|]. exists c. by apply chain_reserve.
  - destruct (s_waiting s !! x) as [[]|] eqn:Ew; try done. injection He as <-.
    destruct (ch_waiting _ _ H x false Ew) as (Hnot & Hl & _). exists c.
    eapply (chain_clear s c (Pkt x)); try done.
    + cbn. intros y v Hy. apply lookup_insert_Some in Hy as [[<- <-]|[_ Hy]]; [by exists false; auto|]. exists v. auto.
    + cbn. apply map_size_insert_Some. by exists false.
    + pose proof (ch_cons _ _ H) as Hp. unfold past_stub in *. cbn. destruct (s_cons s); try done.
      destruct Hp as (P1 & P2 & P3). split_and!; try done. by rewrite lookup_delete_ne.
  - destruct (s_waiting s !! x) as [[]|] eqn:Ew; try done. injection He as <-.
    destruct (ch_waiting _ _ H x true Ew) as (Hnot & Hl & Hn). exists (c ++ [Pkt x]).
    eapply (chain_xchg s c (Pkt x)); try done.
    + by apply Hn.
    + intros a [|y]; cbn.
      * split; [intros E; by left|]. intros [[E _]|[_ ?]]; done.
      * rewrite lookup_insert_Some. split.
        -- intros [[<- <-]|[Hxy E]]; [by right|]. left. split; [done|]. congruence.
        -- intros [[E Hxy]|[-> [= ->]]]; [|by left]. right. split; [congruence|done].
    + cbn. intros y v Hy. apply lookup_delete_Some in Hy as [Hy1 Hy2]. split; [done|congruence].
    + cbn. intros y Hy Hxy. by rewrite lookup_insert_ne by congruence.
    + cbn [s_popped s_pushed pushed with_linking with_waiting with_q]. rewrite pkts_app, app_assoc, (ch_history _ _ H). done.
    + cbn [s_q s_waiting pushed with_linking with_waiting with_q q_count set_head].
      rewrite pkts_app, length_app, (ch_count _ _ H), map_size_delete_Some by (by eexists). cbn [length pkts omap list_omap skb_of].
      assert (size (s_waiting s) <> 0%nat) by (apply map_size_ne_0_lookup_2 with (i := x); by eexists). cbn. lia.
    + pose proof (ch_cons _ _ H) as Hp. unfold past_stub in *. cbn. destruct (s_cons s); try done; set_solver.
  - destruct (s_linking s !! x) as [old|] eqn:El; [|done]. injection He as <-. exists c.
    eapply (chain_link s c old (Pkt x)); try done.
    + intros a [|y]; cbn; [by split; [|intros [? _]]|]. rewrite lookup_delete_Some. split.
      * intros [Hxy E]. split; [done|congruence].
      * intros [E Hxy]. split; [congruence|done].
    + cbn. intros y Hy. destruct (decide (x = y)) as [->|]; [apply lookup_delete_eq|by rewrite lookup_delete_ne].
    + pose proof (ch_cons _ _ H) as Hp. unfold past_stub in *. cbn. destruct (s_cons s); try done.
      destruct Hp as (P1 & P2 & P3). split_and!; try done.
      destruct (ch_pending _ _ H old (Pkt x) El) as (l1 & l2 & Hc). unfold NEXT. cbn. rewrite lookup_insert_ne; [done|].
      intros ->. apply P2. rewrite Hc. set_solver.
  - injection He as <-. by eapply chain_consume.
Qed.

Lemma chain_execs evs q s : execs evs (sys_init q) = Some s -> exists c, chain s c.
Proof.
  assert (H : forall evs s0 c, chain s0 c -> execs evs s0 = Some s -> exists c, chain s c).
  { clear. induction evs as [|ev evs IH]; intros s0 c Hc He; cbn in He; [injection He as <-; by exists c|].
    destruct (exec ev s0) as [s1|] eqn:E1; cbn in He; [|done]. destruct (chain_exec ev s0 s1 c Hc E1) as [c1 H1]. by eapply IH. }
  apply (H evs _ [STUB]), chain_init.
Qed.

(** C4: the queue is first in, first out and bounded, whatever the interleaving. After any sequence
    of steps of any number of producers and of the consumer, the packets the consumer has returned
    are, in order, the first ones of those whose producers have exchanged [head]; no packet is
    returned twice or out of order, and at most [MAX_QUEUED_PACKETS] are in the queue. *)
Theorem prev_queue_fifo_under_interleaving evs q s :
  execs evs (sys_init q) = Some s ->
  s_pushed s = s_popped s ++ queued s /\ Z.of_nat (length (queued s)) <= q_count (s_q s) <= MAX_QUEUED_PACKETS.
Proof.
  intros He.
  assert (Hmax : forall evs s0, q_count (s_q s0) <= MAX_QUEUED_PACKETS -> execs evs s0 = Some s -> q_count (s_q s) <= MAX_QUEUED_PACKETS).
  { clear. induction evs as [|ev evs IH]; intros s0 Hle He; cbn in He; [by injection He as <-|].
    destruct (exec ev s0) as [s1|] eqn:E1; cbn in He; [|done]. apply (IH s1); [|done].
    destruct ev as [x|x|x|x|]; cbn in E1; repeat case_match; simplify_eq; cbn -[Z.add]; try done; bool_to_prop; try lia.
    unfold consume. repeat case_match; cbn -[Z.add]; try done; lia. }
  destruct (chain_execs evs q s He) as [c Hc]. rewrite (chain_queued s c Hc). split; [by rewrite (ch_history _ _ Hc)|].
  split; [rewrite (ch_count _ _ Hc); lia|]. eapply Hmax; [|exact He]. done.
Qed.

(** Packet 2 is enqueued while the producer of packet 1 is between its exchange and its store. *)
Definition race : list event :=
  [Reserve 1%positive; Clear 1%positive; Xchg 1%positive; Reserve 2%positive; Clear 2%positive; Xchg 2%positive; Link 2%positive;
   Consume; Link 1%positive; Consume; Consume; Consume; Consume; Consume; Consume; Consume; Consume; Consume].
Definition empty_queue : prev_queue := {| q_next := ∅; q_head := STUB; q_tail := STUB; q_peeked := None; q_count := 0 |}.

Lemma prev_queue_fifo_under_interleaving_witness :
  exists s, execs race (sys_init empty_queue) = Some s /\ s_popped s = [1%positive; 2%positive] /\ s_pushed s = s_popped s ++ queued s.
Proof.
  destruct (execs race (sys_init empty_queue)) as [s|] eqn:E.
  - exists s. split; [reflexivity|]. split.
    + vm_compute in E. injection E as <-. reflexivity.
    + apply (prev_queue_fifo_under_interleaving race empty_queue s E).
  - exfalso. vm_compute in E. discriminate E.
Defined.

(** ** The functions as operations on a list *)

(** No producer and no consumer is active. *)
Definition quiet (q : prev_queue) (l : list skb_id) : sys :=
  {| s_q := q; s_waiting := ∅; s_linking := ∅; s_cons := CIdle; s_pushed := l; s_popped := [] |}.

(** The queue holds the packets [l]. *)
Definition holds_list (q : prev_queue) (l : list skb_id) : Prop := exists c, chain (quiet q l) c.

Lemma holds_list_count q l : holds_list q l -> q_count q = Z.of_nat (length l).
Proof. intros [c H]. pose proof (ch_count _ _ H) as E. pose proof (ch_history _ _ H) as P. cbn in *. by rewrite E, <- P. Qed.

Lemma quiet_eq s q l :
  s_q s = q -> s_waiting s = ∅ -> s_linking s = ∅ -> s_cons s = CIdle -> s_pushed s = l -> s_popped s = [] -> s = quiet q l.
Proof. destruct s. cbn. by intros -> -> -> -> -> ->. Qed.

Lemma enqueue_spec q l x :
  holds_list q l -> x ∉ l ->
  exists q', wg_prev_queue_enqueue x q = (negb (Z.of_nat (length l) =? MAX_QUEUED_PACKETS), q') /\
    holds_list q' (if Z.of_nat (length l) =? MAX_QUEUED_PACKETS then l else l ++ [x]).
Proof.
  intros Hl Hx. pose proof (holds_list_count q l Hl) as Hc. unfold wg_prev_queue_enqueue. rewrite Hc.
  destruct (Z.of_nat (length l) =? MAX_QUEUED_PACKETS) eqn:Em; cbn [negb]; [by eexists|]. eexists. split; [reflexivity|].
  destruct Hl as [c H]. assert (Hq : queued (quiet q l) = l) by done.
  pose proof (chain_reserve _ c x H) as H1. rewrite Hq in H1. specialize (H1 Hx (lookup_empty _) (lookup_empty _)).
  destruct (chain_exec (Clear x) _ (with_waiting (insert x true) (with_q (set_NEXT (Pkt x) None) (with_waiting (insert x false) (with_q (add_count 1) (quiet q l))))) c H1) as [c2 H2].
  { cbn [exec s_waiting with_waiting]. by rewrite lookup_insert_eq. }
  set (s2 := with_waiting (insert x true) _) in H2.
  destruct (chain_exec (Xchg x) s2 (pushed x (with_linking (insert x (q_head (s_q s2))) (with_waiting (delete x) (with_q (set_head (Pkt x)) s2)))) c2 H2) as [c3 H3].
  { cbn [exec]. unfold s2. cbn [s_waiting with_waiting]. by rewrite lookup_insert_eq. }
  set (s3 := pushed x _) in H3.
  destruct (chain_exec (Link x) s3 (with_linking (delete x) (with_q (set_NEXT (q_head (s_q s2)) (Some (Pkt x))) s3)) c3 H3) as [c4 H4].
  { cbn [exec]. unfold s3. cbn [s_linking pushed with_linking]. by rewrite lookup_insert_eq. }
  exists c4. rewrite <- (quiet_eq (with_linking (delete x) (with_q (set_NEXT (q_head (s_q s2)) (Some (Pkt x))) s3))); try done.
  - change (delete x (<[x := true]> (<[x := false]> (∅ : gmap skb_id bool))) = ∅).
    by rewrite insert_insert_eq, delete_insert_id by apply lookup_empty.
  - change (delete x (<[x := q_head (s_q s2)]> (∅ : gmap skb_id node)) = ∅). by rewrite delete_insert_id by apply lookup_empty.
Qed.

(** Without pending stores, a node without successor is the last one. *)
Lemma quiet_last s c :
  chain s c -> s_linking s = ∅ -> (forall a, s_cons s <> CStubLink a) -> NEXT (s_q s) (q_tail (s_q s)) = None ->
  c = [q_tail (s_q s)] /\ q_head (s_q s) = q_tail (s_q s).
Proof.
  intros H Hl Hc Hn. pose proof (ch_tail _ _ H) as Ht. destruct c as [|a [|b c]]; [done| |]; cbn in Ht; injection Ht as ->.
  - split; [done|]. pose proof (ch_head _ _ H) as Hh. by injection Hh.
  - destruct (ch_link _ _ H [] _ _ _ eq_refl) as [[? _]|[_ Hp]]; [congruence|]. exfalso. destruct b as [|x]; cbn in Hp; [by eapply Hc|].
    by rewrite Hl, lookup_empty in Hp.
Qed.

Lemma popped_holds s n c x :
  chain (pop n s) c -> s_popped s = [] -> q_tail (s_q s) = Pkt x -> s_waiting s = ∅ -> s_linking s = ∅ ->
  exists l, s_pushed s = x :: l /\ holds_list (add_count (-1) (set_tail n (s_q s))) l.
Proof.
  intros H Hp Ht Hw Hl. pose proof (ch_history _ _ H) as Hh. cbn in Hh. rewrite Hp, Ht in Hh. cbn in Hh.
  exists (pkts c). split; [done|]. exists c. set (q := add_count (-1) (set_tail n (s_q s))).
  assert (Hpend : forall a b, pending (quiet q (pkts c)) a b <-> pending (pop n s) a b).
  { intros a [|y]; cbn; [done|]. by rewrite Hl, lookup_empty. }
  split; try apply H.
  - intros l1 a b l2 Hc. rewrite Hpend. by apply (ch_link _ _ H l1 a b l2 Hc).
  - intros a b. rewrite Hpend. apply (ch_pending _ _ H).
  - intros y v. cbn. by rewrite lookup_empty.
  - reflexivity.
  - pose proof (ch_count _ _ H) as Hcount. cbn [s_waiting s_q pop quiet] in *. by rewrite Hw in Hcount.
Qed.

(** The consumer past the stub, alone: it returns the packet at its tail. *)
Lemma consume_alone s c x :
  chain s c -> s_popped s = [] -> s_waiting s = ∅ -> s_linking s = ∅ -> s_cons s = CLoad -> q_tail (s_q s) = Pkt x ->
  let q := s_q s in
  let q' := __wg_prev_queue_enqueue STUB q in
  exists l, s_pushed s = x :: l /\
    match NEXT q (Pkt x) with
    | Some n => holds_list (add_count (-1) (set_tail n q)) l
    | None => q_head q = Pkt x /\ NEXT q' (Pkt x) = Some STUB /\ holds_list (add_count (-1) (set_tail STUB q')) l
    end.
Proof.
  intros H Hp Hw Hl Hc Ht q q'. destruct (NEXT q (Pkt x)) as [n|] eqn:En.
  - destruct (chain_pop s c n H) as [c' H']; [by rewrite Ht|by rewrite Hc|by rewrite Ht|]. by eapply popped_holds.
  - destruct (quiet_last s c H Hl) as [-> Hh]; [by rewrite Hc|by rewrite Ht|]. rewrite Ht in Hh.
    assert (Hq' : NEXT q' (Pkt x) = Some STUB).
    { unfold q', __wg_prev_queue_enqueue, NEXT. cbn. fold q in Hh. rewrite Hh. apply lookup_insert_eq. }
    set (s5 := with_cons CLast (with_q (fun _ => q') s)).
    assert (H5 : exists c5, chain s5 c5).
    { destruct (chain_consume s _ H) as [c1 H1]. destruct (chain_consume _ _ H1) as [c2 H2].
      destruct (chain_consume _ _ H2) as [c3 H3]. destruct (chain_consume _ _ H3) as [c4 H4].
      destruct (chain_consume _ _ H4) as [c5 H5]. exists c5. replace s5 with (consume (consume (consume (consume (consume s))))); [done|].
      assert (E1 : consume s = with_cons CCheckHead s) by (unfold consume; by rewrite Hc, Ht; fold q; rewrite En).
      rewrite E1. assert (E2 : consume (with_cons CCheckHead s) = with_cons CStubClear s).
      { unfold consume. cbn [s_cons with_cons s_q]. by rewrite Ht, Hh, bool_decide_true. }
      rewrite E2. reflexivity. }
    assert (Ht5 : q_tail (s_q s5) = Pkt x) by exact Ht.
    destruct H5 as [c5 H5]. destruct (chain_pop s5 c5 STUB H5) as [c6 H6]; [by rewrite Ht5|done|by rewrite Ht5|].
    destruct (popped_holds s5 STUB c6 x H6) as (l & E & Hl'); try done. exists l. done.
Qed.

Lemma dequeue_spec q l :
  holds_list q l -> exists q', wg_prev_queue_dequeue q = (hd_error l, q') /\ holds_list q' (tl l).
Proof.
  intros [c H]. unfold wg_prev_queue_dequeue.
  assert (Hrest : forall q0 x c0, chain (with_cons CLoad (quiet q0 l)) c0 -> q_tail q0 = Pkt x ->
    exists q', match NEXT q0 (Pkt x) with
      | Some n => (skb_of (Pkt x), add_count (-1) (set_tail n q0))
      | None =>
          if negb (bool_decide (Pkt x = q_head q0)) then (None, q0)
          else
            match NEXT (__wg_prev_queue_enqueue STUB q0) (Pkt x) with
            | Some n => (skb_of (Pkt x), add_count (-1) (set_tail n (__wg_prev_queue_enqueue STUB q0)))
            | None => (None, __wg_prev_queue_enqueue STUB q0)
            end
      end = (hd_error l, q') /\ holds_list q' (tl l)).
  { intros q0 x c0 H0 Ht. destruct (consume_alone _ c0 x H0 eq_refl eq_refl eq_refl eq_refl Ht) as (l' & El & Hm).
    cbn [s_pushed s_q with_cons quiet] in *. subst l. destruct (NEXT q0 (Pkt x)) as [n|]; [by eexists|].
    destruct Hm as (Hh & Hn & Hl'). rewrite Hh, bool_decide_true by done. cbn [negb]. rewrite Hn. by eexists. }
  destruct (q_tail q) as [|x] eqn:Et.
  - rewrite bool_decide_true by done. destruct (NEXT q STUB) as [n|] eqn:En.
    + assert (En' : NEXT (s_q (quiet q l)) (q_tail (s_q (quiet q l))) = Some n) by (cbn; by rewrite Et).
      destruct (chain_next _ c n H En') as [c' Hc']. destruct (chain_consume _ _ H) as [c1 H1].
      assert (E1 : consume (quiet q l) = with_cons CLoad (quiet (set_tail n q) l)).
      { unfold consume. cbn [s_cons s_q quiet]. rewrite Et, bool_decide_true, En by done. done. }
      rewrite E1 in H1. destruct n as [|x].
      * exfalso. pose proof (ch_nodup _ _ H) as Hd. rewrite Hc' in Hd. cbn in Hd. rewrite Et in Hd.
        apply NoDup_cons in Hd as [Hd _]. set_solver.
      * apply (Hrest _ _ _ H1). done.
    + destruct (quiet_last _ c H) as [-> _]; [done|done|by cbn; rewrite Et|]. pose proof (ch_history _ _ H) as Hh. cbn in Hh.
      rewrite Et in Hh. cbn in Hh. subst l. exists q. split; [done|]. eexists. exact H.
  - rewrite bool_decide_false by done. apply (Hrest q x c); [|done]. apply chain_cons; try done. cbn. by rewrite Et.
Qed.

(** Without interference the queue is a bounded list. From a freshly initialised queue on, an
    enqueue appends the packet and says so, unless [MAX_QUEUED_PACKETS] packets are queued, when it
    changes nothing; a dequeue removes and returns the first packet, or says that there is none. *)
Theorem prev_queue_refines_list q l :
  holds_list (wg_prev_queue_init q) [] /\
  (holds_list q l -> (forall x, x ∉ l ->
     exists q', wg_prev_queue_enqueue x q = (negb (Z.of_nat (length l) =? MAX_QUEUED_PACKETS), q') /\
       holds_list q' (if Z.of_nat (length l) =? MAX_QUEUED_PACKETS then l else l ++ [x])) /\
   exists q', wg_prev_queue_dequeue q = (hd_error l, q') /\ holds_list q' (tl l)).
Proof.
  split; [exists [STUB]; apply (chain_init q)|]. intros H. split; [|by apply dequeue_spec]. intros x Hx. by apply enqueue_spec.
Qed.

Lemma prev_queue_refines_list_witness :
  exists q q', wg_prev_queue_enqueue 7 (wg_prev_queue_init empty_queue) = (true, q) /\
    wg_prev_queue_dequeue q = (Some 7%positive, q') /\ holds_list q' [].
Proof.
  destruct (prev_queue_refines_list empty_queue []) as [H0 _].
  destruct (prev_queue_refines_list (wg_prev_queue_init empty_queue) []) as [_ H1].
  destruct (H1 H0) as [H2 _]. destruct (H2 7%positive) as (q & E & Hq); [set_solver|].
  destruct (prev_queue_refines_list q [7%positive]) as [_ H3]. destruct (H3 Hq) as [_ (q' & E' & Hq')].
  exists q, q'. exact (conj E (conj E' Hq')).
Defined.
