(* ===== verification/World.v ===== *)
(** * World: the state of a device

    The structures of noise.h, cookie.h, peer.h and device.h as records. Objects that the C code
    shares through pointers (peers, keypairs, packets on their way through the crypto queues) live
    in finite maps of the device and are named by their keys; the reference counts are fields of
    the objects. What leaves the program (datagrams handed to the UDP socket, packets handed to the
    network stack, work queued on workqueues) is recorded in lists. The locks do not appear: every
    function of the model is one critical section or a sequence of them.

    [env] is what the kernel hands to one call of the program: clocks, random numbers, the results
    of allocations and the answers of the routing and socket layers. A route lookup gives an error
    number or the index of the interface; the creation of a UDP socket is asked with the port and
    the number of the attempt and gives an error number or, for IPv4, the port bound. *)

From S2P Require Import Prelude Messages Skb Replay AllowedIps PeerLookup RateLimiter PrevQueue.

(** ** Record updates

    [setter! proj] is the function that changes one field of a record whose eta expansion is
    registered as an instance of [Eta]. *)
Class Eta (R : Type) := eta : R -> R.

Ltac mk_setter proj :=
  match type of proj with
  | ?R -> ?T =>
      let e := constr:(_ : Eta R) in
      exact (fun (f : T -> T) (r : R) =>
        ltac:(let t := eval hnf in (e r) in
              let t := eval pattern (proj r) in t in
              match t with ?g _ => let u := eval cbv beta in (g (f (proj r))) in exact u end))
  end.
Notation "'setter!' proj" := (ltac:(mk_setter proj)) (at level 10, proj at level 9, only parsing).

(** ** The structures *)

(** struct noise_symmetric_key *)
Record noise_symmetric_key := {
  sk_key : bytes;
  sk_birthdate : Z;
  sk_is_valid : bool
}.
#[export] Instance eta_noise_symmetric_key : Eta noise_symmetric_key := fun r =>
  {| sk_key := sk_key r; sk_birthdate := sk_birthdate r; sk_is_valid := sk_is_valid r |}.
Definition upd_sk_key := setter! sk_key.
Definition upd_sk_birthdate := setter! sk_birthdate.
Definition upd_sk_is_valid := setter! sk_is_valid.

(** struct noise_keypair; its [entry] is in the index table. [kp_aead_enc], [kp_aead_dec] hold the key the AES-GCM handle was set up with. *)
Record noise_keypair := {
  kp_sending : noise_symmetric_key;
  kp_sending_counter : Z;
  kp_receiving : noise_symmetric_key;
  kp_receiving_counter : noise_replay_counter;
  kp_remote_index : Z;
  kp_i_am_the_initiator : bool;
  kp_refcount : Z;
  kp_internal_id : Z;
  kp_aead_enc : option bytes;
  kp_aead_dec : option bytes
}.
#[export] Instance eta_noise_keypair : Eta noise_keypair := fun r =>
  {| kp_sending := kp_sending r; kp_sending_counter := kp_sending_counter r;
     kp_receiving := kp_receiving r; kp_receiving_counter := kp_receiving_counter r;
     kp_remote_index := kp_remote_index r; kp_i_am_the_initiator := kp_i_am_the_initiator r;
     kp_refcount := kp_refcount r; kp_internal_id := kp_internal_id r; kp_aead_enc := kp_aead_enc r;
     kp_aead_dec := kp_aead_dec r |}.
Definition upd_kp_sending := setter! kp_sending.
Definition upd_kp_sending_counter := setter! kp_sending_counter.
Definition upd_kp_receiving := setter! kp_receiving.
Definition upd_kp_receiving_counter := setter! kp_receiving_counter.
Definition upd_kp_remote_index := setter! kp_remote_index.
Definition upd_kp_i_am_the_initiator := setter! kp_i_am_the_initiator.
Definition upd_kp_refcount := setter! kp_refcount.
Definition upd_kp_internal_id := setter! kp_internal_id.
Definition upd_kp_aead_enc := setter! kp_aead_enc.
Definition upd_kp_aead_dec := setter! kp_aead_dec.

(** struct noise_keypairs *)
Record noise_keypairs := {
  current_keypair : option keypair_id;
  previous_keypair : option keypair_id;
  next_keypair : option keypair_id
}.
#[export] Instance eta_noise_keypairs : Eta noise_keypairs := fun r =>
  {| current_keypair := current_keypair r; previous_keypair := previous_keypair r;
     next_keypair := next_keypair r |}.
Definition upd_current_keypair := setter! current_keypair.
Definition upd_previous_keypair := setter! previous_keypair.
Definition upd_next_keypair := setter! next_keypair.

(** struct noise_static_identity *)
Record noise_static_identity := {
  static_public : bytes;
  static_private : bytes;
  has_identity : bool
}.
#[export] Instance eta_noise_static_identity : Eta noise_static_identity := fun r =>
  {| static_public := static_public r; static_private := static_private r; has_identity := has_identity r |}.
Definition upd_static_public := setter! static_public.
Definition upd_static_private := setter! static_private.
Definition upd_has_identity := setter! has_identity.

(** enum noise_handshake_state *)
Inductive noise_handshake_state :=
| HANDSHAKE_ZEROED
| HANDSHAKE_CREATED_INITIATION
| HANDSHAKE_CONSUMED_INITIATION
| HANDSHAKE_CREATED_RESPONSE
| HANDSHAKE_CONSUMED_RESPONSE.

#[export] Instance handshake_state_eq_dec : EqDecision noise_handshake_state.
Proof. solve_decision. Defined.

(** struct noise_handshake; its [entry] is in the index table. *)
Record noise_handshake := {
  hs_state : noise_handshake_state;
  hs_last_initiation_consumption : Z;
  hs_ephemeral_private : bytes;
  hs_remote_static : bytes;
  hs_remote_ephemeral : bytes;
  hs_precomputed_static_static : bytes;
  hs_preshared_key : bytes;
  hs_hash : bytes;
  hs_chaining_key : bytes;
  hs_latest_timestamp : bytes;
  hs_remote_index : Z
}.
#[export] Instance eta_noise_handshake : Eta noise_handshake := fun r =>
  {| hs_state := hs_state r; hs_last_initiation_consumption := hs_last_initiation_consumption r;
     hs_ephemeral_private := hs_ephemeral_private r; hs_remote_static := hs_remote_static r;
     hs_remote_ephemeral := hs_remote_ephemeral r;
     hs_precomputed_static_static := hs_precomputed_static_static r;
     hs_preshared_key := hs_preshared_key r; hs_hash := hs_hash r; hs_chaining_key := hs_chaining_key r;
     hs_latest_timestamp := hs_latest_timestamp r; hs_remote_index := hs_remote_index r |}.
Definition upd_hs_state := setter! hs_state.
Definition upd_hs_last_initiation_consumption := setter! hs_last_initiation_consumption.
Definition upd_hs_ephemeral_private := setter! hs_ephemeral_private.
Definition upd_hs_remote_static := setter! hs_remote_static.
Definition upd_hs_remote_ephemeral := setter! hs_remote_ephemeral.
Definition upd_hs_precomputed_static_static := setter! hs_precomputed_static_static.
Definition upd_hs_preshared_key := setter! hs_preshared_key.
Definition upd_hs_hash := setter! hs_hash.
Definition upd_hs_chaining_key := setter! hs_chaining_key.
Definition upd_hs_latest_timestamp := setter! hs_latest_timestamp.
Definition upd_hs_remote_index := setter! hs_remote_index.

(** struct cookie_checker *)
Record cookie_checker := {
  ck_secret : bytes;
  ck_cookie_encryption_key : bytes;
  ck_message_mac1_key : bytes;
  ck_secret_birthdate : Z
}.
#[export] Instance eta_cookie_checker : Eta cookie_checker := fun r =>
  {| ck_secret := ck_secret r; ck_cookie_encryption_key := ck_cookie_encryption_key r;
     ck_message_mac1_key := ck_message_mac1_key r; ck_secret_birthdate := ck_secret_birthdate r |}.
Definition upd_ck_secret := setter! ck_secret.
Definition upd_ck_cookie_encryption_key := setter! ck_cookie_encryption_key.
Definition upd_ck_message_mac1_key := setter! ck_message_mac1_key.
Definition upd_ck_secret_birthdate := setter! ck_secret_birthdate.

(** struct cookie *)
Record cookie := {
  co_birthdate : Z;
  co_is_valid : bool;
  co_cookie : bytes;
  co_have_sent_mac1 : bool;
  co_last_mac1_sent : bytes;
  co_cookie_decryption_key : bytes;
  co_message_mac1_key : bytes
}.
#[export] Instance eta_cookie : Eta cookie := fun r =>
  {| co_birthdate := co_birthdate r; co_is_valid := co_is_valid r; co_cookie := co_cookie r;
     co_have_sent_mac1 := co_have_sent_mac1 r; co_last_mac1_sent := co_last_mac1_sent r;
     co_cookie_decryption_key := co_cookie_decryption_key r; co_message_mac1_key := co_message_mac1_key r |}.
Definition upd_co_birthdate := setter! co_birthdate.
Definition upd_co_is_valid := setter! co_is_valid.
Definition upd_co_cookie := setter! co_cookie.
Definition upd_co_have_sent_mac1 := setter! co_have_sent_mac1.
Definition upd_co_last_mac1_sent := setter! co_last_mac1_sent.
Definition upd_co_cookie_decryption_key := setter! co_cookie_decryption_key.
Definition upd_co_message_mac1_key := setter! co_message_mac1_key.

(** struct endpoint: the family, address and port of the peer, and our own address. The union of [src4], [src_if4] and [src6] is kept as separate members. *)
Record endpoint := {
  ep_family : Z;
  ep_port : bytes;
  ep_addr : bytes;
  ep_scope_id : Z;
  ep_src : bytes;
  ep_src_if4 : Z
}.
#[export] Instance eta_endpoint : Eta endpoint := fun r =>
  {| ep_family := ep_family r; ep_port := ep_port r; ep_addr := ep_addr r; ep_scope_id := ep_scope_id r;
     ep_src := ep_src r; ep_src_if4 := ep_src_if4 r |}.
Definition upd_ep_family := setter! ep_family.
Definition upd_ep_port := setter! ep_port.
Definition upd_ep_addr := setter! ep_addr.
Definition upd_ep_scope_id := setter! ep_scope_id.
Definition upd_ep_src := setter! ep_src.
Definition upd_ep_src_if4 := setter! ep_src_if4.

(** enum packet_state *)
Inductive packet_state := PACKET_STATE_UNCRYPTED | PACKET_STATE_CRYPTED | PACKET_STATE_DEAD.

#[export] Instance packet_state_eq_dec : EqDecision packet_state.
Proof. solve_decision. Defined.

(** A packet of the transmit path with the members of its [packet_cb]. *)
Record packet := {
  pk_skb : sk_buff;
  pk_nonce : Z;
  pk_mtu : Z;
  pk_ds : Z
}.
#[export] Instance eta_packet : Eta packet := fun r =>
  {| pk_skb := pk_skb r; pk_nonce := pk_nonce r; pk_mtu := pk_mtu r; pk_ds := pk_ds r |}.
Definition upd_pk_skb := setter! pk_skb.
Definition upd_pk_nonce := setter! pk_nonce.
Definition upd_pk_mtu := setter! pk_mtu.
Definition upd_pk_ds := setter! pk_ds.

Abbreviation job_id := positive.

(** A list of packets that the peer queue and the device queue share: the first one carries the keypair and the state. *)
Record job := {
  jb_packets : list packet;
  jb_keypair : keypair_id;
  jb_state : packet_state
}.
#[export] Instance eta_job : Eta job := fun r =>
  {| jb_packets := jb_packets r; jb_keypair := jb_keypair r; jb_state := jb_state r |}.
Definition upd_jb_packets := setter! jb_packets.
Definition upd_jb_keypair := setter! jb_keypair.
Definition upd_jb_state := setter! jb_state.

(** struct wg_peer *)
Record wg_peer := {
  p_tx_queue : prev_queue;
  p_rx_queue : prev_queue;
  p_staged_packet_queue : list packet;
  p_serial_work_cpu : Z;
  p_is_dead : bool;
  p_keypairs : noise_keypairs;
  p_endpoint : endpoint;
  p_handshake : noise_handshake;
  p_last_sent_handshake : Z;
  p_latest_cookie : cookie;
  p_rx_bytes : Z;
  p_tx_bytes : Z;
  p_timer_retransmit_handshake : option Z;
  p_timer_send_keepalive : option Z;
  p_timer_new_handshake : option Z;
  p_timer_zero_key_material : option Z;
  p_timer_persistent_keepalive : option Z;
  p_timer_handshake_attempts : Z;
  p_persistent_keepalive_interval : Z;
  p_timer_need_another_keepalive : bool;
  p_sent_lastminute_handshake : bool;
  p_walltime_last_handshake : Z * Z;
  p_refcount : Z;
  p_napi_enabled : bool;
  p_internal_id : Z
}.
#[export] Instance eta_wg_peer : Eta wg_peer := fun r =>
  {| p_tx_queue := p_tx_queue r; p_rx_queue := p_rx_queue r;
     p_staged_packet_queue := p_staged_packet_queue r; p_serial_work_cpu := p_serial_work_cpu r;
     p_is_dead := p_is_dead r; p_keypairs := p_keypairs r; p_endpoint := p_endpoint r;
     p_handshake := p_handshake r; p_last_sent_handshake := p_last_sent_handshake r;
     p_latest_cookie := p_latest_cookie r; p_rx_bytes := p_rx_bytes r; p_tx_bytes := p_tx_bytes r;
     p_timer_retransmit_handshake := p_timer_retransmit_handshake r;
     p_timer_send_keepalive := p_timer_send_keepalive r; p_timer_new_handshake := p_timer_new_handshake r;
     p_timer_zero_key_material := p_timer_zero_key_material r;
     p_timer_persistent_keepalive := p_timer_persistent_keepalive r;
     p_timer_handshake_attempts := p_timer_handshake_attempts r;
     p_persistent_keepalive_interval := p_persistent_keepalive_interval r;
     p_timer_need_another_keepalive := p_timer_need_another_keepalive r;
     p_sent_lastminute_handshake := p_sent_lastminute_handshake r;
     p_walltime_last_handshake := p_walltime_last_handshake r; p_refcount := p_refcount r;
     p_napi_enabled := p_napi_enabled r; p_internal_id := p_internal_id r |}.
Definition upd_p_tx_queue := setter! p_tx_queue.
Definition upd_p_rx_queue := setter! p_rx_queue.
Definition upd_p_staged_packet_queue := setter! p_staged_packet_queue.
Definition upd_p_serial_work_cpu := setter! p_serial_work_cpu.
Definition upd_p_is_dead := setter! p_is_dead.
Definition upd_p_keypairs := setter! p_keypairs.
Definition upd_p_endpoint := setter! p_endpoint.
Definition upd_p_handshake := setter! p_handshake.
Definition upd_p_last_sent_handshake := setter! p_last_sent_handshake.
Definition upd_p_latest_cookie := setter! p_latest_cookie.
Definition upd_p_rx_bytes := setter! p_rx_bytes.
Definition upd_p_tx_bytes := setter! p_tx_bytes.
Definition upd_p_timer_retransmit_handshake := setter! p_timer_retransmit_handshake.
Definition upd_p_timer_send_keepalive := setter! p_timer_send_keepalive.
Definition upd_p_timer_new_handshake := setter! p_timer_new_handshake.
Definition upd_p_timer_zero_key_material := setter! p_timer_zero_key_material.
Definition upd_p_timer_persistent_keepalive := setter! p_timer_persistent_keepalive.
Definition upd_p_timer_handshake_attempts := setter! p_timer_handshake_attempts.
Definition upd_p_persistent_keepalive_interval := setter! p_persistent_keepalive_interval.
Definition upd_p_timer_need_another_keepalive := setter! p_timer_need_another_keepalive.
Definition upd_p_sent_lastminute_handshake := setter! p_sent_lastminute_handshake.
Definition upd_p_walltime_last_handshake := setter! p_walltime_last_handshake.
Definition upd_p_refcount := setter! p_refcount.
Definition upd_p_napi_enabled := setter! p_napi_enabled.
Definition upd_p_internal_id := setter! p_internal_id.

(** A work item on one of the workqueues of the device. *)
Inductive work := TransmitHandshake (p : peer_id) | ClearPeer (p : peer_id) | TransmitPacket (p : peer_id)
  | Encrypt (cpu : Z) | Decrypt (cpu : Z) | HandshakeReceive (cpu : Z) | Napi (p : peer_id).

#[export] Instance work_eq_dec : EqDecision work.
Proof. solve_decision. Defined.

(** What the program hands out. *)
Inductive output :=
| ToSocket (ep : endpoint) (datagram : bytes) (ds : Z)     (** a datagram for the UDP socket *)
| ToStack (p : peer_id) (packet : bytes)                    (** a packet for the network stack *)
| ToIcmp (family : Z) (packet : bytes).                     (** the packet an ICMP error answers *)

(** Statistics of the network device. *)

(** The counters of [dev->stats] and [dev->tstats] the program updates. *)
Record net_stats := {
  st_rx_packets : Z;
  st_rx_bytes : Z;
  st_rx_errors : Z;
  st_rx_frame_errors : Z;
  st_rx_length_errors : Z;
  st_tx_dropped : Z;
  st_tx_errors : Z
}.
#[export] Instance eta_net_stats : Eta net_stats := fun r =>
  {| st_rx_packets := st_rx_packets r; st_rx_bytes := st_rx_bytes r; st_rx_errors := st_rx_errors r;
     st_rx_frame_errors := st_rx_frame_errors r; st_rx_length_errors := st_rx_length_errors r;
     st_tx_dropped := st_tx_dropped r; st_tx_errors := st_tx_errors r |}.
Definition upd_st_rx_packets := setter! st_rx_packets.
Definition upd_st_rx_bytes := setter! st_rx_bytes.
Definition upd_st_rx_errors := setter! st_rx_errors.
Definition upd_st_rx_frame_errors := setter! st_rx_frame_errors.
Definition upd_st_rx_length_errors := setter! st_rx_length_errors.
Definition upd_st_tx_dropped := setter! st_tx_dropped.
Definition upd_st_tx_errors := setter! st_tx_errors.

(** struct wg_device with the objects it owns. [d_aead_handles] counts the AES-GCM handles in existence, [d_keypair_rcu] and [d_peer_rcu] hold what waits for a grace period; a socket is the port it is bound to, [d_open_sockets] counts the sockets in existence; [d_aes_cpu] tells whether the per-CPU request buffers are allocated. *)
Record wg_device := {
  d_static_identity : noise_static_identity;
  d_peers : gmap peer_id wg_peer;
  d_keypairs : gmap keypair_id noise_keypair;
  d_jobs : gmap job_id job;
  d_peer_hashtable : pubkey_hashtable;
  d_index_hashtable : index_hashtable;
  d_peer_allowedips : allowedips;
  d_cookie_checker : cookie_checker;
  d_peer_list : list peer_id;
  d_num_peers : Z;
  d_is_chacha : bool;
  d_running : bool;
  d_mtu : Z;
  d_encrypt_queue : list job_id;
  d_decrypt_queue : list job_id;
  d_handshake_queue : list sk_buff;
  d_encrypt_last_cpu : Z;
  d_decrypt_last_cpu : Z;
  d_handshake_last_cpu : Z;
  d_handshake_queue_len : Z;
  d_works : list work;
  d_outputs : list output;
  d_stats : net_stats;
  d_ratelimiter : ratelimiter;
  d_last_under_load : Z;
  d_keypair_counter : Z;
  d_peer_counter : Z;
  d_keypair_rcu : list keypair_id;
  d_peer_rcu : list peer_id;
  d_aead_handles : Z;
  d_sock4 : option Z;
  d_sock6 : option Z;
  d_open_sockets : Z;
  d_creating_net : option Z;
  d_incoming_port : Z;
  d_fwmark : Z;
  d_device_update_gen : Z;
  d_aes_cpu : bool
}.
#[export] Instance eta_wg_device : Eta wg_device := fun r =>
  {| d_static_identity := d_static_identity r; d_peers := d_peers r; d_keypairs := d_keypairs r;
     d_jobs := d_jobs r; d_peer_hashtable := d_peer_hashtable r; d_index_hashtable := d_index_hashtable r;
     d_peer_allowedips := d_peer_allowedips r; d_cookie_checker := d_cookie_checker r;
     d_peer_list := d_peer_list r; d_num_peers := d_num_peers r; d_is_chacha := d_is_chacha r;
     d_running := d_running r; d_mtu := d_mtu r; d_encrypt_queue := d_encrypt_queue r;
     d_decrypt_queue := d_decrypt_queue r; d_handshake_queue := d_handshake_queue r;
     d_encrypt_last_cpu := d_encrypt_last_cpu r; d_decrypt_last_cpu := d_decrypt_last_cpu r;
     d_handshake_last_cpu := d_handshake_last_cpu r; d_handshake_queue_len := d_handshake_queue_len r;
     d_works := d_works r; d_outputs := d_outputs r; d_stats := d_stats r;
     d_ratelimiter := d_ratelimiter r; d_last_under_load := d_last_under_load r;
     d_keypair_counter := d_keypair_counter r; d_peer_counter := d_peer_counter r;
     d_keypair_rcu := d_keypair_rcu r; d_peer_rcu := d_peer_rcu r; d_aead_handles := d_aead_handles r;
     d_sock4 := d_sock4 r; d_sock6 := d_sock6 r; d_open_sockets := d_open_sockets r; d_creating_net := d_creating_net r;
     d_incoming_port := d_incoming_port r; d_fwmark := d_fwmark r;
     d_device_update_gen := d_device_update_gen r; d_aes_cpu := d_aes_cpu r |}.
Definition upd_d_static_identity := setter! d_static_identity.
Definition upd_d_peers := setter! d_peers.
Definition upd_d_keypairs := setter! d_keypairs.
Definition upd_d_jobs := setter! d_jobs.
Definition upd_d_peer_hashtable := setter! d_peer_hashtable.
Definition upd_d_index_hashtable := setter! d_index_hashtable.
Definition upd_d_peer_allowedips := setter! d_peer_allowedips.
Definition upd_d_cookie_checker := setter! d_cookie_checker.
Definition upd_d_peer_list := setter! d_peer_list.
Definition upd_d_num_peers := setter! d_num_peers.
Definition upd_d_is_chacha := setter! d_is_chacha.
Definition upd_d_running := setter! d_running.
Definition upd_d_mtu := setter! d_mtu.
Definition upd_d_encrypt_queue := setter! d_encrypt_queue.
Definition upd_d_decrypt_queue := setter! d_decrypt_queue.
Definition upd_d_handshake_queue := setter! d_handshake_queue.
Definition upd_d_encrypt_last_cpu := setter! d_encrypt_last_cpu.
Definition upd_d_decrypt_last_cpu := setter! d_decrypt_last_cpu.
Definition upd_d_handshake_last_cpu := setter! d_handshake_last_cpu.
Definition upd_d_handshake_queue_len := setter! d_handshake_queue_len.
Definition upd_d_works := setter! d_works.
Definition upd_d_outputs := setter! d_outputs.
Definition upd_d_stats := setter! d_stats.
Definition upd_d_ratelimiter := setter! d_ratelimiter.
Definition upd_d_last_under_load := setter! d_last_under_load.
Definition upd_d_keypair_counter := setter! d_keypair_counter.
Definition upd_d_peer_counter := setter! d_peer_counter.
Definition upd_d_keypair_rcu := setter! d_keypair_rcu.
Definition upd_d_peer_rcu := setter! d_peer_rcu.
Definition upd_d_aead_handles := setter! d_aead_handles.
Definition upd_d_sock4 := setter! d_sock4.
Definition upd_d_sock6 := setter! d_sock6.
Definition upd_d_open_sockets := setter! d_open_sockets.
Definition upd_d_creating_net := setter! d_creating_net.
Definition upd_d_incoming_port := setter! d_incoming_port.
Definition upd_d_fwmark := setter! d_fwmark.
Definition upd_d_device_update_gen := setter! d_device_update_gen.
Definition upd_d_aes_cpu := setter! d_aes_cpu.

(** What the kernel hands to one call: clocks, random numbers, and whether what the call asks for is
    there; for the encryption and decryption of packets it may differ from packet to packet. *)
Record env := {
  ktime_get_coarse_boottime_ns : Z;
  ktime_get_real_ts64 : Z * Z;
  jiffies : Z;
  HZ : Z;
  prandom_u32_max : Z -> Z;
  random_secret : bytes;
  random_indices : list Z;
  random_nonce : bytes;
  random_cookie_secret : bytes;
  new_keypair : option keypair_id;
  aead_enc_alloc : bool;
  aead_enc_setkey : bool;
  aead_dec_alloc : bool;
  aead_dec_setkey : bool;
  new_peer : option peer_id;
  dst_cache_ok : bool;
  new_job : job_id;
  alloc_skb_ok : bool;
  skb_cow_data_ok : packet -> bool;
  skb_cow_head_ok : packet -> bool;
  skb_to_sgvec_ok : packet -> bool;
  aead_ok : packet -> bool;
  pskb_trim_ok : sk_buff -> bool;
  rng_is_initialized : bool;
  handshake_trylock_ok : bool;
  cpu_online_mask : list Z;
  nr_cpu_ids : Z;
  udp_sock_create4 : Z -> Z -> Z + Z;
  udp_sock_create6 : Z -> Z -> option Z;
  ipv6_mod_enabled : bool;
  net_alive : bool;
  ns_capable : bool;
  dst_cache_ip4 : option bytes;
  dst_cache_ip6 : option bytes;
  inet_confirm_addr : bytes -> bool;
  ip_route_output_flow : bytes -> Z + Z;
  ipv6_chk_addr : bytes -> bool;
  ipv6_dst_lookup_flow : bytes -> option Z;
  entry_alloc_ok : bool;
  net_id : Z
}.
#[export] Instance eta_env : Eta env := fun r =>
  {| ktime_get_coarse_boottime_ns := ktime_get_coarse_boottime_ns r;
     ktime_get_real_ts64 := ktime_get_real_ts64 r; jiffies := jiffies r; HZ := HZ r;
     prandom_u32_max := prandom_u32_max r; random_secret := random_secret r;
     random_indices := random_indices r; random_nonce := random_nonce r;
     random_cookie_secret := random_cookie_secret r; new_keypair := new_keypair r;
     aead_enc_alloc := aead_enc_alloc r; aead_enc_setkey := aead_enc_setkey r;
     aead_dec_alloc := aead_dec_alloc r; aead_dec_setkey := aead_dec_setkey r; new_peer := new_peer r;
     dst_cache_ok := dst_cache_ok r; new_job := new_job r; alloc_skb_ok := alloc_skb_ok r;
     skb_cow_data_ok := skb_cow_data_ok r; skb_cow_head_ok := skb_cow_head_ok r;
     skb_to_sgvec_ok := skb_to_sgvec_ok r; aead_ok := aead_ok r; pskb_trim_ok := pskb_trim_ok r;
     rng_is_initialized := rng_is_initialized r; handshake_trylock_ok := handshake_trylock_ok r;
     cpu_online_mask := cpu_online_mask r; nr_cpu_ids := nr_cpu_ids r;
     udp_sock_create4 := udp_sock_create4 r; udp_sock_create6 := udp_sock_create6 r;
     ipv6_mod_enabled := ipv6_mod_enabled r; net_alive := net_alive r; ns_capable := ns_capable r;
     dst_cache_ip4 := dst_cache_ip4 r; dst_cache_ip6 := dst_cache_ip6 r;
     inet_confirm_addr := inet_confirm_addr r; ip_route_output_flow := ip_route_output_flow r;
     ipv6_chk_addr := ipv6_chk_addr r; ipv6_dst_lookup_flow := ipv6_dst_lookup_flow r;
     entry_alloc_ok := entry_alloc_ok r; net_id := net_id r |}.


(** timers.h: [wg_birthdate_has_expired] *)
Definition wg_birthdate_has_expired (e : env) (birthday_nanoseconds expiration_seconds : Z) : bool :=
  s64 (birthday_nanoseconds + expiration_seconds * NSEC_PER_SEC) <=? s64 (ktime_get_coarse_boottime_ns e).
