(* ===== verification/Samples.v ===== *)
(** * Samples: small devices the examples evaluate the definitions on *)

From S2P Require Import Prelude Messages Skb Replay AllowedIps PeerLookup RateLimiter PrevQueue World.

Definition sample_key (b : Z) : noise_symmetric_key :=
  {| sk_key := replicate 32 b; sk_birthdate := 0; sk_is_valid := true |}.

Definition sample_keypair (initiator : bool) (refs : Z) : noise_keypair :=
  {| kp_sending := sample_key 7; kp_sending_counter := 0; kp_receiving := sample_key 8;
     kp_receiving_counter := replay_counter_init; kp_remote_index := 5;
     kp_i_am_the_initiator := initiator; kp_refcount := refs; kp_internal_id := 1;
     kp_aead_enc := None; kp_aead_dec := None |}.

Definition sample_endpoint : endpoint :=
  {| ep_family := AF_INET; ep_port := [0; 80]; ep_addr := [10; 0; 0; 1]; ep_scope_id := 0;
     ep_src := zeroes 4; ep_src_if4 := 0 |}.

Definition zero_handshake : noise_handshake :=
  {| hs_state := HANDSHAKE_ZEROED; hs_last_initiation_consumption := 0; hs_ephemeral_private := zeroes 32;
     hs_remote_static := zeroes 32; hs_remote_ephemeral := zeroes 32; hs_precomputed_static_static := zeroes 32;
     hs_preshared_key := zeroes 32; hs_hash := zeroes 32; hs_chaining_key := zeroes 32;
     hs_latest_timestamp := zeroes 12; hs_remote_index := 0 |}.

Definition zero_cookie : cookie :=
  {| co_birthdate := 0; co_is_valid := false; co_cookie := zeroes 16; co_have_sent_mac1 := false;
     co_last_mac1_sent := zeroes 16; co_cookie_decryption_key := zeroes 32; co_message_mac1_key := zeroes 32 |}.

Definition no_keypairs : noise_keypairs :=
  {| current_keypair := None; previous_keypair := None; next_keypair := None |}.

Definition sample_queue : prev_queue :=
  {| q_next := ∅; q_head := STUB; q_tail := STUB; q_peeked := None; q_count := 0 |}.

Definition sample_peer : wg_peer :=
  {| p_tx_queue := sample_queue; p_rx_queue := sample_queue; p_staged_packet_queue := []; p_serial_work_cpu := 0; p_is_dead := false;
     p_keypairs := no_keypairs; p_endpoint := sample_endpoint; p_handshake := zero_handshake;
     p_last_sent_handshake := 0; p_latest_cookie := zero_cookie; p_rx_bytes := 0; p_tx_bytes := 0;
     p_timer_retransmit_handshake := None; p_timer_send_keepalive := None; p_timer_new_handshake := None;
     p_timer_zero_key_material := None; p_timer_persistent_keepalive := None; p_timer_handshake_attempts := 0;
     p_persistent_keepalive_interval := 0; p_timer_need_another_keepalive := false;
     p_sent_lastminute_handshake := false; p_walltime_last_handshake := (0, 0); p_refcount := 1;
     p_napi_enabled := true; p_internal_id := 1 |}.

Definition sample_device : wg_device :=
  {| d_static_identity := {| static_public := zeroes 32; static_private := zeroes 32; has_identity := false |};
     d_peers := ∅; d_keypairs := ∅; d_jobs := ∅;
     d_peer_hashtable := wg_pubkey_hashtable_alloc 0; d_index_hashtable := wg_index_hashtable_alloc;
     d_peer_allowedips := {| root4 := None; root6 := None; seq := 1; nodes := ∅; peer_lists := ∅; rcu := [] |};
     d_cookie_checker := {| ck_secret := zeroes 32; ck_cookie_encryption_key := zeroes 32;
                            ck_message_mac1_key := zeroes 32; ck_secret_birthdate := 0 |};
     d_peer_list := []; d_num_peers := 0; d_is_chacha := false; d_running := true; d_mtu := 1420;
     d_encrypt_queue := []; d_decrypt_queue := []; d_handshake_queue := [];
     d_encrypt_last_cpu := -1; d_decrypt_last_cpu := -1; d_handshake_last_cpu := -1; d_handshake_queue_len := 0;
     d_works := []; d_outputs := [];
     d_stats := {| st_rx_packets := 0; st_rx_bytes := 0; st_rx_errors := 0; st_rx_frame_errors := 0;
                   st_rx_length_errors := 0; st_tx_dropped := 0; st_tx_errors := 0 |};
     d_ratelimiter := ratelimiter_static; d_last_under_load := 0; d_keypair_counter := 0; d_peer_counter := 0;
     d_keypair_rcu := []; d_peer_rcu := []; d_aead_handles := 0; d_sock4 := Some 51820; d_sock6 := Some 51820; d_open_sockets := 2; d_creating_net := Some 1;
     d_incoming_port := 51820; d_fwmark := 0; d_device_update_gen := 1; d_aes_cpu := true |}.

(** Five seconds after boot; the allocations succeed. *)
Definition sample_env : env :=
  {| ktime_get_coarse_boottime_ns := 5 * NSEC_PER_SEC; ktime_get_real_ts64 := (1700000000, 500000000);
     jiffies := 5000; HZ := 1000; prandom_u32_max := fun _ => 0; random_secret := 77 :: zeroes 31;
     random_indices := [1001; 1002]; random_nonce := zeroes 24; random_cookie_secret := 3 :: zeroes 31;
     new_keypair := Some 1%positive; aead_enc_alloc := true; aead_enc_setkey := true; aead_dec_alloc := true;
     aead_dec_setkey := true; new_peer := Some 1%positive; dst_cache_ok := true; new_job := 1%positive;
     alloc_skb_ok := true; skb_cow_data_ok := fun _ => true; skb_cow_head_ok := fun _ => true; skb_to_sgvec_ok := fun _ => true; aead_ok := fun _ => true;
     pskb_trim_ok := fun _ => true; rng_is_initialized := true; handshake_trylock_ok := true; cpu_online_mask := [0; 1]; nr_cpu_ids := 4;
     udp_sock_create4 := fun port _ => inr port; udp_sock_create6 := fun _ _ => None; ipv6_mod_enabled := true;
     net_alive := true; ns_capable := true; dst_cache_ip4 := None; dst_cache_ip6 := None;
     inet_confirm_addr := fun _ => true; ip_route_output_flow := fun _ => inr 2; ipv6_chk_addr := fun _ => true;
     ipv6_dst_lookup_flow := fun _ => None; entry_alloc_ok := true; net_id := 1 |}.
