(* ===== verification/Objects.v ===== *)
(** * Objects: reference-counted peers and keypairs

    The reference counts of peer.c and noise.c and what happens when the last reference goes. A
    function returns [None] when it is given an object that does not exist any more. *)

From S2P Require Import Prelude Messages Skb PeerLookup World.

Definition upd_peer (p : peer_id) (f : wg_peer -> wg_peer) : wg_device -> wg_device := upd_d_peers (alter f p).
Definition upd_keypair (k : keypair_id) (f : noise_keypair -> noise_keypair) : wg_device -> wg_device :=
  upd_d_keypairs (alter f k).

(** ** Peers *)

(** [kref_get_unless_zero] *)
Definition peer_alive (w : wg_device) (p : peer_id) : bool :=
  match d_peers w !! p with Some pr => negb (p_refcount pr =? 0) | None => false end.

Definition wg_peer_get (p : peer_id) : wg_device -> wg_device := upd_peer p (upd_p_refcount (fun n => n + 1)).

Definition wg_peer_get_maybe_zero (p : option peer_id) (w : wg_device) : option peer_id * wg_device :=
  match p with
  | Some p => if peer_alive w p then (Some p, wg_peer_get p w) else (None, w)
  | None => (None, w)
  end.

(** send.c: [wg_packet_purge_staged_packets] *)
Definition wg_packet_purge_staged_packets (p : peer_id) (w : wg_device) : option wg_device :=
  pr ← d_peers w !! p;
  let qlen := Z.of_nat (length (p_staged_packet_queue pr)) in
  let w := upd_d_stats (upd_st_tx_dropped (fun n => n + qlen)) w in
  Some (upd_peer p (upd_p_staged_packet_queue (fun _ => [])) w).

Definition kref_release (p : peer_id) (w : wg_device) : option wg_device :=
  let w := upd_d_index_hashtable (wg_index_hashtable_remove (Handshake p)) w in
  w ← wg_packet_purge_staged_packets p w;
  Some (upd_d_peer_rcu (fun l => l ++ [p]) w).

Definition wg_peer_put (p : peer_id) (w : wg_device) : option wg_device :=
  pr ← d_peers w !! p;
  let w' := upd_peer p (upd_p_refcount (fun n => n - 1)) w in
  if p_refcount pr =? 1 then kref_release p w' else Some w'.

(** The memory of an object goes, with the index table entry in it. *)
Definition free_entry (e : entry_id) : wg_device -> wg_device :=
  upd_d_index_hashtable (fun t => {| ix_hashtable := ix_hashtable t; ix_entries := delete e (ix_entries t) |}).

Definition rcu_release (p : peer_id) (w : wg_device) : wg_device := free_entry (Handshake p) (upd_d_peers (delete p) w).

(** ** Keypairs *)

Definition keypair_alive (w : wg_device) (k : keypair_id) : bool :=
  match d_keypairs w !! k with Some kp => negb (kp_refcount kp =? 0) | None => false end.

Definition wg_noise_keypair_get (k : option keypair_id) (w : wg_device) : option keypair_id * wg_device :=
  match k with
  | Some k => if keypair_alive w k then (Some k, upd_keypair k (upd_kp_refcount (fun n => n + 1)) w) else (None, w)
  | None => (None, w)
  end.

Definition count_handle (h : option bytes) : Z := match h with Some _ => 1 | None => 0 end.

Definition keypair_free_rcu (k : keypair_id) (w : wg_device) : option wg_device :=
  kp ← d_keypairs w !! k;
  let w := upd_d_aead_handles (fun n => n - count_handle (kp_aead_enc kp) - count_handle (kp_aead_dec kp)) w in
  Some (free_entry (Keypair k) (upd_d_keypairs (delete k) w)).

Definition keypair_free_kref (k : keypair_id) (w : wg_device) : wg_device :=
  let w := upd_d_index_hashtable (wg_index_hashtable_remove (Keypair k)) w in
  upd_d_keypair_rcu (fun l => l ++ [k]) w.

Definition wg_noise_keypair_put (k : option keypair_id) (unreference_now : bool) (w : wg_device) : option wg_device :=
  match k with
  | None => Some w
  | Some k =>
      let w := if unreference_now then upd_d_index_hashtable (wg_index_hashtable_remove (Keypair k)) w else w in
      kp ← d_keypairs w !! k;
      let w' := upd_keypair k (upd_kp_refcount (fun n => n - 1)) w in
      Some (if kp_refcount kp =? 1 then keypair_free_kref k w' else w')
  end.

(** [wg_index_hashtable_lookup] on the device: a successful lookup takes a reference. *)
Definition index_lookup (type_mask index : Z) (w : wg_device) : option (entry_id * peer_id) * wg_device :=
  let '(r, t) := wg_index_hashtable_lookup (peer_alive w) type_mask index (d_index_hashtable w) in
  let w := upd_d_index_hashtable (fun _ => t) w in
  match r with
  | Some (e, p) => (Some (e, p), wg_peer_get p w)
  | None => (None, w)
  end.

(** [wg_pubkey_hashtable_lookup] on the device. *)
Definition pubkey_lookup (siphash : bytes -> Z -> Z) (pubkey : bytes) (w : wg_device) : option peer_id * wg_device :=
  let remote_static p := (fun pr => hs_remote_static (p_handshake pr)) <$> d_peers w !! p in
  match wg_pubkey_hashtable_lookup siphash remote_static (peer_alive w) pubkey (d_peer_hashtable w) with
  | Some p => (Some p, wg_peer_get p w)
  | None => (None, w)
  end.
