(* ===== verification/Keypairs.v ===== *)
(** * Keypairs: the three keypair slots of a peer (noise.c)

    [add_new_keypair], [wg_noise_received_with_keypair] and [wg_noise_keypairs_clear] move keypairs
    between the slots [next], [current] and [previous] under the keypair lock, and drop the
    reference of every keypair that leaves them. *)

From S2P Require Import Prelude Messages Skb PeerLookup World Objects.

Definition get_slots (p : peer_id) (w : wg_device) : option noise_keypairs := p_keypairs <$> d_peers w !! p.
Definition set_slots (p : peer_id) (f : noise_keypairs -> noise_keypairs) : wg_device -> wg_device :=
  upd_peer p (upd_p_keypairs f).

Definition wg_noise_keypairs_clear (p : peer_id) (w : wg_device) : option wg_device :=
  ks ← get_slots p w;
  let w := set_slots p (upd_next_keypair (fun _ => None)) w in
  w ← wg_noise_keypair_put (next_keypair ks) true w;
  let w := set_slots p (upd_previous_keypair (fun _ => None)) w in
  w ← wg_noise_keypair_put (previous_keypair ks) true w;
  let w := set_slots p (upd_current_keypair (fun _ => None)) w in
  wg_noise_keypair_put (current_keypair ks) true w.

Definition add_new_keypair (p : peer_id) (new : keypair_id) (w : wg_device) : option wg_device :=
  ks ← get_slots p w;
  kp ← d_keypairs w !! new;
  if kp_i_am_the_initiator kp then
    w ← match next_keypair ks with
        | Some next =>
            let w := set_slots p (upd_next_keypair (fun _ => None)) w in
            let w := set_slots p (upd_previous_keypair (fun _ => Some next)) w in
            wg_noise_keypair_put (current_keypair ks) true w
        | None => Some (set_slots p (upd_previous_keypair (fun _ => current_keypair ks)) w)
        end;
    w ← wg_noise_keypair_put (previous_keypair ks) true w;
    Some (set_slots p (upd_current_keypair (fun _ => Some new)) w)
  else
    let w := set_slots p (upd_next_keypair (fun _ => Some new)) w in
    w ← wg_noise_keypair_put (next_keypair ks) true w;
    let w := set_slots p (upd_previous_keypair (fun _ => None)) w in
    wg_noise_keypair_put (previous_keypair ks) true w.

Definition wg_noise_received_with_keypair (p : peer_id) (received : keypair_id) (w : wg_device)
  : option (bool * wg_device) :=
  ks ← get_slots p w;
  if negb (bool_decide (next_keypair ks = Some received)) then Some (false, w)
  else
    let w := set_slots p (upd_previous_keypair (fun _ => current_keypair ks)) w in
    w ← wg_noise_keypair_put (previous_keypair ks) true w;
    let w := set_slots p (upd_current_keypair (fun _ => Some received)) w in
    let w := set_slots p (upd_next_keypair (fun _ => None)) w in
    Some (true, w).

Definition invalidate_sending (k : option keypair_id) (w : wg_device) : wg_device :=
  match k with
  | Some k => upd_keypair k (upd_kp_sending (upd_sk_is_valid (fun _ => false))) w
  | None => w
  end.

(** [handshake_zero] *)
Definition handshake_zero (hs : noise_handshake) : noise_handshake :=
  {| hs_state := HANDSHAKE_ZEROED;
     hs_last_initiation_consumption := hs_last_initiation_consumption hs;
     hs_ephemeral_private := zeroes NOISE_PUBLIC_KEY_LEN;
     hs_remote_static := hs_remote_static hs;
     hs_remote_ephemeral := zeroes NOISE_PUBLIC_KEY_LEN;
     hs_precomputed_static_static := hs_precomputed_static_static hs;
     hs_preshared_key := hs_preshared_key hs;
     hs_hash := zeroes NOISE_HASH_LEN;
     hs_chaining_key := zeroes NOISE_HASH_LEN;
     hs_latest_timestamp := hs_latest_timestamp hs;
     hs_remote_index := 0 |}.

Definition wg_noise_handshake_clear (p : peer_id) (w : wg_device) : wg_device :=
  let w := upd_d_index_hashtable (wg_index_hashtable_remove (Handshake p)) w in
  upd_peer p (upd_p_handshake handshake_zero) w.

(** [wg_noise_reset_last_sent_handshake] *)
Definition wg_noise_reset_last_sent_handshake (e : env) : wg_peer -> wg_peer :=
  upd_p_last_sent_handshake (fun _ => u64 (ktime_get_coarse_boottime_ns e - (REKEY_TIMEOUT + 1) * NSEC_PER_SEC)).

Definition wg_noise_expire_current_peer_keypairs (e : env) (p : peer_id) (w : wg_device) : option wg_device :=
  let w := wg_noise_handshake_clear p w in
  let w := upd_peer p (wg_noise_reset_last_sent_handshake e) w in
  ks ← get_slots p w;
  Some (invalidate_sending (current_keypair ks) (invalidate_sending (next_keypair ks) w)).
