(* ===== verification/KeypairsProps.v ===== *)
(** * KeypairsProps: the keypair slots account for every reference *)

From S2P Require Import Prelude Messages Skb Replay PeerLookup PeerLookupProps World Samples Objects Keypairs.

(** How many slots hold a keypair. *)
Definition slot_list (ks : noise_keypairs) : list (option keypair_id) :=
  [current_keypair ks; previous_keypair ks; next_keypair ks].
Definition occurrences (k : keypair_id) (l : list (option keypair_id)) : Z :=
  Z.of_nat (length (List.filter (fun o => bool_decide (o = Some k)) l)).
Definition slot_count (k : keypair_id) (ks : noise_keypairs) : Z := occurrences k (slot_list ks).

(** The slots hold keypairs that exist. *)
Definition slots_exist (w : wg_device) (ks : noise_keypairs) : Prop :=
  forall k, Some k ∈ slot_list ks -> is_Some (d_keypairs w !! k).

Lemma slots_exist_none w : slots_exist w no_keypairs.
Proof. intros k Hk. unfold slot_list in Hk. cbn in Hk. rewrite !elem_of_cons, elem_of_nil in Hk. by destruct Hk as [?|[?|[?|?]]]. Qed.

Lemma occurrences_cons k o l :
  occurrences k (o :: l) = (if bool_decide (o = Some k) then 1 else 0) + occurrences k l.
Proof. unfold occurrences. cbn. case_bool_decide; cbn [length]; lia. Qed.

Lemma occurrences_nil k : occurrences k [] = 0.
Proof. done. Qed.

(** ** Dropping references *)

Fixpoint puts (l : list (option keypair_id)) (w : wg_device) : option wg_device :=
  match l with
  | [] => Some w
  | k :: l => w ← wg_noise_keypair_put k true w; puts l w
  end.

(** The effect of dropping the references [l]. *)
Record dropped (l : list (option keypair_id)) (w w' : wg_device) : Prop := {
  dr_peers : d_peers w' = d_peers w;
  dr_count k : d_keypairs w' !! k = upd_kp_refcount (fun n => n - occurrences k l) <$> d_keypairs w !! k;
  dr_unhashed e : unhashed (d_index_hashtable w) e -> unhashed (d_index_hashtable w') e;
  dr_removed k : Some k ∈ l -> is_Some (ix_entries (d_index_hashtable w) !! Keypair k) ->
    unhashed (d_index_hashtable w') (Keypair k);
  dr_entries e : is_Some (ix_entries (d_index_hashtable w) !! e) -> is_Some (ix_entries (d_index_hashtable w') !! e);
  dr_ix_ok : ix_ok (d_index_hashtable w) -> ix_ok (d_index_hashtable w');
  dr_other e : (forall k, Some k ∈ l -> e <> Keypair k) ->
    ix_entries (d_index_hashtable w') !! e = ix_entries (d_index_hashtable w) !! e;
  dr_handles : d_aead_handles w' = d_aead_handles w
}.

Lemma unhashed_del_other e e' t : unhashed t e -> unhashed (hlist_del_init e' t) e.
Proof.
  intros (en & H1 & H2). exists (if decide (e = e') then with_hashed false en else en). split.
  - apply entries_del. by exists en.
  - by case_decide.
Qed.

Lemma del_entries e e' t : is_Some (ix_entries t !! e) -> is_Some (ix_entries (hlist_del_init e' t) !! e).
Proof. intros [en H]. eexists. apply entries_del. by exists en. Qed.

Lemma upd_refcount_0 kp : upd_kp_refcount (fun n => n - 0) kp = kp.
Proof. destruct kp. unfold upd_kp_refcount. cbn -[Z.sub]. by rewrite Z.sub_0_r. Qed.

Lemma dropped_refl w : dropped [] w w.
Proof.
  split; try done.
  - intros k. rewrite occurrences_nil. destruct (d_keypairs w !! k); cbn; [by rewrite upd_refcount_0|done].
  - intros k Hk. by apply elem_of_nil in Hk.
Qed.

Lemma put_dropped k w kp :
  d_keypairs w !! k = Some kp -> exists w', wg_noise_keypair_put (Some k) true w = Some w' /\ dropped [Some k] w w'.
Proof.
  intros Hk. cbn [wg_noise_keypair_put]. cbn [d_keypairs upd_d_index_hashtable]. rewrite Hk. cbn [mbind option_bind].
  set (w1 := upd_keypair k _ _).
  assert (H1 : dropped [Some k] w w1).
  { split; try done.
    - intros k'. cbn. rewrite occurrences_cons, occurrences_nil. case_bool_decide as Hd.
      + injection Hd as <-. rewrite lookup_alter_eq, Hk. done.
      + rewrite lookup_alter_ne by congruence. destruct (d_keypairs w !! k'); [|done]. cbn. by rewrite upd_refcount_0.
    - intros e. apply unhashed_del_other.
    - intros k' [= ->]%list_elem_of_singleton. apply unhashed_del.
    - intros e. apply del_entries.
    - apply ix_ok_del.
    - intros e He. cbn. apply lookup_alter_ne. intros <-. by apply (He k); [set_solver|]. }
  eexists. split; [done|]. case_if; [|done]. destruct H1 as [D1 D2 D3 D4 D5 D6 D7 D8]. split; try done.
  - intros e H. by apply unhashed_del_other, D3.
  - intros k' H H'. by apply unhashed_del_other, D4.
  - intros e H. by apply del_entries, D5.
  - intros H. by apply ix_ok_del, D6.
  - intros e He. cbn. rewrite lookup_alter_ne; [by apply D7|]. intros <-. by apply (He k); [set_solver|].
Qed.

Lemma puts_dropped l w :
  (forall k, Some k ∈ l -> is_Some (d_keypairs w !! k)) -> exists w', puts l w = Some w' /\ dropped l w w'.
Proof.
  revert w. induction l as [|o l IH]; intros w Hl; cbn [puts]; [eexists; split; [done|apply dropped_refl]|].
  destruct o as [k|].
  - destruct (Hl k) as [kp Hk]; [rewrite elem_of_cons; by left|].
    destruct (put_dropped k w kp Hk) as (w1 & E1 & D1). rewrite E1. cbn [mbind option_bind].
    destruct (IH w1) as (w2 & E2 & D2).
    { intros k' Hk'. rewrite (dr_count _ _ _ D1). apply fmap_is_Some, Hl. rewrite elem_of_cons. by right. }
    exists w2. split; [done|]. split.
    + by rewrite (dr_peers _ _ _ D2), (dr_peers _ _ _ D1).
    + intros k'. rewrite (dr_count _ _ _ D2), (dr_count _ _ _ D1), (occurrences_cons _ (Some k) l).
      rewrite (occurrences_cons k' (Some k) []), occurrences_nil. destruct (d_keypairs w !! k') as [kp'|]; [|done]. cbn -[Z.sub Z.add].
      f_equal. unfold upd_kp_refcount. cbn -[Z.sub Z.add]. f_equal. lia.
    + intros e H. by apply (dr_unhashed _ _ _ D2), (dr_unhashed _ _ _ D1).
    + intros k' Hin Hs. apply elem_of_cons in Hin as [[= ->]|Hin].
      * apply (dr_unhashed _ _ _ D2), (dr_removed _ _ _ D1); [set_solver|done].
      * apply (dr_removed _ _ _ D2); [done|]. by apply (dr_entries _ _ _ D1).
    + intros e H. by apply (dr_entries _ _ _ D2), (dr_entries _ _ _ D1).
    + intros H. by apply (dr_ix_ok _ _ _ D2), (dr_ix_ok _ _ _ D1).
    + intros e He. rewrite (dr_other _ _ _ D2), (dr_other _ _ _ D1); [done| |]; intros k' Hk'; apply He; set_solver.
    + by rewrite (dr_handles _ _ _ D2), (dr_handles _ _ _ D1).
  - cbn [wg_noise_keypair_put mbind option_bind].
    destruct (IH w) as (w2 & E2 & D2); [intros k Hk; apply Hl; rewrite elem_of_cons; by right|].
    exists w2. split; [done|]. destruct D2. split; try done.
    + intros k Hin. apply elem_of_cons in Hin as [?|Hin]; [done|]. by apply dr_removed0.
    + intros e He. apply dr_other0. intros k Hk. apply He. set_solver.
Qed.

(** Storing slots and dropping references are independent. *)
Lemma put_set_slots k b p f w :
  wg_noise_keypair_put k b (set_slots p f w) = set_slots p f <$> wg_noise_keypair_put k b w.
Proof.
  destruct k as [k|]; [|done]. destruct b; cbn; destruct (d_keypairs w !! k); cbn; try done; by case_if.
Qed.

Lemma set_slots_set_slots p f g w : set_slots p f (set_slots p g w) = set_slots p (f ∘ g) w.
Proof.
  unfold set_slots, upd_peer, upd_d_peers. cbn. f_equal.
  apply map_eq. intros q. destruct (decide (q = p)) as [->|]; [|by rewrite !lookup_alter_ne by congruence].
  rewrite !lookup_alter_eq. by destruct (d_peers w !! p).
Qed.

Lemma get_set_slots p f w ks : get_slots p w = Some ks -> get_slots p (set_slots p f w) = Some (f ks).
Proof.
  unfold get_slots. cbn. rewrite lookup_alter_eq. destruct (d_peers w !! p); [|done]. by intros [= <-].
Qed.

(** ** The three transitions as an exchange of slots and a list of references dropped *)

Lemma slots_ext p f g w : (forall ks, f ks = g ks) -> set_slots p f w = set_slots p g w.
Proof.
  intros H. unfold set_slots, upd_peer, upd_d_peers. cbn. f_equal. apply map_eq. intros q.
  destruct (decide (q = p)) as [->|]; [|by rewrite !lookup_alter_ne by congruence].
  rewrite !lookup_alter_eq. destruct (d_peers w !! p); [|done]. cbn. unfold upd_p_keypairs. by rewrite H.
Qed.

Ltac slots_normalize :=
  repeat (first [rewrite put_set_slots | rewrite set_slots_set_slots]).

Lemma clear_puts p w ks :
  get_slots p w = Some ks ->
  wg_noise_keypairs_clear p w =
  set_slots p (fun _ => {| current_keypair := None; previous_keypair := None; next_keypair := None |})
    <$> puts [next_keypair ks; previous_keypair ks; current_keypair ks] w.
Proof.
  intros Hks. unfold wg_noise_keypairs_clear. rewrite Hks. cbn [mbind option_bind puts].
  rewrite put_set_slots. destruct (wg_noise_keypair_put (next_keypair ks) true w) as [w1|]; [|done].
  cbn [fmap option_fmap option_map mbind option_bind]. rewrite !put_set_slots.
  destruct (wg_noise_keypair_put (previous_keypair ks) true w1) as [w2|]; [|done].
  cbn [fmap option_fmap option_map mbind option_bind]. rewrite !put_set_slots.
  destruct (wg_noise_keypair_put (current_keypair ks) true w2) as [w3|]; [|done].
  cbn [fmap option_fmap option_map mbind option_bind]. f_equal. rewrite !set_slots_set_slots.
  apply slots_ext. by intros [].
Qed.

(** The references a new keypair pushes out, and the slots it leads to. *)
Definition pushed_out (initiator : bool) (ks : noise_keypairs) : list (option keypair_id) :=
  if initiator then
    match next_keypair ks with
    | Some _ => [current_keypair ks; previous_keypair ks]
    | None => [previous_keypair ks]
    end
  else [next_keypair ks; previous_keypair ks].

Definition slots_with_new (initiator : bool) (new : keypair_id) (ks : noise_keypairs) : noise_keypairs :=
  if initiator then
    {| current_keypair := Some new;
       previous_keypair := match next_keypair ks with Some n => Some n | None => current_keypair ks end;
       next_keypair := None |}
  else {| current_keypair := current_keypair ks; previous_keypair := None; next_keypair := Some new |}.

Lemma add_new_puts p new w ks kp :
  get_slots p w = Some ks -> d_keypairs w !! new = Some kp ->
  add_new_keypair p new w =
  set_slots p (fun _ => slots_with_new (kp_i_am_the_initiator kp) new ks)
    <$> puts (pushed_out (kp_i_am_the_initiator kp) ks) w.
Proof.
  intros Hks Hkp. unfold add_new_keypair, pushed_out. rewrite Hks. cbn [mbind option_bind]. rewrite Hkp. cbn [mbind option_bind].
  assert (Hsame : forall f g w', get_slots p w' = Some ks -> f ks = g ks -> set_slots p f w' = set_slots p g w').
  { intros f g w' Hg Hfg. unfold set_slots, upd_peer, upd_d_peers. cbn. f_equal. apply map_eq. intros q.
    destruct (decide (q = p)) as [->|]; [|by rewrite !lookup_alter_ne by congruence].
    rewrite !lookup_alter_eq. unfold get_slots in Hg. destruct (d_peers w' !! p) as [pr|]; [|done].
    cbn in *. injection Hg as Hg. unfold upd_p_keypairs. by rewrite Hg, Hfg. }
  assert (Hget : forall k b w1 w2, get_slots p w1 = Some ks -> wg_noise_keypair_put k b w1 = Some w2 -> get_slots p w2 = Some ks).
  { intros k b w1 w2 H1 H2. destruct k as [k|]; [|by injection H2 as <-]. unfold get_slots in *.
    cbn in H2. destruct b; cbn in H2; destruct (d_keypairs w1 !! k); cbn in H2; try done; injection H2 as <-; by case_if. }
  destruct (kp_i_am_the_initiator kp).
  - destruct (next_keypair ks) as [next|] eqn:En; cbn [puts].
    + rewrite !put_set_slots. destruct (wg_noise_keypair_put (current_keypair ks) true w) as [w1|] eqn:E1; [|done].
      cbn [fmap option_fmap option_map mbind option_bind]. rewrite !put_set_slots.
      destruct (wg_noise_keypair_put (previous_keypair ks) true w1) as [w2|] eqn:E2; [|done].
      cbn [fmap option_fmap option_map mbind option_bind]. f_equal. rewrite !set_slots_set_slots.
      apply Hsame; [by eapply Hget, E2; eapply Hget, E1|]. unfold slots_with_new. rewrite En. done.
    + cbn [mbind option_bind]. rewrite put_set_slots.
      destruct (wg_noise_keypair_put (previous_keypair ks) true w) as [w1|] eqn:E1; [|done].
      cbn [fmap option_fmap option_map mbind option_bind puts]. f_equal. rewrite !set_slots_set_slots.
      apply Hsame; [by eapply Hget, E1|].
      unfold slots_with_new, compose, upd_current_keypair, upd_previous_keypair. cbn. by rewrite En.
  - cbn [puts]. rewrite put_set_slots.
    destruct (wg_noise_keypair_put (next_keypair ks) true w) as [w1|] eqn:E1; [|done].
    cbn [fmap option_fmap option_map mbind option_bind]. rewrite !put_set_slots.
    destruct (wg_noise_keypair_put (previous_keypair ks) true w1) as [w2|] eqn:E2; [|done].
    cbn [fmap option_fmap option_map mbind option_bind]. f_equal. rewrite !set_slots_set_slots.
    apply Hsame; [by eapply Hget, E2; eapply Hget, E1|]. done.
Qed.

(** Confirmation of the next keypair. *)
Definition slots_confirmed (k : keypair_id) (ks : noise_keypairs) : noise_keypairs :=
  {| current_keypair := Some k; previous_keypair := current_keypair ks; next_keypair := None |}.

Lemma received_puts p k w ks :
  get_slots p w = Some ks ->
  wg_noise_received_with_keypair p k w =
  if bool_decide (next_keypair ks = Some k)
  then (fun w' => (true, set_slots p (fun _ => slots_confirmed k ks) w')) <$> puts [previous_keypair ks] w
  else Some (false, w).
Proof.
  intros Hks. unfold wg_noise_received_with_keypair. rewrite Hks. cbn [mbind option_bind puts].
  case_bool_decide; [|done]. cbn [negb]. rewrite put_set_slots.
  destruct (wg_noise_keypair_put (previous_keypair ks) true w) as [w1|]; [|done].
  cbn [fmap option_fmap option_map mbind option_bind]. do 2 f_equal. rewrite !set_slots_set_slots.
  apply slots_ext. by intros [].
Qed.

(** ** The operations on the slots *)

Inductive slot_op := ClearSlots | AddNew (k : keypair_id) | Received (k : keypair_id).

Definition exec_slot_op (op : slot_op) (p : peer_id) (w : wg_device) : option wg_device :=
  match op with
  | ClearSlots => wg_noise_keypairs_clear p w
  | AddNew k => add_new_keypair p k w
  | Received k => snd <$> wg_noise_received_with_keypair p k w
  end.

(** The reference the caller hands over: the one of the creator of a new keypair. *)
Definition handed_over (op : slot_op) (k : keypair_id) : Z :=
  match op with AddNew k' => if bool_decide (k' = k) then 1 else 0 | _ => 0 end.

Definition op_keypair_exists (op : slot_op) (w : wg_device) : Prop :=
  match op with AddNew k => is_Some (d_keypairs w !! k) | _ => True end.

Lemma slot_count_sum k ks :
  slot_count k ks = (if bool_decide (current_keypair ks = Some k) then 1 else 0)
    + ((if bool_decide (previous_keypair ks = Some k) then 1 else 0)
    + (if bool_decide (next_keypair ks = Some k) then 1 else 0)).
Proof. unfold slot_count, slot_list. rewrite !occurrences_cons, occurrences_nil. lia. Qed.

(** The slots after an operation, and the references it drops. *)
Definition slots_after (w : wg_device) (op : slot_op) (ks : noise_keypairs) : noise_keypairs * list (option keypair_id) :=
  match op with
  | ClearSlots => ({| current_keypair := None; previous_keypair := None; next_keypair := None |},
                   [next_keypair ks; previous_keypair ks; current_keypair ks])
  | AddNew k =>
      let initiator := match d_keypairs w !! k with Some kp => kp_i_am_the_initiator kp | None => false end in
      (slots_with_new initiator k ks, pushed_out initiator ks)
  | Received k =>
      if bool_decide (next_keypair ks = Some k) then (slots_confirmed k ks, [previous_keypair ks]) else (ks, [])
  end.

Lemma slots_after_count w op ks k :
  slot_count k (fst (slots_after w op ks)) + occurrences k (snd (slots_after w op ks)) = slot_count k ks + handed_over op k.
Proof.
  rewrite !slot_count_sum. destruct op as [|k'|k']; cbn [slots_after fst snd handed_over].
  - rewrite !occurrences_cons, occurrences_nil. cbn [current_keypair previous_keypair next_keypair].
    repeat case_bool_decide; simplify_eq; lia.
  - destruct (match d_keypairs w !! k' with Some kp => _ | None => false end); unfold slots_with_new, pushed_out.
    + destruct (next_keypair ks) as [n|]; cbn [current_keypair previous_keypair next_keypair];
        rewrite !occurrences_cons, occurrences_nil; repeat case_bool_decide; simplify_eq; lia.
    + cbn [current_keypair previous_keypair next_keypair]. rewrite !occurrences_cons, occurrences_nil.
      repeat case_bool_decide; simplify_eq; lia.
  - destruct (bool_decide_reflect (next_keypair ks = Some k')) as [Hn|Hn]; cbn [fst snd]; [|rewrite occurrences_nil; lia].
    unfold slots_confirmed. cbn [current_keypair previous_keypair next_keypair].
    rewrite !occurrences_cons, occurrences_nil, Hn. repeat case_bool_decide; simplify_eq; lia.
Qed.

Lemma slots_after_dropped w op ks o : o ∈ snd (slots_after w op ks) -> o ∈ slot_list ks.
Proof.
  unfold slot_list. destruct op as [|k|k]; cbn [slots_after snd].
  - set_solver.
  - unfold pushed_out. repeat case_match; set_solver.
  - case_bool_decide; set_solver.
Qed.

Lemma set_slots_same p w ks : get_slots p w = Some ks -> set_slots p (fun _ => ks) w = w.
Proof.
  intros H. enough (alter (upd_p_keypairs (fun _ => ks)) p (d_peers w) = d_peers w) as E.
  { unfold set_slots, upd_peer, upd_d_peers. rewrite E. by destruct w. }
  unfold get_slots in H. apply map_eq. intros q. destruct (decide (q = p)) as [->|]; [|by rewrite lookup_alter_ne by congruence].
  rewrite lookup_alter_eq. destruct (d_peers w !! p) as [pr|]; [|done]. cbn in H. injection H as <-. by destruct pr.
Qed.

Lemma exec_slot_op_spec op p w ks :
  get_slots p w = Some ks -> slots_exist w ks -> op_keypair_exists op w ->
  exists w1, exec_slot_op op p w = Some (set_slots p (fun _ => fst (slots_after w op ks)) w1) /\
    dropped (snd (slots_after w op ks)) w w1.
Proof.
  intros Hks Hex Hop.
  destruct (puts_dropped (snd (slots_after w op ks)) w) as (w1 & E1 & D1).
  { intros k Hk. apply Hex. by eapply slots_after_dropped. }
  exists w1. split; [|done]. destruct op as [|k|k]; cbn [exec_slot_op].
  - rewrite (clear_puts p w ks Hks). cbn [slots_after snd] in E1. by rewrite E1.
  - destruct Hop as [kp Hkp]. rewrite (add_new_puts p k w ks kp Hks Hkp). cbn [slots_after fst snd] in *.
    rewrite Hkp in *. by rewrite E1.
  - rewrite (received_puts p k w ks Hks). cbn [slots_after] in *. case_bool_decide; cbn [fst snd] in *.
    + by rewrite E1.
    + injection E1 as <-. cbn. by rewrite (set_slots_same p w ks).
Qed.

(** ** The properties *)

(** C17: the slots account for every reference. Whatever operation moves keypairs between the slots
    of a peer, it finds every keypair it needs, and the difference between a keypair's reference
    count and the number of slots that hold it changes only by the reference of its creator that a
    new keypair brings along; nothing but the count of a keypair changes. *)
Theorem keypair_slots_account_for_references op p w ks :
  get_slots p w = Some ks -> slots_exist w ks -> op_keypair_exists op w ->
  exists w' ks', exec_slot_op op p w = Some w' /\ get_slots p w' = Some ks' /\ slots_exist w' ks' /\
    forall k kp, d_keypairs w !! k = Some kp -> exists kp', d_keypairs w' !! k = Some kp' /\
      kp_refcount kp' - slot_count k ks' = kp_refcount kp - slot_count k ks - handed_over op k /\
      kp' = upd_kp_refcount (fun _ => kp_refcount kp') kp.
Proof.
  intros Hks Hex Hop. destruct (exec_slot_op_spec op p w ks Hks Hex Hop) as (w1 & E1 & D1).
  set (ks' := fst (slots_after w op ks)) in *. exists (set_slots p (fun _ => ks') w1), ks'. split; [done|].
  assert (Hget1 : get_slots p w1 = Some ks) by (unfold get_slots; by rewrite (dr_peers _ _ _ D1)).
  split; [by apply (get_set_slots p (fun _ => ks') w1 ks)|].
  assert (Hall : forall k kp, d_keypairs w !! k = Some kp ->
     d_keypairs w1 !! k = Some (upd_kp_refcount (fun n => n - occurrences k (snd (slots_after w op ks))) kp)).
  { intros k kp Hk. rewrite (dr_count _ _ _ D1), Hk. done. }
  split.
  - intros k Hk. cbn. rewrite (dr_count _ _ _ D1). apply fmap_is_Some.
    assert (Hor : Some k ∈ slot_list ks \/ op = AddNew k).
    { clear -Hk. unfold ks', slot_list in *. destruct op as [|k'|k']; cbn [slots_after fst] in Hk.
      - set_solver.
      - unfold slots_with_new in Hk. repeat case_match; cbn in Hk; set_solver.
      - case_bool_decide; cbn in Hk; set_solver. }
    destruct Hor as [?| ->]; [by apply Hex|done].
  - intros k kp Hk. eexists. split; [by apply Hall|]. split; [|done].
    pose proof (slots_after_count w op ks k) as Hc. fold ks' in Hc. cbn [kp_refcount upd_kp_refcount]. lia.
Qed.

(** Keypairs 1 and 2 in the slots current and next, keypair 3 fresh. *)
Definition slots_device_slots : noise_keypairs :=
  {| current_keypair := Some 1%positive; previous_keypair := None; next_keypair := Some 2%positive |}.
Definition slots_device_entry : index_hashtable_entry :=
  {| e_peer := Some 1%positive; e_hashed := false; e_type := INDEX_HASHTABLE_KEYPAIR; e_index := 0 |}.
Definition slots_device : wg_device :=
  upd_d_keypairs (fun _ => {[ 1%positive := sample_keypair true 1; 2%positive := sample_keypair false 2;
                              3%positive := sample_keypair false 1 ]})
    (upd_d_peers (fun _ => {[ 1%positive := upd_p_keypairs (fun _ => slots_device_slots) sample_peer ]})
      (upd_d_index_hashtable (fun t => set_entry (Keypair 1) slots_device_entry (set_entry (Keypair 2) slots_device_entry t))
        sample_device)).

Lemma slots_device_exist : slots_exist slots_device slots_device_slots.
Proof.
  intros k. unfold slot_list. cbn. rewrite !elem_of_cons, elem_of_nil. intros [[= ->]|[?|[[= ->]|[]]]]; try done; by eexists.
Qed.

Lemma keypair_slots_account_for_references_witness :
  exists w' ks', exec_slot_op (AddNew 3%positive) 1%positive slots_device = Some w' /\
    get_slots 1%positive w' = Some ks' /\ slots_exist w' ks' /\
    forall k kp, d_keypairs slots_device !! k = Some kp -> exists kp', d_keypairs w' !! k = Some kp' /\
      kp_refcount kp' - slot_count k ks'
        = kp_refcount kp - slot_count k slots_device_slots - handed_over (AddNew 3%positive) k /\
      kp' = upd_kp_refcount (fun _ => kp_refcount kp') kp.
Proof.
  apply (keypair_slots_account_for_references (AddNew 3%positive) 1%positive slots_device slots_device_slots).
  - reflexivity.
  - exact slots_device_exist.
  - by eexists.
Defined.

(** C16: a responder sends with a new key only after the initiator has used it. A keypair the
    responder adds waits in the slot [next]; packets received with other keypairs change nothing,
    the first packet received with it makes it the current one, and the keypair that was current
    stays available as the previous one. *)
Theorem responder_key_waits_for_confirmation p w ks k kp others :
  get_slots p w = Some ks -> slots_exist w ks ->
  d_keypairs w !! k = Some kp -> kp_i_am_the_initiator kp = false -> k ∉ others ->
  exists w1, add_new_keypair p k w = Some w1 /\
  get_slots p w1 = Some {| current_keypair := current_keypair ks; previous_keypair := None; next_keypair := Some k |} /\
  foldr (fun k' r => w' ← r; snd <$> wg_noise_received_with_keypair p k' w') (Some w1) others = Some w1 /\
  exists w2, wg_noise_received_with_keypair p k w1 = Some (true, w2) /\
    get_slots p w2 = Some {| current_keypair := Some k; previous_keypair := current_keypair ks; next_keypair := None |}.
Proof.
  intros Hks Hex Hk Hinit Hoth.
  destruct (exec_slot_op_spec (AddNew k) p w ks Hks Hex (mk_is_Some _ _ Hk)) as (w0 & E1 & D1).
  cbn [slots_after fst snd] in *. rewrite Hk, Hinit in *.
  assert (H1 : get_slots p (set_slots p (fun _ => slots_with_new false k ks) w0) = Some (slots_with_new false k ks)).
  { apply (get_set_slots p (fun _ => slots_with_new false k ks) w0 ks). unfold get_slots. by rewrite (dr_peers _ _ _ D1). }
  set (w1 := set_slots p _ w0) in *. exists w1. split_and!; [done|done| |].
  - induction others as [|k' others IH]; cbn [foldr]; [done|]. rewrite IH by set_solver. cbn [mbind option_bind].
    rewrite (received_puts p k' w1 _ H1). cbn [slots_with_new next_keypair]. rewrite bool_decide_false; [done|set_solver].
  - rewrite (received_puts p k w1 _ H1). cbn [slots_with_new next_keypair previous_keypair puts wg_noise_keypair_put].
    rewrite bool_decide_true by done. cbn [mbind option_bind fmap option_fmap option_map].
    eexists. split; [done|]. by rewrite (get_set_slots p _ w1 _ H1).
Qed.

Lemma responder_key_waits_for_confirmation_witness :
  exists w1, add_new_keypair 1%positive 3%positive slots_device = Some w1 /\
  get_slots 1%positive w1
    = Some {| current_keypair := Some 1%positive; previous_keypair := None; next_keypair := Some 3%positive |} /\
  exists w2, wg_noise_received_with_keypair 1%positive 3%positive w1 = Some (true, w2) /\
    get_slots 1%positive w2
      = Some {| current_keypair := Some 3%positive; previous_keypair := Some 1%positive; next_keypair := None |}.
Proof.
  destruct (responder_key_waits_for_confirmation 1%positive slots_device slots_device_slots 3%positive
            (sample_keypair false 1) [1%positive; 2%positive]) as (w1 & H1 & H2 & _ & H3).
  - reflexivity.
  - exact slots_device_exist.
  - reflexivity.
  - reflexivity.
  - intros H. rewrite !elem_of_cons, elem_of_nil in H. by destruct H as [?|[?|?]].
  - exists w1. exact (conj H1 (conj H2 H3)).
Defined.

(** Clearing the keypairs of a peer leaves no way to use them. Afterwards all three slots are
    empty and none of the keypairs that were in them can be found by its index any more. *)
Theorem keypairs_clear_unreachable p w ks :
  get_slots p w = Some ks -> slots_exist w ks -> ix_ok (d_index_hashtable w) ->
  (forall k, Some k ∈ slot_list ks -> is_Some (ix_entries (d_index_hashtable w) !! Keypair k)) ->
  exists w', wg_noise_keypairs_clear p w = Some w' /\
    get_slots p w' = Some {| current_keypair := None; previous_keypair := None; next_keypair := None |} /\
    forall k index mask q, Some k ∈ slot_list ks -> fst (index_lookup mask index w') <> Some (Keypair k, q).
Proof.
  intros Hks Hex Hok Hent. destruct (exec_slot_op_spec ClearSlots p w ks Hks Hex I) as (w1 & E1 & D1).
  eexists. split; [exact E1|]. split.
  { apply (get_set_slots p (fun _ => fst (slots_after w ClearSlots ks)) w1 ks). unfold get_slots. by rewrite (dr_peers _ _ _ D1). }
  intros k index mask q Hk.
  assert (Hun : unhashed (d_index_hashtable w1) (Keypair k)).
  { apply (dr_removed _ _ _ D1); [|by apply Hent]. unfold slot_list in Hk. cbn [slots_after snd]. set_solver. }
  unfold index_lookup. set (w2 := set_slots _ _ _).
  assert (Ht : d_index_hashtable w2 = d_index_hashtable w1) by done. rewrite Ht.
  destruct (wg_index_hashtable_lookup (peer_alive w2) mask index (d_index_hashtable w1)) as [r t] eqn:El.
  assert (El' : fst (wg_index_hashtable_lookup (peer_alive w2) mask index (d_index_hashtable w1)) = r) by (by rewrite El).
  destruct r as [[e q']|]; cbn [fst]; [|done]. intros [= -> ->].
  apply lookup_result in El'; [|by apply (dr_ix_ok _ _ _ D1)].
  destruct El' as (en & L1 & L2 & _). destruct Hun as (en' & U1 & U2). congruence.
Qed.

Lemma slots_device_ix_ok : ix_ok (d_index_hashtable slots_device).
Proof.
  assert (Hb : forall b, bucket (d_index_hashtable slots_device) b = []) by (intros; unfold bucket; cbn; by rewrite lookup_empty).
  assert (Hun : forall e en, ix_entries (d_index_hashtable slots_device) !! e = Some en -> e_hashed en = false).
  { intros e en. cbn. rewrite !lookup_insert_Some, lookup_empty. by intros [[_ <-]|[_ [[_ <-]|[_ ?]]]]. }
  split.
  - intros b. rewrite Hb. constructor.
  - intros b e. rewrite Hb, elem_of_nil. split; [done|]. intros (en & H1 & H2 & _). apply Hun in H1. congruence.
  - intros i e e' (en & H1 & H2 & _). apply Hun in H1. congruence.
Qed.

Lemma keypairs_clear_unreachable_witness :
  exists w', wg_noise_keypairs_clear 1%positive slots_device = Some w' /\
    get_slots 1%positive w' = Some {| current_keypair := None; previous_keypair := None; next_keypair := None |}.
Proof.
  destruct (keypairs_clear_unreachable 1%positive slots_device slots_device_slots) as (w' & H1 & H2 & _).
  - reflexivity.
  - exact slots_device_exist.
  - exact slots_device_ix_ok.
  - intros k. unfold slot_list. cbn. rewrite !elem_of_cons, elem_of_nil. intros [[= ->]|[?|[[= ->]|[]]]]; try done; by eexists.
  - exists w'. exact (conj H1 H2).
Defined.
