(* ===== verification/Noise.v ===== *)
(** * Noise: the handshake state machine of noise.c

    The functions of noise.c that create and consume the handshake messages and that turn a
    finished handshake into a session. The handshake is the member [p_handshake] of its peer; the
    chaining key and the hash are updated in place, also on the paths that fail. A function that
    can fail in C returns [None] inside its result; the outer [option] is [None] only when a peer or
    keypair that is named does not exist or the random indices drawn run out. *)

From S2P Require Import Prelude Messages Skb Replay PeerLookup Crypto NoiseCrypto World Objects Keypairs.

Definition upd_handshake (p : peer_id) (f : noise_handshake -> noise_handshake) : wg_device -> wg_device :=
  upd_peer p (upd_p_handshake f).

(** The chaining key and the hash of a handshake, which the transcript functions update together. *)
Definition set_transcript (ck hash : bytes) (hs : noise_handshake) : noise_handshake :=
  upd_hs_hash (fun _ => hash) (upd_hs_chaining_key (fun _ => ck) hs).

Section Noise.
Context {C : Crypto} (siphash : bytes -> Z -> Z).

(** curve25519_generate_secret: random bytes, clamped. *)
Definition curve25519_generate_secret (e : env) : bytes := curve25519_clamp_secret (random_secret e).

(** ** Setting up *)

Definition precompute_static_static (id : noise_static_identity) (hs : noise_handshake) : noise_handshake :=
  upd_hs_precomputed_static_static (fun _ =>
    if has_identity id then
      match curve25519 (static_private id) (hs_remote_static hs) with
      | Some k => k
      | None => zeroes NOISE_PUBLIC_KEY_LEN
      end
    else zeroes NOISE_PUBLIC_KEY_LEN) hs.

Definition wg_noise_precompute_static_static (p : peer_id) (w : wg_device) : wg_device :=
  upd_handshake p (precompute_static_static (d_static_identity w)) w.

Definition wg_noise_handshake_init (id : noise_static_identity) (peer_public_key : bytes)
    (peer_preshared_key : option bytes) : noise_handshake :=
  precompute_static_static id
    {| hs_state := HANDSHAKE_ZEROED; hs_last_initiation_consumption := 0;
       hs_ephemeral_private := zeroes NOISE_PUBLIC_KEY_LEN; hs_remote_static := peer_public_key;
       hs_remote_ephemeral := zeroes NOISE_PUBLIC_KEY_LEN;
       hs_precomputed_static_static := zeroes NOISE_PUBLIC_KEY_LEN;
       hs_preshared_key := match peer_preshared_key with Some k => k | None => zeroes NOISE_SYMMETRIC_KEY_LEN end;
       hs_hash := zeroes NOISE_HASH_LEN; hs_chaining_key := zeroes NOISE_HASH_LEN;
       hs_latest_timestamp := zeroes NOISE_TIMESTAMP_LEN; hs_remote_index := 0 |}.

(** The entry of a new handshake in the index table. *)
Definition handshake_entry (p : peer_id) : index_hashtable_entry :=
  {| e_peer := Some p; e_hashed := false; e_type := INDEX_HASHTABLE_HANDSHAKE; e_index := 0 |}.

(** [static_public] is written only when the call succeeds. *)
Definition wg_noise_set_static_identity_private_key (private_key : bytes) (id : noise_static_identity)
  : noise_static_identity :=
  {| static_public := match curve25519_generate_public private_key with
                      | Some k => k
                      | None => static_public id
                      end;
     static_private := curve25519_clamp_secret private_key;
     has_identity := match curve25519_generate_public private_key with Some _ => true | None => false end |}.

(** ** The initiation *)

(** [dst] is the caller's buffer; the MACs are filled in later. *)
Definition wg_noise_handshake_create_initiation (e : env) (p : peer_id) (dst : message_handshake_initiation)
    (w : wg_device) : option (option message_handshake_initiation * wg_device) :=
  pr ← d_peers w !! p;
  let hs := p_handshake pr in
  let id := d_static_identity w in
  let out hs := Some (None, upd_handshake p (fun _ => hs) w) in
  if negb (has_identity id) then Some (None, w)
  else
    let '(ck, hash) := handshake_init (hs_remote_static hs) in
    let hs := set_transcript ck hash hs in
    (* e *)
    let hs := upd_hs_ephemeral_private (fun _ => curve25519_generate_secret e) hs in
    match curve25519_generate_public (hs_ephemeral_private hs) with
    | None => out hs
    | Some ephemeral =>
        let '(ck, hash) := message_ephemeral ephemeral ck hash in
        let hs := set_transcript ck hash hs in
        (* es *)
        match mix_dh ck (hs_ephemeral_private hs) (hs_remote_static hs) with
        | None => out hs
        | Some (ck, key) =>
            (* s *)
            let '(encrypted_static, hash) := message_encrypt (static_public id) key hash in
            let hs := set_transcript ck hash hs in
            (* ss *)
            match mix_precomputed_dh ck (hs_precomputed_static_static hs) with
            | None => out hs
            | Some (ck, key) =>
                (* {t} *)
                let timestamp := tai64n_now (fst (ktime_get_real_ts64 e)) (snd (ktime_get_real_ts64 e)) in
                let '(encrypted_timestamp, hash) := message_encrypt timestamp key hash in
                let hs := set_transcript ck hash hs in
                '(index, t) ← wg_index_hashtable_insert (Handshake p) (random_indices e) (d_index_hashtable w);
                let w := upd_d_index_hashtable (fun _ => t) w in
                let hs := upd_hs_state (fun _ => HANDSHAKE_CREATED_INITIATION) hs in
                Some (Some {| hi_type := MESSAGE_HANDSHAKE_INITIATION; hi_sender_index := index;
                              hi_unencrypted_ephemeral := ephemeral; hi_encrypted_static := encrypted_static;
                              hi_encrypted_timestamp := encrypted_timestamp; hi_macs := hi_macs dst |},
                      upd_handshake p (fun _ => hs) w)
            end
        end
    end.

(** The part of [wg_noise_handshake_consume_initiation] up to the peer: the static key of the
    sender, the chaining key, the hash and the ephemeral. *)
Definition open_initiation_static (id : noise_static_identity) (src : message_handshake_initiation)
  : option (bytes * bytes * bytes * bytes) :=
  if negb (has_identity id) then None
  else
    let '(ck, hash) := handshake_init (static_public id) in
    (* e *)
    let ephemeral := hi_unencrypted_ephemeral src in
    let '(ck, hash) := message_ephemeral ephemeral ck hash in
    (* es *)
    '(ck, key) ← mix_dh ck (static_private id) ephemeral;
    (* s *)
    '(s, hash) ← message_decrypt (hi_encrypted_static src) key hash;
    Some (s, ck, hash, ephemeral).

(** The part after the peer is found: the time stamp, the chaining key and the hash. *)
Definition open_initiation_timestamp (hs : noise_handshake) (src : message_handshake_initiation) (ck hash : bytes)
  : option (bytes * bytes * bytes) :=
  (* ss *)
  '(ck, key) ← mix_precomputed_dh ck (hs_precomputed_static_static hs);
  (* {t} *)
  '(t, hash) ← message_decrypt (hi_encrypted_timestamp src) key hash;
  Some (t, ck, hash).

(** The checks under the read lock. *)
Definition replay_attack (t : bytes) (hs : noise_handshake) : bool :=
  match memcmp t (hs_latest_timestamp hs) with Gt => false | _ => true end.
Definition flood_attack (e : env) (hs : noise_handshake) : bool :=
  s64 (ktime_get_coarse_boottime_ns e) <?
    s64 (s64 (hs_last_initiation_consumption hs) + NSEC_PER_SEC / INITIATIONS_PER_SECOND).

(** The update under the write lock. *)
Definition consume_initiation_commit (e : env) (src : message_handshake_initiation) (t ck hash : bytes)
    (hs : noise_handshake) : noise_handshake :=
  let initiation_consumption := ktime_get_coarse_boottime_ns e in
  {| hs_state := HANDSHAKE_CONSUMED_INITIATION;
     hs_last_initiation_consumption :=
       if s64 (hs_last_initiation_consumption hs - initiation_consumption) <? 0
       then initiation_consumption else hs_last_initiation_consumption hs;
     hs_ephemeral_private := hs_ephemeral_private hs;
     hs_remote_static := hs_remote_static hs;
     hs_remote_ephemeral := hi_unencrypted_ephemeral src;
     hs_precomputed_static_static := hs_precomputed_static_static hs;
     hs_preshared_key := hs_preshared_key hs;
     hs_hash := hash;
     hs_chaining_key := ck;
     hs_latest_timestamp := match memcmp t (hs_latest_timestamp hs) with Gt => t | _ => hs_latest_timestamp hs end;
     hs_remote_index := hi_sender_index src |}.

(** What [wg_noise_handshake_consume_initiation] does before it takes the write lock of the handshake:
    the peer, with a reference, the time stamp, the chaining key and the hash of an initiation that
    has passed the checks. Between the checks and the write other workers may run. *)
Definition consume_initiation_check (e : env) (src : message_handshake_initiation) (w : wg_device)
  : option (option (peer_id * bytes * bytes * bytes) * wg_device) :=
  match open_initiation_static (d_static_identity w) src with
  | None => Some (None, w)
  | Some (s, ck, hash, _) =>
      match pubkey_lookup siphash s w with
      | (None, w) => Some (None, w)
      | (Some p, w) =>
          let out := w ← wg_peer_put p w; Some (None, w) in
          pr ← d_peers w !! p;
          let hs := p_handshake pr in
          match open_initiation_timestamp hs src ck hash with
          | None => out
          | Some (t, ck, hash) =>
              if replay_attack t hs || flood_attack e hs then out
              else Some (Some (p, t, ck, hash), w)
          end
      end
  end.

(** The checks and the write, when nothing runs in between. *)
Definition wg_noise_handshake_consume_initiation (e : env) (src : message_handshake_initiation) (w : wg_device)
  : option (option peer_id * wg_device) :=
  '(checked, w) ← consume_initiation_check e src w;
  match checked with
  | None => Some (None, w)
  | Some (p, t, ck, hash) => Some (Some p, upd_handshake p (consume_initiation_commit e src t ck hash) w)
  end.

(** ** The response *)

Definition wg_noise_handshake_create_response (e : env) (p : peer_id) (dst : message_handshake_response)
    (w : wg_device) : option (option message_handshake_response * wg_device) :=
  pr ← d_peers w !! p;
  let hs := p_handshake pr in
  let out hs := Some (None, upd_handshake p (fun _ => hs) w) in
  if negb (bool_decide (hs_state hs = HANDSHAKE_CONSUMED_INITIATION)) then Some (None, w)
  else
    (* e *)
    let hs := upd_hs_ephemeral_private (fun _ => curve25519_generate_secret e) hs in
    match curve25519_generate_public (hs_ephemeral_private hs) with
    | None => out hs
    | Some ephemeral =>
        let '(ck, hash) := message_ephemeral ephemeral (hs_chaining_key hs) (hs_hash hs) in
        let hs := set_transcript ck hash hs in
        (* ee *)
        match mix_dh_nokey ck (hs_ephemeral_private hs) (hs_remote_ephemeral hs) with
        | None => out hs
        | Some ck =>
            let hs := set_transcript ck hash hs in
            (* se *)
            match mix_dh_nokey ck (hs_ephemeral_private hs) (hs_remote_static hs) with
            | None => out hs
            | Some ck =>
                (* psk *)
                let '(ck, hash, key) := mix_psk ck hash (hs_preshared_key hs) in
                (* {} *)
                let '(encrypted_nothing, hash) := message_encrypt [] key hash in
                let hs := set_transcript ck hash hs in
                '(index, t) ← wg_index_hashtable_insert (Handshake p) (random_indices e) (d_index_hashtable w);
                let w := upd_d_index_hashtable (fun _ => t) w in
                let hs := upd_hs_state (fun _ => HANDSHAKE_CREATED_RESPONSE) hs in
                Some (Some {| hr_type := MESSAGE_HANDSHAKE_RESPONSE; hr_sender_index := index;
                              hr_receiver_index := hs_remote_index hs; hr_unencrypted_ephemeral := ephemeral;
                              hr_encrypted_nothing := encrypted_nothing; hr_macs := hr_macs dst |},
                      upd_handshake p (fun _ => hs) w)
            end
        end
    end.

(** The computation of [wg_noise_handshake_consume_response] between its two locked sections, on
    the handshake as the first one read it: the chaining key and the hash. *)
Definition open_response (id : noise_static_identity) (hs : noise_handshake) (src : message_handshake_response)
  : option (bytes * bytes) :=
  (* e *)
  let ephemeral := hr_unencrypted_ephemeral src in
  let '(ck, hash) := message_ephemeral ephemeral (hs_chaining_key hs) (hs_hash hs) in
  (* ee *)
  ck ← mix_dh_nokey ck (hs_ephemeral_private hs) ephemeral;
  (* se *)
  ck ← mix_dh_nokey ck (static_private id) ephemeral;
  (* psk *)
  let '(ck, hash, key) := mix_psk ck hash (hs_preshared_key hs) in
  (* {} *)
  '(_, hash) ← message_decrypt (hr_encrypted_nothing src) key hash;
  Some (ck, hash).

(** The second locked section: [None] when the state is not the one read before. *)
Definition consume_response_commit (state : noise_handshake_state) (src : message_handshake_response)
    (ck hash : bytes) (hs : noise_handshake) : option noise_handshake :=
  if negb (bool_decide (hs_state hs = state)) then None
  else
    let hs := upd_hs_remote_ephemeral (fun _ => hr_unencrypted_ephemeral src) hs in
    let hs := set_transcript ck hash hs in
    let hs := upd_hs_remote_index (fun _ => hr_sender_index src) hs in
    Some (upd_hs_state (fun _ => HANDSHAKE_CONSUMED_RESPONSE) hs).

Definition wg_noise_handshake_consume_response (src : message_handshake_response) (w : wg_device)
  : option (option peer_id * wg_device) :=
  if negb (has_identity (d_static_identity w)) then Some (None, w)
  else
    match index_lookup INDEX_HASHTABLE_HANDSHAKE (hr_receiver_index src) w with
    | (Some (Handshake _, p), w) =>
        let fail := w ← wg_peer_put p w; Some (None, w) in
        pr ← d_peers w !! p;
        let hs := p_handshake pr in
        let state := hs_state hs in
        if negb (bool_decide (state = HANDSHAKE_CREATED_INITIATION)) then fail
        else
          match open_response (d_static_identity w) hs src with
          | None => fail
          | Some (ck, hash) =>
              match consume_response_commit state src ck hash hs with
              | None => fail
              | Some hs => Some (Some p, upd_handshake p (fun _ => hs) w)
              end
          end
    | (_, w) => Some (None, w)
    end.

(** ** The session *)

Definition zero_symmetric_key : noise_symmetric_key :=
  {| sk_key := zeroes NOISE_SYMMETRIC_KEY_LEN; sk_birthdate := 0; sk_is_valid := false |}.

(** The keypair that [kzalloc] and the initialisations give. *)
Definition keypair_zero (internal_id : Z) : noise_keypair :=
  {| kp_sending := zero_symmetric_key; kp_sending_counter := 0; kp_receiving := zero_symmetric_key;
     kp_receiving_counter := replay_counter_init; kp_remote_index := 0; kp_i_am_the_initiator := false;
     kp_refcount := 1; kp_internal_id := internal_id; kp_aead_enc := None; kp_aead_dec := None |}.

Definition keypair_entry (p : peer_id) : index_hashtable_entry :=
  {| e_peer := Some p; e_hashed := false; e_type := INDEX_HASHTABLE_KEYPAIR; e_index := 0 |}.

Definition keypair_create (e : env) (p : peer_id) (w : wg_device) : option keypair_id * wg_device :=
  match new_keypair e with
  | None => (None, w)
  | Some k =>
      let w := upd_d_keypair_counter (fun n => u64 (n + 1)) w in
      let w := upd_d_keypairs (insert k (keypair_zero (d_keypair_counter w))) w in
      (Some k, upd_d_index_hashtable (set_entry (Keypair k) (keypair_entry p)) w)
  end.

(** [derive_keys] with the birthdate. *)
Definition symmetric_key (e : env) (key : bytes) : noise_symmetric_key :=
  {| sk_key := key; sk_birthdate := ktime_get_coarse_boottime_ns e; sk_is_valid := true |}.

(** The AES-GCM handles of a keypair: [false] when an allocation or [setkey] fails. A handle
    without a key is [Some []]. *)
Definition setup_aead (e : env) (k : keypair_id) (w : wg_device) : option (bool * wg_device) :=
  kp ← d_keypairs w !! k;
  if negb (aead_enc_alloc e) then Some (false, w)
  else
    let w := upd_d_aead_handles (fun n => n + 1) w in
    let w := upd_keypair k (upd_kp_aead_enc (fun _ => Some [])) w in
    if negb (aead_enc_setkey e) then Some (false, w)
    else
      let w := upd_keypair k (upd_kp_aead_enc (fun _ => Some (sk_key (kp_sending kp)))) w in
      if negb (aead_dec_alloc e) then Some (false, w)
      else
        let w := upd_d_aead_handles (fun n => n + 1) w in
        let w := upd_keypair k (upd_kp_aead_dec (fun _ => Some [])) w in
        if negb (aead_dec_setkey e) then Some (false, w)
        else Some (true, upd_keypair k (upd_kp_aead_dec (fun _ => Some (sk_key (kp_receiving kp)))) w).

Definition wg_noise_handshake_begin_session (e : env) (p : peer_id) (w : wg_device) : option (bool * wg_device) :=
  pr ← d_peers w !! p;
  let hs := p_handshake pr in
  if negb (bool_decide (hs_state hs = HANDSHAKE_CREATED_RESPONSE))
     && negb (bool_decide (hs_state hs = HANDSHAKE_CONSUMED_RESPONSE))
  then Some (false, w)
  else
    match keypair_create e p w with
    | (None, w) => Some (false, w)
    | (Some k, w) =>
        let initiator := bool_decide (hs_state hs = HANDSHAKE_CONSUMED_RESPONSE) in
        let w := upd_keypair k (upd_kp_i_am_the_initiator (fun _ => initiator)) w in
        let w := upd_keypair k (upd_kp_remote_index (fun _ => hs_remote_index hs)) w in
        let '(first, second) := derive_keys (hs_chaining_key hs) in
        let '(sending, receiving) := if initiator then (first, second) else (second, first) in
        let w := upd_keypair k (upd_kp_sending (fun _ => symmetric_key e sending)) w in
        let w := upd_keypair k (upd_kp_receiving (fun _ => symmetric_key e receiving)) w in
        '(ok, w) ← if negb (d_is_chacha w) then setup_aead e k w else Some (true, w);
        if negb ok then
          (* out_free_new *)
          w ← keypair_free_rcu k w;
          Some (false, w)
        else
          let w := upd_handshake p handshake_zero w in
          if negb (p_is_dead pr) then
            w ← add_new_keypair p k w;
            '(ret, t) ← wg_index_hashtable_replace (Handshake p) (Keypair k) (d_index_hashtable w);
            Some (ret, upd_d_index_hashtable (fun _ => t) w)
          else
            (* kfree_sensitive(new_keypair) *)
            Some (false, free_entry (Keypair k) (upd_d_keypairs (delete k) w))
    end.
End Noise.
