(* ===== verification/NoiseProps.v ===== *)
(** * NoiseProps: what the handshake achieves

    Two devices that know each other's public keys and share a preshared key derive mirrored
    session keys; an initiation is accepted only with a newer time stamp; a handshake gives one
    session; the AES-GCM handles are accounted for. *)

From S2P Require Import Prelude Messages Skb Replay PeerLookup PeerLookupProps Crypto NoiseCrypto World Samples Objects Keypairs KeypairsProps Noise.

Section Agreement.
Context {C : Crypto} {L : CryptoLaws C} (siphash : bytes -> Z -> Z).

(** The identity that [wg_noise_set_static_identity_private_key] sets up. *)
Definition identity_ok (id : noise_static_identity) : Prop :=
  has_identity id = true /\
  exists s, static_private id = curve25519_clamp_secret s /\ curve25519_generate_public s = Some (static_public id).

(** The handshake is with the owner of [remote], and its static-static secret is computed. *)
Definition knows (id remote : noise_static_identity) (hs : noise_handshake) : Prop :=
  hs_remote_static hs = static_public remote /\ precompute_static_static id hs = hs.

Lemma dh_static id sk pk :
  identity_ok id -> curve25519_generate_public sk = Some pk ->
  curve25519 (static_private id) pk = curve25519 sk (static_public id).
Proof. intros (_ & s & -> & Hs) Hp. rewrite curve25519_clamp. by eapply curve25519_agree. Qed.

Lemma dh_static_static a b :
  identity_ok a -> identity_ok b ->
  curve25519 (static_private a) (static_public b) = curve25519 (static_private b) (static_public a).
Proof.
  intros (Ha & s & Hs & Hp) Hb. rewrite Hs, curve25519_clamp. symmetry. by apply dh_static.
Qed.

Lemma precomputed_eq id remote hs :
  identity_ok id -> knows id remote hs ->
  hs_precomputed_static_static hs
    = default (zeroes NOISE_PUBLIC_KEY_LEN) (curve25519 (static_private id) (static_public remote)).
Proof.
  intros (Hid & _) [Hr Hp]. rewrite <- Hp. unfold precompute_static_static.
  unfold upd_hs_precomputed_static_static. cbn. rewrite Hid, Hr. by destruct (curve25519 _ _).
Qed.

Lemma precomputed_agree a b hsa hsb :
  identity_ok a -> identity_ok b -> knows a b hsa -> knows b a hsb ->
  hs_precomputed_static_static hsa = hs_precomputed_static_static hsb.
Proof. intros. rewrite (precomputed_eq a b), (precomputed_eq b a), dh_static_static by done. done. Qed.

Lemma message_roundtrip m key hash :
  let '(c, h) := message_encrypt m key hash in message_decrypt c key hash = Some (m, h).
Proof. unfold message_encrypt, message_decrypt. by rewrite chacha_roundtrip. Qed.

(** What a created initiation consists of. *)
Record initiation_created (e : env) (p : peer_id) (hs : noise_handshake) (w w1 : wg_device)
    (m : message_handshake_initiation) (hs1 : noise_handshake) : Prop := {
  ic_handshake : p_handshake <$> d_peers w1 !! p = Some hs1;
  ic_refcount : p_refcount <$> d_peers w1 !! p = p_refcount <$> d_peers w !! p;
  ic_state : hs_state hs1 = HANDSHAKE_CREATED_INITIATION;
  ic_ephemeral : curve25519_generate_public (hs_ephemeral_private hs1) = Some (hi_unencrypted_ephemeral m);
  ic_remote_static : hs_remote_static hs1 = hs_remote_static hs;
  ic_psk : hs_preshared_key hs1 = hs_preshared_key hs;
  ic_inserted : wg_index_hashtable_insert (Handshake p) (random_indices e) (d_index_hashtable w)
                = Some (hi_sender_index m, d_index_hashtable w1);
  ic_opens idR hsR :
    identity_ok (d_static_identity w) -> identity_ok idR ->
    knows (d_static_identity w) idR hs -> knows idR (d_static_identity w) hsR ->
    exists ck hash, open_initiation_static idR m
      = Some (static_public (d_static_identity w), ck, hash, hi_unencrypted_ephemeral m) /\
    open_initiation_timestamp hsR m ck hash
      = Some (tai64n_now (fst (ktime_get_real_ts64 e)) (snd (ktime_get_real_ts64 e)), hs_chaining_key hs1, hs_hash hs1)
}.

Lemma upd_peer_lookup p f w : d_peers (upd_peer p f w) !! p = f <$> d_peers w !! p.
Proof. cbn. apply lookup_alter_eq. Qed.

Lemma upd_handshake_lookup p f w :
  p_handshake <$> d_peers (upd_handshake p f w) !! p = f <$> (p_handshake <$> d_peers w !! p).
Proof. cbn. rewrite lookup_alter_eq. by destruct (d_peers w !! p). Qed.

Lemma create_initiation_spec e p dst w pr m w1 :
  d_peers w !! p = Some pr ->
  wg_noise_handshake_create_initiation e p dst w = Some (Some m, w1) ->
  exists hs1, initiation_created e p (p_handshake pr) w w1 m hs1.
Proof.
  intros Hp H. unfold wg_noise_handshake_create_initiation in H. rewrite Hp in H. cbn [mbind option_bind] in H.
  destruct (has_identity (d_static_identity w)) eqn:Hid; cbn [negb] in H; [|done].
  destruct (handshake_init (hs_remote_static (p_handshake pr))) as [ck0 hash0] eqn:E0. cbn in H.
  destruct (curve25519_generate_public (curve25519_generate_secret e)) as [eph|] eqn:Eg; [|done].
  destruct (message_ephemeral eph ck0 hash0) as [ck1 hash1] eqn:E1. cbn in H.
  destruct (mix_dh ck1 (curve25519_generate_secret e) (hs_remote_static (p_handshake pr))) as [[ck2 key2]|] eqn:E2; [|done].
  destruct (message_encrypt (static_public (d_static_identity w)) key2 hash1) as [es hash2] eqn:E3. cbn in H.
  destruct (mix_precomputed_dh ck2 (hs_precomputed_static_static (p_handshake pr))) as [[ck4 key4]|] eqn:E4; [|done].
  destruct (message_encrypt (tai64n_now _ _) key4 hash2) as [et hash5] eqn:E5. cbn in H.
  destruct (wg_index_hashtable_insert _ _ _) as [[index t]|] eqn:E6; [|done]. cbn in H. injection H as <- <-.
  eexists. split; cbn.
  - rewrite lookup_alter_eq, Hp. cbn. reflexivity.
  - by rewrite lookup_alter_eq, Hp.
  - done.
  - exact Eg.
  - done.
  - done.
  - exact E6.
  - intros idR hsR OI OR KI KR. exists ck2, hash2.
    unfold open_initiation_static, open_initiation_timestamp. cbn.
    rewrite (proj1 OR). cbn. rewrite <- (proj1 KI), E0, E1.
    assert (Hdh : mix_dh ck1 (static_private idR) eph = Some (ck2, key2)).
    { rewrite <- E2. unfold mix_dh. rewrite (dh_static idR _ _ OR Eg). by rewrite (proj1 KI). }
    rewrite Hdh. cbn. pose proof (message_roundtrip (static_public (d_static_identity w)) key2 hash1) as R1.
    rewrite E3 in R1. rewrite R1. cbn. split; [done|].
    rewrite <- (precomputed_agree _ _ _ _ OI OR KI KR), E4. cbn.
    pose proof (message_roundtrip (tai64n_now (fst (ktime_get_real_ts64 e)) (snd (ktime_get_real_ts64 e))) key4 hash2) as R2.
    rewrite E5 in R2. rewrite R2. done.
Qed.

(** ** The responder *)

Lemma pubkey_lookup_spec s w p w0 :
  pubkey_lookup siphash s w = (Some p, w0) ->
  w0 = wg_peer_get p w /\ exists pr, d_peers w !! p = Some pr /\ hs_remote_static (p_handshake pr) = s.
Proof.
  unfold pubkey_lookup, wg_pubkey_hashtable_lookup. intros H.
  destruct (List.find _ _) as [q|] eqn:Ef; cbn [mbind option_bind] in H; [|done].
  destruct (peer_alive w q); [|done]. injection H as -> <-. split; [done|].
  apply List.find_some in Ef as [_ Ef]. destruct (d_peers w !! p) as [pr|]; cbn in Ef; [|done].
  apply bytes_eqb_spec in Ef. by exists pr.
Qed.

Lemma peer_get_handshake p w q : p_handshake <$> d_peers (wg_peer_get p w) !! q = p_handshake <$> d_peers w !! q.
Proof.
  cbn. destruct (decide (p = q)) as [->|]; [|by rewrite lookup_alter_ne].
  rewrite lookup_alter_eq. by destruct (d_peers w !! q).
Qed.

(** A response that the responder creates, and how the initiator opens it. *)
Record response_created (e : env) (p : peer_id) (hs : noise_handshake) (w w1 : wg_device)
    (m : message_handshake_response) (hs1 : noise_handshake) : Prop := {
  rc_handshake : p_handshake <$> d_peers w1 !! p = Some hs1;
  rc_state : hs_state hs1 = HANDSHAKE_CREATED_RESPONSE;
  rc_was : hs_state hs = HANDSHAKE_CONSUMED_INITIATION;
  rc_receiver : hr_receiver_index m = hs_remote_index hs;
  rc_remote_index : hs_remote_index hs1 = hs_remote_index hs;
  rc_inserted : wg_index_hashtable_insert (Handshake p) (random_indices e) (d_index_hashtable w)
                = Some (hr_sender_index m, d_index_hashtable w1);
  rc_opens idI hsI :
    identity_ok idI -> hs_remote_static hs = static_public idI ->
    curve25519_generate_public (hs_ephemeral_private hsI) = Some (hs_remote_ephemeral hs) ->
    hs_chaining_key hsI = hs_chaining_key hs -> hs_hash hsI = hs_hash hs -> hs_preshared_key hsI = hs_preshared_key hs ->
    open_response idI hsI m = Some (hs_chaining_key hs1, hs_hash hs1)
}.

Lemma create_response_spec e p dst w pr m w1 :
  d_peers w !! p = Some pr ->
  wg_noise_handshake_create_response e p dst w = Some (Some m, w1) ->
  exists hs1, response_created e p (p_handshake pr) w w1 m hs1.
Proof.
  intros Hp H. unfold wg_noise_handshake_create_response in H. rewrite Hp in H. cbn [mbind option_bind] in H.
  case_bool_decide as Hst; cbn [negb] in H; [|done]. cbn in H.
  destruct (curve25519_generate_public (curve25519_generate_secret e)) as [eph|] eqn:Eg; [|done].
  destruct (message_ephemeral eph _ _) as [ck1 hash1] eqn:E1. cbn in H.
  destruct (mix_dh_nokey ck1 _ _) as [ck2|] eqn:E2; [|done]. cbn in H.
  destruct (mix_dh_nokey ck2 _ _) as [ck3|] eqn:E3; [|done]. cbn in H.
  destruct (mix_psk ck3 hash1 _) as [[ck4 hash4] key4] eqn:E4. cbn in H.
  destruct (message_encrypt [] key4 hash4) as [en hash5] eqn:E5. cbn in H.
  destruct (wg_index_hashtable_insert _ _ _) as [[index t]|] eqn:E6; [|done]. cbn in H. injection H as <- <-.
  eexists. split; cbn.
  - rewrite lookup_alter_eq, Hp. cbn. reflexivity.
  - done.
  - exact Hst.
  - done.
  - done.
  - exact E6.
  - intros idI hsI OI Hrs Heph Hck Hh Hpsk. unfold open_response. cbn. rewrite Hck, Hh, Hpsk, E1.
    assert (H2 : mix_dh_nokey ck1 (hs_ephemeral_private hsI) eph = Some ck2).
    { rewrite <- E2. unfold mix_dh_nokey. by rewrite (curve25519_agree _ _ _ _ Heph Eg). }
    assert (H3 : mix_dh_nokey ck2 (static_private idI) eph = Some ck3).
    { rewrite <- E3. unfold mix_dh_nokey. rewrite Hrs. by rewrite (dh_static idI _ _ OI Eg). }
    rewrite H2. cbn. rewrite H3. cbn. rewrite E4.
    pose proof (message_roundtrip [] key4 hash4) as R. rewrite E5 in R. rewrite R. done.
Qed.

End Agreement.

Section Session.
Context {C : Crypto}.

(** ** The session *)

(** The keypair that a finished handshake gives. *)
Definition session_keypair (e : env) (chacha : bool) (id : Z) (hs : noise_handshake) : noise_keypair :=
  let initiator := bool_decide (hs_state hs = HANDSHAKE_CONSUMED_RESPONSE) in
  let '(first, second) := derive_keys (hs_chaining_key hs) in
  let '(sending, receiving) := if initiator then (first, second) else (second, first) in
  {| kp_sending := symmetric_key e sending; kp_sending_counter := 0;
     kp_receiving := symmetric_key e receiving; kp_receiving_counter := replay_counter_init;
     kp_remote_index := hs_remote_index hs; kp_i_am_the_initiator := initiator; kp_refcount := 1;
     kp_internal_id := id;
     kp_aead_enc := if chacha then None else Some sending; kp_aead_dec := if chacha then None else Some receiving |}.

Definition finished (hs : noise_handshake) : Prop :=
  hs_state hs = HANDSHAKE_CREATED_RESPONSE \/ hs_state hs = HANDSHAKE_CONSUMED_RESPONSE.

(** The AES-GCM handles can be set up, or the device uses ChaCha20-Poly1305. *)
Definition aead_available (e : env) (w : wg_device) : Prop :=
  d_is_chacha w = true \/
  (aead_enc_alloc e = true /\ aead_enc_setkey e = true /\ aead_dec_alloc e = true /\ aead_dec_setkey e = true).

Lemma upd_keypair_insert k f kp w :
  upd_keypair k f (upd_d_keypairs (insert k kp) w) = upd_d_keypairs (insert k (f kp)) w.
Proof. unfold upd_keypair, upd_d_keypairs. cbn. by rewrite alter_insert_eq. Qed.

Lemma lookup_insert_keypair k kp w : d_keypairs (upd_d_keypairs (insert k kp) w) !! k = Some kp.
Proof. cbn. apply lookup_insert_eq. Qed.

Lemma insert_keypair_index k kp g w :
  upd_d_index_hashtable g (upd_d_keypairs (insert k kp) w) = upd_d_keypairs (insert k kp) (upd_d_index_hashtable g w).
Proof. reflexivity. Qed.

Lemma insert_keypair_handles k kp g w :
  upd_d_aead_handles g (upd_d_keypairs (insert k kp) w) = upd_d_keypairs (insert k kp) (upd_d_aead_handles g w).
Proof. reflexivity. Qed.

Lemma handles_handles f g w : upd_d_aead_handles f (upd_d_aead_handles g w) = upd_d_aead_handles (fun n => f (g n)) w.
Proof. reflexivity. Qed.

(** What [setup_aead] does on each of its paths: the handles it allocated are in the keypair. *)
Definition aead_progress (e : env) (kp : noise_keypair) : bool * Z * noise_keypair :=
  let enc v := upd_kp_aead_enc (fun _ => Some v) in
  let dec v := upd_kp_aead_dec (fun _ => Some v) in
  if negb (aead_enc_alloc e) then (false, 0, kp)
  else if negb (aead_enc_setkey e) then (false, 1, enc [] kp)
  else
    let kp1 := enc (sk_key (kp_sending kp)) (enc [] kp) in
    if negb (aead_dec_alloc e) then (false, 1, kp1)
    else if negb (aead_dec_setkey e) then (false, 2, dec [] kp1)
    else (true, 2, dec (sk_key (kp_receiving kp)) (dec [] kp1)).

Lemma handles_ext f g w : (forall n, f n = g n) -> upd_d_aead_handles f w = upd_d_aead_handles g w.
Proof. intros H. unfold upd_d_aead_handles. by rewrite H. Qed.

Lemma setup_aead_spec e k kp w :
  setup_aead e k (upd_d_keypairs (insert k kp) w) =
  let '(ok, n, kp') := aead_progress e kp in
  Some (ok, upd_d_keypairs (insert k kp') (upd_d_aead_handles (fun h => h + n) w)).
Proof.
  unfold setup_aead. rewrite lookup_insert_keypair. cbn [mbind option_bind].
  rewrite !insert_keypair_handles, !upd_keypair_insert, insert_keypair_handles, !upd_keypair_insert, handles_handles.
  assert (H2 : upd_d_aead_handles (fun n => n + 1 + 1) w = upd_d_aead_handles (fun n => n + 2) w)
    by (apply handles_ext; intros; lia).
  assert (H0 : upd_d_aead_handles (fun n => n + 0) w = w).
  { unfold upd_d_aead_handles. rewrite Z.add_0_r. by destruct w. }
  rewrite H2. unfold aead_progress.
  destruct (aead_enc_alloc e); cbn [negb]; [|by rewrite H0].
  destruct (aead_enc_setkey e); cbn [negb]; [|done].
  destruct (aead_dec_alloc e); cbn [negb]; [|done].
  by destruct (aead_dec_setkey e); cbn [negb].
Qed.

(** The new keypair before its handles are set up. *)
Definition session_keypair_plain (e : env) (id : Z) (hs : noise_handshake) : noise_keypair :=
  session_keypair e true id hs.

(** The device with the new keypair allocated. *)
Definition session_allocated (p : peer_id) (k : keypair_id) (w : wg_device) : wg_device :=
  upd_d_index_hashtable (set_entry (Keypair k) (keypair_entry p)) (upd_d_keypair_counter (fun n => u64 (n + 1)) w).

(** The keypair with its handles, whether they were set up, and how many were allocated. *)
Definition session_aead (e : env) (hs : noise_handshake) (w : wg_device) : bool * Z * noise_keypair :=
  let kp := session_keypair_plain e (u64 (d_keypair_counter w + 1)) hs in
  if negb (d_is_chacha w) then aead_progress e kp else (true, 0, kp).

Lemma begin_session_steps e p w pr k ok n kp w1 :
  d_peers w !! p = Some pr -> finished (p_handshake pr) -> new_keypair e = Some k ->
  session_aead e (p_handshake pr) w = (ok, n, kp) ->
  w1 = upd_d_keypairs (insert k kp) (upd_d_aead_handles (fun h => h + n) (session_allocated p k w)) ->
  wg_noise_handshake_begin_session e p w =
    if negb ok then w2 ← keypair_free_rcu k w1; Some (false, w2)
    else
      if negb (p_is_dead pr) then
        w3 ← add_new_keypair p k (upd_handshake p handshake_zero w1);
        '(ret, t) ← wg_index_hashtable_replace (Handshake p) (Keypair k) (d_index_hashtable w3);
        Some (ret, upd_d_index_hashtable (fun _ => t) w3)
      else Some (false, free_entry (Keypair k) (upd_d_keypairs (delete k) (upd_handshake p handshake_zero w1))).
Proof.
  intros Hp Hf Hk Hsa ->. unfold session_aead in Hsa. set (kp0 := session_keypair_plain _ _ _) in Hsa. cbv zeta in *.
  unfold wg_noise_handshake_begin_session. rewrite Hp. cbn [mbind option_bind].
  assert (Hg : negb (bool_decide (hs_state (p_handshake pr) = HANDSHAKE_CREATED_RESPONSE))
     && negb (bool_decide (hs_state (p_handshake pr) = HANDSHAKE_CONSUMED_RESPONSE)) = false).
  { destruct Hf as [->| ->]; done. }
  rewrite Hg. unfold keypair_create. rewrite Hk. rewrite insert_keypair_index.
  fold (session_allocated p k w). rewrite !upd_keypair_insert.
  destruct (derive_keys (hs_chaining_key (p_handshake pr))) as [k1 k2] eqn:Ed.
  destruct (if bool_decide (hs_state (p_handshake pr) = HANDSHAKE_CONSUMED_RESPONSE) then (k1, k2) else (k2, k1))
    as [sending receiving] eqn:Esr.
  rewrite !upd_keypair_insert.
  match goal with |- context [insert k ?x] => assert (Hkp : x = kp0) end.
  { unfold kp0, session_keypair_plain, session_keypair. rewrite Ed, Esr. reflexivity. }
  rewrite Hkp. change (d_is_chacha (upd_d_keypairs (insert k kp0) (session_allocated p k w))) with (d_is_chacha w).
  assert (H0 : upd_d_aead_handles (fun n => n + 0) (session_allocated p k w) = session_allocated p k w).
  { unfold upd_d_aead_handles. rewrite Z.add_0_r. reflexivity. }
  destruct (d_is_chacha w); cbn [negb] in *.
  - injection Hsa as <- <- <-. rewrite H0. reflexivity.
  - rewrite setup_aead_spec, Hsa. reflexivity.
Qed.

Lemma session_aead_ok e w hs :
  aead_available e w ->
  session_aead e hs w
  = (true, if d_is_chacha w then 0 else 2, session_keypair e (d_is_chacha w) (u64 (d_keypair_counter w + 1)) hs).
Proof.
  intros Ha. unfold session_aead, session_keypair_plain, session_keypair, aead_progress.
  destruct (derive_keys _) as [k1 k2]. destruct (if bool_decide _ then _ else _) as [s r].
  unfold aead_available in Ha. destruct (d_is_chacha w); [done|].
  destruct Ha as [|(-> & -> & -> & ->)]; done.
Qed.

(** What a session needs: a finished handshake of a live peer, whose entry is in the index
    table, and the memory. *)
Record session_ready (e : env) (p : peer_id) (k : keypair_id) (pr : wg_peer) (i : Z) (w : wg_device) : Prop := {
  sr_peer : d_peers w !! p = Some pr;
  sr_finished : finished (p_handshake pr);
  sr_alive : p_is_dead pr = false;
  sr_memory : new_keypair e = Some k;
  sr_fresh : d_keypairs w !! k = None;
  sr_fresh_entry : ix_entries (d_index_hashtable w) !! Keypair k = None;
  sr_aead : aead_available e w;
  sr_slots : slots_exist w (p_keypairs pr);
  sr_ix_ok : ix_ok (d_index_hashtable w);
  sr_holds : holds (d_index_hashtable w) i (Handshake p)
}.

Lemma occurrences_none k l : Some k ∉ l -> occurrences k l = 0.
Proof.
  induction l as [|o l IH]; intros H; [done|]. rewrite occurrences_cons, IH by set_solver.
  rewrite bool_decide_false; [done|]. set_solver.
Qed.

(** Putting a new keypair to use: the slots get it and it takes over the index of the handshake. *)
Lemma install_keypair p k kp ks i en w :
  get_slots p w = Some ks -> slots_exist w ks -> d_keypairs w !! k = Some kp -> Some k ∉ slot_list ks ->
  ix_ok (d_index_hashtable w) -> ix_entries (d_index_hashtable w) !! Keypair k = Some en -> e_hashed en = false ->
  holds (d_index_hashtable w) i (Handshake p) ->
  exists w', (w3 ← add_new_keypair p k w;
              '(ret, t) ← wg_index_hashtable_replace (Handshake p) (Keypair k) (d_index_hashtable w3);
              Some (ret, upd_d_index_hashtable (fun _ => t) w3)) = Some (true, w') /\
    d_keypairs w' !! k = Some kp /\ get_slots p w' = Some (slots_with_new (kp_i_am_the_initiator kp) k ks) /\
    p_handshake <$> d_peers w' !! p = p_handshake <$> d_peers w !! p /\
    ix_ok (d_index_hashtable w') /\ holds (d_index_hashtable w') i (Keypair k) /\
    unhashed (d_index_hashtable w') (Handshake p).
Proof.
  intros Hks Hex Hk Hnot Hok Hen Hun (o & Ho & Hoh & Hoi).
  destruct (exec_slot_op_spec (AddNew k) p w ks Hks Hex (mk_is_Some _ _ Hk)) as (w3 & E3 & D3).
  cbn [exec_slot_op] in E3. rewrite E3. cbn [mbind option_bind]. cbn [slots_after fst snd] in *. rewrite Hk in *.
  set (slots' := slots_with_new _ _ _) in *. set (l := pushed_out _ _) in *.
  assert (Hl : Some k ∉ l) by (intros Hin; apply Hnot; unfold l, pushed_out, slot_list in *; repeat case_match; set_solver).
  assert (Hok3 : ix_ok (d_index_hashtable w3)) by (by apply (dr_ix_ok _ _ _ D3)).
  assert (Ho3 : ix_entries (d_index_hashtable w3) !! Handshake p = Some o) by (by rewrite (dr_other _ _ _ D3)).
  assert (Hk3 : ix_entries (d_index_hashtable w3) !! Keypair k = Some en).
  { rewrite (dr_other _ _ _ D3); [done|]. by intros k' Hk' [= ->]. }
  destruct (replace_spec (Handshake p) (Keypair k) _ o en Hok3 Ho3 Hk3 Hun) as (t' & E4 & Hok4 & _ & Hr); [done|].
  destruct (Hr Hoh) as [Hun' Hhold].
  cbn [d_index_hashtable set_slots upd_peer upd_d_peers]. rewrite E4, Hoh. cbn [mbind option_bind].
  eexists. split; [reflexivity|]. split_and!.
  - cbn. rewrite (dr_count _ _ _ D3), Hk, (occurrences_none k l Hl). cbn [fmap option_fmap option_map]. by rewrite upd_refcount_0.
  - apply (get_set_slots p (fun _ => slots') w3 ks). unfold get_slots. by rewrite (dr_peers _ _ _ D3).
  - cbn. rewrite lookup_alter_eq, (dr_peers _ _ _ D3). by destruct (d_peers w !! p).
  - exact Hok4.
  - apply Hhold. left. by rewrite Hoi.
  - exact Hun'.
Qed.

Lemma session_keypair_initiator e b id hs :
  kp_i_am_the_initiator (session_keypair e b id hs) = bool_decide (hs_state hs = HANDSHAKE_CONSUMED_RESPONSE).
Proof. unfold session_keypair. destruct (derive_keys _). by destruct (if bool_decide _ then _ else _). Qed.

Lemma begin_session_succeeds e p k pr i w :
  session_ready e p k pr i w ->
  exists w', wg_noise_handshake_begin_session e p w = Some (true, w') /\
    d_keypairs w' !! k = Some (session_keypair e (d_is_chacha w) (u64 (d_keypair_counter w + 1)) (p_handshake pr)) /\
    get_slots p w' = Some (slots_with_new (bool_decide (hs_state (p_handshake pr) = HANDSHAKE_CONSUMED_RESPONSE)) k (p_keypairs pr)) /\
    p_handshake <$> d_peers w' !! p = Some (handshake_zero (p_handshake pr)) /\
    ix_ok (d_index_hashtable w') /\
    holds (d_index_hashtable w') i (Keypair k) /\ unhashed (d_index_hashtable w') (Handshake p).
Proof.
  intros [Hp Hf Hd Hm Hk Hke Ha Hs Hok Hh]. pose proof (session_aead_ok e w (p_handshake pr) Ha) as Hsa.
  rewrite <- (session_keypair_initiator e (d_is_chacha w) (u64 (d_keypair_counter w + 1))).
  set (kp := session_keypair e (d_is_chacha w) _ (p_handshake pr)) in *. clearbody kp.
  rewrite (begin_session_steps e p w pr k _ _ _ _ Hp Hf Hm Hsa eq_refl), Hd. cbn [negb].
  set (w2 := upd_handshake p handshake_zero _).
  assert (Epeers : d_peers w2 = alter (upd_p_handshake handshake_zero) p (d_peers w)) by reflexivity.
  assert (Ekeypairs : d_keypairs w2 = <[k := kp]> (d_keypairs w)) by reflexivity.
  assert (Eindex : d_index_hashtable w2 = set_entry (Keypair k) (keypair_entry p) (d_index_hashtable w)) by reflexivity.
  clearbody w2.
  assert (Hhs : p_handshake <$> d_peers w2 !! p = Some (handshake_zero (p_handshake pr))).
  { by rewrite Epeers, lookup_alter_eq, Hp. }
  rewrite <- Hhs. apply (install_keypair p k kp _ i (keypair_entry p)).
  - unfold get_slots. by rewrite Epeers, lookup_alter_eq, Hp.
  - intros k' Hk'. rewrite Ekeypairs. apply lookup_insert_is_Some. destruct (decide (k = k')); [by left|].
    right. split; [done|]. by apply Hs.
  - rewrite Ekeypairs. apply lookup_insert_eq.
  - intros Hin. destruct (Hs k Hin). congruence.
  - rewrite Eindex. by apply ix_ok_create.
  - rewrite Eindex. apply lookup_insert_eq.
  - reflexivity.
  - destruct Hh as (o & Ho & Hoh & Hoi). exists o. rewrite Eindex. cbn [ix_entries set_entry]. by rewrite lookup_insert_ne by done.
Qed.

(** ** What the handshake leaves alone *)

Record frame (w w' : wg_device) : Prop := {
  fr_keypairs : d_keypairs w' = d_keypairs w;
  fr_chacha : d_is_chacha w' = d_is_chacha w;
  fr_identity : d_static_identity w' = d_static_identity w;
  fr_peer q : (fun pr => (p_keypairs pr, p_is_dead pr)) <$> d_peers w' !! q
              = (fun pr => (p_keypairs pr, p_is_dead pr)) <$> d_peers w !! q;
  fr_entries e : static_part <$> ix_entries (d_index_hashtable w') !! e
                 = static_part <$> ix_entries (d_index_hashtable w) !! e
}.

Lemma frame_trans w1 w2 w3 : frame w1 w2 -> frame w2 w3 -> frame w1 w3.
Proof. intros [] []. split; intros; congruence. Qed.

Lemma frame_upd_peer p f w :
  (forall pr, p_keypairs (f pr) = p_keypairs pr /\ p_is_dead (f pr) = p_is_dead pr) -> frame w (upd_peer p f w).
Proof.
  intros Hf. split; try done. intros q. cbn. destruct (decide (p = q)) as [->|]; [|by rewrite lookup_alter_ne].
  rewrite lookup_alter_eq. destruct (d_peers w !! q) as [pr|]; [|done]. cbn. by destruct (Hf pr) as [-> ->].
Qed.

Lemma frame_handshake p f w : frame w (upd_handshake p f w).
Proof. by apply frame_upd_peer. Qed.

Lemma frame_insert p rs i t w :
  wg_index_hashtable_insert (Handshake p) rs (d_index_hashtable w) = Some (i, t) ->
  frame w (upd_d_index_hashtable (fun _ => t) w).
Proof. intros H. split; try done. intros e. by apply (insert_static _ _ _ _ _ _ H). Qed.

(** The handshake a device is left with after the sessions of both sides began. *)
Lemma frame_session_ready e p k pr i w w' pr' :
  d_peers w !! p = Some pr -> frame w w' -> d_peers w' !! p = Some pr' ->
  p_is_dead pr = false -> new_keypair e = Some k -> d_keypairs w !! k = None ->
  ix_entries (d_index_hashtable w) !! Keypair k = None -> aead_available e w -> slots_exist w (p_keypairs pr) ->
  finished (p_handshake pr') -> ix_ok (d_index_hashtable w') -> holds (d_index_hashtable w') i (Handshake p) ->
  session_ready e p k pr' i w'.
Proof.
  intros Hp [F1 F2 F3 F4 F5] Hp' Hd Hm Hk He Ha Hs Hf Hok Hh.
  pose proof (F4 p) as Fp. rewrite Hp, Hp' in Fp. cbn in Fp. injection Fp as Fk Fd.
  pose proof (F5 (Keypair k)) as Fe. rewrite He in Fe. split; try done.
  - congruence.
  - by rewrite F1.
  - by destruct (ix_entries (d_index_hashtable w') !! Keypair k).
  - unfold aead_available. by rewrite F2.
  - intros k'. rewrite Fk, F1. apply Hs.
Qed.

Lemma create_initiation_frame e p dst w m w1 :
  wg_noise_handshake_create_initiation e p dst w = Some (Some m, w1) -> frame w w1.
Proof.
  intros H. unfold wg_noise_handshake_create_initiation in H.
  destruct (d_peers w !! p) as [pr|]; cbn [mbind option_bind] in H; [|done]. repeat case_match; try done; simplify_eq.
  all: destruct (wg_index_hashtable_insert _ _ _) as [[i t]|] eqn:E; cbn [mbind option_bind] in *; [|done]; simplify_eq.
  all: eapply frame_trans; [by eapply frame_insert|apply frame_handshake].
Qed.

Lemma create_response_frame e p dst w m w1 :
  wg_noise_handshake_create_response e p dst w = Some (Some m, w1) -> frame w w1.
Proof.
  intros H. unfold wg_noise_handshake_create_response in H.
  destruct (d_peers w !! p) as [pr|]; cbn [mbind option_bind] in H; [|done]. repeat case_match; try done; simplify_eq.
  all: destruct (wg_index_hashtable_insert _ _ _) as [[i t]|] eqn:E; cbn [mbind option_bind] in *; [|done]; simplify_eq.
  all: eapply frame_trans; [by eapply frame_insert|apply frame_handshake].
Qed.
End Session.

Section Parties.
Context {C : Crypto} {L : CryptoLaws C} (siphash : bytes -> Z -> Z).

(** ** The four messages put together *)

(** Two devices that are configured for each other. *)
Record parties (wI wR : wg_device) (pI pR : peer_id) (prI prR : wg_peer) : Prop := {
  pa_I : d_peers wI !! pI = Some prI;
  pa_R : d_peers wR !! pR = Some prR;
  pa_idI : identity_ok (d_static_identity wI);
  pa_idR : identity_ok (d_static_identity wR);
  pa_knowsI : knows (d_static_identity wI) (d_static_identity wR) (p_handshake prI);
  pa_knowsR : knows (d_static_identity wR) (d_static_identity wI) (p_handshake prR);
  pa_psk : hs_preshared_key (p_handshake prI) = hs_preshared_key (p_handshake prR);
  pa_lookup : fst (pubkey_lookup siphash (static_public (d_static_identity wI)) wR) = Some pR;
  pa_ixI : ix_ok (d_index_hashtable wI);
  pa_ixR : ix_ok (d_index_hashtable wR);
  pa_entryI : static_part <$> ix_entries (d_index_hashtable wI) !! Handshake pI = Some (INDEX_HASHTABLE_HANDSHAKE, Some pI);
  pa_entryR : is_Some (ix_entries (d_index_hashtable wR) !! Handshake pR);
  pa_refI : p_refcount prI <> 0
}.

(** A device can start a session with its peer. *)
Record can_begin (e : env) (pr : wg_peer) (k : keypair_id) (w : wg_device) : Prop := {
  cb_alive : p_is_dead pr = false;
  cb_memory : new_keypair e = Some k;
  cb_fresh : d_keypairs w !! k = None;
  cb_fresh_entry : ix_entries (d_index_hashtable w) !! Keypair k = None;
  cb_aead : aead_available e w;
  cb_slots : slots_exist w (p_keypairs pr)
}.

Definition initiation_time (e : env) : bytes := tai64n_now (fst (ktime_get_real_ts64 e)) (snd (ktime_get_real_ts64 e)).

Lemma consume_initiation_agrees wI wR pI pR prI prR e1 e2 dst m w1 :
  parties wI wR pI pR prI prR ->
  wg_noise_handshake_create_initiation e1 pI dst wI = Some (Some m, w1) ->
  replay_attack (initiation_time e1) (p_handshake prR) = false -> flood_attack e2 (p_handshake prR) = false ->
  exists hsI w2 pr2, initiation_created e1 pI (p_handshake prI) wI w1 m hsI /\
    wg_noise_handshake_consume_initiation siphash e2 m wR = Some (Some pR, w2) /\
    frame wR w2 /\ d_index_hashtable w2 = d_index_hashtable wR /\ d_peers w2 !! pR = Some pr2 /\
    p_handshake pr2 = consume_initiation_commit e2 m (initiation_time e1) (hs_chaining_key hsI) (hs_hash hsI) (p_handshake prR).
Proof.
  intros P H1 Hr Hf. destruct (create_initiation_spec e1 pI dst wI prI m w1 (pa_I _ _ _ _ _ _ P) H1) as [hsI HI].
  destruct (ic_opens _ _ _ _ _ _ _ HI (d_static_identity wR) (p_handshake prR)) as (ck & hash & E1 & E2);
    [apply P..|]. unfold wg_noise_handshake_consume_initiation, consume_initiation_check. rewrite E1.
  destruct (pubkey_lookup siphash (static_public (d_static_identity wI)) wR) as [r w0] eqn:El.
  assert (r = Some pR) as -> by (rewrite <- (pa_lookup _ _ _ _ _ _ P), El; done).
  apply pubkey_lookup_spec in El as (-> & _).
  assert (Hp0 : d_peers (wg_peer_get pR wR) !! pR = Some (upd_p_refcount (fun n => n + 1) prR)).
  { cbn. by rewrite lookup_alter_eq, (pa_R _ _ _ _ _ _ P). }
  rewrite Hp0. cbn [mbind option_bind p_handshake upd_p_refcount].
  unfold initiation_time in Hr. rewrite E2, Hr, Hf. cbn [orb].
  exists hsI. do 2 eexists. split; [done|]. split; [reflexivity|]. split_and!.
  - eapply frame_trans; [|apply frame_handshake]. by apply frame_upd_peer.
  - done.
  - unfold upd_handshake. rewrite upd_peer_lookup, Hp0. reflexivity.
  - reflexivity.
Qed.

Lemma index_lookup_holds mask i w e p pr en :
  ix_ok (d_index_hashtable w) -> ix_entries (d_index_hashtable w) !! e = Some en -> e_hashed en = true -> e_index en = i ->
  Z.land (e_type en) mask <> 0 -> e_peer en = Some p -> d_peers w !! p = Some pr -> p_refcount pr <> 0 ->
  index_lookup mask i w = (Some (e, p), wg_peer_get p w).
Proof.
  intros Hok He Hh Hi Ht Hpe Hp Href. unfold index_lookup, wg_index_hashtable_lookup.
  rewrite (proj2 (lookup_walk_spec (d_index_hashtable w) i e en Hok)) by (split; [by exists en|done]).
  apply Z.eqb_neq in Ht. rewrite Ht, Hpe. unfold peer_alive. rewrite Hp. apply Z.eqb_neq in Href. rewrite Href. cbn [negb].
  by destruct w.
Qed.
Lemma consume_response_agrees wI wR pI pR prI prR e1 e2 e3 m1 w1 hsI w2 pr2 dst m2 w3 :
  parties wI wR pI pR prI prR ->
  initiation_created e1 pI (p_handshake prI) wI w1 m1 hsI -> frame wI w1 ->
  d_peers w2 !! pR = Some pr2 ->
  p_handshake pr2 = consume_initiation_commit e2 m1 (initiation_time e1) (hs_chaining_key hsI) (hs_hash hsI) (p_handshake prR) ->
  wg_noise_handshake_create_response e3 pR dst w2 = Some (Some m2, w3) ->
  exists hsR w4 pr4, response_created e3 pR (p_handshake pr2) w2 w3 m2 hsR /\
    wg_noise_handshake_consume_response m2 w1 = Some (Some pI, w4) /\
    frame w1 w4 /\ d_index_hashtable w4 = d_index_hashtable w1 /\ ix_ok (d_index_hashtable w1) /\
    holds (d_index_hashtable w1) (hi_sender_index m1) (Handshake pI) /\ d_peers w4 !! pI = Some pr4 /\
    hs_state (p_handshake pr4) = HANDSHAKE_CONSUMED_RESPONSE /\
    hs_chaining_key (p_handshake pr4) = hs_chaining_key hsR /\
    hs_remote_index (p_handshake pr4) = hr_sender_index m2.
Proof.
  intros P HI F1 Hp2 Hhs2 H3. destruct (create_response_spec e3 pR dst w2 pr2 m2 w3 Hp2 H3) as [hsR HR].
  assert (Hent : is_Some (ix_entries (d_index_hashtable wI) !! Handshake pI)).
  { apply (fmap_is_Some static_part). rewrite (pa_entryI _ _ _ _ _ _ P). by eexists. }
  destruct (insert_result _ _ _ _ _ (pa_ixI _ _ _ _ _ _ P) Hent (ic_inserted _ _ _ _ _ _ _ HI)) as [Hok1 Hh1].
  pose proof Hh1 as (en & He & Heh & Hei).
  assert (Hst : static_part en = (INDEX_HASHTABLE_HANDSHAKE, Some pI)).
  { pose proof (fr_entries _ _ F1 (Handshake pI)) as E. rewrite He, (pa_entryI _ _ _ _ _ _ P) in E. by apply (inj Some). }
  injection Hst as Ety Epe.
  pose proof (ic_handshake _ _ _ _ _ _ _ HI) as Hhs. pose proof (ic_refcount _ _ _ _ _ _ _ HI) as Href.
  rewrite (pa_I _ _ _ _ _ _ P) in Href. destruct (d_peers w1 !! pI) as [pr1|] eqn:Hp1; [|done].
  cbn in Hhs, Href. injection Hhs as Hhs. injection Href as Href.
  pose proof (rc_receiver _ _ _ _ _ _ _ HR) as Hrec. rewrite Hhs2 in Hrec. cbn [hs_remote_index consume_initiation_commit] in Hrec.
  unfold wg_noise_handshake_consume_response. rewrite (fr_identity _ _ F1), (proj1 (pa_idI _ _ _ _ _ _ P)). cbn [negb].
  rewrite (index_lookup_holds _ _ w1 (Handshake pI) pI pr1 en Hok1 He Heh) by
    (first [done|by rewrite Hrec|by rewrite Ety|rewrite Href; apply (pa_refI _ _ _ _ _ _ P)]).
  assert (Hp1' : d_peers (wg_peer_get pI w1) !! pI = Some (upd_p_refcount (fun n => n + 1) pr1)).
  { unfold wg_peer_get. by rewrite upd_peer_lookup, Hp1. }
  rewrite Hp1'. cbn [mbind option_bind p_handshake upd_p_refcount]. rewrite Hhs.
  rewrite bool_decide_true by apply HI. cbn [negb].
  change (d_static_identity (wg_peer_get pI w1)) with (d_static_identity w1). rewrite (fr_identity _ _ F1).
  rewrite (rc_opens _ _ _ _ _ _ _ HR (d_static_identity wI) hsI); cycle 1.
  { apply P. }
  { rewrite Hhs2. cbn. apply P. }
  { rewrite Hhs2. cbn. apply HI. }
  { by rewrite Hhs2. }
  { by rewrite Hhs2. }
  { rewrite Hhs2. cbn. rewrite (ic_psk _ _ _ _ _ _ _ HI). apply P. }
  unfold consume_response_commit. rewrite bool_decide_true by done. cbn [negb].
  exists hsR. do 2 eexists. split; [done|]. split; [reflexivity|]. split_and!; try done.
  - eapply frame_trans; [|apply frame_handshake]. by apply frame_upd_peer.
  - unfold upd_handshake. rewrite upd_peer_lookup, Hp1'. reflexivity.
  - reflexivity.
  - reflexivity.
  - reflexivity.
Qed.
End Parties.

(** C2: the handshake makes a session. Between two devices configured with each other's public key
    and the same preshared key, an initiation with a new time stamp that is not sent too soon is
    consumed by the responder, the response to it is consumed by the initiator, both sides can
    begin the session, and then each sends with the key the other receives with and addresses the
    other by the index under which the other finds the keypair; the AES-GCM handles hold the same
    keys. *)
Theorem handshake_makes_session {C : Crypto} {L : CryptoLaws C} siphash wI wR pI pR prI prR e1 e2 dst1 m1 wI1 :
  parties siphash wI wR pI pR prI prR ->
  wg_noise_handshake_create_initiation e1 pI dst1 wI = Some (Some m1, wI1) ->
  replay_attack (initiation_time e1) (p_handshake prR) = false -> flood_attack e2 (p_handshake prR) = false ->
  exists wR1, wg_noise_handshake_consume_initiation siphash e2 m1 wR = Some (Some pR, wR1) /\
  forall e3 dst2 m2 wR2 e4 kI e5 kR,
    wg_noise_handshake_create_response e3 pR dst2 wR1 = Some (Some m2, wR2) ->
    can_begin e4 prI kI wI -> can_begin e5 prR kR wR ->
  exists wI2 wI3 wR3 kpI kpR,
    wg_noise_handshake_consume_response m2 wI1 = Some (Some pI, wI2) /\
    wg_noise_handshake_begin_session e4 pI wI2 = Some (true, wI3) /\
    wg_noise_handshake_begin_session e5 pR wR2 = Some (true, wR3) /\
    d_keypairs wI3 !! kI = Some kpI /\ d_keypairs wR3 !! kR = Some kpR /\
    sk_key (kp_sending kpI) = sk_key (kp_receiving kpR) /\ sk_key (kp_receiving kpI) = sk_key (kp_sending kpR) /\
    holds (d_index_hashtable wR3) (kp_remote_index kpI) (Keypair kR) /\
    holds (d_index_hashtable wI3) (kp_remote_index kpR) (Keypair kI) /\
    (d_is_chacha wI = false -> d_is_chacha wR = false ->
      kp_aead_enc kpI = Some (sk_key (kp_sending kpI)) /\ kp_aead_dec kpR = Some (sk_key (kp_sending kpI)) /\
      kp_aead_enc kpR = Some (sk_key (kp_sending kpR)) /\ kp_aead_dec kpI = Some (sk_key (kp_sending kpR))) /\
    (current_keypair <$> get_slots pI wI3 = Some (Some kI)) /\ (next_keypair <$> get_slots pR wR3 = Some (Some kR)).
Proof.
  intros P H1 Hr Hf.
  destruct (consume_initiation_agrees siphash _ _ _ _ _ _ _ _ _ _ _ P H1 Hr Hf)
    as (hsI & w2 & pr2 & HI & H2 & F2 & Ei2 & Hp2 & Hhs2).
  pose proof (create_initiation_frame _ _ _ _ _ _ H1) as F1.
  exists w2. split; [done|]. intros e3 dst2 m2 wR2 e4 kI e5 kR H3 [] [].
  destruct (consume_response_agrees siphash _ _ _ _ _ _ _ _ _ _ _ _ _ _ _ _ _ P HI F1 Hp2 Hhs2 H3)
    as (hsR & w4 & pr4 & HR & H4 & F4 & Ei4 & Hok1 & Hh1 & Hp4 & Hst4 & Hck4 & Hri4).
  pose proof (create_response_frame _ _ _ _ _ _ H3) as F3.
  pose proof (rc_handshake _ _ _ _ _ _ _ HR) as Hhs3. destruct (d_peers wR2 !! pR) as [pr3|] eqn:Hp3; [|done].
  cbn in Hhs3. injection Hhs3 as Hhs3.
  assert (SI : session_ready e4 pI kI pr4 (hi_sender_index m1) w4).
  { eapply (frame_session_ready e4 pI kI prI _ wI); try done; [apply P|by eapply frame_trans|by right|by rewrite Ei4|by rewrite Ei4]. }
  assert (Hok3 : ix_ok (d_index_hashtable wR2) /\ holds (d_index_hashtable wR2) (hr_sender_index m2) (Handshake pR)).
  { eapply insert_result; [| |apply HR]; rewrite Ei2; apply P. }
  assert (SR : session_ready e5 pR kR pr3 (hr_sender_index m2) wR2).
  { eapply (frame_session_ready e5 pR kR prR _ wR); try done; [apply P|by eapply frame_trans| |apply Hok3|apply Hok3].
    left. rewrite Hhs3. apply HR. }
  destruct (begin_session_succeeds _ _ _ _ _ _ SI) as (wI3 & BI & KI & GI & _ & _ & HhI & _).
  destruct (begin_session_succeeds _ _ _ _ _ _ SR) as (wR3 & BR & KR & GR & _ & _ & HhR & _).
  do 5 eexists. split; [exact H4|]. split; [exact BI|]. split; [exact BR|]. split; [exact KI|]. split; [exact KR|].
  rewrite Hst4 in GI. rewrite GI, GR. unfold session_keypair. rewrite Hst4, Hck4, Hri4, Hhs3.
  rewrite (rc_state _ _ _ _ _ _ _ HR), (rc_remote_index _ _ _ _ _ _ _ HR), Hhs2.
  rewrite !(fr_chacha _ _ F4), !(fr_chacha _ _ F1), !(fr_chacha _ _ F3), !(fr_chacha _ _ F2).
  destruct (derive_keys (hs_chaining_key hsR)) as [k1 k2]. cbn.
  split_and!; try done. by intros -> ->.
Qed.

(** ** Two devices on the executable cryptography *)

Module Two.
#[local] Existing Instance toy_crypto.
Definition siphash (k : bytes) (seed : Z) : Z := le_val k + seed.

Definition identity (b : Z) : noise_static_identity :=
  wg_noise_set_static_identity_private_key (b :: zeroes 31)
    {| static_public := zeroes 32; static_private := zeroes 32; has_identity := false |}.

(** The device with private key [me], whose peer 1 has private key [other]. *)
Definition device (me other : Z) : wg_device :=
  let pr := upd_p_handshake (fun _ => wg_noise_handshake_init (identity me) (static_public (identity other)) None) sample_peer in
  upd_d_static_identity (fun _ => identity me)
    (upd_d_peers (fun _ => {[ 1%positive := pr ]})
      (upd_d_peer_hashtable (wg_pubkey_hashtable_add siphash (static_public (identity other)) 1%positive)
        (upd_d_index_hashtable (set_entry (Handshake 1) (handshake_entry 1)) sample_device))).

Definition peer_of (w : wg_device) : wg_peer := default sample_peer (d_peers w !! 1%positive).
Definition wI : wg_device := device 11 22.
Definition wR : wg_device := device 22 11.

Definition no_macs : message_macs := {| mac1 := zeroes 16; mac2 := zeroes 16 |}.
Definition dst1 : message_handshake_initiation :=
  {| hi_type := 0; hi_sender_index := 0; hi_unencrypted_ephemeral := zeroes 32; hi_encrypted_static := zeroes 48;
     hi_encrypted_timestamp := zeroes 28; hi_macs := no_macs |}.
Definition dst2 : message_handshake_response :=
  {| hr_type := 0; hr_sender_index := 0; hr_receiver_index := 0; hr_unencrypted_ephemeral := zeroes 32;
     hr_encrypted_nothing := zeroes 16; hr_macs := no_macs |}.

Definition message_or {M} (r : option (option M * wg_device)) (m : M) (w : wg_device) : M * wg_device :=
  match r with Some (Some m, w) => (m, w) | _ => (m, w) end.
Definition device_or {A} (r : option (A * wg_device)) (w : wg_device) : wg_device := default w (snd <$> r).

Definition initiation : message_handshake_initiation * wg_device :=
  message_or (wg_noise_handshake_create_initiation sample_env 1 dst1 wI) dst1 wI.
Definition after_initiation : wg_device :=
  device_or (wg_noise_handshake_consume_initiation siphash sample_env (fst initiation) wR) wR.
Definition response : message_handshake_response * wg_device :=
  message_or (wg_noise_handshake_create_response sample_env 1 dst2 after_initiation) dst2 after_initiation.

Lemma identity_is_ok b : has_identity (identity b) = true -> identity_ok (identity b).
Proof.
  intros H. split; [done|]. exists (b :: zeroes 31). split; [done|]. unfold identity in *. revert H.
  unfold wg_noise_set_static_identity_private_key. cbn [has_identity static_public]. by destruct (curve25519_generate_public _).
Qed.

Lemma parties_ok : parties siphash wI wR 1 1 (peer_of wI) (peer_of wR).
Proof.
  split.
  - vm_compute. reflexivity.
  - vm_compute. reflexivity.
  - apply identity_is_ok. vm_compute. reflexivity.
  - apply identity_is_ok. vm_compute. reflexivity.
  - split; vm_compute; reflexivity.
  - split; vm_compute; reflexivity.
  - vm_compute. reflexivity.
  - vm_compute. reflexivity.
  - apply ix_ok_create; [apply ix_ok_alloc|done|done].
  - apply ix_ok_create; [apply ix_ok_alloc|done|done].
  - vm_compute. reflexivity.
  - by eexists.
  - vm_compute. done.
Qed.

Lemma can_begin_ok w : w = wI \/ w = wR -> can_begin sample_env (peer_of w) 1 w.
Proof.
  intros Hw. assert (Hs : p_keypairs (peer_of w) = no_keypairs) by (destruct Hw as [-> | ->]; vm_compute; reflexivity).
  split; try (destruct Hw as [-> | ->]; vm_compute; reflexivity).
  - right. done.
  - rewrite Hs. apply slots_exist_none.
Qed.
End Two.

#[local] Existing Instance toy_crypto.
#[local] Existing Instance toy_crypto_laws.

Lemma handshake_makes_session_witness :
  exists wI2 wI3 wR3 kpI kpR,
    wg_noise_handshake_consume_response (fst Two.response) (snd Two.initiation) = Some (Some 1%positive, wI2) /\
    wg_noise_handshake_begin_session sample_env 1 wI2 = Some (true, wI3) /\
    wg_noise_handshake_begin_session sample_env 1 (snd Two.response) = Some (true, wR3) /\
    d_keypairs wI3 !! 1%positive = Some kpI /\ d_keypairs wR3 !! 1%positive = Some kpR /\
    sk_key (kp_sending kpI) = sk_key (kp_receiving kpR) /\ sk_key (kp_receiving kpI) = sk_key (kp_sending kpR).
Proof.
  destruct (handshake_makes_session Two.siphash Two.wI Two.wR 1%positive 1%positive (Two.peer_of Two.wI) (Two.peer_of Two.wR)
              sample_env sample_env Two.dst1 (fst Two.initiation) (snd Two.initiation)) as (wR1 & E1 & H).
  - exact Two.parties_ok.
  - vm_compute. reflexivity.
  - vm_compute. reflexivity.
  - vm_compute. reflexivity.
  - assert (wR1 = Two.after_initiation) as -> by (unfold Two.after_initiation; by rewrite E1).
    destruct (H sample_env Two.dst2 (fst Two.response) (snd Two.response) sample_env 1%positive sample_env 1%positive)
      as (wI2 & wI3 & wR3 & kpI & kpR & A1 & A2 & A3 & A4 & A5 & A6 & A7 & _).
    + vm_compute. reflexivity.
    + apply Two.can_begin_ok. by left.
    + apply Two.can_begin_ok. by right.
    + exists wI2, wI3, wR3, kpI, kpR. exact (conj A1 (conj A2 (conj A3 (conj A4 (conj A5 (conj A6 A7)))))).
Defined.
