(* ===== verification/NoiseSafety.v ===== *)
(** * NoiseSafety: what the handshake refuses, and the resources it uses

    Replayed and flooding initiations are refused and time stamps never go back; a handshake is
    turned into one session and its secrets are erased; the AES-GCM handles of the sessions are
    accounted for, but for those of a peer that died meanwhile. *)

From S2P Require Import Prelude Messages Skb Replay PeerLookup PeerLookupProps Crypto NoiseCrypto World Samples Objects Keypairs KeypairsProps Noise NoiseProps.

(** ** The order of time stamps *)

(** One consumed initiation, seen by the handshake: the arguments of [consume_initiation_commit]. *)
Definition commit_args : Type := env * message_handshake_initiation * bytes * bytes * bytes.
Definition commit (c : commit_args) (hs : noise_handshake) : noise_handshake :=
  let '(e, src, t, ck, hash) := c in consume_initiation_commit e src t ck hash hs.
Definition commit_timestamp (c : commit_args) : bytes := let '(_, _, t, _, _) := c in t.

Lemma commit_latest c hs :
  memcmp (hs_latest_timestamp (commit c hs)) (hs_latest_timestamp hs) <> Lt /\
  memcmp (hs_latest_timestamp (commit c hs)) (commit_timestamp c) <> Lt.
Proof.
  destruct c as [[[[e src] t] ck] hash]. cbn. pose proof (memcmp_antisym (hs_latest_timestamp hs) t) as Ha.
  destruct (memcmp t (hs_latest_timestamp hs)) eqn:E; rewrite ?memcmp_refl, ?E, ?Ha; split; done.
Qed.

(** The time stamp a peer is remembered with never goes back. Whatever commits of initiations
    take the write lock one after the other, also commits whose check of the time stamp was made
    before another commit, the stored time stamp ends at or after what it was and at or after the
    time stamp of every one of them. *)
Theorem latest_timestamp_never_goes_back cs hs :
  let latest := hs_latest_timestamp (foldl (fun hs c => commit c hs) hs cs) in
  memcmp latest (hs_latest_timestamp hs) <> Lt /\ Forall (fun c => memcmp latest (commit_timestamp c) <> Lt) cs.
Proof.
  revert hs. induction cs as [|c cs IH]; intros hs; cbn [foldl].
  - split; [by rewrite memcmp_refl|constructor].
  - destruct (IH (commit c hs)) as [H1 H2], (commit_latest c hs) as [H3 H4]. split.
    + by eapply memcmp_ge_trans.
    + constructor; [by eapply memcmp_ge_trans|done].
Qed.

(** ** Replayed initiations *)

Section Refusal.
Context {C : Crypto} (siphash : bytes -> Z -> Z).

(** What an initiation tells that passes the checks. *)
Lemma consume_initiation_checked e m w p t ck' hash' w1 :
  consume_initiation_check siphash e m w = Some (Some (p, t, ck', hash'), w1) ->
  w1 = wg_peer_get p w /\
  exists pr s ck hash eph, d_peers w !! p = Some pr /\ hs_remote_static (p_handshake pr) = s /\
    open_initiation_static (d_static_identity w) m = Some (s, ck, hash, eph) /\
    pubkey_lookup siphash s w = (Some p, wg_peer_get p w) /\
    open_initiation_timestamp (p_handshake pr) m ck hash = Some (t, ck', hash') /\
    memcmp t (hs_latest_timestamp (p_handshake pr)) = Gt /\ flood_attack e (p_handshake pr) = false.
Proof.
  unfold consume_initiation_check. intros H.
  destruct (open_initiation_static _ _) as [[[[s ck] hash] eph]|] eqn:Es; [|done].
  destruct (pubkey_lookup siphash s w) as [[q|] w0] eqn:El; [|done].
  pose proof (pubkey_lookup_spec _ _ _ _ _ El) as (-> & pr & Hp & Hs).
  assert (Hp0 : d_peers (wg_peer_get q w) !! q = Some (upd_p_refcount (fun n => n + 1) pr)).
  { unfold wg_peer_get. by rewrite upd_peer_lookup, Hp. }
  rewrite Hp0 in H. cbn [mbind option_bind p_handshake upd_p_refcount] in H.
  destruct (open_initiation_timestamp _ _ _ _) as [[[t0 ck0] hash0]|] eqn:Et; [|by destruct (wg_peer_put q (wg_peer_get q w))].
  destruct (replay_attack t0 (p_handshake pr)) eqn:Er; [by destruct (wg_peer_put q (wg_peer_get q w))|].
  destruct (flood_attack e (p_handshake pr)) eqn:Ef; cbn [orb] in H; [by destruct (wg_peer_put q (wg_peer_get q w))|].
  injection H as <- <- <- <- <-. split; [done|]. exists pr, s, ck, hash, eph. split_and!; try done.
  unfold replay_attack in Er. by destruct (memcmp t0 _).
Qed.

Lemma peer_put_handshake p w w' :
  wg_peer_put p w = Some w' -> forall q, p_handshake <$> d_peers w' !! q = p_handshake <$> d_peers w !! q.
Proof.
  unfold wg_peer_put. destruct (d_peers w !! p) as [pr|] eqn:Hp; cbn [mbind option_bind]; [|done]. intros H q.
  assert (H1 : forall f, (forall pr, p_handshake (f pr) = p_handshake pr) ->
    forall w : wg_device, p_handshake <$> d_peers (upd_peer p f w) !! q = p_handshake <$> d_peers w !! q).
  { intros f Hf w0. cbn. destruct (decide (p = q)) as [->|]; [|by rewrite lookup_alter_ne].
    rewrite lookup_alter_eq. destruct (d_peers w0 !! q); cbn; [by rewrite Hf|done]. }
  destruct (p_refcount pr =? 1); [|injection H as <-; by apply H1].
  unfold kref_release, wg_packet_purge_staged_packets in H. simplify_option_eq.
  change (p_handshake <$> d_peers (upd_peer p (upd_p_staged_packet_queue (fun _ => []))
    (upd_peer p (upd_p_refcount (fun n => n - 1)) w)) !! q = p_handshake <$> d_peers w !! q).
  etransitivity; by apply H1.
Qed.

Lemma peer_put_total p w : is_Some (d_peers w !! p) -> is_Some (wg_peer_put p w).
Proof.
  intros [pr Hp]. unfold wg_peer_put. rewrite Hp. cbn [mbind option_bind]. case_if; [|by eexists].
  unfold kref_release, wg_packet_purge_staged_packets. cbn. rewrite lookup_alter_eq, Hp. by eexists.
Qed.
End Refusal.

(** An initiation whose time stamp is not newer than the one stored for its sender does not pass the
    checks, and refusing it changes no handshake. *)
Lemma stale_initiation_refused {C : Crypto} siphash e m w p pr s ck hash eph t ck' hash' :
  d_peers w !! p = Some pr -> open_initiation_static (d_static_identity w) m = Some (s, ck, hash, eph) ->
  (forall q, fst (pubkey_lookup siphash s w) = Some q -> q = p) ->
  open_initiation_timestamp (p_handshake pr) m ck hash = Some (t, ck', hash') ->
  memcmp (hs_latest_timestamp (p_handshake pr)) t <> Lt ->
  exists w3, consume_initiation_check siphash e m w = Some (None, w3) /\
    forall q, p_handshake <$> d_peers w3 !! q = p_handshake <$> d_peers w !! q.
Proof.
  intros Hp Es Hlk Et Hts. unfold consume_initiation_check. rewrite Es.
  destruct (pubkey_lookup siphash s w) as [[q|] w0] eqn:El.
  - assert (q = p) as -> by (by apply Hlk). apply pubkey_lookup_spec in El as (-> & _).
    assert (Hp0 : d_peers (wg_peer_get p w) !! p = Some (upd_p_refcount (fun n => n + 1) pr)).
    { unfold wg_peer_get. by rewrite upd_peer_lookup, Hp. }
    rewrite Hp0. cbn [mbind option_bind p_handshake upd_p_refcount]. rewrite Et.
    assert (replay_attack t (p_handshake pr) = true) as ->.
    { unfold replay_attack. rewrite memcmp_antisym. by destruct (memcmp (hs_latest_timestamp (p_handshake pr)) t). }
    cbn [orb]. destruct (peer_put_total p (wg_peer_get p w)) as [w3 E3]; [by rewrite Hp0|]. rewrite E3. cbn [mbind option_bind].
    exists w3. split; [done|]. intros q. rewrite (peer_put_handshake p _ _ E3). apply peer_get_handshake.
  - exists w. split; [|done]. unfold pubkey_lookup in El. repeat case_match; simplify_eq; done.
Qed.

#[local] Existing Instance toy_crypto | 10.

(** ** One session per handshake *)

(** C23: a handshake is turned into one session and leaves no secrets behind. When the session has
    begun, the ephemeral private key, the remote ephemeral, the chaining key, the hash and the
    remote index of the handshake are zero and its state is back at the beginning, so that a second
    attempt to begin a session from it fails and changes nothing. *)
Theorem session_begins_once {C : Crypto} e p k pr i w e' :
  session_ready e p k pr i w ->
  exists w' hs', wg_noise_handshake_begin_session e p w = Some (true, w') /\
    p_handshake <$> d_peers w' !! p = Some hs' /\
    hs_state hs' = HANDSHAKE_ZEROED /\ hs_ephemeral_private hs' = zeroes 32 /\ hs_remote_ephemeral hs' = zeroes 32 /\
    hs_chaining_key hs' = zeroes 32 /\ hs_hash hs' = zeroes 32 /\ hs_remote_index hs' = 0 /\
    wg_noise_handshake_begin_session e' p w' = Some (false, w').
Proof.
  intros S. destruct (begin_session_succeeds e p k pr i w S) as (w' & E & _ & _ & Hhs & _).
  exists w', (handshake_zero (p_handshake pr)). split_and!; try done.
  unfold wg_noise_handshake_begin_session. destruct (d_peers w' !! p) as [pr'|]; [|done].
  cbn in Hhs. injection Hhs as Hhs. cbn [mbind option_bind]. by rewrite Hhs.
Qed.

Lemma response_session_ready :
  session_ready sample_env 1 1 (Two.peer_of (snd Two.response)) 1001 (snd Two.response).
Proof.
  assert (Hok : ix_ok (d_index_hashtable (snd Two.response)) /\ holds (d_index_hashtable (snd Two.response)) 1001 (Handshake 1)).
  { apply (insert_result (Handshake 1) (random_indices sample_env) (d_index_hashtable Two.after_initiation)).
    - replace (d_index_hashtable Two.after_initiation) with (d_index_hashtable Two.wR) by (vm_compute; reflexivity). apply Two.parties_ok.
    - vm_compute. by eexists.
    - vm_compute. reflexivity. }
  split; try apply Hok.
  - vm_compute. reflexivity.
  - left. vm_compute. reflexivity.
  - vm_compute. reflexivity.
  - reflexivity.
  - vm_compute. reflexivity.
  - vm_compute. reflexivity.
  - right. done.
  - replace (p_keypairs (Two.peer_of (snd Two.response))) with no_keypairs by (vm_compute; reflexivity).
    apply slots_exist_none.
Qed.

Lemma session_begins_once_witness :
  exists w', wg_noise_handshake_begin_session sample_env 1 (snd Two.response) = Some (true, w') /\
    wg_noise_handshake_begin_session sample_env 1 w' = Some (false, w').
Proof.
  destruct (session_begins_once sample_env 1%positive 1%positive (Two.peer_of (snd Two.response)) 1001 (snd Two.response) sample_env)
    as (w' & hs' & H1 & _ & _ & _ & _ & _ & _ & _ & H2).
  - exact response_session_ready.
  - exists w'. exact (conj H1 H2).
Defined.

(** ** The AES-GCM handles *)

Definition handle_count (kp : noise_keypair) : Z := count_handle (kp_aead_enc kp) + count_handle (kp_aead_dec kp).

(** The handles that keypairs hold. *)
Definition handles_held (w : wg_device) : Z := map_fold (fun _ n s => n + s) 0 (handle_count <$> d_keypairs w).

(** The handles that nothing holds any more. *)
Definition handles_lost (w : wg_device) : Z := d_aead_handles w - handles_held w.

Lemma handles_held_insert k kp w m :
  d_keypairs w = <[k := kp]> m -> m !! k = None -> handles_held w = handle_count kp + map_fold (fun _ n s => n + s) 0 (handle_count <$> m).
Proof.
  intros Hm Hk. unfold handles_held. rewrite Hm, fmap_insert. apply (map_fold_insert_L (fun _ n s => n + s)).
  - intros. lia.
  - by rewrite lookup_fmap, Hk.
Qed.

Lemma dropped_handles l w w' : dropped l w w' -> handles_lost w' = handles_lost w.
Proof.
  intros D. unfold handles_lost. rewrite (dr_handles _ _ _ D). f_equal. unfold handles_held. f_equal.
  apply map_eq. intros k. rewrite !lookup_fmap, (dr_count _ _ _ D). by destruct (d_keypairs w !! k).
Qed.

Section Handles.
Context {C : Crypto}.

Lemma aead_progress_count e kp ok n kp' :
  handle_count kp = 0 -> kp_aead_enc kp = None -> kp_aead_dec kp = None -> aead_progress e kp = (ok, n, kp') -> handle_count kp' = n.
Proof.
  intros H0 H1 H2. unfold aead_progress. repeat case_match; intros [= <- <- <-]; unfold handle_count; cbn; rewrite ?H1, ?H2; done.
Qed.

Lemma session_aead_count e hs w ok n kp : session_aead e hs w = (ok, n, kp) -> handle_count kp = n.
Proof.
  unfold session_aead, session_keypair_plain, session_keypair.
  destruct (derive_keys _) as [k1 k2]. destruct (if bool_decide _ then _ else _) as [s r]. case_if.
  - by apply aead_progress_count.
  - by intros [= <- <- <-].
Qed.

(** The new keypair with its handles brings as many handles as were allocated. *)
Lemma allocated_handles p k kp n w w1 :
  d_keypairs w !! k = None -> handle_count kp = n ->
  w1 = upd_d_keypairs (insert k kp) (upd_d_aead_handles (fun h => h + n) (session_allocated p k w)) ->
  handles_lost w1 = handles_lost w.
Proof.
  intros Hk Hn ->. unfold handles_lost. rewrite (handles_held_insert k kp _ (d_keypairs w)) by done.
  rewrite Hn. unfold handles_held. cbn [d_aead_handles upd_d_keypairs upd_d_aead_handles session_allocated
    upd_d_index_hashtable upd_d_keypair_counter]. lia.
Qed.

Lemma free_rcu_handles k w w' : keypair_free_rcu k w = Some w' -> handles_lost w' = handles_lost w.
Proof.
  unfold keypair_free_rcu. destruct (d_keypairs w !! k) as [kp|] eqn:Hk; cbn [mbind option_bind]; [|done]. intros [= <-].
  unfold handles_lost. rewrite (handles_held_insert k kp w (delete k (d_keypairs w)));
    [|by rewrite insert_delete_id|apply lookup_delete_eq].
  unfold handles_held, handle_count. cbn [d_aead_handles d_keypairs upd_d_keypairs upd_d_aead_handles free_entry upd_d_index_hashtable]. lia.
Qed.
End Handles.

(** C35: no AES-GCM handle is lost when a session begins. However the attempt to begin a session of
    a live peer ends, also when an allocation or the setting of a key fails half way, every handle
    that was allocated is held by a keypair or has been freed. *)
Theorem begin_session_loses_no_handle {C : Crypto} e p pr w ret w' :
  d_peers w !! p = Some pr -> p_is_dead pr = false -> slots_exist w (p_keypairs pr) ->
  (forall k, new_keypair e = Some k -> d_keypairs w !! k = None) ->
  wg_noise_handshake_begin_session e p w = Some (ret, w') ->
  handles_lost w' = handles_lost w.
Proof.
  intros Hp Hd Hs Hk H.
  assert (Hcase : finished (p_handshake pr) \/ wg_noise_handshake_begin_session e p w = Some (false, w)).
  { unfold finished, wg_noise_handshake_begin_session. rewrite Hp. cbn [mbind option_bind].
    destruct (hs_state (p_handshake pr)); auto. }
  destruct Hcase as [Hf|Hsame]; [|congruence].
  destruct (new_keypair e) as [k|] eqn:Hm.
  2:{ unfold wg_noise_handshake_begin_session, keypair_create in H. rewrite Hp, Hm in H. cbn [mbind option_bind] in H.
      case_if; congruence. }
  specialize (Hk k eq_refl). destruct (session_aead e (p_handshake pr) w) as [[ok n] kp] eqn:Hsa.
  remember (upd_d_keypairs (insert k kp) (upd_d_aead_handles (fun h => h + n) (session_allocated p k w))) as w1 eqn:Hw1.
  rewrite (begin_session_steps e p w pr k ok n kp w1 Hp Hf Hm Hsa Hw1), Hd in H. cbn [negb] in H.
  assert (H1 : handles_lost w1 = handles_lost w).
  { eapply allocated_handles; [done| |exact Hw1]. by eapply session_aead_count. }
  assert (Ekp : d_keypairs w1 = <[k := kp]> (d_keypairs w)) by (by rewrite Hw1).
  assert (Epe : d_peers w1 = d_peers w) by (by rewrite Hw1). clear Hw1.
  destruct ok; cbn [negb] in H.
  - set (w2 := upd_handshake p handshake_zero w1) in H.
    assert (H2 : handles_lost w2 = handles_lost w1) by reflexivity.
    assert (Hslots : get_slots p w2 = Some (p_keypairs pr)).
    { unfold get_slots, w2, upd_handshake. by rewrite upd_peer_lookup, Epe, Hp. }
    assert (Hex : slots_exist w2 (p_keypairs pr)).
    { intros k' Hk'. change (is_Some (d_keypairs w1 !! k')). rewrite Ekp. apply lookup_insert_is_Some.
      destruct (decide (k = k')); [by left|]. right. split; [done|]. by apply Hs. }
    assert (Hop : op_keypair_exists (AddNew k) w2).
    { change (is_Some (d_keypairs w1 !! k)). rewrite Ekp, lookup_insert_eq. by eexists. }
    destruct (exec_slot_op_spec (AddNew k) p w2 _ Hslots Hex Hop) as (w3 & E3 & D3).
    cbn [exec_slot_op] in E3. rewrite E3 in H. cbn [mbind option_bind] in H.
    destruct (wg_index_hashtable_replace _ _ _) as [[r t]|]; [|done]. cbn [mbind option_bind] in H. injection H as <- <-.
    rewrite <- H1, <- H2, <- (dropped_handles _ _ _ D3). reflexivity.
  - destruct (keypair_free_rcu k w1) as [w2|] eqn:E2; [|done]. cbn [mbind option_bind] in H. injection H as <- <-.
    by rewrite (free_rcu_handles _ _ _ E2).
Qed.

Lemma begin_session_loses_no_handle_witness :
  exists ret w', wg_noise_handshake_begin_session sample_env 1 (snd Two.response) = Some (ret, w') /\ handles_lost w' = 0.
Proof.
  destruct (wg_noise_handshake_begin_session sample_env 1 (snd Two.response)) as [[ret w']|] eqn:E.
  - exists ret, w'. split; [reflexivity|].
    rewrite (begin_session_loses_no_handle sample_env 1%positive (Two.peer_of (snd Two.response)) (snd Two.response) ret w').
    + vm_compute. reflexivity.
    + apply response_session_ready.
    + apply response_session_ready.
    + apply response_session_ready.
    + intros k Hk. injection Hk as <-. apply response_session_ready.
    + exact E.
  - exfalso. revert E. vm_compute. discriminate.
Defined.

(** No session of a dead peer begins. *)
Lemma begin_session_dead {C : Crypto} e p pr w begun w' :
  d_peers w !! p = Some pr -> p_is_dead pr = true -> wg_noise_handshake_begin_session e p w = Some (begun, w') -> begun = false.
Proof.
  intros Hp Hd. unfold wg_noise_handshake_begin_session. rewrite Hp. cbn [mbind option_bind]. rewrite Hd. cbn [negb].
  case_if; [by intros [= <- _]|]. destruct (keypair_create e p w) as [[k|] w0]; [|by intros [= <- _]].
  destruct (derive_keys _) as [first second]. destruct (if bool_decide _ then _ else _) as [sending receiving].
  match goal with |- mbind _ ?m = _ -> _ => destruct m as [[ok w1]|] end; cbn [mbind option_bind]; [|done].
  destruct ok; cbn [negb]; [by intros [= <- _]|].
  destruct (keypair_free_rcu k w1); cbn [mbind option_bind]; [by intros [= <- _]|done].
Qed.

(** C36: the handles of a session that begins on a dead peer are lost. When the peer has died by the
    time the keypair is ready, [kfree_sensitive] frees the keypair but not the two AES-GCM handles
    it holds: they stay allocated and nothing refers to them. *)
Theorem dead_peer_session_leaks_handles {C : Crypto} e p pr k w :
  d_peers w !! p = Some pr -> finished (p_handshake pr) -> p_is_dead pr = true -> new_keypair e = Some k ->
  d_keypairs w !! k = None -> aead_available e w -> d_is_chacha w = false ->
  exists w', wg_noise_handshake_begin_session e p w = Some (false, w') /\
    d_keypairs w' = d_keypairs w /\ d_keypair_rcu w' = d_keypair_rcu w /\ handles_lost w' = handles_lost w + 2.
Proof.
  intros Hp Hf Hd Hm Hk Ha Hc. pose proof (session_aead_ok e w (p_handshake pr) Ha) as Hsa. rewrite Hc in Hsa.
  rewrite (begin_session_steps e p w pr k _ _ _ _ Hp Hf Hm Hsa eq_refl), Hd. cbn [negb]. eexists. split; [reflexivity|].
  set (w' := free_entry _ _).
  assert (Ek : d_keypairs w' = d_keypairs w).
  { change (d_keypairs w') with (delete k (<[k := session_keypair e false (u64 (d_keypair_counter w + 1)) (p_handshake pr)]> (d_keypairs w))).
    by rewrite delete_insert_id. }
  assert (Eh : d_aead_handles w' = d_aead_handles w + 2) by reflexivity.
  assert (Er : d_keypair_rcu w' = d_keypair_rcu w) by reflexivity. clearbody w'.
  split_and!; [done|done|]. unfold handles_lost, handles_held. rewrite Ek, Eh. lia.
Qed.

(** The responder, whose peer is removed after the response was created. *)
Definition died : wg_device := upd_peer 1 (upd_p_is_dead (fun _ => true)) (snd Two.response).

Lemma dead_peer_session_leaks_handles_witness :
  exists w', wg_noise_handshake_begin_session sample_env 1 died = Some (false, w') /\
    d_keypairs w' = ∅ /\ handles_lost w' = 2.
Proof.
  destruct (dead_peer_session_leaks_handles sample_env 1%positive (Two.peer_of died) 1%positive died) as (w' & H1 & H2 & _ & H3).
  - vm_compute. reflexivity.
  - left. vm_compute. reflexivity.
  - vm_compute. reflexivity.
  - reflexivity.
  - vm_compute. reflexivity.
  - right. done.
  - vm_compute. reflexivity.
  - exists w'. split; [exact H1|]. split; [rewrite H2; vm_compute; reflexivity|rewrite H3; vm_compute; reflexivity].
Defined.
