(* ===== verification/Cookie.v ===== *)
(** * Cookie: cookie.c, the MACs of handshake messages and the cookie challenge *)

From S2P Require Import Prelude Messages Skb Replay PeerLookup RateLimiter Crypto World Samples Objects.

(** enum cookie_mac_state *)
Inductive cookie_mac_state :=
| INVALID_MAC
| VALID_MAC_BUT_NO_COOKIE
| VALID_MAC_WITH_COOKIE_BUT_RATELIMITED
| VALID_MAC_WITH_COOKIE.

#[export] Instance cookie_mac_state_eq_dec : EqDecision cookie_mac_state.
Proof. solve_decision. Defined.

(** "mac1----" and "cookie--" *)
Definition mac1_key_label : bytes := [109; 97; 99; 49; 45; 45; 45; 45].
Definition cookie_key_label : bytes := [99; 111; 111; 107; 105; 101; 45; 45].

(** The [message_macs] at the end of a message of [len] bytes. *)
Definition macs_of (message : bytes) : message_macs :=
  message_macs_of (drop (length message - sizeof_message_macs) message).

Section Cookie.
Context {C : Crypto} {K : Hashes}.

Definition wg_cookie_checker_init (e : env) (checker : cookie_checker) : cookie_checker :=
  upd_ck_secret (fun _ => random_cookie_secret e)
    (upd_ck_secret_birthdate (fun _ => ktime_get_coarse_boottime_ns e) checker).

Definition precompute_key (pubkey label : bytes) : bytes := blake2s NOISE_SYMMETRIC_KEY_LEN [] (label ++ pubkey).

Definition wg_cookie_checker_precompute_device_keys (id : noise_static_identity) (checker : cookie_checker)
  : cookie_checker :=
  if has_identity id then
    upd_ck_message_mac1_key (fun _ => precompute_key (static_public id) mac1_key_label)
      (upd_ck_cookie_encryption_key (fun _ => precompute_key (static_public id) cookie_key_label) checker)
  else
    upd_ck_message_mac1_key (fun _ => zeroes NOISE_SYMMETRIC_KEY_LEN)
      (upd_ck_cookie_encryption_key (fun _ => zeroes NOISE_SYMMETRIC_KEY_LEN) checker).

Definition wg_cookie_checker_precompute_peer_keys (pr : wg_peer) : wg_peer :=
  let remote_static := hs_remote_static (p_handshake pr) in
  upd_p_latest_cookie (fun co =>
    upd_co_message_mac1_key (fun _ => precompute_key remote_static mac1_key_label)
      (upd_co_cookie_decryption_key (fun _ => precompute_key remote_static cookie_key_label) co)) pr.

Definition wg_cookie_init : cookie :=
  {| co_birthdate := 0; co_is_valid := false; co_cookie := zeroes COOKIE_LEN; co_have_sent_mac1 := false;
     co_last_mac1_sent := zeroes COOKIE_LEN; co_cookie_decryption_key := zeroes NOISE_SYMMETRIC_KEY_LEN;
     co_message_mac1_key := zeroes NOISE_SYMMETRIC_KEY_LEN |}.

(** The messages are at least as long as [message_macs]; the offsets of mac1 and mac2 are 0 and 16. *)
Definition compute_mac1 (message key : bytes) : bytes :=
  let len := (length message - sizeof_message_macs + 0)%nat in blake2s COOKIE_LEN key (take len message).

Definition compute_mac2 (message cookie : bytes) : bytes :=
  let len := (length message - sizeof_message_macs + COOKIE_LEN)%nat in blake2s COOKIE_LEN cookie (take len message).

(** The cookie and the checker, whose secret is renewed when it is too old. *)
Definition make_cookie (e : env) (skb : sk_buff) (checker : cookie_checker) : bytes * cookie_checker :=
  let checker :=
    if wg_birthdate_has_expired e (ck_secret_birthdate checker) COOKIE_SECRET_MAX_AGE
    then upd_ck_secret (fun _ => random_cookie_secret e)
           (upd_ck_secret_birthdate (fun _ => ktime_get_coarse_boottime_ns e) checker)
    else checker in
  let addr :=
    if protocol skb =? ETH_P_IP then take 4 (saddr skb)
    else if protocol skb =? ETH_P_IPV6 then take 16 (saddr skb) else [] in
  (blake2s COOKIE_LEN (ck_secret checker) (addr ++ udp_source skb), checker).

Definition wg_cookie_validate_packet (e : env) (skb : sk_buff) (check_cookie : bool) (w : wg_device)
  : option (cookie_mac_state * wg_device) :=
  let macs := macs_of (data skb) in
  let computed_mac := compute_mac1 (data skb) (ck_message_mac1_key (d_cookie_checker w)) in
  if negb (bytes_eqb computed_mac (mac1 macs)) then Some (INVALID_MAC, w)
  else if negb check_cookie then Some (VALID_MAC_BUT_NO_COOKIE, w)
  else
    let '(cookie, checker) := make_cookie e skb (d_cookie_checker w) in
    let w := upd_d_cookie_checker (fun _ => checker) w in
    let computed_mac := compute_mac2 (data skb) cookie in
    if negb (bytes_eqb computed_mac (mac2 macs)) then Some (VALID_MAC_BUT_NO_COOKIE, w)
    else
      '(allowed, rl) ← wg_ratelimiter_allow hsiphash_2u32 hsiphash_3u32 skb (net_id e) (ktime_get_coarse_boottime_ns e)
                         (entry_alloc_ok e) (d_ratelimiter w);
      let w := upd_d_ratelimiter (fun _ => rl) w in
      Some (if negb allowed then VALID_MAC_WITH_COOKIE_BUT_RATELIMITED else VALID_MAC_WITH_COOKIE, w).

(** The message with its MACs and the peer's cookie. *)
Definition wg_cookie_add_mac_to_packet (e : env) (message : bytes) (co : cookie) : bytes * cookie :=
  let body := take (length message - sizeof_message_macs) message in
  let macs := macs_of message in
  let m1 := compute_mac1 message (co_message_mac1_key co) in
  let message := body ++ message_macs_bytes {| mac1 := m1; mac2 := mac2 macs |} in
  let co := upd_co_have_sent_mac1 (fun _ => true) (upd_co_last_mac1_sent (fun _ => m1) co) in
  let m2 :=
    if co_is_valid co
       && negb (wg_birthdate_has_expired e (co_birthdate co) (COOKIE_SECRET_MAX_AGE - COOKIE_SECRET_LATENCY))
    then compute_mac2 message (co_cookie co)
    else zeroes COOKIE_LEN in
  (body ++ message_macs_bytes {| mac1 := m1; mac2 := m2 |}, co).

Definition wg_cookie_message_create (e : env) (skb : sk_buff) (index : Z) (checker : cookie_checker)
  : message_handshake_cookie * cookie_checker :=
  let '(cookie, checker) := make_cookie e skb checker in
  ({| hc_type := MESSAGE_HANDSHAKE_COOKIE; hc_receiver_index := index; hc_nonce := random_nonce e;
      hc_encrypted_cookie := xchacha20poly1305_encrypt cookie (mac1 (macs_of (data skb))) (random_nonce e)
                               (ck_cookie_encryption_key checker) |}, checker).

(** The part of [wg_cookie_message_consume] that works on the peer's cookie. *)
Definition cookie_consume (e : env) (src : message_handshake_cookie) (co : cookie) : cookie :=
  if negb (co_have_sent_mac1 co) then co
  else
    match xchacha20poly1305_decrypt (hc_encrypted_cookie src) (co_last_mac1_sent co) (hc_nonce src)
            (co_cookie_decryption_key co) with
    | Some cookie =>
        {| co_birthdate := ktime_get_coarse_boottime_ns e; co_is_valid := true; co_cookie := cookie;
           co_have_sent_mac1 := false; co_last_mac1_sent := co_last_mac1_sent co;
           co_cookie_decryption_key := co_cookie_decryption_key co; co_message_mac1_key := co_message_mac1_key co |}
    | None => co
    end.

Definition wg_cookie_message_consume (e : env) (src : message_handshake_cookie) (w : wg_device) : option wg_device :=
  match index_lookup (Z.lor INDEX_HASHTABLE_HANDSHAKE INDEX_HASHTABLE_KEYPAIR) (hc_receiver_index src) w with
  | (None, w) => Some w
  | (Some (_, p), w) =>
      let w := upd_peer p (upd_p_latest_cookie (cookie_consume e src)) w in
      wg_peer_put p w
  end.
End Cookie.

(** ** The cookie challenge *)

Section CookieProps.
Context {C : Crypto} {L : CryptoLaws C} {K : Hashes}.

(** The peer's keys belong to the device that checks. *)
Definition keys_match (checker : cookie_checker) (co : cookie) : Prop :=
  co_message_mac1_key co = ck_message_mac1_key checker /\
  co_cookie_decryption_key co = ck_cookie_encryption_key checker.

Lemma precomputed_keys_match id checker pr :
  has_identity id = true -> hs_remote_static (p_handshake pr) = static_public id ->
  keys_match (wg_cookie_checker_precompute_device_keys id checker)
    (p_latest_cookie (wg_cookie_checker_precompute_peer_keys pr)).
Proof.
  intros Hid Hr. unfold wg_cookie_checker_precompute_device_keys. rewrite Hid. unfold keys_match. cbn. by rewrite Hr.
Qed.

Lemma macs_of_app body m : wf_macs m -> macs_of (body ++ message_macs_bytes m) = m.
Proof.
  intros H. unfold macs_of. rewrite length_app, macs_bytes_length by done. unfold sizeof_message_macs, COOKIE_LEN.
  rewrite drop_app_ge by lia. replace (length body + 32 - (16 + 16) - length body)%nat with 0%nat by lia.
  by apply macs_roundtrip.
Qed.

Lemma compute_mac1_app body m key : wf_macs m -> compute_mac1 (body ++ message_macs_bytes m) key = blake2s COOKIE_LEN key body.
Proof.
  intros H. unfold compute_mac1. rewrite length_app, macs_bytes_length by done. unfold sizeof_message_macs, COOKIE_LEN.
  replace (length body + 32 - (16 + 16) + 0)%nat with (length body) by lia. by rewrite take_app_length.
Qed.

Lemma compute_mac2_app body m c : wf_macs m ->
  compute_mac2 (body ++ message_macs_bytes m) c = blake2s COOKIE_LEN c (body ++ mac1 m).
Proof.
  intros H. unfold compute_mac2, message_macs_bytes. rewrite !length_app. destruct H as [H1 H2]. rewrite H1, H2.
  unfold sizeof_message_macs, COOKIE_LEN. replace (length body + (16 + 16) - (16 + 16) + 16)%nat with (length (body ++ mac1 m))
    by (rewrite length_app, H1; lia). rewrite app_assoc. by rewrite take_app_length.
Qed.

(** What [wg_cookie_add_mac_to_packet] writes. *)
Lemma add_mac_spec e message co message' co' :
  (sizeof_message_macs <= length message)%nat -> wg_cookie_add_mac_to_packet e message co = (message', co') ->
  let body := take (length message - sizeof_message_macs) message in
  let m1 := blake2s COOKIE_LEN (co_message_mac1_key co) body in
  exists m2, message' = body ++ message_macs_bytes {| mac1 := m1; mac2 := m2 |} /\ length m2 = 16%nat /\
    co' = upd_co_have_sent_mac1 (fun _ => true) (upd_co_last_mac1_sent (fun _ => m1) co) /\
    (co_is_valid co = true ->
     wg_birthdate_has_expired e (co_birthdate co) (COOKIE_SECRET_MAX_AGE - COOKIE_SECRET_LATENCY) = false ->
     m2 = blake2s COOKIE_LEN (co_cookie co) (body ++ m1)).
Proof.
  intros Hlen [= <- <-] body m1. fold body.
  assert (Hm1 : compute_mac1 message (co_message_mac1_key co) = m1).
  { unfold compute_mac1. by rewrite Nat.add_0_r. }
  rewrite Hm1. cbn [co_is_valid co_birthdate co_cookie upd_co_have_sent_mac1 upd_co_last_mac1_sent].
  assert (Hmacs : wf_macs {| mac1 := m1; mac2 := mac2 (macs_of message) |}).
  { split; [apply blake2s_length|]. cbn. unfold macs_of, message_macs_of, field. cbn. unfold COOKIE_LEN.
    rewrite length_take, !length_drop. unfold sizeof_message_macs, COOKIE_LEN in *. lia. }
  rewrite compute_mac2_app by done. cbn [mac1]. eexists. split_and!; [reflexivity| |reflexivity|].
  - case_if; [apply blake2s_length|apply length_replicate].
  - intros -> ->. done.
Qed.

Lemma add_mac_valid e message co message' co' checker :
  (sizeof_message_macs <= length message)%nat -> wg_cookie_add_mac_to_packet e message co = (message', co') ->
  co_message_mac1_key co = ck_message_mac1_key checker ->
  compute_mac1 message' (ck_message_mac1_key checker) = mac1 (macs_of message').
Proof.
  intros Hlen Hadd Hk. destruct (add_mac_spec _ _ _ _ _ Hlen Hadd) as (m2 & -> & Hl & _).
  assert (wf_macs {| mac1 := blake2s COOKIE_LEN (co_message_mac1_key co) (take (length message - sizeof_message_macs) message); mac2 := m2 |})
    by (split; [apply blake2s_length|done]).
  rewrite compute_mac1_app, macs_of_app by done. cbn. by rewrite Hk.
Qed.

(** While the secret is young, the cookie depends on the source only. *)
Lemma make_cookie_young e skb checker :
  wg_birthdate_has_expired e (ck_secret_birthdate checker) COOKIE_SECRET_MAX_AGE = false ->
  snd (make_cookie e skb checker) = checker.
Proof. intros H. unfold make_cookie. by rewrite H. Qed.

Lemma make_cookie_same e e' skb skb' checker :
  wg_birthdate_has_expired e' (ck_secret_birthdate (snd (make_cookie e skb checker))) COOKIE_SECRET_MAX_AGE = false ->
  protocol skb' = protocol skb -> saddr skb' = saddr skb -> udp_source skb' = udp_source skb ->
  fst (make_cookie e' skb' (snd (make_cookie e skb checker))) = fst (make_cookie e skb checker).
Proof.
  intros Hy Hp Hs Hu. unfold make_cookie at 1. rewrite Hy. unfold make_cookie. cbn. by rewrite Hp, Hs, Hu.
Qed.
End CookieProps.

(** A packet without the right first MAC costs one hash. Validation finds [INVALID_MAC] exactly
    when mac1 is not the keyed hash of the message, and then neither the cookie secret nor the rate
    limiter nor anything else of the device is touched; a packet checked without load goes no
    further than mac1 either. *)
Theorem cookie_validate_mac1_first {C : Crypto} {K : Hashes} e skb check w :
  let valid := compute_mac1 (data skb) (ck_message_mac1_key (d_cookie_checker w)) = mac1 (macs_of (data skb)) in
  (~ valid -> wg_cookie_validate_packet e skb check w = Some (INVALID_MAC, w)) /\
  (valid -> wg_cookie_validate_packet e skb false w = Some (VALID_MAC_BUT_NO_COOKIE, w)) /\
  (forall st w', wg_cookie_validate_packet e skb check w = Some (st, w') -> st = INVALID_MAC -> ~ valid).
Proof.
  intros valid. unfold wg_cookie_validate_packet. split_and!.
  - intros Hv. destruct (bytes_eqb _ _) eqn:E; [|done]. by apply bytes_eqb_spec in E.
  - intros Hv. apply bytes_eqb_spec in Hv. by rewrite Hv.
  - intros st w' H -> Hv. apply bytes_eqb_spec in Hv. rewrite Hv in H. cbn [negb] in H.
    destruct check; cbn [negb] in H; [|done]. destruct (make_cookie _ _ _) as [c ck].
    destruct (bytes_eqb _ _); cbn [negb] in H; [|done].
    destruct (wg_ratelimiter_allow _ _ _ _ _ _ _) as [[a rl]|]; cbn [mbind option_bind] in H; [|done]. by destruct a.
Qed.

(** C25: whoever answers the cookie challenge is let through. A peer that sends a message with a
    valid mac1, receives the cookie reply the device makes for it and sends its next message from
    the same address within 115 seconds is recognised: the cookie in the reply decrypts, and, while
    the device's secret is not older than 120 seconds, the verdict on the next message is that of
    the rate limiter. *)
Theorem cookie_challenge_answered {C : Crypto} {L : CryptoLaws C} {K : Hashes}
    e1 e2 e3 e4 e5 (m m' m2 m2' : bytes) co co1 co2 skb index checker reply checker' skb2 w :
  (sizeof_message_macs <= length m)%nat -> (sizeof_message_macs <= length m2)%nat -> keys_match checker co ->
  wg_cookie_add_mac_to_packet e1 m co = (m', co1) -> data skb = m' ->
  wg_cookie_message_create e2 skb index checker = (reply, checker') ->
  wg_cookie_add_mac_to_packet e4 m2 (cookie_consume e3 reply co1) = (m2', co2) -> data skb2 = m2' ->
  wg_birthdate_has_expired e4 (ktime_get_coarse_boottime_ns e3) (COOKIE_SECRET_MAX_AGE - COOKIE_SECRET_LATENCY) = false ->
  protocol skb2 = protocol skb -> saddr skb2 = saddr skb -> udp_source skb2 = udp_source skb ->
  d_cookie_checker w = checker' -> wg_birthdate_has_expired e5 (ck_secret_birthdate checker') COOKIE_SECRET_MAX_AGE = false ->
  co_is_valid (cookie_consume e3 reply co1) = true /\
  wg_cookie_validate_packet e5 skb2 true w =
    '(allowed, rl) ← wg_ratelimiter_allow hsiphash_2u32 hsiphash_3u32 skb2 (net_id e5) (ktime_get_coarse_boottime_ns e5)
                       (entry_alloc_ok e5) (d_ratelimiter w);
    Some (if negb allowed then VALID_MAC_WITH_COOKIE_BUT_RATELIMITED else VALID_MAC_WITH_COOKIE,
          upd_d_ratelimiter (fun _ => rl) w).
Proof.
  intros Hl1 Hl2 [Hk1 Hk2] Hadd Hd Hcreate Hadd2 Hd2 Hfresh Hpr Hsa Hus Hw Hyoung.
  destruct (add_mac_spec _ _ _ _ _ Hl1 Hadd) as (x & Hm' & Hx & Hco1 & _).
  unfold wg_cookie_message_create in Hcreate.
  pose proof (make_cookie_same e2 e5 skb skb2 checker) as Hsame. pose proof (make_cookie_young e5 skb2 checker' Hyoung) as Hck.
  destruct (make_cookie e2 skb checker) as [cookie checker0] eqn:Emk. cbn [fst snd] in Hsame.
  apply pair_equal_spec in Hcreate as [Hreply <-]. specialize (Hsame Hyoung Hpr Hsa Hus).
  assert (Hkeys : ck_message_mac1_key checker0 = ck_message_mac1_key checker /\
                  ck_cookie_encryption_key checker0 = ck_cookie_encryption_key checker).
  { unfold make_cookie in Emk. injection Emk as _ <-. by case_if. }
  destruct Hkeys as [Hkm Hke].
  set (m1 := blake2s COOKIE_LEN (co_message_mac1_key co) (take (length m - sizeof_message_macs) m)) in *.
  assert (Hmac : mac1 (macs_of (data skb)) = m1).
  { rewrite Hd, Hm', macs_of_app; [done|]. split; [apply blake2s_length|done]. }
  assert (Hcons : cookie_consume e3 reply co1 =
     {| co_birthdate := ktime_get_coarse_boottime_ns e3; co_is_valid := true; co_cookie := cookie; co_have_sent_mac1 := false;
        co_last_mac1_sent := m1; co_cookie_decryption_key := co_cookie_decryption_key co; co_message_mac1_key := co_message_mac1_key co |}).
  { rewrite Hco1, <- Hreply. unfold cookie_consume.
    cbn [co_have_sent_mac1 co_last_mac1_sent co_cookie_decryption_key co_message_mac1_key upd_co_have_sent_mac1 upd_co_last_mac1_sent negb hc_encrypted_cookie hc_nonce].
    rewrite Hmac, Hk2, <- Hke, xchacha_roundtrip. done. }
  rewrite Hcons in *. split; [done|].
  destruct (add_mac_spec _ _ _ _ _ Hl2 Hadd2) as (y & Hm2' & Hy & _ & Hcookie). cbn [co_is_valid co_birthdate co_cookie co_message_mac1_key] in Hcookie, Hm2'.
  specialize (Hcookie eq_refl Hfresh).
  set (body := take (length m2 - sizeof_message_macs) m2) in *. set (n1 := blake2s COOKIE_LEN (co_message_mac1_key co) body) in *.
  assert (Hwf : wf_macs {| mac1 := n1; mac2 := y |}) by (split; [apply blake2s_length|done]).
  unfold wg_cookie_validate_packet. rewrite Hd2, Hm2', macs_of_app, compute_mac1_app by done. cbn [mac1 mac2].
  rewrite Hw, Hkm, <- Hk1. fold n1. rewrite (proj2 (bytes_eqb_spec n1 n1) eq_refl). cbn [negb].
  destruct (make_cookie e5 skb2 checker0) as [cookie' ck'] eqn:Emk5. cbn [fst snd] in Hsame, Hck. subst cookie' ck'.
  rewrite compute_mac2_app by done. cbn [mac1]. rewrite <- Hcookie, (proj2 (bytes_eqb_spec y y) eq_refl). cbn [negb].
  assert (Hu : upd_d_cookie_checker (fun _ => checker0) w = w) by (rewrite <- Hw; by destruct w).
  rewrite Hu. done.
Qed.

(** A challenge on the executable cryptography. *)
Module Challenge.
#[local] Existing Instance toy_crypto.
Definition checker : cookie_checker :=
  wg_cookie_checker_precompute_device_keys {| static_public := replicate 32 5; static_private := zeroes 32; has_identity := true |}
    (wg_cookie_checker_init sample_env (d_cookie_checker sample_device)).
Definition co : cookie :=
  p_latest_cookie (wg_cookie_checker_precompute_peer_keys
    (upd_p_handshake (upd_hs_remote_static (fun _ => replicate 32 5)) sample_peer)).
Definition skb (d : bytes) : sk_buff :=
  {| protocol := ETH_P_IP; saddr := [10; 0; 0; 9]; daddr := [10; 0; 0; 1]; udp_source := [4; 210]; skb_iif := 2; data := d |}.
Definition m : bytes := zseq 0 148.
Definition sent : bytes * cookie := wg_cookie_add_mac_to_packet sample_env m co.
Definition reply : message_handshake_cookie * cookie_checker := wg_cookie_message_create sample_env (skb (fst sent)) 1001 checker.
Definition again : bytes * cookie := wg_cookie_add_mac_to_packet sample_env m (cookie_consume sample_env (fst reply) (snd sent)).
Definition limited : wg_device :=
  upd_d_cookie_checker (fun _ => snd reply)
    (upd_d_ratelimiter (fun s => snd (wg_ratelimiter_init {| kmem_cache_ok := true; v4_ok := true; v6_ok := true; random_key := 1; totalram := 2000 |} s)) sample_device).
End Challenge.

#[local] Existing Instance toy_crypto.
#[local] Existing Instance toy_crypto_laws.
#[local] Existing Instance toy_hashes.

Lemma cookie_challenge_answered_witness :
  option_map fst (wg_cookie_validate_packet sample_env (Challenge.skb (fst Challenge.again)) true Challenge.limited)
  = Some VALID_MAC_WITH_COOKIE.
Proof.
  destruct (cookie_challenge_answered sample_env sample_env sample_env sample_env sample_env Challenge.m (fst Challenge.sent)
    Challenge.m (fst Challenge.again) Challenge.co (snd Challenge.sent) (snd Challenge.again) (Challenge.skb (fst Challenge.sent)) 1001
    Challenge.checker (fst Challenge.reply) (snd Challenge.reply) (Challenge.skb (fst Challenge.again)) Challenge.limited) as [_ H].
  - vm_compute. lia.
  - vm_compute. lia.
  - split; vm_compute; reflexivity.
  - unfold Challenge.sent. by destruct (wg_cookie_add_mac_to_packet _ _ _).
  - reflexivity.
  - unfold Challenge.reply. by destruct (wg_cookie_message_create _ _ _ _).
  - unfold Challenge.again. by destruct (wg_cookie_add_mac_to_packet _ _ _).
  - reflexivity.
  - vm_compute. reflexivity.
  - exact (eq_refl ETH_P_IP).
  - exact (eq_refl [10; 0; 0; 9]).
  - exact (eq_refl [4; 210]).
  - reflexivity.
  - vm_compute. reflexivity.
  - rewrite H. vm_compute. reflexivity.
Defined.
