(* ===== verification/Socket.v ===== *)
(** * Socket: socket.c, endpoints and sending

    [send4] and [send6] choose the source address and the route through the answers of the kernel's
    routing functions and hand the datagram to the UDP tunnel; a sent datagram is recorded with the
    endpoint it goes to, in which [ep_src] is the source address used. *)

From S2P Require Import Prelude Messages Skb PeerLookup World Samples Objects.

(** include/net: functions of the kernel's network layer on packet bytes. *)
Class NetStack := {
  (** [ip_tunnel_parse_protocol]: the protocol by the version and length of the IP header, or 0. *)
  ip_tunnel_parse_protocol : bytes -> Z;
  (** [ip_tunnel_ecn_encap(0, ip_hdr(skb), skb)] and [ip_tunnel_get_dsfield] *)
  ip_tunnel_ecn_encap : bytes -> Z;
  ip_tunnel_get_dsfield : sk_buff -> Z;
  (** [INET_ECN_decapsulate(skb, outer, inner)]: the packet, whose ECN bits may be changed. *)
  INET_ECN_decapsulate : Z -> bytes -> bytes;
  (** [skb_checksum_help], when the checksum is still to be computed; [None]: failure *)
  skb_checksum_help : bytes -> option bytes;
  ipv6_iface_scope_id : bytes -> Z -> Z
}.

(** An executable instance: IP packets by their version, no ECN bits, checksums complete. *)
Definition toy_net : NetStack := {|
  ip_tunnel_parse_protocol d :=
    match d with
    | b :: _ =>
        if (b / 16 =? 4) && (20 <=? length d)%nat then ETH_P_IP
        else if (b / 16 =? 6) && (40 <=? length d)%nat then ETH_P_IPV6 else 0
    | [] => 0
    end;
  ip_tunnel_ecn_encap _ := 0;
  ip_tunnel_get_dsfield _ := 0;
  INET_ECN_decapsulate _ d := d;
  skb_checksum_help d := Some d;
  ipv6_iface_scope_id _ _ := 0
|}.

(** ** Sending *)

Definition clear_src4 (ep : endpoint) : endpoint := upd_ep_src_if4 (fun _ => 0) (upd_ep_src (fun _ => zeroes 4) ep).

(** The result, the endpoint, whose source may have been forgotten, and the datagram. [cache] tells
    whether there is a route cache. *)
Definition send4 (e : env) (sock4 : option Z) (datagram : bytes) (ep : endpoint) (ds : Z) (cache : bool) : Z * endpoint * list output :=
  match sock4 with
  | None => (- ENONET, ep, [])
  | Some _ =>
    let xmit ep saddr := (0, ep, [ToSocket (upd_ep_src (fun _ => saddr) ep) datagram ds]) in
    match (if cache then dst_cache_ip4 e else None) with
    | Some saddr => xmit ep saddr
    | None =>
        let ep := if negb (inet_confirm_addr e (ep_src ep)) then clear_src4 ep else ep in
        let rt := ip_route_output_flow e (ep_src ep) in
        let stale := negb (ep_src_if4 ep =? 0) &&
          match rt with inl err => err =? - EINVAL | inr ifindex => negb (ifindex =? ep_src_if4 ep) end in
        let ep := if stale then clear_src4 ep else ep in
        let rt := if stale then ip_route_output_flow e (ep_src ep) else rt in
        match rt with
        | inl err => (err, ep, [])
        | inr _ => xmit ep (ep_src ep)
        end
    end
  end.

Definition send6 (e : env) (sock6 : option Z) (datagram : bytes) (ep : endpoint) (ds : Z) (cache : bool) : Z * endpoint * list output :=
  match sock6 with
  | None => (- ENONET, ep, [])
  | Some _ =>
    let xmit ep saddr := (0, ep, [ToSocket (upd_ep_src (fun _ => saddr) ep) datagram ds]) in
    match (if cache then dst_cache_ip6 e else None) with
    | Some saddr => xmit ep saddr
    | None =>
        let ep :=
          if negb (bytes_eqb (ep_src ep) (zeroes 16)) && negb (ipv6_chk_addr e (ep_src ep))
          then upd_ep_src (fun _ => zeroes 16) ep else ep in
        match ipv6_dst_lookup_flow e (ep_src ep) with
        | Some err => (err, ep, [])
        | None => xmit ep (ep_src ep)
        end
    end
  end.

Definition send_to (e : env) (w : wg_device) (datagram : bytes) (ep : endpoint) (ds : Z) (cache : bool) : Z * endpoint * list output :=
  if ep_family ep =? AF_INET then send4 e (d_sock4 w) datagram ep ds cache
  else if ep_family ep =? AF_INET6 then send6 e (d_sock6 w) datagram ep ds cache
  else (- EAFNOSUPPORT, ep, []).

Definition wg_socket_send_skb_to_peer (e : env) (p : peer_id) (datagram : bytes) (ds : Z) (w : wg_device)
  : option (Z * wg_device) :=
  pr ← d_peers w !! p;
  let '(ret, ep, out) := send_to e w datagram (p_endpoint pr) ds true in
  let w := upd_peer p (upd_p_endpoint (fun _ => ep)) w in
  let w := upd_d_outputs (fun o => o ++ out) w in
  let w := if ret =? 0 then upd_peer p (upd_p_tx_bytes (fun n => u64 (n + Z.of_nat (length datagram)))) w else w in
  Some (ret, w).

Definition wg_socket_send_buffer_to_peer (e : env) (p : peer_id) (buffer : bytes) (ds : Z) (w : wg_device)
  : option (Z * wg_device) :=
  if negb (alloc_skb_ok e) then Some (- ENOMEM, w) else wg_socket_send_skb_to_peer e p buffer ds w.

(** ** Endpoints *)

Definition zero_endpoint : endpoint :=
  {| ep_family := 0; ep_port := zeroes 2; ep_addr := []; ep_scope_id := 0; ep_src := []; ep_src_if4 := 0 |}.

Definition endpoint_eq (a b : endpoint) : bool :=
  ((ep_family a =? AF_INET) && (ep_family b =? AF_INET) && bytes_eqb (ep_port a) (ep_port b)
   && bytes_eqb (ep_addr a) (ep_addr b) && bytes_eqb (ep_src a) (ep_src b) && (ep_src_if4 a =? ep_src_if4 b))
  || ((ep_family a =? AF_INET6) && (ep_family b =? AF_INET6) && bytes_eqb (ep_port a) (ep_port b)
      && bytes_eqb (ep_addr a) (ep_addr b) && (ep_scope_id a =? ep_scope_id b) && bytes_eqb (ep_src a) (ep_src b))
  || ((ep_family a =? 0) && (ep_family b =? 0)).

(** The endpoint after the store; an endpoint of another family changes nothing. *)
Definition set_endpoint (endpoint old : endpoint) : World.endpoint :=
  if endpoint_eq endpoint old then old
  else if ep_family endpoint =? AF_INET then
    {| ep_family := AF_INET; ep_port := ep_port endpoint; ep_addr := ep_addr endpoint; ep_scope_id := ep_scope_id old;
       ep_src := ep_src endpoint; ep_src_if4 := ep_src_if4 endpoint |}
  else if ep_family endpoint =? AF_INET6 then
    {| ep_family := AF_INET6; ep_port := ep_port endpoint; ep_addr := ep_addr endpoint; ep_scope_id := ep_scope_id endpoint;
       ep_src := ep_src endpoint; ep_src_if4 := ep_src_if4 old |}
  else old.

Definition wg_socket_set_peer_endpoint (p : peer_id) (endpoint : endpoint) : wg_device -> wg_device :=
  upd_peer p (upd_p_endpoint (set_endpoint endpoint)).

Definition wg_socket_clear_peer_endpoint_src (p : peer_id) : wg_device -> wg_device :=
  upd_peer p (upd_p_endpoint (fun ep => upd_ep_src_if4 (fun _ => 0) (upd_ep_src (fun s => zeroes (length s)) ep))).

Section Endpoints.
Context {N : NetStack}.

Definition wg_socket_endpoint_from_skb (skb : sk_buff) : Z * endpoint :=
  if protocol skb =? ETH_P_IP then
    (0, {| ep_family := AF_INET; ep_port := udp_source skb; ep_addr := saddr skb; ep_scope_id := 0;
           ep_src := daddr skb; ep_src_if4 := skb_iif skb |})
  else if protocol skb =? ETH_P_IPV6 then
    (0, {| ep_family := AF_INET6; ep_port := udp_source skb; ep_addr := saddr skb;
           ep_scope_id := ipv6_iface_scope_id (saddr skb) (skb_iif skb); ep_src := daddr skb; ep_src_if4 := 0 |})
  else (- EINVAL, zero_endpoint).

Definition wg_socket_set_peer_endpoint_from_skb (p : peer_id) (skb : sk_buff) (w : wg_device) : wg_device :=
  match wg_socket_endpoint_from_skb skb with
  | (0, endpoint) => wg_socket_set_peer_endpoint p endpoint w
  | _ => w
  end.

Definition wg_socket_send_buffer_as_reply_to_skb (e : env) (in_skb : sk_buff) (buffer : bytes) (w : wg_device)
  : Z * wg_device :=
  let '(ret, endpoint) := wg_socket_endpoint_from_skb in_skb in
  if ret <? 0 then (ret, w)
  else if negb (alloc_skb_ok e) then (- ENOMEM, w)
  else
    let '(ret, _, out) := send_to e w buffer endpoint 0 false in
    (ret, upd_d_outputs (fun o => o ++ out) w).
End Endpoints.

(** ** The sockets of the device *)

(** [sock_free]: a socket that is there is released. *)
Definition sock_free (sock : option Z) : wg_device -> wg_device :=
  match sock with Some _ => upd_d_open_sockets (fun n => n - 1) | None => id end.

Definition wg_socket_reinit (new4 new6 : option Z) (w : wg_device) : wg_device :=
  let old4 := d_sock4 w in
  let old6 := d_sock6 w in
  let w := upd_d_sock4 (fun _ => new4) w in
  let w := upd_d_sock6 (fun _ => new6) w in
  let w := match new4 with Some sport => upd_d_incoming_port (fun _ => sport) w | None => w end in
  sock_free old6 (sock_free old4 w).

(** What a change of the sockets leaves alone. *)
Lemma reinit_fields new4 new6 w :
  let w' := wg_socket_reinit new4 new6 w in
  d_sock4 w' = new4 /\ d_sock6 w' = new6 /\ d_peers w' = d_peers w /\ d_keypairs w' = d_keypairs w /\
  d_peer_list w' = d_peer_list w.
Proof. unfold wg_socket_reinit, sock_free. cbv zeta. destruct (d_sock4 w), (d_sock6 w), new4; done. Qed.

(** The attempts to open both sockets: their ports or the error, and the [retries] made. [fuel] bounds
    the attempts; [None] stands for a loop that takes more. *)
Fixpoint create_sockets (fuel : nat) (e : env) (port retries : Z) (w : wg_device)
  : option ((Z + (Z * option Z)) * Z * wg_device) :=
  match fuel with
  | O => None
  | S fuel =>
      match udp_sock_create4 e port retries with
      | inl ret => Some (inl ret, retries, w)
      | inr sport =>
          let w := upd_d_open_sockets (fun n => n + 1) w in
          if negb (ipv6_mod_enabled e) then Some (inr (sport, None), retries, w)
          else
            match udp_sock_create6 e sport retries with
            | None => Some (inr (sport, Some sport), retries, upd_d_open_sockets (fun n => n + 1) w)
            | Some ret =>
                let w := upd_d_open_sockets (fun n => n - 1) w in (* udp_tunnel_sock_release(new4) *)
                if (ret =? - EADDRINUSE) && (port =? 0) && (retries <? 100)
                then create_sockets fuel e port (retries + 1) w
                else Some (inl ret, retries, w)
            end
      end
  end.

Definition wg_socket_init (e : env) (port : Z) (w : wg_device) : option (Z * wg_device) :=
  if match d_creating_net w with Some _ => net_alive e | None => false end then
    '(sockets, _, w) ← create_sockets 101 e port 0 w;
    match sockets with
    | inl ret => Some (ret, w)
    | inr (new4, new6) => Some (0, wg_socket_reinit (Some new4) new6 w)
    end
  else Some (- ENONET, w).

(** The answers of [udp_sock_create]: a port of 16 bits, the one asked for unless it is 0, or a
    negative error number. *)
Record sockets_ok (e : env) : Prop := {
  create4_ok port n : match udp_sock_create4 e port n with inr sport => 0 <= sport < 2 ^ 16 /\ (port <> 0 -> sport = port) | inl ret => ret < 0 end;
  create6_ok port n : match udp_sock_create6 e port n with Some ret => ret < 0 | None => True end
}.

(** The sockets the device holds. *)
Definition sockets_held (w : wg_device) : Z :=
  (if d_sock4 w is Some _ then 1 else 0) + (if d_sock6 w is Some _ then 1 else 0).

Lemma open_sockets_undo w : upd_d_open_sockets (fun n => n - 1) (upd_d_open_sockets (fun n => n + 1) w) = w.
Proof. destruct w. unfold upd_d_open_sockets. cbn. f_equal. lia. Qed.

(** With an attempt for each retry that is left and one more, the loop ends. *)
Lemma create_sockets_spec e port fuel retries w :
  sockets_ok e -> 0 <= retries <= 100 -> Z.of_nat fuel = 101 - retries ->
  exists res n w', create_sockets fuel e port retries w = Some (res, n, w') /\ retries <= n <= 100 /\
    match res with
    | inl ret => ret < 0 /\ w' = w
    | inr (new4, new6) => 0 <= new4 < 2 ^ 16 /\ (port <> 0 -> new4 = port) /\
        new6 = (if ipv6_mod_enabled e then Some new4 else None) /\
        w' = upd_d_open_sockets (fun n => n + (if ipv6_mod_enabled e then 2 else 1)) w
    end.
Proof.
  intros [H4 H6]. revert retries. induction fuel as [|fuel IH]; intros retries Hr Hf; [lia|]. cbn [create_sockets].
  specialize (H4 port retries). destruct (udp_sock_create4 e port retries) as [ret|sport].
  { exists (inl ret), retries, w. split; [done|]. split; [lia|done]. }
  destruct (ipv6_mod_enabled e); cbn [negb].
  - specialize (H6 sport retries). destruct (udp_sock_create6 e sport retries) as [ret|].
    + rewrite open_sockets_undo. destruct ((ret =? - EADDRINUSE) && (port =? 0) && (retries <? 100)) eqn:Eb.
      * bool_to_prop. destruct (IH (retries + 1) ltac:(lia) ltac:(lia)) as (res & n & w' & E & Hn & Hres).
        exists res, n, w'. split; [exact E|]. split; [lia|exact Hres].
      * exists (inl ret), retries, w. split; [done|]. split; [lia|done].
    + eexists (inr (sport, Some sport)), retries, _. split; [done|]. split; [lia|]. split; [tauto|]. split; [tauto|]. split; [done|].
      destruct w. unfold upd_d_open_sockets. cbn. f_equal. lia.
  - eexists (inr (sport, None)), retries, _. split; [done|]. split; [lia|]. tauto.
Qed.

(** C34: opening the sockets works for both families or changes nothing, and loses no socket. Whatever
    the attempts to bind answer, the loop of [wg_socket_init] retries at most 100 times, so that it
    binds at most 101 pairs, and returns: with 0 and an IPv4 and (when IPv6 is there) an IPv6 socket
    on one port, the port asked for unless it was 0, which becomes the device's port, and the sockets
    the device had before have been released; or with a negative error number and the device as it
    was, the sockets that were bound on the way released. *)
Theorem socket_init_opens_both_or_none e port w :
  sockets_ok e ->
  (exists res retries w1, create_sockets 101 e port 0 w = Some (res, retries, w1) /\ 0 <= retries <= 100) /\
  exists ret w', wg_socket_init e port w = Some (ret, w') /\
    (ret = 0 /\ (exists sport, d_sock4 w' = Some sport /\ d_sock6 w' = (if ipv6_mod_enabled e then Some sport else None) /\
       d_incoming_port w' = sport /\ 0 <= sport < 2 ^ 16 /\ (port <> 0 -> sport = port)) /\
       d_open_sockets w' - sockets_held w' = d_open_sockets w - sockets_held w /\
       d_peers w' = d_peers w /\ d_keypairs w' = d_keypairs w
     \/ ret < 0 /\ w' = w).
Proof.
  intros H. destruct (create_sockets_spec e port 101 0 w H ltac:(lia) ltac:(lia)) as (res & n & w1 & E & Hn & Hres).
  split; [by exists res, n, w1|].
  unfold wg_socket_init. destruct (match d_creating_net w with Some _ => _ | None => _ end); [|exists (- ENONET), w; split; [done|by right]].
  rewrite E. cbn [mbind option_bind]. destruct res as [ret|[new4 new6]].
  - destruct Hres as [Hret ->]. exists ret, w. auto.
  - destruct Hres as (Hr & Hp & -> & ->). eexists _, _. split; [done|]. left. split; [done|].
    unfold wg_socket_reinit, sockets_held, sock_free. cbn [d_sock4 d_sock6 upd_d_open_sockets].
    destruct (d_sock4 w), (d_sock6 w), (ipv6_mod_enabled e);
      (split; [by exists new4|split; [cbn; lia|done]]).
Qed.

(** IPv6 is taken for the ports of the first two attempts. *)
Definition busy_env : env :=
  {| ktime_get_coarse_boottime_ns := 0; ktime_get_real_ts64 := (0, 0); jiffies := 0; HZ := 1000; prandom_u32_max := fun _ => 0;
     random_secret := []; random_indices := []; random_nonce := []; random_cookie_secret := []; new_keypair := None;
     aead_enc_alloc := false; aead_enc_setkey := false; aead_dec_alloc := false; aead_dec_setkey := false; new_peer := None;
     dst_cache_ok := true; new_job := 1%positive; alloc_skb_ok := true; skb_cow_data_ok := fun _ => true; skb_cow_head_ok := fun _ => true;
     skb_to_sgvec_ok := fun _ => true; aead_ok := fun _ => true; pskb_trim_ok := fun _ => true; rng_is_initialized := true; handshake_trylock_ok := true;
     cpu_online_mask := [0]; nr_cpu_ids := 1;
     udp_sock_create4 := fun port n => if port =? 0 then inr (40000 + n mod 100) else if (0 <=? port) && (port <? 2 ^ 16) then inr port else inl (- EINVAL);
     udp_sock_create6 := fun _ n => if n <? 2 then Some (- EADDRINUSE) else None;
     ipv6_mod_enabled := true; net_alive := true; ns_capable := true; dst_cache_ip4 := None; dst_cache_ip6 := None;
     inet_confirm_addr := fun _ => true; ip_route_output_flow := fun _ => inr 1; ipv6_chk_addr := fun _ => true;
     ipv6_dst_lookup_flow := fun _ => None; entry_alloc_ok := true; net_id := 1 |}.

Lemma busy_sockets_ok : sockets_ok busy_env.
Proof.
  split; intros port n; cbn [udp_sock_create4 udp_sock_create6 busy_env].
  - destruct (Z.eqb_spec port 0); [pose proof (Z.mod_pos_bound n 100); lia|].
    destruct (Z.leb_spec 0 port); cbn; [|done]. destruct (Z.ltb_spec port (2 ^ 16)); cbn; [lia|done].
  - by destruct (n <? 2).
Qed.

Lemma socket_init_opens_both_or_none_witness :
  exists w, wg_socket_init busy_env 0 sample_device = Some (0, w) /\ d_sock4 w = Some 40002 /\ d_sock6 w = Some 40002 /\
    d_open_sockets w - sockets_held w = 0.
Proof.
  destruct (socket_init_opens_both_or_none busy_env 0 sample_device busy_sockets_ok) as (_ & ret & w & E & [(-> & _ & Hs & _)|[Hr _]]).
  - exists w. split; [exact E|]. rewrite Hs. vm_compute in E. injection E as <-. split; [reflexivity|]. split; reflexivity.
  - exfalso. vm_compute in E. injection E as <- _. discriminate Hr.
Defined.
