(* ===== verification/Queueing.v ===== *)
(** * Queueing: queueing.h, handing packets to the workers

    A packet list under way is a job of the device: the peer queue keeps the order, the device queue
    feeds the crypto workers, and the state in the first packet tells the peer queue when the
    workers are done. *)

From Stdlib Require Import Sorted.
From S2P Require Import Prelude Messages Skb PeerLookup PrevQueue World Objects.

(** ** Processors: [mask] lists the online ones in ascending order *)

Definition cpumask_next (n : Z) (mask : list Z) (nr_cpu_ids : Z) : Z :=
  default nr_cpu_ids (List.find (fun c => n <? c) mask).
Definition cpumask_first (mask : list Z) (nr_cpu_ids : Z) : Z := default nr_cpu_ids (head mask).
Definition cpumask_test_cpu (c : Z) (mask : list Z) : bool := bool_decide (c ∈ mask).

(** The processor and the new value of [*stored_cpu]. *)
Definition wg_cpumask_choose_online (mask : list Z) (nr_cpu_ids stored_cpu id : Z) : Z * Z :=
  if (stored_cpu =? nr_cpu_ids) || negb (cpumask_test_cpu stored_cpu mask) then
    let cpu_index := u32 id mod Z.of_nat (length mask) in
    let cpu := Nat.iter (Z.to_nat cpu_index) (fun cpu => cpumask_next cpu mask nr_cpu_ids) (cpumask_first mask nr_cpu_ids) in
    (cpu, cpu)
  else (stored_cpu, stored_cpu).

Definition wg_cpumask_next_online (mask : list Z) (nr_cpu_ids last_cpu : Z) : Z * Z :=
  let cpu := cpumask_next last_cpu mask nr_cpu_ids in
  let cpu := if nr_cpu_ids <=? cpu then cpumask_first mask nr_cpu_ids else cpu in
  (cpu, cpu).

(** ** Work items and queues *)

(** [queue_work]: false when the item is queued already. *)
Definition queue_work (wk : work) (w : wg_device) : bool * wg_device :=
  if bool_decide (wk ∈ d_works w) then (false, w) else (true, upd_d_works (fun l => l ++ [wk]) w).

Definition upd_job (j : job_id) (f : job -> job) : wg_device -> wg_device := upd_d_jobs (alter f j).

Inductive direction := Tx | Rx.

Definition peer_queue (d : direction) (pr : wg_peer) : prev_queue := match d with Tx => p_tx_queue pr | Rx => p_rx_queue pr end.
Definition set_peer_queue (d : direction) (q : prev_queue) : wg_peer -> wg_peer :=
  match d with Tx => upd_p_tx_queue (fun _ => q) | Rx => upd_p_rx_queue (fun _ => q) end.

(** [ptr_ring_produce_bh] on a ring of [size] places: false when it is full. *)
Definition ptr_ring_produce {A} (size : Z) (x : A) (ring : list A) : option (list A) :=
  if Z.of_nat (length ring) <? size then Some (ring ++ [x]) else None.

Definition wg_queue_enqueue_per_device_and_peer (e : env) (d : direction) (p : peer_id) (j : job_id) (w : wg_device)
  : option (Z * wg_device) :=
  let w := upd_job j (upd_jb_state (fun _ => PACKET_STATE_UNCRYPTED)) w in
  pr ← d_peers w !! p;
  let '(queued, q) := wg_prev_queue_enqueue j (peer_queue d pr) in
  let w := upd_peer p (set_peer_queue d q) w in
  if negb queued then Some (- ENOSPC, w)
  else
    match d with
    | Tx =>
        let '(cpu, last) := wg_cpumask_next_online (cpu_online_mask e) (nr_cpu_ids e) (d_encrypt_last_cpu w) in
        let w := upd_d_encrypt_last_cpu (fun _ => last) w in
        match ptr_ring_produce MAX_QUEUED_PACKETS j (d_encrypt_queue w) with
        | None => Some (- EPIPE, w)
        | Some ring => Some (0, snd (queue_work (Encrypt cpu) (upd_d_encrypt_queue (fun _ => ring) w)))
        end
    | Rx =>
        let '(cpu, last) := wg_cpumask_next_online (cpu_online_mask e) (nr_cpu_ids e) (d_decrypt_last_cpu w) in
        let w := upd_d_decrypt_last_cpu (fun _ => last) w in
        match ptr_ring_produce MAX_QUEUED_PACKETS j (d_decrypt_queue w) with
        | None => Some (- EPIPE, w)
        | Some ring => Some (0, snd (queue_work (Decrypt cpu) (upd_d_decrypt_queue (fun _ => ring) w)))
        end
    end.

Definition wg_queue_enqueue_per_peer_tx (e : env) (p : peer_id) (j : job_id) (state : packet_state) (w : wg_device)
  : option wg_device :=
  let w := wg_peer_get p w in
  let w := upd_job j (upd_jb_state (fun _ => state)) w in
  pr ← d_peers w !! p;
  let '(_, stored) := wg_cpumask_choose_online (cpu_online_mask e) (nr_cpu_ids e) (p_serial_work_cpu pr) (p_internal_id pr) in
  let w := upd_peer p (upd_p_serial_work_cpu (fun _ => stored)) w in
  let w := snd (queue_work (TransmitPacket p) w) in
  wg_peer_put p w.

Definition wg_queue_enqueue_per_peer_rx (p : peer_id) (j : job_id) (state : packet_state) (w : wg_device)
  : option wg_device :=
  let w := wg_peer_get p w in
  let w := upd_job j (upd_jb_state (fun _ => state)) w in
  let w := snd (queue_work (Napi p) w) in
  wg_peer_put p w.

(** [while (body) ;]: the body tells whether the loop goes on. [None] when the fuel is used up. *)
Fixpoint run_while {S : Type} (fuel : nat) (body : S -> option (bool * S)) (s : S) : option S :=
  match fuel with
  | O => None
  | Datatypes.S fuel => '(go_on, s) ← body s; if go_on : bool then run_while fuel body s else Some s
  end.

(** ** The processors are used in turn *)

Lemma find_above mask n i c :
  StronglySorted Z.lt mask -> mask !! i = Some c -> (forall d, (d < i)%nat -> forall x, mask !! d = Some x -> x <= n) -> n < c ->
  List.find (fun c => n <? c) mask = Some c.
Proof.
  revert i. induction mask as [|m mask IH]; intros i Hs Hi Hle Hc; [done|]. cbn.
  destruct i as [|i]; cbn in Hi.
  - injection Hi as ->. destruct (Z.ltb_spec n c); [done|lia].
  - pose proof (Hle 0%nat ltac:(lia) m eq_refl). destruct (Z.ltb_spec n m); [lia|]. inversion Hs; subst.
    apply (IH i); try done. intros d Hd x Hx. apply (Hle (S d)); [lia|done].
Qed.

Lemma find_none mask n : Forall (fun c => c <= n) mask -> List.find (fun c => n <? c) mask = None.
Proof. induction 1 as [|c mask Hc _ IH]; [done|]. cbn. by destruct (Z.ltb_spec n c); [lia|]. Qed.

Lemma sorted_lookup mask i j x y :
  StronglySorted Z.lt mask -> (i < j)%nat -> mask !! i = Some x -> mask !! j = Some y -> x < y.
Proof.
  intros Hs. revert i j. induction Hs as [|c mask _ IH Hc]; intros i j Hij Hi Hj; [done|].
  destruct i as [|i], j as [|j]; cbn in *; try lia.
  - injection Hi as ->. rewrite Forall_forall in Hc. apply Hc. by eapply list_elem_of_lookup_2.
  - eapply (IH i j); [lia|done|done].
Qed.

Lemma next_online_spec mask nr_cpu_ids last i :
  StronglySorted Z.lt mask -> Forall (fun c => 0 <= c < nr_cpu_ids) mask -> mask !! i = Some last ->
  Some (snd (wg_cpumask_next_online mask nr_cpu_ids last)) = mask !! (S i mod length mask)%nat.
Proof.
  intros Hs Hr Hi. assert (Hlen : (i < length mask)%nat) by (by eapply lookup_lt_Some).
  unfold wg_cpumask_next_online, cpumask_next. destruct (mask !! S i) as [c|] eqn:Ec.
  - assert (S i < length mask)%nat by (by eapply lookup_lt_Some). rewrite Nat.mod_small by done. rewrite Ec.
    rewrite (find_above mask last (S i) c); try done.
    + cbn. rewrite Forall_forall in Hr. destruct (Hr c) as [_ Hc]; [by eapply list_elem_of_lookup_2|].
      destruct (Z.leb_spec nr_cpu_ids c); [lia|done].
    + intros d Hd x Hx. destruct (decide (d = i)) as [->|]; [replace x with last by congruence; lia|].
      pose proof (sorted_lookup mask d i x last Hs ltac:(lia) Hx Hi). lia.
    + apply (sorted_lookup mask i (S i)); [done|lia|done|done].
  - apply lookup_ge_None in Ec. assert (S i = length mask) as E by lia. rewrite E, Nat.Div0.mod_same.
    rewrite find_none.
    + cbn. destruct (Z.leb_spec nr_cpu_ids nr_cpu_ids); [|lia]. unfold cpumask_first. by destruct mask.
    + rewrite Forall_forall. intros x Hx. apply list_elem_of_lookup in Hx as [j Hj].
      assert (j < length mask)%nat by (by eapply lookup_lt_Some). destruct (decide (j = i)) as [->|]; [replace x with last by congruence; lia|].
      pose proof (sorted_lookup mask j i x last Hs ltac:(lia) Hj Hi). lia.
Qed.

(** Packets are spread over the online processors in turn. After a call that returned the i-th
    online processor, the k-th further call of [wg_cpumask_next_online] returns the (i+k)-th one,
    counted cyclically: every processor gets its turn and only online ones do. *)
Theorem next_online_takes_turns mask nr_cpu_ids last i k :
  StronglySorted Z.lt mask -> Forall (fun c => 0 <= c < nr_cpu_ids) mask -> mask !! i = Some last ->
  Some (Nat.iter k (fun last_cpu => snd (wg_cpumask_next_online mask nr_cpu_ids last_cpu)) last) = mask !! ((i + k) mod length mask)%nat.
Proof.
  intros Hs Hr Hi. assert (Hlen : (i < length mask)%nat) by (by eapply lookup_lt_Some).
  induction k as [|k IH]; cbn [Nat.iter].
  - rewrite Nat.add_0_r, Nat.mod_small by done. done.
  - symmetry in IH. etransitivity; [exact (next_online_spec _ _ _ _ Hs Hr IH)|]. f_equal.
    rewrite <- (Nat.add_1_r ((i + k) mod length mask)), Nat.Div0.add_mod_idemp_l. f_equal. lia.
Qed.

Lemma next_online_takes_turns_witness :
  Some (Nat.iter 5 (fun last_cpu => snd (wg_cpumask_next_online [0; 2; 3] 8 last_cpu)) 2) = Some 0.
Proof.
  apply (next_online_takes_turns [0; 2; 3] 8 2 1 5).
  - repeat constructor; lia.
  - repeat constructor; lia.
  - reflexivity.
Defined.
