(* ===== verification/Timers.v ===== *)
(** * Timers: timers.c, when a peer's timers are set and deleted

    A timer is the tick at which it expires, or [None] when it is not pending. What happens when one
    expires is in TimerEvents. *)

From S2P Require Import Prelude Messages Skb PeerLookup World Objects.

(** [mod_peer_timer]: no timer is set for a dead peer or a device that is down. *)
Definition mod_peer_timer (p : peer_id) (set : (option Z -> option Z) -> wg_peer -> wg_peer) (expires : Z) (w : wg_device)
  : wg_device :=
  match d_peers w !! p with
  | Some pr => if d_running w && negb (p_is_dead pr) then upd_peer p (set (fun _ => Some (u64 expires))) w else w
  | None => w
  end.

Definition del_timer (p : peer_id) (set : (option Z -> option Z) -> wg_peer -> wg_peer) : wg_device -> wg_device :=
  upd_peer p (set (fun _ => None)).

Definition timer_pending (p : peer_id) (get : wg_peer -> option Z) (w : wg_device) : bool :=
  match d_peers w !! p with Some pr => match get pr with Some _ => true | None => false end | None => false end.

Definition wg_timers_data_sent (e : env) (p : peer_id) (w : wg_device) : wg_device :=
  if negb (timer_pending p p_timer_new_handshake w) then
    mod_peer_timer p upd_p_timer_new_handshake
      (jiffies e + (KEEPALIVE_TIMEOUT + REKEY_TIMEOUT) * HZ e + prandom_u32_max e (REKEY_TIMEOUT_JITTER_MAX_JIFFIES (HZ e))) w
  else w.

Definition wg_timers_data_received (e : env) (p : peer_id) (w : wg_device) : wg_device :=
  if d_running w then
    if negb (timer_pending p p_timer_send_keepalive w)
    then mod_peer_timer p upd_p_timer_send_keepalive (jiffies e + KEEPALIVE_TIMEOUT * HZ e) w
    else upd_peer p (upd_p_timer_need_another_keepalive (fun _ => true)) w
  else w.

Definition wg_timers_any_authenticated_packet_sent (p : peer_id) : wg_device -> wg_device :=
  del_timer p upd_p_timer_send_keepalive.

Definition wg_timers_any_authenticated_packet_received (p : peer_id) : wg_device -> wg_device :=
  del_timer p upd_p_timer_new_handshake.

Definition wg_timers_handshake_initiated (e : env) (p : peer_id) : wg_device -> wg_device :=
  mod_peer_timer p upd_p_timer_retransmit_handshake
    (jiffies e + REKEY_TIMEOUT * HZ e + prandom_u32_max e (REKEY_TIMEOUT_JITTER_MAX_JIFFIES (HZ e))).

Definition wg_timers_handshake_complete (e : env) (p : peer_id) (w : wg_device) : wg_device :=
  let w := del_timer p upd_p_timer_retransmit_handshake w in
  let w := upd_peer p (upd_p_timer_handshake_attempts (fun _ => 0)) w in
  let w := upd_peer p (upd_p_sent_lastminute_handshake (fun _ => false)) w in
  upd_peer p (upd_p_walltime_last_handshake (fun _ => ktime_get_real_ts64 e)) w.

Definition wg_timers_session_derived (e : env) (p : peer_id) : wg_device -> wg_device :=
  mod_peer_timer p upd_p_timer_zero_key_material (jiffies e + REJECT_AFTER_TIME * 3 * HZ e).

Definition wg_timers_any_authenticated_packet_traversal (e : env) (p : peer_id) (w : wg_device) : wg_device :=
  match d_peers w !! p with
  | Some pr =>
      if negb (p_persistent_keepalive_interval pr =? 0)
      then mod_peer_timer p upd_p_timer_persistent_keepalive (jiffies e + p_persistent_keepalive_interval pr * HZ e) w
      else w
  | None => w
  end.

Definition wg_timers_init (pr : wg_peer) : wg_peer :=
  upd_p_timer_need_another_keepalive (fun _ => false)
    (upd_p_sent_lastminute_handshake (fun _ => false)
      (upd_p_timer_handshake_attempts (fun _ => 0)
        (upd_p_timer_persistent_keepalive (fun _ => None)
          (upd_p_timer_zero_key_material (fun _ => None)
            (upd_p_timer_new_handshake (fun _ => None)
              (upd_p_timer_send_keepalive (fun _ => None)
                (upd_p_timer_retransmit_handshake (fun _ => None) pr))))))).
