(* ===== verification/Send.v ===== *)
(** * Send: send.c, handshake messages and the transmit path

    A list of staged packets becomes a job: it gets nonces, is encrypted by a worker and leaves
    through the peer's queue in the order it entered. A worker's loop is its body, which takes the
    first element of its queue and tells whether the loop goes on, run until the queue is empty. *)

From S2P Require Import Prelude Messages Skb PeerLookup Crypto NoiseCrypto World Objects Keypairs Noise Cookie PrevQueue Socket Queueing Timers.

(** The peer of a keypair: [keypair->entry.peer]. *)
Definition entry_peer (k : keypair_id) (w : wg_device) : option peer_id :=
  en ← ix_entries (d_index_hashtable w) !! Keypair k; e_peer en.

(** [PACKET_PEER(first)] *)
Definition packet_peer (j : job_id) (w : wg_device) : option peer_id := jb ← d_jobs w !! j; entry_peer (jb_keypair jb) w.

(** Buffers on the stack, before they are filled in. *)
Definition blank_macs : message_macs := {| mac1 := zeroes COOKIE_LEN; mac2 := zeroes COOKIE_LEN |}.
Definition blank_initiation : message_handshake_initiation :=
  {| hi_type := 0; hi_sender_index := 0; hi_unencrypted_ephemeral := []; hi_encrypted_static := [];
     hi_encrypted_timestamp := []; hi_macs := blank_macs |}.
Definition blank_response : message_handshake_response :=
  {| hr_type := 0; hr_sender_index := 0; hr_receiver_index := 0; hr_unencrypted_ephemeral := [];
     hr_encrypted_nothing := []; hr_macs := blank_macs |}.

(** The 12 bytes of the AES-GCM IV: four zeros and the counter. *)
Definition nonce_iv (nonce : Z) : bytes := zeroes 4 ++ le_bytes 8 nonce.

Definition calculate_skb_padding (len mtu : Z) : Z :=
  if mtu =? 0 then ALIGN len MESSAGE_PADDING_MULTIPLE - len
  else
    let last_unit := if mtu <? len then len mod mtu else len in
    let padded_size := Z.min mtu (ALIGN last_unit MESSAGE_PADDING_MULTIPLE) in
    padded_size - last_unit.

Section Send.
Context {C : Crypto} {K : Hashes} {N : NetStack}.

Definition set_last_sent_handshake (e : env) (p : peer_id) : wg_device -> wg_device :=
  upd_peer p (upd_p_last_sent_handshake (fun _ => ktime_get_coarse_boottime_ns e)).

(** [wg_cookie_add_mac_to_packet] with the cookie of a peer. *)
Definition add_mac (e : env) (message : bytes) (p : peer_id) (w : wg_device) : option (bytes * wg_device) :=
  pr ← d_peers w !! p;
  let '(message, co) := wg_cookie_add_mac_to_packet e message (p_latest_cookie pr) in
  Some (message, upd_peer p (upd_p_latest_cookie (fun _ => co)) w).

(** ** Handshake messages *)

Definition wg_packet_send_handshake_initiation (e : env) (p : peer_id) (w : wg_device) : option wg_device :=
  pr ← d_peers w !! p;
  if negb (wg_birthdate_has_expired e (p_last_sent_handshake pr) REKEY_TIMEOUT) then Some w
  else
    let w := set_last_sent_handshake e p w in
    '(packet, w) ← wg_noise_handshake_create_initiation e p blank_initiation w;
    match packet with
    | None => Some w
    | Some packet =>
        '(message, w) ← add_mac e (message_handshake_initiation_bytes packet) p w;
        let w := wg_timers_any_authenticated_packet_traversal e p w in
        let w := wg_timers_any_authenticated_packet_sent p w in
        let w := set_last_sent_handshake e p w in
        '(_, w) ← wg_socket_send_buffer_to_peer e p message HANDSHAKE_DSCP w;
        Some (wg_timers_handshake_initiated e p w)
    end.

Definition wg_packet_handshake_send_worker (e : env) (p : peer_id) (w : wg_device) : option wg_device :=
  w ← wg_packet_send_handshake_initiation e p w;
  wg_peer_put p w.

Definition wg_packet_send_queued_handshake_initiation (e : env) (p : peer_id) (is_retry : bool) (w : wg_device)
  : option wg_device :=
  let w := if negb is_retry then upd_peer p (upd_p_timer_handshake_attempts (fun _ => 0)) w else w in
  pr ← d_peers w !! p;
  if negb (wg_birthdate_has_expired e (p_last_sent_handshake pr) REKEY_TIMEOUT) || p_is_dead pr then Some w
  else
    let w := wg_peer_get p w in
    let '(queued, w) := queue_work (TransmitHandshake p) w in
    if negb queued then wg_peer_put p w else Some w.

Definition wg_packet_send_handshake_response (e : env) (p : peer_id) (w : wg_device) : option wg_device :=
  let w := set_last_sent_handshake e p w in
  '(packet, w) ← wg_noise_handshake_create_response e p blank_response w;
  match packet with
  | None => Some w
  | Some packet =>
      '(message, w) ← add_mac e (message_handshake_response_bytes packet) p w;
      '(begun, w) ← wg_noise_handshake_begin_session e p w;
      if begun : bool then
        let w := wg_timers_session_derived e p w in
        let w := wg_timers_any_authenticated_packet_traversal e p w in
        let w := wg_timers_any_authenticated_packet_sent p w in
        let w := set_last_sent_handshake e p w in
        '(_, w) ← wg_socket_send_buffer_to_peer e p message HANDSHAKE_DSCP w;
        Some w
      else Some w
  end.

Definition wg_packet_send_handshake_cookie (e : env) (initiating_skb : sk_buff) (sender_index : Z) (w : wg_device)
  : wg_device :=
  let '(packet, checker) := wg_cookie_message_create e initiating_skb sender_index (d_cookie_checker w) in
  let w := upd_d_cookie_checker (fun _ => checker) w in
  snd (wg_socket_send_buffer_as_reply_to_skb e initiating_skb (message_handshake_cookie_bytes packet) w).

(** send.c: [keep_key_fresh] *)
Definition send_keep_key_fresh (e : env) (p : peer_id) (w : wg_device) : option wg_device :=
  ks ← get_slots p w;
  let send :=
    match current_keypair ks with
    | None => false
    | Some k =>
        match d_keypairs w !! k with
        | None => false
        | Some kp =>
            sk_is_valid (kp_sending kp) &&
            ((REKEY_AFTER_MESSAGES <? kp_sending_counter kp)
             || (kp_i_am_the_initiator kp && wg_birthdate_has_expired e (sk_birthdate (kp_sending kp)) REKEY_AFTER_TIME))
        end
    end in
  if send then wg_packet_send_queued_handshake_initiation e p false w else Some w.

(** ** Encryption *)

(** The packet as it goes on the wire. A session of a device with AES-GCM begins only with both of its
    handles ([wg_noise_handshake_begin_session]); without one the C code would not get past
    [aead_request_set_tfm]. *)
Definition encrypt_packet (e : env) (is_chacha : bool) (kp : noise_keypair) (pk : packet) : option packet :=
  let skb := pk_skb pk in
  let padding_len := calculate_skb_padding (Z.of_nat (skb_len skb)) (pk_mtu pk) in
  if negb (skb_cow_data_ok e pk) then None
  else if negb (skb_cow_head_ok e pk) then None
  else
    inner ← skb_checksum_help (data skb);
    let plaintext := inner ++ zeroes (Z.to_nat padding_len) in
    if negb (skb_to_sgvec_ok e pk) || negb (aead_ok e pk) then None
    else
      encrypted ←
        (if is_chacha then Some (chacha20poly1305_encrypt plaintext [] (pk_nonce pk) (sk_key (kp_sending kp)))
         else key ← kp_aead_enc kp; Some (aes_gcm_encrypt key (nonce_iv (pk_nonce pk)) plaintext));
      let header := {| md_type := MESSAGE_DATA; md_key_idx := kp_remote_index kp; md_counter := pk_nonce pk;
                       md_encrypted_data := encrypted |} in
      Some (upd_pk_skb (fun skb =>
              {| protocol := protocol skb; saddr := saddr skb; daddr := daddr skb; udp_source := udp_source skb;
                 skb_iif := skb_iif skb; data := message_data_bytes header |}) pk).

(** The loop over the packets of a list: those encrypted before a failure stay so. *)
Fixpoint encrypt_list (e : env) (is_chacha : bool) (kp : noise_keypair) (pks : list packet) : packet_state * list packet :=
  match pks with
  | [] => (PACKET_STATE_CRYPTED, [])
  | pk :: pks =>
      match encrypt_packet e is_chacha kp pk with
      | None => (PACKET_STATE_DEAD, pk :: pks)
      | Some pk => let '(state, pks) := encrypt_list e is_chacha kp pks in (state, pk :: pks)
      end
  end.

(** One round of [wg_packet_encrypt_worker]. *)
Definition encrypt_round (e : env) (w : wg_device) : option (bool * wg_device) :=
  match d_encrypt_queue w with
  | [] => Some (false, w)
  | j :: ring =>
      let w := upd_d_encrypt_queue (fun _ => ring) w in
      jb ← d_jobs w !! j;
      kp ← d_keypairs w !! jb_keypair jb;
      p ← packet_peer j w;
      let '(state, pks) := encrypt_list e (d_is_chacha w) kp (jb_packets jb) in
      let w := upd_job j (upd_jb_packets (fun _ => pks)) w in
      w ← wg_queue_enqueue_per_peer_tx e p j state w;
      Some (true, w)
  end.

Definition wg_packet_encrypt_worker (e : env) (w : wg_device) : option wg_device :=
  run_while (S (length (d_encrypt_queue w))) (encrypt_round e) w.

(** ** Staging *)

Definition free_job (j : job_id) : wg_device -> wg_device := upd_d_jobs (delete j).

Definition wg_packet_create_data (e : env) (p : peer_id) (j : job_id) (w : wg_device) : option wg_device :=
  pr ← d_peers w !! p;
  jb ← d_jobs w !! j;
  '(ret, w) ←
    (if p_is_dead pr then Some (- EINVAL, w)
     else
       '(ret, w) ← wg_queue_enqueue_per_device_and_peer e Tx p j w;
       if ret =? - EPIPE then
         q ← packet_peer j w;
         w ← wg_queue_enqueue_per_peer_tx e q j PACKET_STATE_DEAD w;
         Some (ret, w)
       else Some (ret, w));
  if (ret =? 0) || (ret =? - EPIPE) then Some w
  else
    w ← wg_noise_keypair_put (Some (jb_keypair jb)) false w;
    w ← wg_peer_put p w;
    Some (free_job j w).

(** The nonces of the packets and the counter after the last one; [false] when they ran out. *)
Fixpoint assign_nonces (counter : Z) (pks : list packet) : bool * Z * list packet :=
  match pks with
  | [] => (true, counter, [])
  | pk :: pks =>
      let pk := upd_pk_ds (fun _ => ip_tunnel_ecn_encap (data (pk_skb pk))) pk in
      let counter := u64 (counter + 1) in
      let nonce := u64 (counter - 1) in
      let pk := upd_pk_nonce (fun _ => nonce) pk in
      if REJECT_AFTER_MESSAGES <=? nonce then (false, counter, pk :: pks)
      else let '(ok, counter, pks) := assign_nonces counter pks in (ok, counter, pk :: pks)
  end.

(** The end of [wg_packet_send_staged_packets] without a key. *)
Definition out_nokey (e : env) (p : peer_id) (k : option keypair_id) (pks : list packet) (w : wg_device) : option wg_device :=
  w ← wg_noise_keypair_put k false w;
  let w := upd_peer p (upd_p_staged_packet_queue (fun l => pks ++ l)) w in
  wg_packet_send_queued_handshake_initiation e p false w.

Definition out_invalid (e : env) (p : peer_id) (k : keypair_id) (pks : list packet) (w : wg_device) : option wg_device :=
  out_nokey e p (Some k) pks (invalidate_sending (Some k) w).

Definition wg_packet_send_staged_packets (e : env) (p : peer_id) (w : wg_device) : option wg_device :=
  pr ← d_peers w !! p;
  let pks := p_staged_packet_queue pr in
  let w := upd_peer p (upd_p_staged_packet_queue (fun _ => [])) w in
  match pks with
  | [] => Some w
  | _ :: _ =>
      match wg_noise_keypair_get (current_keypair (p_keypairs pr)) w with
      | (None, w) => out_nokey e p None pks w
      | (Some k, w) =>
          kp ← d_keypairs w !! k;
          if negb (sk_is_valid (kp_sending kp)) then out_nokey e p (Some k) pks w
          else if wg_birthdate_has_expired e (sk_birthdate (kp_sending kp)) REJECT_AFTER_TIME then out_invalid e p k pks w
          else
            let '(ok, counter, pks) := assign_nonces (kp_sending_counter kp) pks in
            let w := upd_keypair k (upd_kp_sending_counter (fun _ => counter)) w in
            if negb ok then out_invalid e p k pks w
            else
              q ← entry_peer k w;
              let w := wg_peer_get q w in
              let j := new_job e in
              let w := upd_d_jobs (insert j {| jb_packets := pks; jb_keypair := k; jb_state := PACKET_STATE_UNCRYPTED |}) w in
              wg_packet_create_data e p j w
      end
  end.

Definition wg_packet_send_keepalive (e : env) (p : peer_id) (w : wg_device) : option wg_device :=
  pr ← d_peers w !! p;
  match p_staged_packet_queue pr with
  | [] =>
      if negb (alloc_skb_ok e) then Some w
      else
        let skb := {| protocol := 0; saddr := []; daddr := []; udp_source := []; skb_iif := 0; data := [] |} in
        let pk := {| pk_skb := skb; pk_nonce := 0; pk_mtu := d_mtu w; pk_ds := 0 |} in
        wg_packet_send_staged_packets e p (upd_peer p (upd_p_staged_packet_queue (fun l => l ++ [pk])) w)
  | _ :: _ => wg_packet_send_staged_packets e p w
  end.

(** ** Transmission *)

Fixpoint send_list (e : env) (p : peer_id) (pks : list packet) (w : wg_device) : option (bool * wg_device) :=
  match pks with
  | [] => Some (false, w)
  | pk :: pks =>
      let is_keepalive := (skb_len (pk_skb pk) =? message_data_len 0)%nat in
      '(ret, w) ← wg_socket_send_skb_to_peer e p (data (pk_skb pk)) (pk_ds pk) w;
      '(data_sent, w) ← send_list e p pks w;
      Some (((ret =? 0) && negb is_keepalive) || data_sent, w)
  end.

Definition wg_packet_create_data_done (e : env) (p : peer_id) (pks : list packet) (w : wg_device) : option wg_device :=
  let w := wg_timers_any_authenticated_packet_traversal e p w in
  let w := wg_timers_any_authenticated_packet_sent p w in
  '(data_sent, w) ← send_list e p pks w;
  let w := if data_sent : bool then wg_timers_data_sent e p w else w in
  send_keep_key_fresh e p w.

(** One round of [wg_packet_tx_worker]. *)
Definition tx_round (e : env) (p : peer_id) (w : wg_device) : option (bool * wg_device) :=
  pr ← d_peers w !! p;
  let '(first, q) := wg_prev_queue_peek (p_tx_queue pr) in
  let w := upd_peer p (upd_p_tx_queue (fun _ => q)) w in
  match first with
  | None => Some (false, w)
  | Some j =>
      jb ← d_jobs w !! j;
      if bool_decide (jb_state jb = PACKET_STATE_UNCRYPTED) then Some (false, w)
      else
        let w := upd_peer p (upd_p_tx_queue wg_prev_queue_drop_peeked) w in
        w ← (if bool_decide (jb_state jb = PACKET_STATE_CRYPTED) then wg_packet_create_data_done e p (jb_packets jb) w
             else Some w);
        let w := free_job j w in
        w ← wg_noise_keypair_put (Some (jb_keypair jb)) false w;
        w ← wg_peer_put p w;
        Some (true, w)
  end.

(** The queue holds at most as many packets as it counts, and the one that was peeked at. *)
Definition wg_packet_tx_worker (e : env) (p : peer_id) (w : wg_device) : option wg_device :=
  pr ← d_peers w !! p;
  run_while (S (S (Z.to_nat (q_count (p_tx_queue pr))))) (tx_round e p) w.
End Send.
