(* ===== verification/Receive.v ===== *)
(** * Receive: receive.c, from the UDP socket to the network stack *)

From S2P Require Import Prelude Messages Skb Replay AllowedIps PeerLookup RateLimiter Crypto NoiseCrypto World Objects Keypairs Noise Cookie PrevQueue Socket Queueing Timers Send.

Definition U16_MAX : Z := 2 ^ 16 - 1.
Definition sizeof_udphdr_nat : nat := 8.

(** A datagram as the UDP layer hands it over. [raw_data] are the [skb->len] bytes from [skb->data]
    on, of which the first [raw_headlen] are in the linear part; [raw_headroom] bytes lie before
    them; the transport header is [raw_transport] bytes after [skb->data]. [raw_skb] has the fields
    of the outer headers, [raw_outer] the bytes of the packet from the outer IP header on. *)
Record raw_datagram := {
  raw_skb : sk_buff;
  raw_outer : bytes;
  raw_data : bytes;
  raw_headlen : Z;
  raw_headroom : Z;
  raw_transport : Z;
  raw_may_pull : Z -> bool  (** memory for [pskb_may_pull] *)
}.

(** [SKB_TYPE_LE32(skb)], as a number. *)
Definition skb_type (d : bytes) : Z := le_val (field 0 4 d).

Definition validate_header_len (d : bytes) : nat :=
  if (length d <? sizeof_message_header)%nat then 0
  else if (skb_type d =? MESSAGE_DATA) && (MESSAGE_MINIMUM_LENGTH <=? length d)%nat then sizeof_message_data
  else if (skb_type d =? MESSAGE_HANDSHAKE_INITIATION) && (length d =? sizeof_message_handshake_initiation)%nat
  then sizeof_message_handshake_initiation
  else if (skb_type d =? MESSAGE_HANDSHAKE_RESPONSE) && (length d =? sizeof_message_handshake_response)%nat
  then sizeof_message_handshake_response
  else if (skb_type d =? MESSAGE_HANDSHAKE_COOKIE) && (length d =? sizeof_message_handshake_cookie)%nat
  then sizeof_message_handshake_cookie
  else 0.

Definition with_data (d : bytes) (skb : sk_buff) : sk_buff :=
  {| protocol := protocol skb; saddr := saddr skb; daddr := daddr skb; udp_source := udp_source skb;
     skb_iif := skb_iif skb; data := d |}.

Section Receive.
Context {C : Crypto} {K : Hashes} {N : NetStack}.

(** queueing.h *)
Definition wg_check_packet_protocol (outer : bytes) (skb : sk_buff) : bool :=
  let real_protocol := ip_tunnel_parse_protocol outer in
  negb (real_protocol =? 0) && (protocol skb =? real_protocol).

(** The packet with [skb->data] at the WireGuard message; [None]: [-EINVAL]. [size_t] arithmetic
    wraps, so that a transport header before [skb->data] is an offset above [U16_MAX]. *)
Definition prepare_skb_header (e : env) (r : raw_datagram) : option sk_buff :=
  let len := Z.of_nat (length (raw_data r)) in
  let pskb_may_pull n := (n <=? len) && ((n <=? raw_headlen r) || raw_may_pull r n) in
  if negb (wg_check_packet_protocol (raw_outer r) (raw_skb r))
     || (raw_transport r <? - raw_headroom r)
     || (raw_headlen r <? raw_transport r + sizeof_udphdr)
  then None
  else
    let data_offset := u64 (raw_transport r) in
    if (U16_MAX <? data_offset) || (len <? data_offset + sizeof_udphdr) then None
    else
      let data_len := be_val (field (Z.to_nat data_offset + 4) 2 (raw_data r)) in
      if (data_len <? sizeof_udphdr) || (len - data_offset <? data_len) then None
      else
        let data_len := data_len - sizeof_udphdr in
        let data_offset := data_offset + sizeof_udphdr in
        if negb (pskb_may_pull (data_offset + Z.of_nat sizeof_message_header)) || negb (pskb_trim_ok e (raw_skb r)) then None
        else
          let trimmed := take (Z.to_nat (data_len + data_offset)) (raw_data r) in
          let d := drop (Z.to_nat data_offset) trimmed in
          if negb (Z.of_nat (length d) =? data_len) then None
          else
            let header_len := validate_header_len d in
            if (header_len =? 0)%nat then None
            else if negb (pskb_may_pull (data_offset + Z.of_nat header_len)) then None
            else Some (with_data d (raw_skb r)).

Definition update_rx_stats (p : peer_id) (len : Z) (w : wg_device) : wg_device :=
  let w := upd_d_stats (upd_st_rx_packets (fun n => u64 (n + 1))) w in
  let w := upd_d_stats (upd_st_rx_bytes (fun n => u64 (n + len))) w in
  upd_peer p (upd_p_rx_bytes (fun n => u64 (n + len))) w.

(** ** Handshake packets *)

(** Whether the device is under load, and the new [last_under_load]. *)
Definition load_state (e : env) (queue_len last_under_load : Z) : bool * Z :=
  if MAX_QUEUED_INCOMING_HANDSHAKES / 8 <=? queue_len then (true, ktime_get_coarse_boottime_ns e)
  else if negb (last_under_load =? 0) then
    let under_load := negb (wg_birthdate_has_expired e last_under_load 1) in
    (under_load, if negb under_load then 0 else last_under_load)
  else (false, last_under_load).

(** Whether a packet with this verdict needs a cookie; [None]: it is dropped. *)
Definition needs_cookie (under_load : bool) (mac_state : cookie_mac_state) : option bool :=
  if (under_load && bool_decide (mac_state = VALID_MAC_WITH_COOKIE))
     || (negb under_load && bool_decide (mac_state = VALID_MAC_BUT_NO_COOKIE)) then Some false
  else if under_load && bool_decide (mac_state = VALID_MAC_BUT_NO_COOKIE) then Some true
  else None.

(** The end, with the peer the message came from. *)
Definition handshake_packet_done (e : env) (skb : sk_buff) (p : peer_id) (w : wg_device) : option wg_device :=
  let w := update_rx_stats p (Z.of_nat (skb_len skb)) w in
  let w := wg_timers_any_authenticated_packet_received p w in
  let w := wg_timers_any_authenticated_packet_traversal e p w in
  wg_peer_put p w.

Definition wg_receive_handshake_packet (e : env) (skb : sk_buff) (w : wg_device) : option wg_device :=
  if skb_type (data skb) =? MESSAGE_HANDSHAKE_COOKIE then
    wg_cookie_message_consume e (message_handshake_cookie_of (data skb)) w
  else
    let '(under_load, last) := load_state e (d_handshake_queue_len w) (d_last_under_load w) in
    let w := upd_d_last_under_load (fun _ => last) w in
    '(mac_state, w) ← wg_cookie_validate_packet e skb under_load w;
    match needs_cookie under_load mac_state with
    | None => Some w
    | Some packet_needs_cookie =>
        if skb_type (data skb) =? MESSAGE_HANDSHAKE_INITIATION then
          let message := message_handshake_initiation_of (data skb) in
          if packet_needs_cookie then Some (wg_packet_send_handshake_cookie e skb (hi_sender_index message) w)
          else
            '(peer, w) ← wg_noise_handshake_consume_initiation siphash e message w;
            match peer with
            | None => Some w
            | Some p =>
                let w := wg_socket_set_peer_endpoint_from_skb p skb w in
                w ← wg_packet_send_handshake_response e p w;
                handshake_packet_done e skb p w
            end
        else if skb_type (data skb) =? MESSAGE_HANDSHAKE_RESPONSE then
          let message := message_handshake_response_of (data skb) in
          if packet_needs_cookie then Some (wg_packet_send_handshake_cookie e skb (hr_sender_index message) w)
          else
            '(peer, w) ← wg_noise_handshake_consume_response message w;
            match peer with
            | None => Some w
            | Some p =>
                let w := wg_socket_set_peer_endpoint_from_skb p skb w in
                '(begun, w) ← wg_noise_handshake_begin_session e p w;
                w ← (if begun : bool then
                       let w := wg_timers_session_derived e p w in
                       let w := wg_timers_handshake_complete e p w in
                       wg_packet_send_keepalive e p w
                     else Some w);
                handshake_packet_done e skb p w
            end
        else Some w
    end.

(** One round of [wg_packet_handshake_receive_worker]. *)
Definition handshake_receive_round (e : env) (w : wg_device) : option (bool * wg_device) :=
  match d_handshake_queue w with
  | [] => Some (false, w)
  | skb :: ring =>
      let w := upd_d_handshake_queue (fun _ => ring) w in
      w ← wg_receive_handshake_packet e skb w;
      Some (true, upd_d_handshake_queue_len (fun n => n - 1) w)
  end.

Definition wg_packet_handshake_receive_worker (e : env) (w : wg_device) : option wg_device :=
  run_while (S (length (d_handshake_queue w))) (handshake_receive_round e) w.

(** ** Data packets *)

(** receive.c: [keep_key_fresh] *)
Definition receive_keep_key_fresh (e : env) (p : peer_id) (w : wg_device) : option wg_device :=
  pr ← d_peers w !! p;
  if p_sent_lastminute_handshake pr then Some w
  else
    let send :=
      match current_keypair (p_keypairs pr) with
      | None => false
      | Some k =>
          match d_keypairs w !! k with
          | None => false
          | Some kp =>
              sk_is_valid (kp_sending kp) && kp_i_am_the_initiator kp
              && wg_birthdate_has_expired e (sk_birthdate (kp_sending kp)) (REJECT_AFTER_TIME - KEEPALIVE_TIMEOUT - REKEY_TIMEOUT)
          end
      end in
    if send then
      let w := upd_peer p (upd_p_sent_lastminute_handshake (fun _ => true)) w in
      wg_packet_send_queued_handshake_initiation e p false w
    else Some w.

(** The decrypted packet, or [None], and the keypair, whose receiving key may be retired. *)
Definition decrypt_packet (e : env) (is_chacha : bool) (kp : noise_keypair) (pk : packet)
  : option packet * noise_keypair :=
  if negb (sk_is_valid (kp_receiving kp))
     || wg_birthdate_has_expired e (sk_birthdate (kp_receiving kp)) REJECT_AFTER_TIME
     || (REJECT_AFTER_MESSAGES <=? counter (kp_receiving_counter kp))
  then (None, upd_kp_receiving (upd_sk_is_valid (fun _ => false)) kp)
  else
    let message := message_data_of (data (pk_skb pk)) in
    let nonce := md_counter message in
    let opened := upd_pk_nonce (fun _ => nonce) pk in
    if negb (skb_cow_data_ok e pk) || negb (skb_to_sgvec_ok e pk) || negb (aead_ok e pk) then (None, kp)
    else
      let plaintext :=
        if is_chacha then chacha20poly1305_decrypt (md_encrypted_data message) [] nonce (sk_key (kp_receiving kp))
        else key ← kp_aead_dec kp; aes_gcm_decrypt key (nonce_iv nonce) (md_encrypted_data message) in
      match plaintext with
      | None => (None, kp)
      | Some plaintext =>
          if negb (pskb_trim_ok e (pk_skb pk)) then (None, kp) else (Some (upd_pk_skb (with_data plaintext) opened), kp)
      end.

(** One round of [wg_packet_decrypt_worker]. *)
Definition decrypt_round (e : env) (w : wg_device) : option (bool * wg_device) :=
  match d_decrypt_queue w with
  | [] => Some (false, w)
  | j :: ring =>
      let w := upd_d_decrypt_queue (fun _ => ring) w in
      jb ← d_jobs w !! j;
      let k := jb_keypair jb in
      kp ← d_keypairs w !! k;
      p ← packet_peer j w;
      pk ← head (jb_packets jb);
      let '(r, kp) := decrypt_packet e (d_is_chacha w) kp pk in
      let w := upd_keypair k (fun _ => kp) w in
      w ← match r with
          | Some pk =>
              let w := upd_job j (upd_jb_packets (fun _ => [pk])) w in
              wg_queue_enqueue_per_peer_rx p j PACKET_STATE_CRYPTED w
          | None => wg_queue_enqueue_per_peer_rx p j PACKET_STATE_DEAD w
          end;
      Some (true, w)
  end.

Definition wg_packet_decrypt_worker (e : env) (w : wg_device) : option wg_device :=
  run_while (S (length (d_decrypt_queue w))) (decrypt_round e) w.

(** [napi_complete_done]: the poll function is not scheduled any more. *)
Definition napi_complete_done (p : peer_id) : wg_device -> wg_device :=
  upd_d_works (List.filter (fun wk => negb (bool_decide (wk = Napi p)))).

Definition rx_error (which : (Z -> Z) -> net_stats -> net_stats) : wg_device -> wg_device :=
  upd_d_stats (fun st => which (fun n => n + 1) (upd_st_rx_errors (fun n => n + 1) st)).

(** The packet inside: its length by its own header. The test that the network header does not lie
    before the buffer has no counterpart: the data of a buffer are the bytes from that header on. *)
Inductive inner_packet := Inner (len : Z) (d : bytes) | BadSize | BadType.

Definition ip_version (d : bytes) : Z := match d with b :: _ => b / 16 | [] => 0 end.

Definition parse_inner (ds : Z) (d : bytes) : inner_packet :=
  let may_pull (n : nat) := (n <=? length d)%nat in
  if negb (may_pull 20%nat && ((ip_version d =? 4) || ((ip_version d =? 6) && may_pull 40%nat))) then BadType
  else if ip_tunnel_parse_protocol d =? ETH_P_IP then
    let len := be_val (field 2 2 d) in
    if len <? sizeof_iphdr then BadSize else Inner len (INET_ECN_decapsulate ds d)
  else if ip_tunnel_parse_protocol d =? ETH_P_IPV6 then
    Inner (be_val (field 4 2 d) + sizeof_ipv6hdr) (INET_ECN_decapsulate ds d)
  else BadType.

(** The decrypted packet as [wg_allowedips_lookup_src] sees it. *)
Definition inner_skb (d : bytes) : sk_buff :=
  let v4 := ip_tunnel_parse_protocol d =? ETH_P_IP in
  {| protocol := ip_tunnel_parse_protocol d;
     saddr := if v4 then field 12 4 d else field 8 16 d;
     daddr := if v4 then field 16 4 d else field 24 16 d;
     udp_source := []; skb_iif := 0; data := d |}.

(** [retries] bounds the races of the allowed-IPs lookup with the removal of peers. *)
Definition wg_packet_consume_data_done (retries : nat) (e : env) (p : peer_id) (pk : packet) (k : keypair_id)
    (ep : endpoint) (w : wg_device) : option wg_device :=
  let w := wg_socket_set_peer_endpoint p ep w in
  '(confirmed, w) ← wg_noise_received_with_keypair p k w;
  w ← (if confirmed : bool then
         let w := wg_timers_handshake_complete e p w in
         wg_packet_send_staged_packets e p w
       else Some w);
  w ← receive_keep_key_fresh e p w;
  let w := wg_timers_any_authenticated_packet_received p w in
  let w := wg_timers_any_authenticated_packet_traversal e p w in
  let d := data (pk_skb pk) in
  match d with
  | [] => Some (update_rx_stats p (Z.of_nat (message_data_len 0)) w)
  | _ :: _ =>
      let w := wg_timers_data_received e p w in
      match parse_inner (pk_ds pk) d with
      | BadType => Some (rx_error upd_st_rx_frame_errors w)
      | BadSize => Some (rx_error upd_st_rx_length_errors w)
      | Inner len d' =>
          if Z.of_nat (length d') <? len then Some (rx_error upd_st_rx_length_errors w)
          else
            let len_before_trim := length d' in
            if negb (pskb_trim_ok e (pk_skb pk)) then Some w
            else
              let d' := take (Z.to_nat len) d' in
              routed_peer ← wg_allowedips_lookup_src retries (peer_alive w) (d_peer_allowedips w) (inner_skb d');
              (* the reference the lookup takes is dropped at once *)
              w ← match routed_peer with Some q => wg_peer_put q (wg_peer_get q w) | None => Some w end;
              if negb (bool_decide (routed_peer = Some p)) then Some (rx_error upd_st_rx_frame_errors w)
              else
                let w := upd_d_outputs (fun o => o ++ [ToStack p d']) w in
                Some (update_rx_stats p (Z.of_nat (message_data_len len_before_trim)) w)
      end
  end.

(** One round of [wg_packet_rx_poll]. *)
Definition rx_poll_round (retries : nat) (e : env) (p : peer_id) (w : wg_device) : option (bool * wg_device) :=
  pr ← d_peers w !! p;
  let '(first, q) := wg_prev_queue_peek (p_rx_queue pr) in
  let w := upd_peer p (upd_p_rx_queue (fun _ => q)) w in
  match first with
  | None => Some (false, w)
  | Some j =>
      jb ← d_jobs w !! j;
      if bool_decide (jb_state jb = PACKET_STATE_UNCRYPTED) then Some (false, w)
      else
        let w := upd_peer p (upd_p_rx_queue wg_prev_queue_drop_peeked) w in
        let w := free_job j w in
        let k := jb_keypair jb in
        w ←
          (if negb (bool_decide (jb_state jb = PACKET_STATE_CRYPTED)) then Some w
           else
             kp ← d_keypairs w !! k;
             pk ← head (jb_packets jb);
             let '(ok, c) := counter_validate (kp_receiving_counter kp) (pk_nonce pk) in
             let w := upd_keypair k (upd_kp_receiving_counter (fun _ => c)) w in
             if negb ok then Some w
             else
               match wg_socket_endpoint_from_skb (pk_skb pk) with
               | (0, ep) => wg_packet_consume_data_done retries e p pk k ep w
               | _ => Some w
               end);
        w ← wg_noise_keypair_put (Some k) false w;
        w ← wg_peer_put p w;
        Some (true, w)
  end.

(** The packets processed, at most [budget]. *)
Fixpoint rx_poll_loop (retries : nat) (e : env) (p : peer_id) (budget : nat) (w : wg_device) : option (Z * wg_device) :=
  match budget with
  | O => Some (0, w)
  | S budget =>
      '(more, w) ← rx_poll_round retries e p w;
      if more : bool then '(work_done, w) ← rx_poll_loop retries e p budget w; Some (work_done + 1, w)
      else Some (0, w)
  end.

Definition wg_packet_rx_poll (retries : nat) (e : env) (p : peer_id) (budget : Z) (w : wg_device) : option (Z * wg_device) :=
  if budget <=? 0 then Some (0, w)
  else
    '(work_done, w) ← rx_poll_loop retries e p (Z.to_nat budget) w;
    Some (work_done, if work_done <? budget then napi_complete_done p w else w).

Definition wg_packet_consume_data (e : env) (skb : sk_buff) (w : wg_device) : option wg_device :=
  let message := message_data_of (data skb) in
  let ds := ip_tunnel_get_dsfield skb in
  match index_lookup INDEX_HASHTABLE_KEYPAIR (md_key_idx message) w with
  | (Some (Keypair k, p), w) =>
      match wg_noise_keypair_get (Some k) w with
      | (None, w) => wg_peer_put p w
      | (Some _, w) =>
          pr ← d_peers w !! p;
          let err w := w ← wg_noise_keypair_put (Some k) false w; wg_peer_put p w in
          if p_is_dead pr then err w
          else
            let j := new_job e in
            let pk := {| pk_skb := skb; pk_nonce := 0; pk_mtu := 0; pk_ds := ds |} in
            let w := upd_d_jobs (insert j {| jb_packets := [pk]; jb_keypair := k; jb_state := PACKET_STATE_UNCRYPTED |}) w in
            '(ret, w) ← wg_queue_enqueue_per_device_and_peer e Rx p j w;
            if ret =? - EPIPE then
              q ← packet_peer j w;
              wg_queue_enqueue_per_peer_rx q j PACKET_STATE_DEAD w
            else if ret =? 0 then Some w
            else err (free_job j w)
      end
  | (_, w) => Some w
  end.

Definition wg_packet_receive (e : env) (r : raw_datagram) (w : wg_device) : option wg_device :=
  match prepare_skb_header e r with
  | None => Some w
  | Some skb =>
      let type := skb_type (data skb) in
      if (type =? MESSAGE_HANDSHAKE_INITIATION) || (type =? MESSAGE_HANDSHAKE_RESPONSE) || (type =? MESSAGE_HANDSHAKE_COOKIE) then
        if negb (rng_is_initialized e) then Some w
        else
          let produced :=
            if (MAX_QUEUED_INCOMING_HANDSHAKES / 2 <? d_handshake_queue_len w) && negb (handshake_trylock_ok e) then None
            else ptr_ring_produce MAX_QUEUED_INCOMING_HANDSHAKES skb (d_handshake_queue w) in
          match produced with
          | None => Some w
          | Some ring =>
              let w := upd_d_handshake_queue (fun _ => ring) w in
              let w := upd_d_handshake_queue_len (fun n => n + 1) w in
              let '(cpu, last) := wg_cpumask_next_online (cpu_online_mask e) (nr_cpu_ids e) (d_handshake_last_cpu w) in
              let w := upd_d_handshake_last_cpu (fun _ => last) w in
              Some (snd (queue_work (HandshakeReceive cpu) w))
          end
      else if type =? MESSAGE_DATA then wg_packet_consume_data e skb w
      else Some w
  end.

(** socket.c: what the UDP layer calls; [sk_user_data] tells whether the socket still has its device. *)
Definition wg_receive (e : env) (sk_user_data : bool) (r : raw_datagram) (w : wg_device) : option wg_device :=
  if negb sk_user_data then Some w else wg_packet_receive e r w.
End Receive.
