(* ===== verification/TimerEvents.v ===== *)
(** * TimerEvents: timers.c, what happens when a timer expires

    The kernel removes a timer before it calls the function: the timer that expired is not pending
    any more. *)

From S2P Require Import Prelude Messages Skb PeerLookup Crypto World Objects Keypairs Socket Queueing Timers Send.

Section TimerEvents.
Context {C : Crypto} {K : Hashes} {N : NetStack}.

Definition wg_expired_retransmit_handshake (e : env) (p : peer_id) (w : wg_device) : option wg_device :=
  let w := del_timer p upd_p_timer_retransmit_handshake w in
  pr ← d_peers w !! p;
  if MAX_TIMER_HANDSHAKES <? p_timer_handshake_attempts pr then
    let w := del_timer p upd_p_timer_send_keepalive w in
    w ← wg_packet_purge_staged_packets p w;
    Some (if negb (timer_pending p p_timer_zero_key_material w)
          then mod_peer_timer p upd_p_timer_zero_key_material (jiffies e + REJECT_AFTER_TIME * 3 * HZ e) w
          else w)
  else
    let w := upd_peer p (upd_p_timer_handshake_attempts (fun n => u32 (n + 1))) w in
    let w := wg_socket_clear_peer_endpoint_src p w in
    wg_packet_send_queued_handshake_initiation e p true w.

Definition wg_expired_send_keepalive (e : env) (p : peer_id) (w : wg_device) : option wg_device :=
  let w := del_timer p upd_p_timer_send_keepalive w in
  w ← wg_packet_send_keepalive e p w;
  pr ← d_peers w !! p;
  if p_timer_need_another_keepalive pr then
    let w := upd_peer p (upd_p_timer_need_another_keepalive (fun _ => false)) w in
    Some (mod_peer_timer p upd_p_timer_send_keepalive (jiffies e + KEEPALIVE_TIMEOUT * HZ e) w)
  else Some w.

Definition wg_expired_new_handshake (e : env) (p : peer_id) (w : wg_device) : option wg_device :=
  let w := del_timer p upd_p_timer_new_handshake w in
  let w := wg_socket_clear_peer_endpoint_src p w in
  wg_packet_send_queued_handshake_initiation e p false w.

Definition wg_expired_zero_key_material (p : peer_id) (w : wg_device) : option wg_device :=
  let w := del_timer p upd_p_timer_zero_key_material w in
  pr ← d_peers w !! p;
  if negb (p_is_dead pr) then
    let w := wg_peer_get p w in
    let '(queued, w) := queue_work (ClearPeer p) w in
    if negb queued then wg_peer_put p w else Some w
  else Some w.

Definition wg_queued_expired_zero_key_material (p : peer_id) (w : wg_device) : option wg_device :=
  let w := wg_noise_handshake_clear p w in
  w ← wg_noise_keypairs_clear p w;
  wg_peer_put p w.

Definition wg_expired_send_persistent_keepalive (e : env) (p : peer_id) (w : wg_device) : option wg_device :=
  let w := del_timer p upd_p_timer_persistent_keepalive w in
  pr ← d_peers w !! p;
  if negb (p_persistent_keepalive_interval pr =? 0) then wg_packet_send_keepalive e p w else Some w.
End TimerEvents.
