(* ===== verification/Frames.v ===== *)
(** * Frames: what the functions of the packet paths leave alone

    A fact about the device in which the run-time state (keypairs, queues, packets, work, statistics
    and the run-time members of peers) has no part stays true in any function that processes packets
    or timers: an observation that is blind to that state keeps its value, the time stamp of the last
    initiation of a peer does not go back. The lemmas are proved once for every such fact; the hint
    database [frame] applies them along the calls of a function. *)

From S2P Require Import Prelude Messages Skb Replay AllowedIps PeerLookup RateLimiter Crypto NoiseCrypto PrevQueue World Objects.
From S2P Require Import Keypairs Noise Cookie Socket Queueing Timers Send Receive TimerEvents.

(** The members of a peer that only its configuration sets. *)
Definition peer_conf (pr : wg_peer) : bytes * bytes * bytes * Z * Z * bool :=
  (hs_remote_static (p_handshake pr), hs_precomputed_static_static (p_handshake pr), hs_preshared_key (p_handshake pr),
   p_persistent_keepalive_interval pr, p_internal_id pr, p_is_dead pr).

(** The time stamp of the last initiation, on the other hand, may go on. *)
Definition handshake_grows (hs hs' : noise_handshake) : Prop :=
  hs_remote_static hs' = hs_remote_static hs /\ hs_precomputed_static_static hs' = hs_precomputed_static_static hs /\
  hs_preshared_key hs' = hs_preshared_key hs /\ memcmp (hs_latest_timestamp hs') (hs_latest_timestamp hs) <> Lt.
Definition peer_grows (pr pr' : wg_peer) : Prop :=
  peer_conf pr' = peer_conf pr /\
  memcmp (hs_latest_timestamp (p_handshake pr')) (hs_latest_timestamp (p_handshake pr)) <> Lt.

Lemma handshake_same hs hs' :
  hs_remote_static hs' = hs_remote_static hs -> hs_precomputed_static_static hs' = hs_precomputed_static_static hs ->
  hs_preshared_key hs' = hs_preshared_key hs -> hs_latest_timestamp hs' = hs_latest_timestamp hs -> handshake_grows hs hs'.
Proof. intros E1 E2 E3 E4. unfold handshake_grows. rewrite E4, memcmp_refl. done. Qed.

Lemma peer_same pr pr' :
  peer_conf pr' = peer_conf pr -> hs_latest_timestamp (p_handshake pr') = hs_latest_timestamp (p_handshake pr) -> peer_grows pr pr'.
Proof. intros E1 E2. split; [done|]. by rewrite E2, memcmp_refl. Qed.

Lemma commit_grows e src t ck hash hs : handshake_grows hs (consume_initiation_commit e src t ck hash hs).
Proof.
  split_and!; try done. cbn. destruct (memcmp t (hs_latest_timestamp hs)) eqn:E; rewrite ?memcmp_refl, ?E; done.
Qed.

(** A fact about the device that the run-time state has no part in. *)
Class Kept (P : wg_device -> Prop) : Prop := {
  kept_peer p f w : (forall pr, d_peers w !! p = Some pr -> peer_grows pr (f pr)) -> P w -> P (upd_peer p f w);
  kept_keypairs f w : P w -> P (upd_d_keypairs f w);
  kept_jobs f w : P w -> P (upd_d_jobs f w);
  kept_index f w : P w -> P (upd_d_index_hashtable f w);
  kept_cookie_checker f w : P w -> P (upd_d_cookie_checker f w);
  kept_encrypt_queue f w : P w -> P (upd_d_encrypt_queue f w);
  kept_encrypt_last_cpu f w : P w -> P (upd_d_encrypt_last_cpu f w);
  kept_works f w : P w -> P (upd_d_works f w);
  kept_stats f w : P w -> P (upd_d_stats f w);
  kept_ratelimiter f w : P w -> P (upd_d_ratelimiter f w);
  kept_last_under_load f w : P w -> P (upd_d_last_under_load f w);
  kept_keypair_counter f w : P w -> P (upd_d_keypair_counter f w);
  kept_keypair_rcu f w : P w -> P (upd_d_keypair_rcu f w);
  kept_peer_rcu f w : P w -> P (upd_d_peer_rcu f w);
  kept_aead_handles f w : P w -> P (upd_d_aead_handles f w)
}.

(** ... nor what is handed out, ... *)
Class KeptOut (P : wg_device -> Prop) : Prop := kept_outputs f w : P w -> P (upd_d_outputs f w).

(** ... nor the queues of received packets. *)
Class KeptRx (P : wg_device -> Prop) : Prop := {
  kept_decrypt_queue f w : P w -> P (upd_d_decrypt_queue f w);
  kept_decrypt_last_cpu f w : P w -> P (upd_d_decrypt_last_cpu f w);
  kept_handshake_queue f w : P w -> P (upd_d_handshake_queue f w);
  kept_handshake_queue_len f w : P w -> P (upd_d_handshake_queue_len f w);
  kept_handshake_last_cpu f w : P w -> P (upd_d_handshake_last_cpu f w)
}.

(** An observation that does not see the run-time state, as a class of its own: then its value is such a fact. *)
Class Blind {A} (obs : wg_device -> A) : Prop := {
  blind_peer p f w : (forall pr, d_peers w !! p = Some pr -> peer_conf (f pr) = peer_conf pr) -> obs (upd_peer p f w) = obs w;
  blind_keypairs f w : obs (upd_d_keypairs f w) = obs w;
  blind_jobs f w : obs (upd_d_jobs f w) = obs w;
  blind_index f w : obs (upd_d_index_hashtable f w) = obs w;
  blind_cookie_checker f w : obs (upd_d_cookie_checker f w) = obs w;
  blind_encrypt_queue f w : obs (upd_d_encrypt_queue f w) = obs w;
  blind_encrypt_last_cpu f w : obs (upd_d_encrypt_last_cpu f w) = obs w;
  blind_works f w : obs (upd_d_works f w) = obs w;
  blind_stats f w : obs (upd_d_stats f w) = obs w;
  blind_ratelimiter f w : obs (upd_d_ratelimiter f w) = obs w;
  blind_last_under_load f w : obs (upd_d_last_under_load f w) = obs w;
  blind_keypair_counter f w : obs (upd_d_keypair_counter f w) = obs w;
  blind_keypair_rcu f w : obs (upd_d_keypair_rcu f w) = obs w;
  blind_peer_rcu f w : obs (upd_d_peer_rcu f w) = obs w;
  blind_aead_handles f w : obs (upd_d_aead_handles f w) = obs w
}.
Class BlindOut {A} (obs : wg_device -> A) : Prop := blind_outputs f w : obs (upd_d_outputs f w) = obs w.
Class BlindRx {A} (obs : wg_device -> A) : Prop := {
  blind_decrypt_queue f w : obs (upd_d_decrypt_queue f w) = obs w;
  blind_decrypt_last_cpu f w : obs (upd_d_decrypt_last_cpu f w) = obs w;
  blind_handshake_queue f w : obs (upd_d_handshake_queue f w) = obs w;
  blind_handshake_queue_len f w : obs (upd_d_handshake_queue_len f w) = obs w;
  blind_handshake_last_cpu f w : obs (upd_d_handshake_last_cpu f w) = obs w
}.

Definition observed {A} (obs : wg_device -> A) (o : A) (w : wg_device) : Prop := obs w = o.

#[export] Instance observed_kept {A} (obs : wg_device -> A) o : Blind obs -> Kept (observed obs o).
Proof.
  intros []. split; unfold observed; intros; [|congruence..]. rewrite blind_peer0; [done|].
  intros pr Hp. by apply H.
Qed.
#[export] Instance observed_kept_out {A} (obs : wg_device -> A) o : BlindOut obs -> KeptOut (observed obs o).
Proof. intros H f w. unfold observed. by rewrite H. Qed.
#[export] Instance observed_kept_rx {A} (obs : wg_device -> A) o : BlindRx obs -> KeptRx (observed obs o).
Proof. intros []. split; unfold observed; intros; congruence. Qed.

(** [P w], in a form that the hints below recognise. *)
Definition sat (P : wg_device -> Prop) (w : wg_device) : Prop := P w.

Create HintDb frame.

(** The lemmas have the form [sat P w -> g w = Some w' -> sat P w']. [frame] follows the control
    flow of [g] in a hypothesis; every device it meets gets its fact. *)
Ltac frame_step :=
  match goal with
  | H : None = Some _ |- _ => discriminate H
  | H : Some _ = Some _ |- _ => injection H; clear H; intros
  | H : (_, _) = (_, _) |- _ => injection H; clear H; intros
  | E : ?x = ?y |- sat _ _ => is_var y; subst y
  | H : (let x := ?a in @?b x) = ?r |- sat ?P _ =>
      lazymatch type of a with
      | wg_device =>
          let w1 := fresh "w" in let F := fresh "F" in
          assert (F : sat P a) by (eauto 12 with frame);
          pose (w1 := a); change (b w1 = r) in H; change (sat P w1) in F; cbv beta in H; clearbody w1
      | _ => change (b a = r) in H; cbv beta in H
      end
  | H : mbind _ ?m = _ |- _ => let E := fresh "E" in destruct m eqn:E; cbv beta iota delta [mbind option_bind] in H
  | H : (if ?b then _ else _) = _ |- _ => let E := fresh "E" in destruct b eqn:E
  | H : match ?m with _ => _ end = _ |- _ => let E := fresh "E" in destruct m eqn:E
  | p : (_ * _)%type |- _ => destruct p
  end.

Ltac frame := intros; repeat frame_step; eauto 12 with frame.

(** The updates that leave alone what the configuration of a peer consists of. *)
Ltac same_peer := intros; apply peer_same; reflexivity.

Section Frames.
Context (P : wg_device -> Prop) {B : Kept P}.

Lemma keep_peer p f w : sat P w -> (forall pr, d_peers w !! p = Some pr -> peer_grows pr (f pr)) -> sat P (upd_peer p f w).
Proof. intros H Hf. by apply kept_peer. Qed.
Lemma keep_keypairs f w : sat P w -> sat P (upd_d_keypairs f w).
Proof. apply kept_keypairs. Qed.
Lemma keep_keypair k f w : sat P w -> sat P (upd_keypair k f w).
Proof. apply keep_keypairs. Qed.
Lemma keep_jobs f w : sat P w -> sat P (upd_d_jobs f w).
Proof. apply kept_jobs. Qed.
Lemma keep_index f w : sat P w -> sat P (upd_d_index_hashtable f w).
Proof. apply kept_index. Qed.
Lemma keep_cookie_checker f w : sat P w -> sat P (upd_d_cookie_checker f w).
Proof. apply kept_cookie_checker. Qed.
Lemma keep_encrypt_queue f w : sat P w -> sat P (upd_d_encrypt_queue f w).
Proof. apply kept_encrypt_queue. Qed.
Lemma keep_encrypt_last_cpu f w : sat P w -> sat P (upd_d_encrypt_last_cpu f w).
Proof. apply kept_encrypt_last_cpu. Qed.
Lemma keep_works f w : sat P w -> sat P (upd_d_works f w).
Proof. apply kept_works. Qed.
Lemma keep_stats f w : sat P w -> sat P (upd_d_stats f w).
Proof. apply kept_stats. Qed.
Lemma keep_ratelimiter f w : sat P w -> sat P (upd_d_ratelimiter f w).
Proof. apply kept_ratelimiter. Qed.
Lemma keep_last_under_load f w : sat P w -> sat P (upd_d_last_under_load f w).
Proof. apply kept_last_under_load. Qed.
Lemma keep_keypair_counter f w : sat P w -> sat P (upd_d_keypair_counter f w).
Proof. apply kept_keypair_counter. Qed.
Lemma keep_keypair_rcu f w : sat P w -> sat P (upd_d_keypair_rcu f w).
Proof. apply kept_keypair_rcu. Qed.
Lemma keep_peer_rcu f w : sat P w -> sat P (upd_d_peer_rcu f w).
Proof. apply kept_peer_rcu. Qed.
Lemma keep_aead_handles f w : sat P w -> sat P (upd_d_aead_handles f w).
Proof. apply kept_aead_handles. Qed.
End Frames.

#[export] Hint Resolve keep_keypair keep_keypairs keep_jobs keep_index keep_cookie_checker keep_encrypt_queue keep_encrypt_last_cpu keep_works keep_stats keep_ratelimiter keep_last_under_load keep_keypair_counter keep_keypair_rcu keep_peer_rcu keep_aead_handles : frame.
#[export] Hint Extern 1 (sat ?P (upd_peer _ _ _)) => apply (keep_peer P); [|same_peer] : frame.
#[export] Hint Extern 0 (Kept _) => typeclasses eauto : frame.
#[export] Hint Extern 0 (KeptOut _) => typeclasses eauto : frame.
#[export] Hint Extern 0 (KeptRx _) => typeclasses eauto : frame.
#[export] Hint Extern 1 (sat _ (if ?b then _ else _)) => destruct b : frame.
#[export] Hint Extern 2 (sat _ (match ?x with _ => _ end)) => destruct x : frame.

(** ** Objects and keypairs *)

Section Objects.
Context (P : wg_device -> Prop) {B : Kept P}.

Lemma keep_peer_get p w : sat P w -> sat P (wg_peer_get p w).
Proof. cbv beta zeta delta [wg_peer_get]. frame. Qed.
#[local] Hint Resolve keep_peer_get : frame.

Lemma keep_purge p w w' : wg_packet_purge_staged_packets p w = Some w' -> sat P w -> sat P w'.
Proof. cbv beta delta [wg_packet_purge_staged_packets]. frame. Qed.
#[local] Hint Resolve keep_purge : frame.

Lemma keep_kref_release p w w' : kref_release p w = Some w' -> sat P w -> sat P w'.
Proof. cbv beta delta [kref_release]. frame. Qed.
#[local] Hint Resolve keep_kref_release : frame.

Lemma keep_peer_put p w w' : wg_peer_put p w = Some w' -> sat P w -> sat P w'.
Proof. cbv beta delta [wg_peer_put]. frame. Qed.
#[local] Hint Resolve keep_peer_put : frame.

Lemma keep_keypair_get k w r w' : wg_noise_keypair_get k w = (r, w') -> sat P w -> sat P w'.
Proof. cbv beta delta [wg_noise_keypair_get]. frame. Qed.
#[local] Hint Resolve keep_keypair_get : frame.

Lemma keep_free_entry i w : sat P w -> sat P (free_entry i w).
Proof. cbv beta zeta delta [free_entry]. frame. Qed.
#[local] Hint Resolve keep_free_entry : frame.

Lemma keep_keypair_free_rcu k w w' : keypair_free_rcu k w = Some w' -> sat P w -> sat P w'.
Proof. cbv beta delta [keypair_free_rcu]. frame. Qed.
#[local] Hint Resolve keep_keypair_free_rcu : frame.

Lemma keep_keypair_free_kref k w : sat P w -> sat P (keypair_free_kref k w).
Proof. cbv beta zeta delta [keypair_free_kref]. frame. Qed.
#[local] Hint Resolve keep_keypair_free_kref : frame.

Lemma keep_keypair_put k b w w' : wg_noise_keypair_put k b w = Some w' -> sat P w -> sat P w'.
Proof. cbv beta delta [wg_noise_keypair_put]. frame. Qed.
#[local] Hint Resolve keep_keypair_put : frame.

Lemma keep_index_lookup m i w r w' : index_lookup m i w = (r, w') -> sat P w -> sat P w'.
Proof. cbv beta delta [index_lookup]. frame. Qed.
#[local] Hint Resolve keep_index_lookup : frame.

Lemma keep_pubkey_lookup h k w r w' : pubkey_lookup h k w = (r, w') -> sat P w -> sat P w'.
Proof. cbv beta delta [pubkey_lookup]. frame. Qed.
#[local] Hint Resolve keep_pubkey_lookup : frame.

Lemma keep_set_slots p f w : sat P w -> sat P (set_slots p f w).
Proof. cbv beta zeta delta [set_slots]. frame. Qed.
#[local] Hint Resolve keep_set_slots : frame.

Lemma keep_keypairs_clear p w w' : wg_noise_keypairs_clear p w = Some w' -> sat P w -> sat P w'.
Proof. cbv beta delta [wg_noise_keypairs_clear]. frame. Qed.
#[local] Hint Resolve keep_keypairs_clear : frame.

Lemma keep_add_new_keypair p k w w' : add_new_keypair p k w = Some w' -> sat P w -> sat P w'.
Proof. cbv beta delta [add_new_keypair]. frame. Qed.
#[local] Hint Resolve keep_add_new_keypair : frame.

Lemma keep_received_with p k w r w' : wg_noise_received_with_keypair p k w = Some (r, w') -> sat P w -> sat P w'.
Proof. cbv beta delta [wg_noise_received_with_keypair]. frame. Qed.
#[local] Hint Resolve keep_received_with : frame.

Lemma keep_invalidate_sending k w : sat P w -> sat P (invalidate_sending k w).
Proof. cbv beta zeta delta [invalidate_sending]. frame. Qed.
#[local] Hint Resolve keep_invalidate_sending : frame.

Lemma keep_handshake_clear p w : sat P w -> sat P (wg_noise_handshake_clear p w).
Proof. cbv beta zeta delta [wg_noise_handshake_clear]. frame. Qed.
#[local] Hint Resolve keep_handshake_clear : frame.

Lemma keep_queue_work wk w r w' : queue_work wk w = (r, w') -> sat P w -> sat P w'.
Proof. cbv beta delta [queue_work]. frame. Qed.
#[local] Hint Resolve keep_queue_work : frame.

Lemma keep_mod_timer p (s : (option Z -> option Z) -> wg_peer -> wg_peer) n w :
  (forall g pr, peer_grows pr (s g pr)) -> sat P w -> sat P (mod_peer_timer p s n w).
Proof. intros Hs H. unfold mod_peer_timer. repeat case_match; try done. apply (keep_peer P); auto. Qed.

Lemma keep_del_timer p (s : (option Z -> option Z) -> wg_peer -> wg_peer) w :
  (forall g pr, peer_grows pr (s g pr)) -> sat P w -> sat P (del_timer p s w).
Proof. intros Hs H. unfold del_timer. apply (keep_peer P); auto. Qed.
End Objects.

#[export] Hint Resolve keep_peer_get keep_purge keep_kref_release keep_peer_put keep_keypair_get keep_free_entry keep_keypair_free_rcu
  keep_keypair_free_kref keep_keypair_put keep_index_lookup keep_pubkey_lookup keep_set_slots keep_keypairs_clear keep_add_new_keypair
  keep_received_with keep_invalidate_sending keep_handshake_clear keep_queue_work : frame.
#[export] Hint Extern 1 (sat ?P (mod_peer_timer _ _ _ _)) => apply (keep_mod_timer P); [same_peer|] : frame.
#[export] Hint Extern 1 (sat ?P (del_timer _ _ _)) => apply (keep_del_timer P); [same_peer|] : frame.
#[export] Hint Extern 1 (sat ?P (snd (queue_work ?wk ?w))) => eapply (keep_queue_work P); [apply surjective_pairing|] : frame.

(** ** The handshake *)

Section Handshake.
Context {C : Crypto} {K : Hashes} (P : wg_device -> Prop) {B : Kept P}.

Lemma keep_handshake p f w :
  sat P w -> (forall pr, d_peers w !! p = Some pr -> handshake_grows (p_handshake pr) (f (p_handshake pr))) ->
  sat P (upd_handshake p f w).
Proof.
  intros H Hf. apply (keep_peer P); [done|]. intros pr Hp. destruct (Hf pr Hp) as (E1 & E2 & E3 & E4).
  split; [|done]. unfold peer_conf. cbn. by rewrite E1, E2, E3.
Qed.

#[local] Hint Extern 1 (sat P (upd_handshake _ handshake_zero _)) => apply keep_handshake; [|intros; apply handshake_same; reflexivity] : frame.

(** The new handshake is a change of the one that was read. *)
Lemma keep_handshake_of p pr hs w w1 :
  sat P w1 -> d_peers w !! p = Some pr -> d_peers w1 = d_peers w ->
  hs_remote_static hs = hs_remote_static (p_handshake pr) ->
  hs_precomputed_static_static hs = hs_precomputed_static_static (p_handshake pr) ->
  hs_preshared_key hs = hs_preshared_key (p_handshake pr) ->
  hs_latest_timestamp hs = hs_latest_timestamp (p_handshake pr) ->
  sat P (upd_handshake p (fun _ => hs) w1).
Proof.
  intros H Hp Hw E1 E2 E3 E4. apply keep_handshake; [done|]. intros pr' Hp'. rewrite Hw, Hp in Hp'. injection Hp' as <-.
  by apply handshake_same.
Qed.

Lemma keep_create_initiation e p dst w r w' :
  wg_noise_handshake_create_initiation e p dst w = Some (r, w') -> sat P w -> sat P w'.
Proof.
  unfold wg_noise_handshake_create_initiation. frame; eapply keep_handshake_of; eauto with frame.
Qed.

Lemma keep_create_response e p dst w r w' :
  wg_noise_handshake_create_response e p dst w = Some (r, w') -> sat P w -> sat P w'.
Proof.
  unfold wg_noise_handshake_create_response. frame; eapply keep_handshake_of; eauto with frame.
Qed.

Lemma keep_consume_check h e m w r w' : consume_initiation_check h e m w = Some (r, w') -> sat P w -> sat P w'.
Proof. cbv beta delta [consume_initiation_check]. frame. Qed.
#[local] Hint Resolve keep_consume_check : frame.

Lemma keep_consume_initiation h e m w r w' :
  wg_noise_handshake_consume_initiation h e m w = Some (r, w') -> sat P w -> sat P w'.
Proof.
  cbv beta delta [wg_noise_handshake_consume_initiation]. frame. apply keep_handshake; [eauto with frame|].
  intros. apply commit_grows.
Qed.

Lemma keep_consume_response m w r w' :
  wg_noise_handshake_consume_response m w = Some (r, w') -> sat P w -> sat P w'.
Proof.
  unfold wg_noise_handshake_consume_response. frame. eapply keep_handshake_of; eauto with frame.
  all: unfold consume_response_commit in *; repeat case_match; simplify_eq; done.
Qed.

Lemma keep_keypair_create e p w r w' : keypair_create e p w = (r, w') -> sat P w -> sat P w'.
Proof. cbv beta delta [keypair_create]. frame. Qed.

Lemma keep_setup_aead e k w r w' : setup_aead e k w = Some (r, w') -> sat P w -> sat P w'.
Proof. cbv beta delta [setup_aead]. frame. Qed.
#[local] Hint Resolve keep_keypair_create keep_setup_aead : frame.

Lemma keep_begin_session e p w r w' :
  wg_noise_handshake_begin_session e p w = Some (r, w') -> sat P w -> sat P w'.
Proof. cbv beta delta [wg_noise_handshake_begin_session]. frame. Qed.
End Handshake.

#[export] Hint Resolve keep_create_initiation keep_create_response keep_consume_check keep_consume_initiation keep_consume_response keep_begin_session : frame.

(** ** Cookies, endpoints, timers and queues *)

Section Services.
Context {C : Crypto} {K : Hashes} {N : NetStack} (P : wg_device -> Prop) {B : Kept P}.

Lemma keep_cookie_validate e skb b w r w' : wg_cookie_validate_packet e skb b w = Some (r, w') -> sat P w -> sat P w'.
Proof. cbv beta delta [wg_cookie_validate_packet]. frame. Qed.
#[local] Hint Resolve keep_cookie_validate : frame.

Lemma keep_cookie_consume e m w w' : wg_cookie_message_consume e m w = Some w' -> sat P w -> sat P w'.
Proof. cbv beta delta [wg_cookie_message_consume]. frame. Qed.
#[local] Hint Resolve keep_cookie_consume : frame.

Lemma keep_set_endpoint p ep w : sat P w -> sat P (wg_socket_set_peer_endpoint p ep w).
Proof. cbv beta zeta delta [wg_socket_set_peer_endpoint]. frame. Qed.
#[local] Hint Resolve keep_set_endpoint : frame.

Lemma keep_clear_endpoint_src p w : sat P w -> sat P (wg_socket_clear_peer_endpoint_src p w).
Proof. cbv beta zeta delta [wg_socket_clear_peer_endpoint_src]. frame. Qed.
#[local] Hint Resolve keep_clear_endpoint_src : frame.

Lemma keep_set_endpoint_from_skb p skb w : sat P w -> sat P (wg_socket_set_peer_endpoint_from_skb p skb w).
Proof. cbv beta zeta delta [wg_socket_set_peer_endpoint_from_skb]. frame. Qed.
#[local] Hint Resolve keep_set_endpoint_from_skb : frame.

Lemma keep_timers_data_sent e p w : sat P w -> sat P (wg_timers_data_sent e p w).
Proof. cbv beta zeta delta [wg_timers_data_sent]. frame. Qed.
#[local] Hint Resolve keep_timers_data_sent : frame.

Lemma keep_timers_data_received e p w : sat P w -> sat P (wg_timers_data_received e p w).
Proof. cbv beta zeta delta [wg_timers_data_received]. frame. Qed.
#[local] Hint Resolve keep_timers_data_received : frame.

Lemma keep_timers_sent p w : sat P w -> sat P (wg_timers_any_authenticated_packet_sent p w).
Proof. cbv beta zeta delta [wg_timers_any_authenticated_packet_sent]. frame. Qed.
#[local] Hint Resolve keep_timers_sent : frame.

Lemma keep_timers_received p w : sat P w -> sat P (wg_timers_any_authenticated_packet_received p w).
Proof. cbv beta zeta delta [wg_timers_any_authenticated_packet_received]. frame. Qed.
#[local] Hint Resolve keep_timers_received : frame.

Lemma keep_timers_initiated e p w : sat P w -> sat P (wg_timers_handshake_initiated e p w).
Proof. cbv beta zeta delta [wg_timers_handshake_initiated]. frame. Qed.
#[local] Hint Resolve keep_timers_initiated : frame.

Lemma keep_timers_complete e p w : sat P w -> sat P (wg_timers_handshake_complete e p w).
Proof. cbv beta zeta delta [wg_timers_handshake_complete]. frame. Qed.
#[local] Hint Resolve keep_timers_complete : frame.

Lemma keep_timers_derived e p w : sat P w -> sat P (wg_timers_session_derived e p w).
Proof. cbv beta zeta delta [wg_timers_session_derived]. frame. Qed.
#[local] Hint Resolve keep_timers_derived : frame.

Lemma keep_timers_traversal e p w : sat P w -> sat P (wg_timers_any_authenticated_packet_traversal e p w).
Proof. cbv beta zeta delta [wg_timers_any_authenticated_packet_traversal]. frame. Qed.
#[local] Hint Resolve keep_timers_traversal : frame.

Lemma keep_job j f w : sat P w -> sat P (upd_job j f w).
Proof. cbv beta zeta delta [upd_job]. frame. Qed.
#[local] Hint Resolve keep_job : frame.

Lemma keep_enqueue_tx e p j st w w' : wg_queue_enqueue_per_peer_tx e p j st w = Some w' -> sat P w -> sat P w'.
Proof. cbv beta delta [wg_queue_enqueue_per_peer_tx]. frame. Qed.
#[local] Hint Resolve keep_enqueue_tx : frame.

Lemma keep_enqueue_rx p j st w w' : wg_queue_enqueue_per_peer_rx p j st w = Some w' -> sat P w -> sat P w'.
Proof. cbv beta delta [wg_queue_enqueue_per_peer_rx]. frame. Qed.
#[local] Hint Resolve keep_enqueue_rx : frame.

End Services.

#[export] Hint Resolve keep_cookie_validate keep_cookie_consume keep_set_endpoint keep_clear_endpoint_src keep_set_endpoint_from_skb keep_timers_data_sent keep_timers_data_received keep_timers_sent keep_timers_received keep_timers_initiated keep_timers_complete keep_timers_derived keep_timers_traversal keep_job keep_enqueue_tx keep_enqueue_rx : frame.

(** ** Sending *)

Section Sending.
Context {C : Crypto} {K : Hashes} {N : NetStack} (P : wg_device -> Prop) {B : Kept P}.

Lemma keep_run_while fuel (body : wg_device -> option (bool * wg_device)) w w' :
  (forall w r w', body w = Some (r, w') -> sat P w -> sat P w') -> run_while fuel body w = Some w' -> sat P w -> sat P w'.
Proof.
  intros Hb. revert w. induction fuel as [|fuel IH]; intros w H Ho; [done|]. cbn [run_while] in H.
  destruct (body w) as [[go_on w1]|] eqn:E; [|done]. cbn [mbind option_bind] in H. apply Hb in E; [|done].
  destruct go_on; [by apply (IH w1)|by injection H as <-].
Qed.

Lemma keep_enqueue_dev_tx e p j w r w' : wg_queue_enqueue_per_device_and_peer e Tx p j w = Some (r, w') -> sat P w -> sat P w'.
Proof. cbv beta delta [wg_queue_enqueue_per_device_and_peer]. frame. Qed.
#[local] Hint Resolve keep_enqueue_dev_tx : frame.

Lemma keep_last_sent e p w : sat P w -> sat P (set_last_sent_handshake e p w).
Proof. cbv beta zeta delta [set_last_sent_handshake]. frame. Qed.
#[local] Hint Resolve keep_last_sent : frame.

Lemma keep_add_mac e m p w r w' : add_mac e m p w = Some (r, w') -> sat P w -> sat P w'.
Proof. cbv beta delta [add_mac]. frame. Qed.
#[local] Hint Resolve keep_add_mac : frame.

Lemma keep_send_queued e p b w w' : wg_packet_send_queued_handshake_initiation e p b w = Some w' -> sat P w -> sat P w'.
Proof. cbv beta delta [wg_packet_send_queued_handshake_initiation]. frame. Qed.
#[local] Hint Resolve keep_send_queued : frame.

Lemma keep_send_key_fresh e p w w' : send_keep_key_fresh e p w = Some w' -> sat P w -> sat P w'.
Proof. cbv beta delta [send_keep_key_fresh]. frame. Qed.
#[local] Hint Resolve keep_send_key_fresh : frame.

Lemma keep_encrypt_round e w r w' : encrypt_round e w = Some (r, w') -> sat P w -> sat P w'.
Proof. cbv beta delta [encrypt_round]. frame. Qed.
#[local] Hint Resolve keep_encrypt_round : frame.

Lemma keep_encrypt_worker e w w' : wg_packet_encrypt_worker e w = Some w' -> sat P w -> sat P w'.
Proof. intros H. eapply keep_run_while; [|exact H]. eauto with frame. Qed.
#[local] Hint Resolve keep_encrypt_worker : frame.

Lemma keep_free_job j w : sat P w -> sat P (free_job j w).
Proof. cbv beta zeta delta [free_job]. frame. Qed.
#[local] Hint Resolve keep_free_job : frame.

Lemma keep_create_data e p j w w' : wg_packet_create_data e p j w = Some w' -> sat P w -> sat P w'.
Proof. cbv beta delta [wg_packet_create_data]. frame. Qed.
#[local] Hint Resolve keep_create_data : frame.

Lemma keep_out_nokey e p k l w w' : out_nokey e p k l w = Some w' -> sat P w -> sat P w'.
Proof. cbv beta delta [out_nokey]. frame. Qed.
#[local] Hint Resolve keep_out_nokey : frame.

Lemma keep_out_invalid e p k l w w' : out_invalid e p k l w = Some w' -> sat P w -> sat P w'.
Proof. cbv beta delta [out_invalid]. frame. Qed.
#[local] Hint Resolve keep_out_invalid : frame.

Lemma keep_send_staged e p w w' : wg_packet_send_staged_packets e p w = Some w' -> sat P w -> sat P w'.
Proof. cbv beta delta [wg_packet_send_staged_packets]. frame. Qed.
#[local] Hint Resolve keep_send_staged : frame.

Lemma keep_send_keepalive e p w w' : wg_packet_send_keepalive e p w = Some w' -> sat P w -> sat P w'.
Proof. cbv beta delta [wg_packet_send_keepalive]. frame. Qed.
#[local] Hint Resolve keep_send_keepalive : frame.

End Sending.

#[export] Hint Resolve keep_enqueue_dev_tx keep_last_sent keep_add_mac keep_send_queued keep_send_key_fresh keep_encrypt_round keep_encrypt_worker keep_free_job keep_create_data keep_out_nokey keep_out_invalid keep_send_staged keep_send_keepalive : frame.

(** ** Sending to the sockets *)

Section Transmission.
Context {C : Crypto} {K : Hashes} {N : NetStack} (P : wg_device -> Prop) {B : Kept P} {O : KeptOut P}.

Lemma keep_outputs f w : sat P w -> sat P (upd_d_outputs f w).
Proof. apply kept_outputs. Qed.
#[local] Hint Resolve keep_outputs : frame.

Lemma keep_send_skb e p d ds w r w' : wg_socket_send_skb_to_peer e p d ds w = Some (r, w') -> sat P w -> sat P w'.
Proof. cbv beta delta [wg_socket_send_skb_to_peer]. frame. Qed.
#[local] Hint Resolve keep_send_skb : frame.

Lemma keep_send_buffer e p d ds w r w' : wg_socket_send_buffer_to_peer e p d ds w = Some (r, w') -> sat P w -> sat P w'.
Proof. cbv beta delta [wg_socket_send_buffer_to_peer]. frame. Qed.
#[local] Hint Resolve keep_send_buffer : frame.

Lemma keep_send_reply e skb d w r w' : wg_socket_send_buffer_as_reply_to_skb e skb d w = (r, w') -> sat P w -> sat P w'.
Proof. cbv beta delta [wg_socket_send_buffer_as_reply_to_skb]. frame. Qed.
#[local] Hint Resolve keep_send_reply : frame.

Lemma keep_send_initiation e p w w' : wg_packet_send_handshake_initiation e p w = Some w' -> sat P w -> sat P w'.
Proof. cbv beta delta [wg_packet_send_handshake_initiation]. frame. Qed.
#[local] Hint Resolve keep_send_initiation : frame.

Lemma keep_send_worker e p w w' : wg_packet_handshake_send_worker e p w = Some w' -> sat P w -> sat P w'.
Proof. cbv beta delta [wg_packet_handshake_send_worker]. frame. Qed.
#[local] Hint Resolve keep_send_worker : frame.

Lemma keep_send_response e p w w' : wg_packet_send_handshake_response e p w = Some w' -> sat P w -> sat P w'.
Proof. cbv beta delta [wg_packet_send_handshake_response]. frame. Qed.
#[local] Hint Resolve keep_send_response : frame.

Lemma keep_send_cookie e skb i w : sat P w -> sat P (wg_packet_send_handshake_cookie e skb i w).
Proof.
  intros H. unfold wg_packet_send_handshake_cookie. destruct (wg_cookie_message_create _ _ _ _).
  eapply keep_send_reply; [apply surjective_pairing|eauto with frame].
Qed.
#[local] Hint Resolve keep_send_cookie : frame.

Lemma keep_send_list e p l w r w' : send_list e p l w = Some (r, w') -> sat P w -> sat P w'.
Proof.
  revert w r w'. induction l as [|pk l IH]; cbn [send_list]; intros w r w' H Ho; frame.
Qed.
#[local] Hint Resolve keep_send_list : frame.

Lemma keep_create_data_done e p l w w' : wg_packet_create_data_done e p l w = Some w' -> sat P w -> sat P w'.
Proof. cbv beta delta [wg_packet_create_data_done]. frame. Qed.
#[local] Hint Resolve keep_create_data_done : frame.

Lemma keep_tx_round e p w r w' : tx_round e p w = Some (r, w') -> sat P w -> sat P w'.
Proof. cbv beta delta [tx_round]. frame. Qed.
#[local] Hint Resolve keep_tx_round : frame.

Lemma keep_tx_worker e p w w' : wg_packet_tx_worker e p w = Some w' -> sat P w -> sat P w'.
Proof. 
  unfold wg_packet_tx_worker. intros H. destruct (d_peers w !! p); [|done]. cbn [mbind option_bind] in H.
  eapply (keep_run_while P); [|exact H]. eauto with frame.
 Qed.
#[local] Hint Resolve keep_tx_worker : frame.

End Transmission.

#[export] Hint Resolve keep_outputs keep_send_cookie keep_send_list keep_send_skb keep_send_buffer keep_send_reply keep_send_initiation keep_send_worker keep_send_response keep_create_data_done keep_tx_round keep_tx_worker : frame.

(** ** Receiving *)

Section Receiving.
Context {C : Crypto} {K : Hashes} {N : NetStack} (P : wg_device -> Prop) {B : Kept P} {O : KeptOut P}.

Lemma keep_rx_stats p n w : sat P w -> sat P (update_rx_stats p n w).
Proof. cbv beta zeta delta [update_rx_stats]. frame. Qed.
#[local] Hint Resolve keep_rx_stats : frame.

Lemma keep_handshake_done e skb p w w' : handshake_packet_done e skb p w = Some w' -> sat P w -> sat P w'.
Proof. cbv beta delta [handshake_packet_done]. frame. Qed.
#[local] Hint Resolve keep_handshake_done : frame.

Lemma keep_receive_handshake e skb w w' : wg_receive_handshake_packet e skb w = Some w' -> sat P w -> sat P w'.
Proof. cbv beta delta [wg_receive_handshake_packet]. frame. Qed.
#[local] Hint Resolve keep_receive_handshake : frame.

Lemma keep_receive_key_fresh e p w w' : receive_keep_key_fresh e p w = Some w' -> sat P w -> sat P w'.
Proof. cbv beta delta [receive_keep_key_fresh]. frame. Qed.
#[local] Hint Resolve keep_receive_key_fresh : frame.

Lemma keep_rx_error f w : sat P w -> sat P (rx_error f w).
Proof. cbv beta zeta delta [rx_error]. frame. Qed.
#[local] Hint Resolve keep_rx_error : frame.

Lemma keep_consume_data_done n e p pk k ep w w' : wg_packet_consume_data_done n e p pk k ep w = Some w' -> sat P w -> sat P w'.
Proof. cbv beta delta [wg_packet_consume_data_done]. frame. Qed.
#[local] Hint Resolve keep_consume_data_done : frame.

Lemma keep_rx_poll_round n e p w r w' : rx_poll_round n e p w = Some (r, w') -> sat P w -> sat P w'.
Proof. cbv beta delta [rx_poll_round]. frame. Qed.
#[local] Hint Resolve keep_rx_poll_round : frame.

Lemma keep_rx_poll_loop n e p budget w r w' : rx_poll_loop n e p budget w = Some (r, w') -> sat P w -> sat P w'.
Proof.
  revert w r w'. induction budget as [|budget IH]; cbn [rx_poll_loop]; intros w r w' H Ho; frame.
Qed.
#[local] Hint Resolve keep_rx_poll_loop : frame.

Lemma keep_napi_complete p w : sat P w -> sat P (napi_complete_done p w).
Proof. cbv beta zeta delta [napi_complete_done]. frame. Qed.
#[local] Hint Resolve keep_napi_complete : frame.

Lemma keep_rx_poll n e p b w r w' : wg_packet_rx_poll n e p b w = Some (r, w') -> sat P w -> sat P w'.
Proof. cbv beta delta [wg_packet_rx_poll]. frame. Qed.
#[local] Hint Resolve keep_rx_poll : frame.

End Receiving.

#[export] Hint Resolve keep_rx_poll_loop keep_rx_stats keep_handshake_done keep_receive_handshake keep_receive_key_fresh keep_rx_error keep_consume_data_done keep_rx_poll_round keep_napi_complete keep_rx_poll : frame.

(** ** The queues of received packets *)

Section ReceiveQueues.
Context {C : Crypto} {K : Hashes} {N : NetStack} (P : wg_device -> Prop) {B : Kept P} {O : KeptOut P} {R : KeptRx P}.

Lemma keep_decrypt_queue f w : sat P w -> sat P (upd_d_decrypt_queue f w).
Proof. apply kept_decrypt_queue. Qed.
Lemma keep_decrypt_last_cpu f w : sat P w -> sat P (upd_d_decrypt_last_cpu f w).
Proof. apply kept_decrypt_last_cpu. Qed.
Lemma keep_handshake_queue f w : sat P w -> sat P (upd_d_handshake_queue f w).
Proof. apply kept_handshake_queue. Qed.
Lemma keep_handshake_queue_len f w : sat P w -> sat P (upd_d_handshake_queue_len f w).
Proof. apply kept_handshake_queue_len. Qed.
Lemma keep_handshake_last_cpu f w : sat P w -> sat P (upd_d_handshake_last_cpu f w).
Proof. apply kept_handshake_last_cpu. Qed.
#[local] Hint Resolve keep_decrypt_queue keep_decrypt_last_cpu keep_handshake_queue keep_handshake_queue_len keep_handshake_last_cpu : frame.

Lemma keep_enqueue_dev e d p j w r w' : wg_queue_enqueue_per_device_and_peer e d p j w = Some (r, w') -> sat P w -> sat P w'.
Proof. destruct d; cbv beta delta [wg_queue_enqueue_per_device_and_peer]; frame. Qed.
#[local] Hint Resolve keep_enqueue_dev : frame.

Lemma keep_handshake_round e w r w' : handshake_receive_round e w = Some (r, w') -> sat P w -> sat P w'.
Proof. cbv beta delta [handshake_receive_round]. frame. Qed.
#[local] Hint Resolve keep_handshake_round : frame.

Lemma keep_handshake_worker e w w' : wg_packet_handshake_receive_worker e w = Some w' -> sat P w -> sat P w'.
Proof. intros H. eapply (keep_run_while P); [|exact H]. eauto with frame. Qed.
#[local] Hint Resolve keep_handshake_worker : frame.

Lemma keep_decrypt_round e w r w' : decrypt_round e w = Some (r, w') -> sat P w -> sat P w'.
Proof. cbv beta delta [decrypt_round]. frame. Qed.
#[local] Hint Resolve keep_decrypt_round : frame.

Lemma keep_decrypt_worker e w w' : wg_packet_decrypt_worker e w = Some w' -> sat P w -> sat P w'.
Proof. intros H. eapply (keep_run_while P); [|exact H]. eauto with frame. Qed.
#[local] Hint Resolve keep_decrypt_worker : frame.

Lemma keep_consume_data e skb w w' : wg_packet_consume_data e skb w = Some w' -> sat P w -> sat P w'.
Proof. cbv beta delta [wg_packet_consume_data]. frame. Qed.
#[local] Hint Resolve keep_consume_data : frame.

Lemma keep_receive e r w w' : wg_packet_receive e r w = Some w' -> sat P w -> sat P w'.
Proof. cbv beta delta [wg_packet_receive]. frame. Qed.
#[local] Hint Resolve keep_receive : frame.

Lemma keep_wg_receive e b r w w' : wg_receive e b r w = Some w' -> sat P w -> sat P w'.
Proof. cbv beta delta [wg_receive]. frame. Qed.
#[local] Hint Resolve keep_wg_receive : frame.

End ReceiveQueues.

#[export] Hint Resolve keep_enqueue_dev keep_handshake_round keep_handshake_worker keep_decrypt_round keep_decrypt_worker keep_consume_data keep_receive keep_wg_receive : frame.

(** ** Timers that expire *)

Section Expiry.
Context {C : Crypto} {K : Hashes} {N : NetStack} (P : wg_device -> Prop) {B : Kept P}.

Lemma keep_expired_retransmit e p w w' : wg_expired_retransmit_handshake e p w = Some w' -> sat P w -> sat P w'.
Proof. cbv beta delta [wg_expired_retransmit_handshake]. frame. Qed.
#[local] Hint Resolve keep_expired_retransmit : frame.

Lemma keep_expired_keepalive e p w w' : wg_expired_send_keepalive e p w = Some w' -> sat P w -> sat P w'.
Proof. cbv beta delta [wg_expired_send_keepalive]. frame. Qed.
#[local] Hint Resolve keep_expired_keepalive : frame.

Lemma keep_expired_new_handshake e p w w' : wg_expired_new_handshake e p w = Some w' -> sat P w -> sat P w'.
Proof. cbv beta delta [wg_expired_new_handshake]. frame. Qed.
#[local] Hint Resolve keep_expired_new_handshake : frame.

Lemma keep_expired_zero p w w' : wg_expired_zero_key_material p w = Some w' -> sat P w -> sat P w'.
Proof. cbv beta delta [wg_expired_zero_key_material]. frame. Qed.
#[local] Hint Resolve keep_expired_zero : frame.

Lemma keep_queued_zero p w w' : wg_queued_expired_zero_key_material p w = Some w' -> sat P w -> sat P w'.
Proof. cbv beta delta [wg_queued_expired_zero_key_material]. frame. Qed.
#[local] Hint Resolve keep_queued_zero : frame.

Lemma keep_expired_persistent e p w w' : wg_expired_send_persistent_keepalive e p w = Some w' -> sat P w -> sat P w'.
Proof. cbv beta delta [wg_expired_send_persistent_keepalive]. frame. Qed.
#[local] Hint Resolve keep_expired_persistent : frame.

End Expiry.

#[export] Hint Resolve keep_expired_retransmit keep_expired_keepalive keep_expired_new_handshake keep_expired_zero keep_queued_zero keep_expired_persistent : frame.
