(* ===== verification/Workers.v ===== *)
(** * Workers: the work queues of a device

    Which function a work item calls, and [flush_workqueue]: the items that are pending when it is
    called are run, one after the other; what they queue themselves stays pending. Every run has the
    answers of the kernel for it. *)

From S2P Require Import Prelude Messages Skb Replay AllowedIps PeerLookup RateLimiter Crypto NoiseCrypto PrevQueue World Objects.
From S2P Require Import Keypairs Noise Cookie Socket Queueing Timers Send Receive TimerEvents.

Definition NAPI_POLL_WEIGHT : Z := 64.

(** The queue an item is on. *)
Inductive workqueue := handshake_receive_wq | handshake_send_wq | packet_crypt_wq | napi_threads.

#[export] Instance workqueue_eq_dec : EqDecision workqueue.
Proof. solve_decision. Defined.

Definition queue_of (wk : work) : workqueue :=
  match wk with
  | TransmitHandshake _ | ClearPeer _ => handshake_send_wq
  | TransmitPacket _ | Encrypt _ | Decrypt _ => packet_crypt_wq
  | HandshakeReceive _ => handshake_receive_wq
  | Napi _ => napi_threads
  end.

(** An item is not pending any more when its function starts. *)
Definition take_work (wk : work) : wg_device -> wg_device :=
  upd_d_works (List.filter (fun wk' => negb (bool_decide (wk' = wk)))).

Section Workers.
Context {C : Crypto} {K : Hashes} {N : NetStack}.

Definition run_work (retries : nat) (e : env) (wk : work) (w : wg_device) : option wg_device :=
  match wk with
  | TransmitHandshake p => wg_packet_handshake_send_worker e p (take_work wk w)
  | ClearPeer p => wg_queued_expired_zero_key_material p (take_work wk w)
  | TransmitPacket p => wg_packet_tx_worker e p (take_work wk w)
  | Encrypt _ => wg_packet_encrypt_worker e (take_work wk w)
  | Decrypt _ => wg_packet_decrypt_worker e (take_work wk w)
  | HandshakeReceive _ => wg_packet_handshake_receive_worker e (take_work wk w)
  | Napi p => snd <$> wg_packet_rx_poll retries e p NAPI_POLL_WEIGHT w
  end.

Fixpoint run_works (retries : nat) (envs : work -> env) (wks : list work) (w : wg_device) : option wg_device :=
  match wks with
  | [] => Some w
  | wk :: wks => w ← run_work retries (envs wk) wk w; run_works retries envs wks w
  end.

Definition flush_workqueue (retries : nat) (envs : work -> env) (wq : workqueue) (w : wg_device) : option wg_device :=
  run_works retries envs (List.filter (fun wk => bool_decide (queue_of wk = wq)) (d_works w)) w.

Definition flush_work (retries : nat) (envs : work -> env) (wk : work) (w : wg_device) : option wg_device :=
  if bool_decide (wk ∈ d_works w) then run_work retries (envs wk) wk w else Some w.

(** [napi_disable]: a poll that is scheduled still runs, no further one does. *)
Definition napi_disable (retries : nat) (envs : work -> env) (p : peer_id) (w : wg_device) : option wg_device :=
  w ← flush_work retries envs (Napi p) w;
  Some (upd_peer p (upd_p_napi_enabled (fun _ => false)) (napi_complete_done p w)).

(** timers.c *)
Definition wg_timers_stop (retries : nat) (envs : work -> env) (p : peer_id) (w : wg_device) : option wg_device :=
  let w := del_timer p upd_p_timer_retransmit_handshake w in
  let w := del_timer p upd_p_timer_send_keepalive w in
  let w := del_timer p upd_p_timer_new_handshake w in
  let w := del_timer p upd_p_timer_zero_key_material w in
  let w := del_timer p upd_p_timer_persistent_keepalive w in
  flush_work retries envs (ClearPeer p) w.
End Workers.
