(* ===== verification/Peer.v ===== *)
(** * Peer: peer.c, creating and removing peers

    The reference counts of peer.c are in Objects. A removal waits for work that is under way: the
    flushes run it. *)

From S2P Require Import Prelude Messages Skb AllowedIps PeerLookup Crypto PrevQueue World Objects Keypairs Noise Cookie Socket Timers.
From S2P Require Import Workers.

(** The memory of a new peer. *)
Definition zero_queue : prev_queue := {| q_next := ∅; q_head := STUB; q_tail := STUB; q_peeked := None; q_count := 0 |}.

Section Peer.
Context {C : Crypto} {K : Hashes} {N : NetStack}.

(** The fields of a new peer in the order [wg_peer_create] sets them. *)
Definition new_wg_peer (e : env) (w : wg_device) (public_key : bytes) (preshared_key : option bytes) (internal_id : Z) : wg_peer :=
  let pr :=
    {| p_tx_queue := wg_prev_queue_init zero_queue; p_rx_queue := wg_prev_queue_init zero_queue;
       p_staged_packet_queue := []; p_serial_work_cpu := nr_cpu_ids e; p_is_dead := false;
       p_keypairs := {| current_keypair := None; previous_keypair := None; next_keypair := None |};
       p_endpoint := {| ep_family := 0; ep_port := zeroes 2; ep_addr := []; ep_scope_id := 0; ep_src := []; ep_src_if4 := 0 |};
       p_handshake := wg_noise_handshake_init (d_static_identity w) public_key preshared_key;
       p_last_sent_handshake := 0; p_latest_cookie := wg_cookie_init; p_rx_bytes := 0; p_tx_bytes := 0;
       p_timer_retransmit_handshake := None; p_timer_send_keepalive := None; p_timer_new_handshake := None;
       p_timer_zero_key_material := None; p_timer_persistent_keepalive := None; p_timer_handshake_attempts := 0;
       p_persistent_keepalive_interval := 0; p_timer_need_another_keepalive := false;
       p_sent_lastminute_handshake := false; p_walltime_last_handshake := (0, 0); p_refcount := 1;
       p_napi_enabled := true; p_internal_id := internal_id |} in
  wg_noise_reset_last_sent_handshake e (wg_cookie_checker_precompute_peer_keys (wg_timers_init pr)).

Definition wg_peer_create (e : env) (public_key : bytes) (preshared_key : option bytes) (w : wg_device)
  : (Z + peer_id) * wg_device :=
  if MAX_PEERS_PER_DEVICE <=? d_num_peers w then (inl (- ENOMEM), w)
  else
    match new_peer e with
    | None => (inl (- ENOMEM), w)
    | Some p =>
        if negb (dst_cache_ok e) then (inl (- ENOMEM), w)
        else
          let internal_id := u64 (d_peer_counter w + 1) in
          let w := upd_d_peer_counter (fun _ => internal_id) w in
          let w := upd_d_peers (insert p (new_wg_peer e w public_key preshared_key internal_id)) w in
          let w := upd_d_index_hashtable (set_entry (Handshake p) (handshake_entry p)) w in
          let w := upd_d_peer_list (fun l => l ++ [p]) w in
          let w := upd_d_peer_allowedips (set_peer_lists (insert p [])) w in
          let w := upd_d_peer_hashtable (wg_pubkey_hashtable_add siphash public_key p) w in
          (inr p, upd_d_num_peers (fun n => n + 1) w)
    end.

Definition peer_make_dead (p : peer_id) (w : wg_device) : option wg_device :=
  let w := upd_d_peer_list (List.filter (fun q => negb (bool_decide (q = p)))) w in
  t ← wg_allowedips_remove_by_peer p (d_peer_allowedips w);
  let w := upd_d_peer_allowedips (fun _ => t) w in
  let w := upd_d_peer_hashtable (wg_pubkey_hashtable_remove p) w in
  Some (upd_peer p (upd_p_is_dead (fun _ => true)) w).

(** [envs i] are the kernel's answers during the i-th wait. *)
Definition peer_remove_after_dead (retries : nat) (envs : nat -> work -> env) (p : peer_id) (w : wg_device) : option wg_device :=
  w ← wg_noise_keypairs_clear p w;
  w ← wg_timers_stop retries (envs 0%nat) p w;
  w ← flush_workqueue retries (envs 1%nat) packet_crypt_wq w;
  w ← flush_workqueue retries (envs 2%nat) packet_crypt_wq w;
  w ← napi_disable retries (envs 3%nat) p w;
  w ← flush_workqueue retries (envs 4%nat) handshake_send_wq w;
  wg_peer_put p (upd_d_num_peers (fun n => u32 (n - 1)) w).

Definition wg_peer_remove (retries : nat) (envs : nat -> work -> env) (p : option peer_id) (w : wg_device) : option wg_device :=
  match p with
  | None => Some w
  | Some p => w ← peer_make_dead p w; peer_remove_after_dead retries envs p w
  end.

Fixpoint make_all_dead (ps : list peer_id) (w : wg_device) : option wg_device :=
  match ps with [] => Some w | p :: ps => w ← peer_make_dead p w; make_all_dead ps w end.

Fixpoint remove_all_dead (retries : nat) (envs : peer_id -> nat -> work -> env) (ps : list peer_id) (w : wg_device) : option wg_device :=
  match ps with [] => Some w | p :: ps => w ← peer_remove_after_dead retries (envs p) p w; remove_all_dead retries envs ps w end.

Definition wg_peer_remove_all (retries : nat) (envs : peer_id -> nat -> work -> env) (w : wg_device) : option wg_device :=
  t ← wg_allowedips_free (d_peer_allowedips w);
  let w := upd_d_peer_allowedips (fun _ => t) w in
  let dead_peers := d_peer_list w in
  w ← make_all_dead dead_peers w;
  remove_all_dead retries envs dead_peers w.
End Peer.
