(* ===== verification/Device.v ===== *)
(** * Device: device.c, the network interface

    Opening, stopping and transmitting on the interface, and what its destruction does to the state
    of the device; the resources it acquires and gives back are in DeviceLife. [netif_running] is
    [d_running]: the network core sets it before [wg_open] and clears it before [wg_stop]. *)

From S2P Require Import Prelude Messages Skb Replay AllowedIps PeerLookup RateLimiter Crypto NoiseCrypto PrevQueue World Samples.
From S2P Require Import Objects Keypairs Noise Cookie Socket Queueing Timers Send Receive TimerEvents Workers Peer.

Definition NETDEV_TX_OK : Z := 0.
Definition ETH_DATA_LEN : Z := 1500.
Definition INT_MAX : Z := 2 ^ 31 - 1.

(** ** wg_setup: the sizes *)

Definition overhead : Z := Z.of_nat MESSAGE_MINIMUM_LENGTH + sizeof_udphdr + Z.max sizeof_ipv6hdr sizeof_iphdr.
Definition wg_setup_mtu : Z := ETH_DATA_LEN - overhead.
Definition wg_setup_max_mtu : Z := ALIGN_DOWN INT_MAX MESSAGE_PADDING_MULTIPLE - overhead.
Definition wg_setup_needed_tailroom : nat := noise_encrypted_len (Z.to_nat MESSAGE_PADDING_MULTIPLE).

(** ** Transmitting *)

(** A packet from the network core: whether it is to be segmented (the segments or an error), the
    MTU of its route, and for which packets [skb_share_check] finds memory. *)
Record xmit_skb := {
  x_skb : sk_buff;
  x_gso : option (Z + list sk_buff);
  x_dst_mtu : option Z;
  x_share_ok : sk_buff -> bool
}.

Section Device.
Context {C : Crypto} {K : Hashes} {N : NetStack}.

(** The label [err]. *)
Definition xmit_err (ret : Z) (w : wg_device) : option (Z * wg_device) :=
  Some (ret, upd_d_stats (upd_st_tx_errors (fun n => n + 1)) w).

(** The label [err_icmp]. *)
Definition xmit_err_icmp (skb : sk_buff) (ret : Z) (w : wg_device) : option (Z * wg_device) :=
  let w :=
    if protocol skb =? ETH_P_IP then upd_d_outputs (fun o => o ++ [ToIcmp AF_INET (data skb)]) w
    else if protocol skb =? ETH_P_IPV6 then upd_d_outputs (fun o => o ++ [ToIcmp AF_INET6 (data skb)]) w
    else w in
  xmit_err ret w.

(** Stage packets for a peer; the oldest ones go when there are too many. *)
Definition stage_packets (p : peer_id) (pks : list packet) (w : wg_device) : option wg_device :=
  pr ← d_peers w !! p;
  let excess := (length (p_staged_packet_queue pr) - Z.to_nat MAX_STAGED_PACKETS)%nat in
  let w := upd_d_stats (upd_st_tx_dropped (fun n => n + Z.of_nat excess)) w in
  Some (upd_peer p (upd_p_staged_packet_queue (fun l => drop excess l ++ pks)) w).

Definition wg_xmit (retries : nat) (e : env) (x : xmit_skb) (w : wg_device) : option (Z * wg_device) :=
  let skb := x_skb x in
  if negb (wg_check_packet_protocol (data skb) skb) then xmit_err (- EPROTONOSUPPORT) w
  else
    peer ← wg_allowedips_lookup_dst retries (peer_alive w) (d_peer_allowedips w) skb;
    match peer with
    | None => xmit_err_icmp skb (- ENOKEY) w
    | Some p =>
        let w := wg_peer_get p w in
        pr ← d_peers w !! p;
        let family := ep_family (p_endpoint pr) in
        if negb (family =? AF_INET) && negb (family =? AF_INET6) then
          w ← wg_peer_put p w; xmit_err_icmp skb (- EDESTADDRREQ) w
        else
          let mtu := match x_dst_mtu x with Some mtu => mtu | None => d_mtu w end in
          match (match x_gso x with Some segs => segs | None => inr [skb] end) with
          | inl err => w ← wg_peer_put p w; xmit_err_icmp skb err w
          | inr segs =>
              let pks := map (fun s => {| pk_skb := s; pk_nonce := 0; pk_mtu := mtu; pk_ds := 0 |}) (List.filter (x_share_ok x) segs) in
              w ← stage_packets p pks w;
              w ← wg_packet_send_staged_packets e p w;
              w ← wg_peer_put p w;
              Some (NETDEV_TX_OK, w)
          end
    end.

(** ** Opening and stopping *)

(** [list_for_each_entry(peer, &wg->peer_list, peer_list)] *)
Fixpoint for_each_peer (f : peer_id -> wg_device -> option wg_device) (ps : list peer_id) (w : wg_device) : option wg_device :=
  match ps with [] => Some w | p :: ps => w ← f p w; for_each_peer f ps w end.

(** [envs p] and [envs' p] are the kernel's answers when the packets and the keepalive of [p] are sent. *)
Definition wg_open (e : env) (envs envs' : peer_id -> env) (w : wg_device) : option (Z * wg_device) :=
  '(ret, w) ← wg_socket_init e (d_incoming_port w) w;
  if ret <? 0 then Some (ret, w)
  else
    w ← for_each_peer (fun p w =>
          w ← wg_packet_send_staged_packets (envs p) p w;
          pr ← d_peers w !! p;
          if negb (p_persistent_keepalive_interval pr =? 0) then wg_packet_send_keepalive (envs' p) p w else Some w)
        (d_peer_list w) w;
    Some (ret, w).

Definition wg_stop (retries : nat) (e : env) (envs : work -> env) (w : wg_device) : option (Z * wg_device) :=
  w ← for_each_peer (fun p w =>
        w ← wg_packet_purge_staged_packets p w;
        w ← wg_timers_stop retries envs p w;
        let w := wg_noise_handshake_clear p w in
        w ← wg_noise_keypairs_clear p w;
        Some (upd_peer p (wg_noise_reset_last_sent_handshake e) w))
      (d_peer_list w) w;
  let w := upd_d_handshake_queue (fun _ => []) w in
  let w := upd_d_handshake_queue_len (fun _ => 0) w in
  Some (0, wg_socket_reinit None None w).

(** [wg_pm_notification] for one device; [clears_keys] tells whether the machine suspends and is
    not one that does so all the time. *)
Definition wg_pm_notification (clears_keys : bool) (w : wg_device) : option wg_device :=
  if negb clears_keys then Some w
  else
    for_each_peer (fun p w =>
      let w := del_timer p upd_p_timer_zero_key_material w in
      let w := wg_noise_handshake_clear p w in
      wg_noise_keypairs_clear p w) (d_peer_list w) w.

(** [wg_netns_pre_exit] for one device. *)
Definition wg_netns_pre_exit (net : Z) (w : wg_device) : option wg_device :=
  if bool_decide (d_creating_net w = Some net) then
    let w := upd_d_creating_net (fun _ => None) w in
    let w := wg_socket_reinit None None w in
    for_each_peer (fun p w => Some (wg_socket_clear_peer_endpoint_src p w)) (d_peer_list w) w
  else Some w.

(** [wg_destruct], up to the resources of DeviceLife: the sockets go, then the peers with the work
    that is under way for them, and at the end the device's own keys. *)
Definition wg_destruct (retries : nat) (envs : peer_id -> nat -> work -> env) (w : wg_device) : option wg_device :=
  let w := upd_d_creating_net (fun _ => None) w in
  let w := upd_d_incoming_port (fun _ => 0) w in
  let w := wg_socket_reinit None None w in
  w ← wg_peer_remove_all retries envs w;
  let w := upd_d_handshake_queue (fun _ => []) w in
  Some (upd_d_static_identity (fun _ => {| has_identity := false; static_public := zeroes NOISE_PUBLIC_KEY_LEN; static_private := zeroes NOISE_PUBLIC_KEY_LEN |}) w).
End Device.
