(* ===== verification/Netlink.v ===== *)
(** * Netlink: netlink.c, configuring a device

    A request is given as the attributes the netlink core hands over after parsing: a record with an
    optional payload per attribute, numbers for the integer types of the policies, a list for a
    nested attribute, in which an element may be malformed (the negative result of
    [nla_parse_nested]). The flags are those of include/uapi/linux/wireguard.h. *)

From S2P Require Import Prelude Messages Skb Replay AllowedIps PeerLookup RateLimiter Crypto NoiseCrypto PrevQueue World Samples Objects.
From S2P Require Import Keypairs Noise Cookie Socket Queueing Timers Send Receive TimerEvents Workers Peer Device.

Definition WGPEER_F_REMOVE_ME : Z := 1.
Definition WGPEER_F_REPLACE_ALLOWEDIPS : Z := 2.
Definition WGPEER_F_UPDATE_ONLY : Z := 4.
Definition WGPEER_F_ALL : Z := 7.
Definition WGDEVICE_F_REPLACE_PEERS : Z := 1.
Definition WGDEVICE_F_ALL : Z := 1.

(** [flags & ~all] and [flags & f], on [u32] *)
Definition has_unknown_flags (flags all : Z) : bool := negb (Z.land flags (Z.lxor (2 ^ 32 - 1) all) =? 0).
Definition has_flag (flags f : Z) : bool := negb (Z.land flags f =? 0).

Record allowedip_attrs := { ai_family : option Z; ai_ipaddr : option bytes; ai_cidr_mask : option Z }.

Record peer_attrs := {
  pa_public_key : option bytes;
  pa_preshared_key : option bytes;
  pa_flags : option Z;
  pa_endpoint : option bytes;
  pa_persistent_keepalive_interval : option Z;
  pa_allowedips : option (list (Z + allowedip_attrs));
  pa_protocol_version : option Z
}.

Record device_attrs := {
  da_ifindex : option Z;
  da_ifname : option bytes;
  da_private_key : option bytes;
  da_flags : option Z;
  da_listen_port : option Z;
  da_fwmark : option Z;
  da_peers : option (list (Z + peer_attrs))
}.

(** ** The interface a request is about *)

(** A network device: the kind of its link, and what [netdev_priv] gives. *)
Record net_device (D : Type) := { nd_kind : option bytes; nd_priv : D }.
Arguments nd_kind {D}.
Arguments nd_priv {D}.

Definition lookup_interface {D} (modname : bytes) (dev_get_by_index : Z -> option (net_device D))
    (dev_get_by_name : bytes -> option (net_device D)) (attrs : device_attrs) : Z + D :=
  match da_ifindex attrs, da_ifname attrs with
  | None, None | Some _, Some _ => inl (- EBADR)
  | Some ifindex, None =>
      match dev_get_by_index ifindex with
      | None => inl (- ENODEV)
      | Some dev => if bool_decide (nd_kind dev = Some modname) then inr (nd_priv dev) else inl (- EOPNOTSUPP)
      end
  | None, Some ifname =>
      match dev_get_by_name ifname with
      | None => inl (- ENODEV)
      | Some dev => if bool_decide (nd_kind dev = Some modname) then inr (nd_priv dev) else inl (- EOPNOTSUPP)
      end
  end.

(** ** Setting *)

(** The kernel's answers while one peer of a request is set: for the creation of the peer, its
    keepalive and its staged packets, while it is removed, and for the nodes of the i-th route. *)
Record peer_env := {
  pe_create : env;
  pe_keepalive : env;
  pe_staged : env;
  pe_remove : nat -> work -> env;
  pe_route : nat -> option nid * option nid
}.

(** The endpoint in a [struct sockaddr_in] or [struct sockaddr_in6]. *)
Definition sockaddr_endpoint (addr : bytes) : option endpoint :=
  let sa_family := le_val (field 0 2 addr) in
  if (length addr =? 16)%nat && (sa_family =? AF_INET) then
    Some {| ep_family := AF_INET; ep_port := field 2 2 addr; ep_addr := field 4 4 addr; ep_scope_id := 0; ep_src := zeroes 4; ep_src_if4 := 0 |}
  else if (length addr =? 28)%nat && (sa_family =? AF_INET6) then
    Some {| ep_family := AF_INET6; ep_port := field 2 2 addr; ep_addr := field 8 16 addr; ep_scope_id := le_val (field 24 4 addr);
            ep_src := zeroes 16; ep_src_if4 := 0 |}
  else None.

Section Netlink.
Context {C : Crypto} {K : Hashes} {N : NetStack}.

Definition set_port (e : env) (port : Z) (w : wg_device) : option (Z * wg_device) :=
  if d_incoming_port w =? port then Some (0, w)
  else
    w ← for_each_peer (fun p w => Some (wg_socket_clear_peer_endpoint_src p w)) (d_peer_list w) w;
    if negb (d_running w) then Some (0, upd_d_incoming_port (fun _ => port) w)
    else wg_socket_init e port w.

Definition set_allowedip (mem : option nid * option nid) (p : peer_id) (attrs : allowedip_attrs) (w : wg_device) : option (Z * wg_device) :=
  match ai_family attrs, ai_ipaddr attrs, ai_cidr_mask attrs with
  | Some family, Some ip, Some cidr =>
      if (family =? AF_INET) && (cidr <=? 32) && (length ip =? 4)%nat then
        '(ret, t) ← wg_allowedips_insert_v4 ip cidr (Some p) (fst mem) (snd mem) (d_peer_allowedips w);
        Some (ret, upd_d_peer_allowedips (fun _ => t) w)
      else if (family =? AF_INET6) && (cidr <=? 128) && (length ip =? 16)%nat then
        '(ret, t) ← wg_allowedips_insert_v6 ip cidr (Some p) (fst mem) (snd mem) (d_peer_allowedips w);
        Some (ret, upd_d_peer_allowedips (fun _ => t) w)
      else Some (- EINVAL, w)
  | _, _, _ => Some (- EINVAL, w)
  end.

(** The loop over the allowed IPs, from the i-th on; [ret] is its result so far. *)
Fixpoint set_allowedips (mem : nat -> option nid * option nid) (i : nat) (p : peer_id) (l : list (Z + allowedip_attrs)) (ret : Z)
    (w : wg_device) : option (Z * wg_device) :=
  match l with
  | [] => Some (ret, w)
  | inl err :: _ => Some (err, w)
  | inr attrs :: l =>
      '(ret, w) ← set_allowedip (mem i) p attrs w;
      if ret <? 0 then Some (ret, w) else set_allowedips mem (S i) p l ret w
  end.

(** The peer a request is about, with a reference on it, or [None] and the result. *)
Definition find_or_create_peer (e : env) (public_key : bytes) (preshared_key : option bytes) (flags : Z) (w : wg_device)
  : (Z + peer_id * Z) * wg_device :=
  match pubkey_lookup siphash public_key w with
  | (Some p, w) => (inr (p, flags), w)
  | (None, w) =>
      if has_flag flags (Z.lor WGPEER_F_REMOVE_ME WGPEER_F_UPDATE_ONLY) then (inl 0, w)
      else
        let flags := Z.land flags (Z.lxor (2 ^ 32 - 1) WGPEER_F_REPLACE_ALLOWEDIPS) in
        if has_identity (d_static_identity w) && bytes_eqb public_key (static_public (d_static_identity w)) then (inl 0, w)
        else
          match wg_peer_create e public_key preshared_key w with
          | (inl err, w) => (inl err, w)
          | (inr p, w) => (inr (p, flags), wg_peer_get p w)
          end
  end.

(** What is set on a peer that stays, up to the label [out]. *)
Definition update_peer (pe : peer_env) (p : peer_id) (flags : Z) (preshared_key : option bytes) (attrs : peer_attrs) (w : wg_device)
  : option (Z * wg_device) :=
  let w := match preshared_key with Some k => upd_handshake p (upd_hs_preshared_key (fun _ => k)) w | None => w end in
  let w := match pa_endpoint attrs ≫= sockaddr_endpoint with Some ep => wg_socket_set_peer_endpoint p ep w | None => w end in
  w ← (if has_flag flags WGPEER_F_REPLACE_ALLOWEDIPS then
         t ← wg_allowedips_remove_by_peer p (d_peer_allowedips w); Some (upd_d_peer_allowedips (fun _ => t) w)
       else Some w);
  '(ret, w) ← set_allowedips (pe_route pe) 0 p (default [] (pa_allowedips attrs)) 0 w;
  if ret <? 0 then Some (ret, w)
  else
    w ← match pa_persistent_keepalive_interval attrs with
        | Some interval =>
            pr ← d_peers w !! p;
            let send_keepalive := (p_persistent_keepalive_interval pr =? 0) && negb (interval =? 0) && d_running w in
            let w := upd_peer p (upd_p_persistent_keepalive_interval (fun _ => interval)) w in
            if send_keepalive then wg_packet_send_keepalive (pe_keepalive pe) p w else Some w
        | None => Some w
        end;
    w ← (if d_running w then wg_packet_send_staged_packets (pe_staged pe) p w else Some w);
    Some (ret, w).

Definition set_peer (retries : nat) (pe : peer_env) (attrs : peer_attrs) (w : wg_device) : option (Z * wg_device) :=
  match pa_public_key attrs with
  | None => Some (- EINVAL, w)
  | Some public_key =>
      if negb (length public_key =? NOISE_PUBLIC_KEY_LEN)%nat then Some (- EINVAL, w)
      else
        let preshared_key := k ← pa_preshared_key attrs; if (length k =? NOISE_SYMMETRIC_KEY_LEN)%nat then Some k else None in
        let flags := default 0 (pa_flags attrs) in
        if has_unknown_flags flags WGPEER_F_ALL then Some (- EOPNOTSUPP, w)
        else if negb (default 1 (pa_protocol_version attrs) =? 1) then Some (- EPFNOSUPPORT, w)
        else
          match find_or_create_peer (pe_create pe) public_key preshared_key flags w with
          | (inl ret, w) => Some (ret, w)
          | (inr (p, flags), w) =>
              '(ret, w) ← (if has_flag flags WGPEER_F_REMOVE_ME then
                             w ← wg_peer_remove retries (pe_remove pe) (Some p) w; Some (0, w)
                           else update_peer pe p flags preshared_key attrs w);
              w ← wg_peer_put p w;
              Some (ret, w)
          end
  end.

(** The loop over the peers of a request. *)
Fixpoint set_peers (retries : nat) (pes : nat -> peer_env) (i : nat) (l : list (Z + peer_attrs)) (w : wg_device) : option (Z * wg_device) :=
  match l with
  | [] => Some (0, w)
  | inl err :: _ => Some (err, w)
  | inr attrs :: l =>
      '(ret, w) ← set_peer retries (pes i) attrs w;
      if ret <? 0 then Some (ret, w) else set_peers retries pes (S i) l w
  end.

(** The kernel's answers during a request: when the sockets are opened, while peers are removed, for
    each peer when the private key changes, and for the peers that are set. *)
Record device_env := {
  de_socket : env;
  de_remove_all : peer_id -> nat -> work -> env;
  de_remove : nat -> work -> env;
  de_expire : peer_id -> env;
  de_staged : peer_id -> env;
  de_peer : nat -> peer_env
}.

(** Set the private key; nothing happens when it is the one the device has. *)
Definition set_private_key (retries : nat) (de : device_env) (private_key : bytes) (w : wg_device) : option wg_device :=
  if bytes_eqb (static_private (d_static_identity w)) private_key then Some w
  else
    w ← match curve25519_generate_public private_key with
        | Some public_key =>
            match pubkey_lookup siphash public_key w with
            | (Some p, w) => w ← wg_peer_put p w; wg_peer_remove retries (de_remove de) (Some p) w
            | (None, w) => Some w
            end
        | None => Some w
        end;
    let send_staged_packets := negb (has_identity (d_static_identity w)) && d_running w in
    let w := upd_d_static_identity (wg_noise_set_static_identity_private_key private_key) w in
    let send_staged_packets := send_staged_packets && has_identity (d_static_identity w) in
    let w := upd_d_cookie_checker (wg_cookie_checker_precompute_device_keys (d_static_identity w)) w in
    for_each_peer (fun p w =>
      let w := wg_noise_precompute_static_static p w in
      w ← wg_noise_expire_current_peer_keypairs (de_expire de p) p w;
      if send_staged_packets then wg_packet_send_staged_packets (de_staged de p) p w else Some w) (d_peer_list w) w.

(** [wg_set_device] on the device [lookup_interface] found; [retries] as in [wg_allowedips_lookup_src]. *)
Definition wg_set_device (retries : nat) (de : device_env) (attrs : device_attrs) (w : wg_device) : option (Z * wg_device) :=
  let flags := default 0 (da_flags attrs) in
  if has_unknown_flags flags WGDEVICE_F_ALL then Some (- EOPNOTSUPP, w)
  else if (bool_decide (is_Some (da_listen_port attrs)) || bool_decide (is_Some (da_fwmark attrs)))
          && (negb (bool_decide (is_Some (d_creating_net w))) || negb (ns_capable (de_socket de)))
  then Some (- EPERM, w)
  else
    let w := upd_d_device_update_gen (fun n => u32 (n + 1)) w in
    w ← match da_fwmark attrs with
        | Some mark =>
            for_each_peer (fun p w => Some (wg_socket_clear_peer_endpoint_src p w)) (d_peer_list w) (upd_d_fwmark (fun _ => mark) w)
        | None => Some w
        end;
    '(ret, w) ← match da_listen_port attrs with Some port => set_port (de_socket de) port w | None => Some (0, w) end;
    if negb (ret =? 0) then Some (ret, w)
    else
      w ← (if has_flag flags WGDEVICE_F_REPLACE_PEERS then wg_peer_remove_all retries (de_remove_all de) w else Some w);
      w ← match da_private_key attrs with
          | Some k => if (length k =? NOISE_PUBLIC_KEY_LEN)%nat then set_private_key retries de k w else Some w
          | None => Some w
          end;
      set_peers retries (de_peer de) 0 (default [] (da_peers attrs)) w.
End Netlink.
