(* ===== verification/NetlinkDump.v ===== *)
(** * NetlinkDump: netlink.c, reading the configuration of a device

    A dump is answered in several messages of limited size; a context remembers between the calls
    where to go on. A message is a list of attributes; [room] is what is left of the buffer, and every
    attribute takes its header and its payload, aligned to four bytes. The attribute numbers are those
    of include/uapi/linux/wireguard.h; 64-bit numbers need no padding. Of an endpoint, the members the
    code reads are written (not [sin_zero] and [sin6_flowinfo], which are zero). *)

From S2P Require Import Prelude Messages Skb Replay AllowedIps AllowedIpsInv AllowedIpsProps PeerLookup RateLimiter PrevQueue World Samples Objects.

Definition WGDEVICE_A_IFINDEX : Z := 1.
Definition WGDEVICE_A_IFNAME : Z := 2.
Definition WGDEVICE_A_PRIVATE_KEY : Z := 3.
Definition WGDEVICE_A_PUBLIC_KEY : Z := 4.
Definition WGDEVICE_A_LISTEN_PORT : Z := 6.
Definition WGDEVICE_A_FWMARK : Z := 7.
Definition WGDEVICE_A_PEERS : Z := 8.
Definition WGPEER_A_PUBLIC_KEY : Z := 1.
Definition WGPEER_A_PRESHARED_KEY : Z := 2.
Definition WGPEER_A_ENDPOINT : Z := 4.
Definition WGPEER_A_PERSISTENT_KEEPALIVE_INTERVAL : Z := 5.
Definition WGPEER_A_LAST_HANDSHAKE_TIME : Z := 6.
Definition WGPEER_A_RX_BYTES : Z := 7.
Definition WGPEER_A_TX_BYTES : Z := 8.
Definition WGPEER_A_ALLOWEDIPS : Z := 9.
Definition WGPEER_A_PROTOCOL_VERSION : Z := 10.
Definition WGALLOWEDIP_A_FAMILY : Z := 1.
Definition WGALLOWEDIP_A_IPADDR : Z := 2.
Definition WGALLOWEDIP_A_CIDR_MASK : Z := 3.
Definition NLMSG_GENL_HDRLEN : Z := 20.

(** ** Messages *)

Inductive nlattr := NlAttr (type : Z) (payload : bytes) | NlNest (type : Z) (attrs : list nlattr).

Definition nla_total_size (payload : Z) : Z := ALIGN (4 + payload) 4.

(** [nla_put] for each of the attributes in turn: the room that is left, or [None] when one does not fit. *)
Fixpoint nla_put_all (l : list (Z * bytes)) (room : Z) : option Z :=
  match l with
  | [] => Some room
  | (_, payload) :: l =>
      let n := nla_total_size (Z.of_nat (length payload)) in
      if room <? n then None else nla_put_all l (room - n)
  end.

Definition nla_nest_start (room : Z) : option Z := if room <? 4 then None else Some (room - 4).

Definition attrs_of : list (Z * bytes) -> list nlattr := map (fun a => NlAttr (fst a) (snd a)).

(** ** Allowed IPs *)

Definition allowedip_payload (ip : bytes) (cidr family : Z) : list (Z * bytes) :=
  [(WGALLOWEDIP_A_CIDR_MASK, le_bytes 1 cidr); (WGALLOWEDIP_A_FAMILY, le_bytes 2 family); (WGALLOWEDIP_A_IPADDR, ip)].

(** The attribute and the room left; [None]: [-EMSGSIZE], with the buffer as before. *)
Definition get_allowedips (ip : bytes) (cidr family : Z) (room : Z) : option (nlattr * Z) :=
  room ← nla_nest_start room;
  room ← nla_put_all (allowedip_payload ip cidr family) room;
  Some (NlNest 0 (attrs_of (allowedip_payload ip cidr family)), room).

(** The loop over a peer's nodes: what is written, the room left, and the node that did not fit. *)
Fixpoint get_nodes (t : allowedips) (ns : list nid) (room : Z) : option (list nlattr * Z * option nid) :=
  match ns with
  | [] => Some ([], room, None)
  | n :: ns =>
      nd ← nodes t !! n;
      let '(family, ip, cidr) := wg_allowedips_read_node nd in
      match get_allowedips ip cidr family room with
      | None => Some ([], room, Some n)
      | Some (a, room) => '(l, room, stop) ← get_nodes t ns room; Some (a :: l, room, stop)
      end
  end.

(** [list_for_each_entry_from]: the nodes from [n] on. *)
Fixpoint nodes_from (n : nid) (ns : list nid) : list nid :=
  match ns with [] => [] | m :: ns' => if bool_decide (m = n) then ns else nodes_from n ns' end.

(** ** Peers *)

Record dump_ctx := { next_peer : option peer_id; allowedips_seq : Z; next_allowedip : option nid }.

(** A [struct sockaddr_in] or [struct sockaddr_in6]. *)
Definition sockaddr_bytes (ep : endpoint) : bytes :=
  if ep_family ep =? AF_INET then le_bytes 2 AF_INET ++ ep_port ep ++ ep_addr ep ++ zeroes 8
  else le_bytes 2 AF_INET6 ++ ep_port ep ++ zeroes 4 ++ ep_addr ep ++ le_bytes 4 (ep_scope_id ep).

Definition peer_key (pr : wg_peer) : Z * bytes := (WGPEER_A_PUBLIC_KEY, hs_remote_static (p_handshake pr)).

(** The attributes of a peer that are written when it is begun. *)
Definition peer_payload (pr : wg_peer) : list (Z * bytes) :=
  [(WGPEER_A_PRESHARED_KEY, hs_preshared_key (p_handshake pr));
   (WGPEER_A_LAST_HANDSHAKE_TIME, le_bytes 8 (fst (p_walltime_last_handshake pr)) ++ le_bytes 8 (snd (p_walltime_last_handshake pr)));
   (WGPEER_A_PERSISTENT_KEEPALIVE_INTERVAL, le_bytes 2 (p_persistent_keepalive_interval pr));
   (WGPEER_A_TX_BYTES, le_bytes 8 (p_tx_bytes pr)); (WGPEER_A_RX_BYTES, le_bytes 8 (p_rx_bytes pr));
   (WGPEER_A_PROTOCOL_VERSION, le_bytes 4 1)]
  ++ (if (ep_family (p_endpoint pr) =? AF_INET) || (ep_family (p_endpoint pr) =? AF_INET6)
      then [(WGPEER_A_ENDPOINT, sockaddr_bytes (p_endpoint pr))] else []).

(** The result of [get_peer] (true: 0, false: [-EMSGSIZE]), what it leaves in the message, the room
    and the context. *)
Definition get_peer (p : peer_id) (w : wg_device) (room : Z) (ctx : dump_ctx) : option (bool * list nlattr * Z * dump_ctx) :=
  pr ← d_peers w !! p;
  let t := d_peer_allowedips w in
  let err ctx := Some (false, [], room, ctx) in
  let begin := bool_decide (next_allowedip ctx = None) in
  let header := peer_key pr :: (if begin then peer_payload pr else []) in
  match room' ← nla_nest_start room; nla_put_all header room' with
  | None => err ctx
  | Some room' =>
      let node := if begin then head (plist t p) else next_allowedip ctx in
      let finish extra room' :=
        Some (true, [NlNest 0 (attrs_of header ++ extra)], room', {| next_peer := next_peer ctx; allowedips_seq := 0; next_allowedip := None |}) in
      match node with
      | None => finish [] room'
      | Some node =>
          let seq' := if allowedips_seq ctx =? 0 then seq t else allowedips_seq ctx in
          let ctx := {| next_peer := next_peer ctx; allowedips_seq := seq'; next_allowedip := next_allowedip ctx |} in
          if negb (seq' =? seq t) then finish [] room'
          else
            match nla_nest_start room' with
            | None => err ctx
            | Some room' =>
                '(l, room', stop) ← get_nodes t (nodes_from node (plist t p)) room';
                match stop with
                | None => finish [NlNest WGPEER_A_ALLOWEDIPS l] room'
                | Some n =>
                    Some (false, [NlNest 0 (attrs_of header ++ [NlNest WGPEER_A_ALLOWEDIPS l])], room',
                          {| next_peer := next_peer ctx; allowedips_seq := seq'; next_allowedip := Some n |})
                end
            end
      end
  end.

(** The loop over the peers: what is written, whether all were, the cursor and the context. *)
Fixpoint get_peers (ps : list peer_id) (w : wg_device) (room : Z) (cursor : option peer_id) (ctx : dump_ctx)
  : option (list nlattr * bool * option peer_id * dump_ctx) :=
  match ps with
  | [] => Some ([], true, cursor, ctx)
  | p :: ps =>
      '(ok, out, room, ctx) ← get_peer p w room ctx;
      if ok : bool then '(out', done, cursor, ctx) ← get_peers ps w room (Some p) ctx; Some (out ++ out', done, cursor, ctx)
      else Some (out, false, cursor, ctx)
  end.

(** [list_prepare_entry] and [list_for_each_entry_continue]: the peers after the cursor. *)
Definition peers_after (cursor : option peer_id) (ps : list peer_id) : list peer_id :=
  match cursor with
  | None => ps
  | Some p => tail (nodes_from p ps)
  end.

(** ** The device *)

Definition device_payload (ifindex : Z) (name : bytes) (w : wg_device) : list (Z * bytes) :=
  [(WGDEVICE_A_LISTEN_PORT, le_bytes 2 (d_incoming_port w)); (WGDEVICE_A_FWMARK, le_bytes 4 (d_fwmark w));
   (WGDEVICE_A_IFINDEX, le_bytes 4 ifindex); (WGDEVICE_A_IFNAME, name ++ [0])]
  ++ (if has_identity (d_static_identity w)
      then [(WGDEVICE_A_PRIVATE_KEY, static_private (d_static_identity w)); (WGDEVICE_A_PUBLIC_KEY, static_public (d_static_identity w))]
      else []).

Definition peer_put_opt (p : option peer_id) (w : wg_device) : option wg_device :=
  match p with Some p => wg_peer_put p w | None => Some w end.

Definition peer_is_dead (p : peer_id) (w : wg_device) : bool := match d_peers w !! p with Some pr => p_is_dead pr | None => true end.

(** One call: [None] for [-EMSGSIZE], or the message and whether the dump is complete; the context and
    the device, on which the reference moves from the old cursor to the new one. *)
Definition wg_get_device_dump (ifindex : Z) (name : bytes) (size : Z) (ctx : dump_ctx) (w : wg_device)
  : option (option (list nlattr * bool) * dump_ctx * wg_device) :=
  let header := if bool_decide (next_peer ctx = None) then device_payload ifindex name w else [] in
  match room ← (if size <? NLMSG_GENL_HDRLEN then None else nla_put_all header (size - NLMSG_GENL_HDRLEN)); nla_nest_start room with
  | None => w ← peer_put_opt (next_peer ctx) w; Some (None, ctx, w)
  | Some room =>
      let finish out w := 
        w ← peer_put_opt (next_peer ctx) w; Some (Some (out, true), {| next_peer := None; allowedips_seq := allowedips_seq ctx; next_allowedip := next_allowedip ctx |}, w) in
      if bool_decide (d_peer_list w = []) || match next_peer ctx with Some p => peer_is_dead p w | None => false end then
        finish (attrs_of header) w
      else
        '(out, done, cursor, ctx') ← get_peers (peers_after (next_peer ctx) (d_peer_list w)) w room (next_peer ctx) ctx;
        let out := attrs_of header ++ [NlNest WGDEVICE_A_PEERS out] in
        let w := match cursor with Some p => if done : bool then w else wg_peer_get p w | None => w end in
        w ← peer_put_opt (next_peer ctx) w;
        Some (Some (out, done), {| next_peer := if done : bool then None else cursor; allowedips_seq := allowedips_seq ctx';
                                   next_allowedip := next_allowedip ctx' |}, w)
  end.

(** The end of a dump. *)
Definition wg_get_device_done (ctx : dump_ctx) (w : wg_device) : option wg_device := peer_put_opt (next_peer ctx) w.

(** ** What a dump says

    A reader puts the parts of a peer together by its public key: the items of a message are the
    attributes of its peers, and their allowed IPs one by one, each with the key of the peer. *)

Definition item := (bytes * nlattr)%type.

Definition peer_items (a : nlattr) : list item :=
  match a with
  | NlNest _ (NlAttr _ key :: rest) =>
      concat (map (fun b => match b with NlNest _ l => map (pair key) l | NlAttr _ _ => [(key, b)] end) rest)
  | _ => []
  end.

Definition message_items (l : list nlattr) : list item :=
  concat (map (fun a => match a with NlNest _ ps => concat (map peer_items ps) | NlAttr _ _ => [] end) l).

(** What should be said of a peer. *)
Definition node_attr (t : allowedips) (n : nid) : nlattr :=
  match nodes t !! n with
  | Some nd => let '(family, ip, cidr) := wg_allowedips_read_node nd in NlNest 0 (attrs_of (allowedip_payload ip cidr family))
  | None => NlAttr 0 []
  end.

Definition node_items (w : wg_device) (key : bytes) (ns : list nid) : list item := map (pair key) (map (node_attr (d_peer_allowedips w)) ns).

Definition peer_stream (w : wg_device) (p : peer_id) : list item :=
  match d_peers w !! p with
  | Some pr =>
      let key := snd (peer_key pr) in
      map (pair key) (attrs_of (peer_payload pr)) ++ node_items w key (plist (d_peer_allowedips w) p)
  | None => []
  end.

(** The whole dump: calls until one is the last, on a device that nobody configures meanwhile. *)
Fixpoint dump_all (calls : nat) (ifindex : Z) (name : bytes) (size : Z) (ctx : dump_ctx) (w : wg_device) : option (list item * wg_device) :=
  match calls with
  | O => None
  | S calls =>
      '(r, ctx, w) ← wg_get_device_dump ifindex name size ctx w;
      '(out, done) ← r;
      if done : bool then w ← wg_get_device_done ctx w; Some (message_items out, w)
      else '(l, w) ← dump_all calls ifindex name size ctx w; Some (message_items out ++ l, w)
  end.

Definition start_ctx : dump_ctx := {| next_peer := None; allowedips_seq := 0; next_allowedip := None |}.

(** ** Sizes *)

Definition attrs_size (l : list (Z * bytes)) : Z := fold_right (fun a n => nla_total_size (Z.of_nat (length (snd a))) + n) 0 l.

Lemma nla_total_size_bound n : 0 <= n -> 4 <= nla_total_size n <= n + 7.
Proof. intros Hn. unfold nla_total_size. pose proof (ALIGN_bounds (4 + n) 4). lia. Qed.

Lemma attrs_size_nonneg l : 0 <= attrs_size l.
Proof.
  induction l as [|a l IH]; [done|]. cbn [attrs_size fold_right]. fold (attrs_size l).
  pose proof (nla_total_size_bound (Z.of_nat (length (snd a))) ltac:(lia)). lia.
Qed.

Lemma nla_put_all_spec l room : 0 <= room -> nla_put_all l room = if room <? attrs_size l then None else Some (room - attrs_size l).
Proof.
  revert room. induction l as [|[ty payload] l IH]; intros room Hr; cbn [nla_put_all].
  - change (attrs_size []) with 0. destruct (Z.ltb_spec room 0); [lia|]. f_equal. lia.
  - change (attrs_size ((ty, payload) :: l)) with (nla_total_size (Z.of_nat (length payload)) + attrs_size l).
    pose proof (attrs_size_nonneg l). pose proof (nla_total_size_bound (Z.of_nat (length payload)) ltac:(lia)).
    destruct (Z.ltb_spec room (nla_total_size (Z.of_nat (length payload)))).
    + destruct (Z.ltb_spec room (nla_total_size (Z.of_nat (length payload)) + attrs_size l)); [done|lia].
    + rewrite IH by lia. destruct (Z.ltb_spec (room - nla_total_size (Z.of_nat (length payload))) (attrs_size l)),
        (Z.ltb_spec room (nla_total_size (Z.of_nat (length payload)) + attrs_size l)); try lia; [done|]. f_equal. lia.
Qed.

(** A nest and the attributes in it. *)
Lemma nested_put_spec l room :
  0 <= room -> (room' ← nla_nest_start room; nla_put_all l room') = if room <? 4 + attrs_size l then None else Some (room - 4 - attrs_size l).
Proof.
  intros Hr. unfold nla_nest_start. pose proof (attrs_size_nonneg l). destruct (Z.ltb_spec room 4); cbn [mbind option_bind].
  - destruct (Z.ltb_spec room (4 + attrs_size l)); [done|lia].
  - rewrite nla_put_all_spec by lia. destruct (Z.ltb_spec (room - 4) (attrs_size l)), (Z.ltb_spec room (4 + attrs_size l)); try lia; done.
Qed.

Lemma allowedip_size ip cidr family : (length ip <= 16)%nat -> attrs_size (allowedip_payload ip cidr family) <= 40.
Proof.
  intros H. unfold allowedip_payload. cbn [attrs_size fold_right snd]. rewrite !le_bytes_length.
  pose proof (nla_total_size_bound (Z.of_nat (length ip)) ltac:(lia)).
  change (nla_total_size (Z.of_nat 1)) with 8. change (nla_total_size (Z.of_nat 2)) with 8. lia.
Qed.

(** ** The device a dump reads *)

(** What a dump reads of a peer and of the device. *)
Definition dump_view (pr : wg_peer) := (peer_key pr, peer_payload pr, p_is_dead pr).
Definition dump_obs (w : wg_device) :=
  (d_peer_list w, dump_view <$> d_peers w, d_peer_allowedips w, d_static_identity w, (d_incoming_port w, d_fwmark w)).

(** The listed peers exist and are alive, their lists of routes are in order, and a message of [size]
    bytes holds the attributes of the device, those of one peer, and one allowed IP. *)
Record dump_ok (ifindex : Z) (name : bytes) (size : Z) (w : wg_device) : Prop := {
  do_nodup : NoDup (d_peer_list w);
  do_peers p : p ∈ d_peer_list w -> exists pr, d_peers w !! p = Some pr /\ p_is_dead pr = false /\
    NLMSG_GENL_HDRLEN + attrs_size (device_payload ifindex name w) + 8 + attrs_size (peer_key pr :: peer_payload pr) + 48 <= size;
  do_size : NLMSG_GENL_HDRLEN + attrs_size (device_payload ifindex name w) + 4 <= size;
  do_nodes p n : n ∈ plist (d_peer_allowedips w) p ->
    exists nd, nodes (d_peer_allowedips w) !! n = Some nd /\ (length (snd (fst (wg_allowedips_read_node nd))) <= 16)%nat;
  do_lists p : NoDup (plist (d_peer_allowedips w) p);
  do_seq : seq (d_peer_allowedips w) <> 0
}.

Lemma dump_view_inv pr pr' :
  dump_view pr' = dump_view pr -> peer_key pr' = peer_key pr /\ peer_payload pr' = peer_payload pr /\ p_is_dead pr' = p_is_dead pr.
Proof. intros H. split_and!; [exact (f_equal (fun x => x.1.1) H)|exact (f_equal (fun x => x.1.2) H)|exact (f_equal snd H)]. Qed.

Lemma dump_view_lookup w w' p pr :
  dump_obs w' = dump_obs w -> d_peers w !! p = Some pr -> exists pr', d_peers w' !! p = Some pr' /\ dump_view pr' = dump_view pr.
Proof.
  intros E Hp. assert (H : (dump_view <$> d_peers w') !! p = (dump_view <$> d_peers w) !! p) by (unfold dump_obs in E; congruence).
  rewrite !lookup_fmap, Hp in H. destruct (d_peers w' !! p) as [pr'|]; [|done]. exists pr'. split; [done|]. unfold fmap, option_fmap, option_map in H. congruence.
Qed.

Lemma device_payload_same ifindex name w w' : dump_obs w' = dump_obs w -> device_payload ifindex name w' = device_payload ifindex name w.
Proof. intros E. unfold dump_obs in E. injection E as _ _ _ E1 E2 E3. unfold device_payload. by rewrite E1, E2, E3. Qed.

Lemma dump_ok_same ifindex name size w w' : dump_obs w' = dump_obs w -> dump_ok ifindex name size w -> dump_ok ifindex name size w'.
Proof.
  intros E O. pose proof (device_payload_same ifindex name _ _ E) as Ed. pose proof E as E'. unfold dump_obs in E'. injection E' as E1 _ E3 _ _ _.
  split; rewrite ?E1, ?E3, ?Ed; try apply O. intros p Hp. destruct (do_peers _ _ _ _ O p Hp) as (pr & Hpr & Hdead & Hsize).
  destruct (dump_view_lookup _ _ _ _ E Hpr) as (pr' & Hpr' & Hv). apply dump_view_inv in Hv as (Hk & Hv2 & Hv3). exists pr'. split; [done|].
  by rewrite Hk, Hv2, Hv3.
Qed.

Lemma peer_stream_same w w' p : dump_obs w' = dump_obs w -> peer_stream w' p = peer_stream w p.
Proof.
  intros E. assert (H : (dump_view <$> d_peers w') !! p = (dump_view <$> d_peers w) !! p) by (unfold dump_obs in E; congruence).
  assert (Et : d_peer_allowedips w' = d_peer_allowedips w) by (unfold dump_obs in E; congruence).
  unfold peer_stream, node_items. rewrite Et. rewrite !lookup_fmap in H.
  destruct (d_peers w' !! p) as [pr'|], (d_peers w !! p) as [pr|]; try done.
  apply (inj Some), dump_view_inv in H as (Hk & Hv & _). by rewrite Hk, Hv.
Qed.

Lemma dump_obs_upd_peer p f w : (forall pr, dump_view (f pr) = dump_view pr) -> dump_obs (upd_peer p f w) = dump_obs w.
Proof.
  intros Hf. unfold dump_obs. assert (dump_view <$> d_peers (upd_peer p f w) = dump_view <$> d_peers w) as ->; [|done].
  change (d_peers (upd_peer p f w)) with (alter f p (d_peers w)). apply map_eq. intros q. rewrite !lookup_fmap.
  destruct (decide (q = p)) as [->|Hq]; [|by rewrite lookup_alter_ne].
  rewrite lookup_alter_eq. destruct (d_peers w !! p) as [pr|]; [|done]. cbn. by rewrite Hf.
Qed.

Lemma dump_obs_get p w : dump_obs (wg_peer_get p w) = dump_obs w.
Proof. by apply dump_obs_upd_peer. Qed.

Lemma dump_obs_put p w : is_Some (d_peers w !! p) -> exists w', wg_peer_put p w = Some w' /\ dump_obs w' = dump_obs w.
Proof.
  intros [pr Hp]. unfold wg_peer_put. rewrite Hp. cbn [mbind option_bind].
  assert (H1 : dump_obs (upd_peer p (upd_p_refcount (fun n => n - 1)) w) = dump_obs w) by (by apply dump_obs_upd_peer).
  case_if; [|by eexists]. unfold kref_release, wg_packet_purge_staged_packets. set (w1 := upd_peer p _ w) in *.
  assert (Hp1 : d_peers w1 !! p = Some (upd_p_refcount (fun n => n - 1) pr)).
  { change (d_peers w1) with (alter (upd_p_refcount (fun n => n - 1)) p (d_peers w)). by rewrite lookup_alter_eq, Hp. }
  change (d_peers (upd_d_index_hashtable _ w1)) with (d_peers w1). rewrite Hp1. cbn [mbind option_bind]. eexists. split; [reflexivity|].
  rewrite <- H1. unfold dump_obs. set (w2 := upd_d_peer_rcu _ _).
  assert (dump_obs w2 = dump_obs (upd_d_stats (upd_st_tx_dropped (fun n => n + Z.of_nat (length (p_staged_packet_queue (upd_p_refcount (fun n => n - 1) pr)))))
    (upd_d_index_hashtable (wg_index_hashtable_remove (Handshake p)) w1))) as Hd by (by apply (dump_obs_upd_peer p)).
  exact Hd.
Qed.

(** ** The allowed IPs of a peer *)

Lemma nodes_from_app (n : nid) l1 l2 : (n ∉ l1) -> nodes_from n (l1 ++ n :: l2) = n :: l2.
Proof.
  induction l1 as [|m l1 IH]; cbn [nodes_from app]; intros H.
  - by rewrite bool_decide_eq_true_2.
  - apply not_elem_of_cons in H as [? ?]. rewrite bool_decide_eq_false_2 by done. by apply IH.
Qed.

Lemma nodes_from_suffix (n : nid) l : n ∈ l -> exists l0 l1, l = l0 ++ n :: l1 /\ nodes_from n l = n :: l1.
Proof.
  induction l as [|m l IH]; [by intros ?%elem_of_nil|]. cbn [nodes_from]. destruct (decide (m = n)) as [->|Hm].
  - intros _. exists [], l. by rewrite bool_decide_eq_true_2.
  - rewrite elem_of_cons. intros [->|Hin]; [done|]. destruct (IH Hin) as (l0 & l1 & -> & E). exists (m :: l0), l1.
    by rewrite bool_decide_eq_false_2.
Qed.

(** The nodes that fit are written, in order; one always fits when there is room for 44 bytes. *)
Lemma get_nodes_spec t ns room :
  0 <= room ->
  (forall n, n ∈ ns -> exists nd, nodes t !! n = Some nd /\ (length (snd (fst (wg_allowedips_read_node nd))) <= 16)%nat) ->
  exists ns1 ns2 room', ns = ns1 ++ ns2 /\ get_nodes t ns room = Some (map (node_attr t) ns1, room', head ns2) /\
    0 <= room' <= room /\ (44 <= room -> ns = [] \/ ns1 <> []).
Proof.
  revert room. induction ns as [|n ns IH]; intros room Hr Hn.
  - exists [], [], room. by split_and!; [| |lia|lia|left].
  - cbn [get_nodes]. destruct (Hn n ltac:(left)) as (nd & Hnd & Hlen). rewrite Hnd. cbn [mbind option_bind].
    assert (Hattr : node_attr t n = let '(family, ip, cidr) := wg_allowedips_read_node nd in NlNest 0 (attrs_of (allowedip_payload ip cidr family)))
      by (unfold node_attr; by rewrite Hnd).
    destruct (wg_allowedips_read_node nd) as [[family ip] cidr]. cbn [fst snd] in Hlen.
    pose proof (allowedip_size ip cidr family Hlen) as Hsize. pose proof (attrs_size_nonneg (allowedip_payload ip cidr family)).
    unfold get_allowedips. pose proof (nested_put_spec (allowedip_payload ip cidr family) room Hr) as Hput.
    destruct (nla_nest_start room) as [room1|]; cbn [mbind option_bind] in Hput |- *.
    2:{ exists [], (n :: ns), room. split_and!; try done. intros ?. destruct (Z.ltb_spec room (4 + attrs_size (allowedip_payload ip cidr family))); [lia|done]. }
    rewrite Hput. destruct (Z.ltb_spec room (4 + attrs_size (allowedip_payload ip cidr family))); cbn [mbind option_bind].
    + exists [], (n :: ns), room. split_and!; try done. lia.
    + destruct (IH (room - 4 - attrs_size (allowedip_payload ip cidr family)) ltac:(lia)) as (ns1 & ns2 & room' & -> & E & Hr' & _).
      { intros m Hm. apply Hn. by right. }
      rewrite E. cbn [mbind option_bind]. exists (n :: ns1), ns2, room'. rewrite <- Hattr. split_and!; try done; [lia|lia|]. intros _. by right.
Qed.

(** ** One peer *)

Definition items (l : list nlattr) : list item := concat (map peer_items l).

Definition extra_items (key : bytes) (extra : list nlattr) : list item :=
  concat (map (fun b => match b with NlNest _ l => map (pair key) l | NlAttr _ _ => [(key, b)] end) extra).

Lemma peer_items_nest k hdr extra :
  items [NlNest 0 (attrs_of (k :: hdr) ++ extra)] = map (pair (snd k)) (attrs_of hdr) ++ extra_items (snd k) extra.
Proof.
  unfold items, extra_items. cbn [map concat peer_items attrs_of app]. rewrite app_nil_r, map_app, concat_app. f_equal.
  unfold attrs_of. induction hdr as [|a hdr IH]; [done|]. cbn [map concat app]. by rewrite IH.
Qed.

(** What is left of a peer. *)
Definition peer_rest (w : wg_device) (p : peer_id) (ctx : dump_ctx) : list item :=
  match next_allowedip ctx, d_peers w !! p with
  | None, _ => peer_stream w p
  | Some n, Some pr => node_items w (snd (peer_key pr)) (nodes_from n (plist (d_peer_allowedips w) p))
  | Some n, None => []
  end.

Definition ctx_ok (w : wg_device) (p : peer_id) (ctx : dump_ctx) : Prop :=
  (allowedips_seq ctx = 0 \/ allowedips_seq ctx = seq (d_peer_allowedips w)) /\
  forall n, next_allowedip ctx = Some n -> n ∈ plist (d_peer_allowedips w) p.

(** A peer is written as far as it fits; a message with enough room takes some of it. *)
(** The attributes before the allowed IPs: the key, and the rest unless the dump of the peer continues. *)
Definition header_payload (pr : wg_peer) (ctx : dump_ctx) : list (Z * bytes) :=
  if bool_decide (next_allowedip ctx = None) then peer_payload pr else [].

Lemma header_size pr ctx : attrs_size (peer_key pr :: header_payload pr ctx) <= attrs_size (peer_key pr :: peer_payload pr).
Proof.
  unfold header_payload. case_if; [lia|]. change (attrs_size (peer_key pr :: peer_payload pr)) with
    (nla_total_size (Z.of_nat (length (snd (peer_key pr)))) + attrs_size (peer_payload pr)).
  change (attrs_size [peer_key pr]) with (nla_total_size (Z.of_nat (length (snd (peer_key pr)))) + 0).
  pose proof (attrs_size_nonneg (peer_payload pr)). lia.
Qed.

(** Where [get_peer] starts in the list of the peer, and what is left to say from there. *)
Lemma get_peer_start w p pr ctx :
  d_peers w !! p = Some pr -> ctx_ok w p ctx ->
  let t := d_peer_allowedips w in
  let key := snd (peer_key pr) in
  match (if bool_decide (next_allowedip ctx = None) then head (plist t p) else next_allowedip ctx) with
  | None => peer_rest w p ctx = map (pair key) (attrs_of (header_payload pr ctx))
  | Some n => exists l0 l1, plist t p = l0 ++ n :: l1 /\ nodes_from n (plist t p) = n :: l1 /\
      peer_rest w p ctx = map (pair key) (attrs_of (header_payload pr ctx)) ++ node_items w key (n :: l1)
  end.
Proof.
  intros Hp [_ Hnext] t key. unfold header_payload, peer_rest, peer_stream. rewrite Hp. fold t key.
  destruct (next_allowedip ctx) as [n|] eqn:En.
  - rewrite bool_decide_eq_false_2 by done. destruct (nodes_from_suffix n (plist t p) (Hnext n eq_refl)) as (l0 & l1 & E1 & E2).
    exists l0, l1. by rewrite E2.
  - rewrite bool_decide_eq_true_2 by done. destruct (plist t p) as [|n l1]; cbn [head]; [by rewrite app_nil_r|].
    exists [], l1. split_and!; [done|apply (nodes_from_app n []), not_elem_of_nil|done].
Qed.

Lemma get_peer_spec ifindex name size w p pr room ctx :
  dump_ok ifindex name size w -> d_peers w !! p = Some pr -> 0 <= room -> ctx_ok w p ctx ->
  exists ok out room' ctx', get_peer p w room ctx = Some (ok, out, room', ctx') /\ 0 <= room' <= room /\ next_peer ctx' = next_peer ctx /\
    (if ok : bool then allowedips_seq ctx' = 0 /\ next_allowedip ctx' = None /\ items out = peer_rest w p ctx
     else ctx_ok w p ctx' /\ items out ++ peer_rest w p ctx' = peer_rest w p ctx /\
          (4 + attrs_size (peer_key pr :: peer_payload pr) + 48 <= room -> items out <> [])).
Proof.
  intros O Hp Hr [Hseq Hnext]. unfold get_peer. rewrite Hp. cbn [mbind option_bind]. set (t := d_peer_allowedips w) in *.
  pose proof (header_size pr ctx) as Hhs. pose proof (get_peer_start w p pr ctx Hp (conj Hseq Hnext)) as Hnode. cbv zeta in Hnode. fold t in Hnode.
  fold (header_payload pr ctx). set (header := peer_key pr :: header_payload pr ctx) in *. rewrite nested_put_spec by done.
  pose proof (attrs_size_nonneg header).
  destruct (Z.ltb_spec room (4 + attrs_size header)) as [Hfit|Hfit].
  { exists false, [], room, ctx. split_and!; try done. lia. }
  set (key := snd (peer_key pr)) in *. set (node := if bool_decide (next_allowedip ctx = None) then head (plist t p) else next_allowedip ctx) in *.
  clearbody node. destruct node as [n|].
  2:{ eexists true, _, _, _. split; [reflexivity|]. split; [lia|]. split; [done|]. split; [done|]. split; [done|].
      unfold header. rewrite peer_items_nest. unfold extra_items. cbn [map concat]. by rewrite app_nil_r. }
  destruct Hnode as (l0 & l1 & Hpl & Hfrom & Hrest).
  assert ((if allowedips_seq ctx =? 0 then seq t else allowedips_seq ctx) = seq t) as ->.
  { destruct Hseq as [-> | ->]; [done|]. by case_if. }
  rewrite Z.eqb_refl. cbn [negb]. unfold nla_nest_start.
  destruct (Z.ltb_spec (room - 4 - attrs_size header) 4) as [Hnest|Hnest].
  { eexists false, [], _, _. split; [reflexivity|]. split; [lia|]. split; [done|]. split; [|split; [done|lia]].
    split; [by right|]. exact Hnext. }
  rewrite Hfrom. destruct (get_nodes_spec t (n :: l1) (room - 4 - attrs_size header - 4) ltac:(lia)) as (ns1 & ns2 & room' & Hns & E & Hr' & Hprog).
  { intros m Hm. apply (do_nodes _ _ _ _ O p). fold t. rewrite Hpl. apply elem_of_app. by right. }
  rewrite E. cbn [mbind option_bind]. destruct ns2 as [|m ns2]; cbn [head].
  - eexists true, _, _, _. split; [reflexivity|]. split; [lia|]. split; [done|]. split; [done|]. split; [done|].
    unfold header. rewrite peer_items_nest, Hrest, Hns, app_nil_r. unfold extra_items. cbn [map concat]. by rewrite app_nil_r.
  - eexists false, _, _, _. split; [reflexivity|]. split; [lia|]. split; [done|].
    assert (Hm : plist t p = (l0 ++ ns1) ++ m :: ns2) by (by rewrite Hpl, Hns, <- app_assoc).
    assert (Hnm : m ∉ l0 ++ ns1).
    { pose proof (do_lists _ _ _ _ O p) as Hnd. fold t in Hnd. rewrite Hm in Hnd. apply NoDup_app in Hnd as (_ & Hd & _). intros Hin.
      apply (Hd m Hin). left. }
    split; [|split].
    + split; [by right|]. cbn [next_allowedip]. intros n' [= <-]. fold t. rewrite Hm. apply elem_of_app. right. left.
    + unfold header. rewrite peer_items_nest, Hrest, Hns. unfold peer_rest. cbn [next_allowedip]. rewrite Hp. fold t key.
      rewrite Hm, (nodes_from_app m) by done. unfold extra_items, node_items. cbn [map concat]. by rewrite app_nil_r, !map_app, <- app_assoc.
    + intros Hroom. unfold header. rewrite peer_items_nest. unfold extra_items. cbn [map concat]. rewrite app_nil_r.
      destruct Hprog as [?|Hn1]; [lia|done|]. intros Hnil. apply app_eq_nil in Hnil as [_ Hnil]. by destruct ns1.
Qed.

(** ** The peers *)

Definition rests (w : wg_device) (ps : list peer_id) (ctx : dump_ctx) : list item :=
  match ps with [] => [] | p :: ps => peer_rest w p ctx ++ concat (map (peer_stream w) ps) end.

Lemma rests_fresh w ps ctx : next_allowedip ctx = None -> rests w ps ctx = concat (map (peer_stream w) ps).
Proof. intros H. destruct ps as [|p ps]; [done|]. cbn [rests map concat]. unfold peer_rest. by rewrite H. Qed.

Lemma peer_rest_nonempty w p pr ctx : d_peers w !! p = Some pr -> ctx_ok w p ctx -> peer_rest w p ctx <> [].
Proof.
  intros Hp [_ Hn]. unfold peer_rest, peer_stream. rewrite Hp. destruct (next_allowedip ctx) as [n|]; [|done].
  destruct (nodes_from_suffix n _ (Hn n eq_refl)) as (l0 & l1 & _ & ->). done.
Qed.

Lemma items_app l l' : items (l ++ l') = items l ++ items l'.
Proof. unfold items. by rewrite map_app, concat_app. Qed.

Lemma get_peers_spec ifindex name size w ps room cursor ctx :
  dump_ok ifindex name size w -> (forall p, p ∈ ps -> p ∈ d_peer_list w) -> 0 <= room -> (forall p, head ps = Some p -> ctx_ok w p ctx) ->
  exists out fin cursor' ctx', get_peers ps w room cursor ctx = Some (out, fin, cursor', ctx') /\ next_peer ctx' = next_peer ctx /\
    (if fin : bool then items out = rests w ps ctx
     else exists ps1 p ps2, ps = ps1 ++ p :: ps2 /\ cursor' = match last ps1 with Some q => Some q | None => cursor end /\ ctx_ok w p ctx' /\
       items out ++ rests w (p :: ps2) ctx' = rests w ps ctx /\
       ((forall q pr, head ps = Some q -> d_peers w !! q = Some pr -> 4 + attrs_size (peer_key pr :: peer_payload pr) + 48 <= room) -> items out <> [])).
Proof.
  intros O. revert room cursor ctx. induction ps as [|p ps IH]; intros room cursor ctx Hin Hr Hc; cbn [get_peers].
  { by eexists [], true, _, _. }
  destruct (do_peers _ _ _ _ O p (Hin p ltac:(left))) as (pr & Hp & _ & _). specialize (Hc p eq_refl).
  destruct (get_peer_spec ifindex name size w p pr room ctx O Hp Hr Hc) as (ok & out & room' & ctx1 & -> & Hr' & Hnp & Hok).
  cbn [mbind option_bind]. destruct ok.
  - destruct Hok as (Hseq & Hnext & Hout).
    destruct (IH room' (Some p) ctx1) as (out' & fin & cursor' & ctx' & -> & Hnp' & Hdone); [|lia| |].
    { intros q Hq. apply Hin. by right. }
    { intros q _. split; [by left|]. by rewrite Hnext. }
    cbn [mbind option_bind]. eexists _, _, _, _. split; [reflexivity|]. split; [congruence|].
    rewrite (rests_fresh w ps ctx1 Hnext) in Hdone. destruct fin.
    + by rewrite items_app, Hout, Hdone.
    + destruct Hdone as (ps1 & q & ps2 & -> & -> & Hcq & Hitems & _). exists (p :: ps1), q, ps2. split; [done|]. split; [|split; [done|split]].
      * rewrite last_cons. by destruct (last ps1).
      * rewrite items_app, <- app_assoc, Hitems, Hout. done.
      * intros _. rewrite items_app, Hout. intros [Hnil _]%app_eq_nil. by eapply peer_rest_nonempty.
  - destruct Hok as (Hc1 & Hitems & Hprog). eexists _, false, _, _. split; [reflexivity|]. split; [done|].
    exists [], p, ps. split; [done|]. split; [done|]. split; [done|]. split; [|intros Hroom; exact (Hprog (Hroom p pr eq_refl Hp))].
    cbn [rests]. by rewrite app_assoc, Hitems.
Qed.

(** ** One message *)

Lemma peers_after_last (pre ps : list peer_id) : NoDup (pre ++ ps) -> peers_after (last pre) (pre ++ ps) = ps.
Proof.
  destruct pre as [|q pre _] using rev_ind; intros Hnd; [done|]. rewrite last_snoc. cbn [peers_after]. rewrite <- app_assoc in *. cbn [app] in *.
  apply NoDup_app in Hnd as (_ & Hd & _). rewrite nodes_from_app; [done|]. intros Hin. apply (Hd q Hin). left.
Qed.

Lemma message_items_spec header out : message_items (attrs_of header ++ [NlNest WGDEVICE_A_PEERS out]) = items out.
Proof.
  unfold message_items. rewrite map_app, concat_app. cbn [map concat]. rewrite app_nil_r.
  assert (concat (map (fun a => match a with NlNest _ ps => concat (map peer_items ps) | NlAttr _ _ => [] end) (attrs_of header)) = []) as ->; [|done].
  unfold attrs_of. by induction header.
Qed.

Lemma message_items_header header : message_items (attrs_of header) = [].
Proof. unfold message_items, attrs_of. by induction header. Qed.

(** The dump stands before [ps]; [pre] has been written. *)
Definition at_peers (w : wg_device) (ctx : dump_ctx) (ps : list peer_id) : Prop :=
  (exists pre, d_peer_list w = pre ++ ps /\ next_peer ctx = last pre) /\ forall p, head ps = Some p -> ctx_ok w p ctx.

Lemma last_listed w (pre ps : list peer_id) p : d_peer_list w = pre ++ ps -> last pre = Some p -> p ∈ d_peer_list w.
Proof. intros -> [l ->]%last_Some. rewrite elem_of_app. left. apply elem_of_app. right. left. Qed.

Lemma peer_put_opt_obs ifindex name size w w' (pre ps : list peer_id) :
  dump_ok ifindex name size w -> d_peer_list w = pre ++ ps -> dump_obs w' = dump_obs w ->
  exists w'', peer_put_opt (last pre) w' = Some w'' /\ dump_obs w'' = dump_obs w.
Proof.
  intros O Hl Hw. destruct (last pre) as [p|] eqn:Elast; [|by exists w']. cbn [peer_put_opt].
  destruct (do_peers _ _ _ _ O p) as (pr & Hp & _); [by eapply last_listed|].
  destruct (dump_view_lookup _ _ _ _ Hw Hp) as (pr' & Hp' & _). destruct (dump_obs_put p w') as (w'' & E & Hobs); [by eexists|].
  exists w''. split; [done|congruence].
Qed.

Lemma dump_call_spec ifindex name size w ctx ps :
  dump_ok ifindex name size w -> at_peers w ctx ps ->
  exists out fin ctx' w', wg_get_device_dump ifindex name size ctx w = Some (Some (out, fin), ctx', w') /\ dump_obs w' = dump_obs w /\
    (if fin : bool then message_items out = rests w ps ctx /\ next_peer ctx' = None
     else exists ps', at_peers w' ctx' ps' /\ message_items out ++ rests w ps' ctx' = rests w ps ctx /\ message_items out <> []).
Proof.
  intros O [(pre & Hl & Hnp) Hc]. unfold wg_get_device_dump. rewrite Hnp. set (header := if bool_decide _ then _ else _).
  pose proof (attrs_size_nonneg header). pose proof (attrs_size_nonneg (device_payload ifindex name w)).
  assert (Hsz : attrs_size header <= attrs_size (device_payload ifindex name w)).
  { unfold header. case_if; [lia|]. change (attrs_size []) with 0. lia. }
  pose proof (do_size _ _ _ _ O) as Hsize. change NLMSG_GENL_HDRLEN with 20 in *.
  destruct (Z.ltb_spec size 20); [lia|]. rewrite nla_put_all_spec by lia. destruct (Z.ltb_spec (size - 20) (attrs_size header)); [lia|].
  cbn [mbind option_bind]. unfold nla_nest_start. destruct (Z.ltb_spec (size - 20 - attrs_size header) 4); [lia|].
  destruct (bool_decide_reflect (d_peer_list w = [])) as [Hnil|Hne].
  - cbn [orb]. destruct (peer_put_opt_obs _ _ _ w w pre ps O Hl eq_refl) as (w' & -> & Hw'). cbn [mbind option_bind].
    eexists _, true, _, _. split; [reflexivity|]. split; [done|]. split; [|done]. rewrite Hnil in Hl. symmetry in Hl.
    apply app_eq_nil in Hl as [_ ->]. apply message_items_header.
  - assert (match last pre with Some p => peer_is_dead p w | None => false end = false) as ->.
    { destruct (last pre) as [p|] eqn:Elast; [|done]. destruct (do_peers _ _ _ _ O p) as (pr & Hp & Hd & _); [by eapply last_listed|].
      unfold peer_is_dead. by rewrite Hp. }
    cbn [orb]. pose proof (do_nodup _ _ _ _ O) as Hnd. rewrite Hl in Hnd. rewrite Hl, peers_after_last by done.
    destruct (get_peers_spec ifindex name size w ps (size - 20 - attrs_size header - 4) (last pre) ctx O) as (out & fin & cursor & ctx1 & -> & Hnp1 & Hdone); [|lia|done|].
    { intros p Hp. rewrite Hl. apply elem_of_app. by right. }
    cbn [mbind option_bind]. set (w1 := match cursor with Some p => _ | None => w end).
    assert (Hw1 : dump_obs w1 = dump_obs w) by (unfold w1; destruct cursor; [destruct fin; [done|apply dump_obs_get]|done]).
    destruct (peer_put_opt_obs _ _ _ w w1 pre ps O Hl Hw1) as (w' & -> & Hw'). cbn [mbind option_bind].
    eexists _, fin, _, _. split; [reflexivity|]. split; [done|]. rewrite message_items_spec. destruct fin; [done|].
    destruct Hdone as (ps1 & p & ps2 & -> & -> & Hcp & Hitems & Hprog). exists (p :: ps2). split; [|split].
    + assert (Hl' : d_peer_list w' = d_peer_list w /\ d_peer_allowedips w' = d_peer_allowedips w) by (unfold dump_obs in Hw'; split; congruence).
      destruct Hl' as [Hl' Ht]. split.
      * exists (pre ++ ps1). rewrite Hl', Hl, <- app_assoc. split; [done|]. cbn [next_peer]. rewrite last_app. by destruct (last ps1).
      * intros q [= <-]. unfold ctx_ok in *. cbn [allowedips_seq next_allowedip]. by rewrite Ht.
    + exact Hitems.
    + apply Hprog. intros q pr Hq Hp. destruct (do_peers _ _ _ _ O q) as (pr' & Hp' & _ & Hroom).
      { rewrite Hl. apply elem_of_app. right. destruct ps1; injection Hq as ->; left. }
      rewrite Hp in Hp'. injection Hp' as <-. change NLMSG_GENL_HDRLEN with 20 in Hroom. lia.
Qed.

(** ** The whole dump *)

Lemma rests_same w w' ps ctx : dump_obs w' = dump_obs w -> rests w' ps ctx = rests w ps ctx.
Proof.
  intros E. assert (Hs : forall p, peer_stream w' p = peer_stream w p) by (intros; by apply peer_stream_same).
  destruct ps as [|p ps]; [done|]. cbn [rests]. f_equal; [|f_equal; apply map_ext; exact Hs].
  unfold peer_rest. destruct (next_allowedip ctx); [|apply Hs].
  assert (H : (dump_view <$> d_peers w') !! p = (dump_view <$> d_peers w) !! p) by (unfold dump_obs in E; congruence).
  assert (Et : d_peer_allowedips w' = d_peer_allowedips w) by (unfold dump_obs in E; congruence).
  unfold node_items. rewrite Et. rewrite !lookup_fmap in H. destruct (d_peers w' !! p), (d_peers w !! p); try done.
  apply (inj Some), dump_view_inv in H as (-> & _). done.
Qed.

Lemma dump_all_spec ifindex name size calls w ctx ps :
  dump_ok ifindex name size w -> at_peers w ctx ps -> (length (rests w ps ctx) < calls)%nat ->
  exists w', dump_all calls ifindex name size ctx w = Some (rests w ps ctx, w') /\ dump_obs w' = dump_obs w.
Proof.
  revert w ctx ps. induction calls as [|calls IH]; intros w ctx ps O Hat Hlen; [lia|]. cbn [dump_all].
  destruct (dump_call_spec ifindex name size w ctx ps O Hat) as (out & fin & ctx' & w' & -> & Hw' & Hfin). cbn [mbind option_bind]. destruct fin.
  - destruct Hfin as [-> Hnp]. unfold wg_get_device_done. rewrite Hnp. cbn [peer_put_opt mbind option_bind]. by exists w'.
  - destruct Hfin as (ps' & Hat' & Hitems & Hne). pose proof (rests_same w w' ps' ctx' Hw') as Hr.
    destruct (IH w' ctx' ps') as (w'' & -> & Hw''); [by eapply dump_ok_same|done| |].
    { rewrite Hr. rewrite <- Hitems, length_app in Hlen. destruct (message_items out); [done|]. cbn [length] in Hlen. lia. }
    cbn [mbind option_bind]. exists w''. rewrite Hr, Hitems. split; [done|congruence].
Qed.

(** C11: a dump says everything exactly once. However the peers and their allowed IPs are spread over
    messages that can hold at least the attributes of the device, those of one peer and one allowed
    IP, the calls end, and what they say together is, for every peer of the list in order, its
    attributes and each of its allowed IPs in order, nothing twice and nothing left out; the device is
    left with the configuration it had. The attributes of the device are left out of the comparison:
    a call repeats them as long as no peer has been begun. *)
Theorem dump_says_everything_once ifindex name size w :
  dump_ok ifindex name size w ->
  let stream := concat (map (peer_stream w) (d_peer_list w)) in
  exists w', dump_all (S (length stream)) ifindex name size start_ctx w = Some (stream, w') /\ dump_obs w' = dump_obs w.
Proof.
  intros O. cbv zeta. rewrite <- (rests_fresh w (d_peer_list w) start_ctx eq_refl). apply dump_all_spec; [done| |lia].
  split; [by exists []|]. intros p _. split; [by left|done].
Qed.

(** Peer 1 with 10.0.0.0/8 and peer 2 with 10.1.0.0/16. *)
Definition dumped : wg_device :=
  upd_d_peer_allowedips (fun _ => ex_t2) (upd_d_peer_list (fun _ => [1%positive; 2%positive])
    (upd_d_peers (fun _ => {[1%positive := sample_peer; 2%positive := sample_peer]}) sample_device)).

Definition node_fits (t : allowedips) (n : nid) : bool :=
  match nodes t !! n with Some nd => (length (snd (fst (wg_allowedips_read_node nd))) <=? 16)%nat | None => false end.

Lemma dumped_ok : dump_ok 3 [119; 103; 48] 320 dumped.
Proof.
  assert (Hl : map_Forall (fun _ l => NoDup l /\ Forall (fun n => node_fits ex_t2 n = true) l) (peer_lists ex_t2)).
  { apply (bool_decide_unpack _). vm_compute. exact I. }
  assert (Hpl : forall p, NoDup (plist ex_t2 p) /\ Forall (fun n => node_fits ex_t2 n = true) (plist ex_t2 p)).
  { intros p. unfold plist. destruct (peer_lists ex_t2 !! p) as [l|] eqn:E; [exact (Hl p l E)|]. split; constructor. }
  split.
  - apply (bool_decide_unpack _). vm_compute. exact I.
  - intros p Hp. change (d_peer_list dumped) with [1%positive; 2%positive] in Hp. exists sample_peer.
    apply elem_of_cons in Hp as [->|Hp]; [|apply list_elem_of_singleton in Hp as ->]; (split; [reflexivity|split; [reflexivity|]]); vm_compute; discriminate.
  - vm_compute. discriminate.
  - intros p n Hn. change (d_peer_allowedips dumped) with ex_t2 in *. destruct (Hpl p) as [_ Hf]. rewrite Forall_forall in Hf.
    specialize (Hf n Hn). unfold node_fits in Hf. destruct (nodes ex_t2 !! n) as [nd|]; [|done]. exists nd. split; [done|]. by apply Nat.leb_le.
  - apply Hpl.
  - vm_compute. discriminate.
Qed.

Lemma dump_says_everything_once_witness :
  let stream := concat (map (peer_stream dumped) [1%positive; 2%positive]) in
  exists w, dump_all (S (length stream)) 3 [119; 103; 48] 320 start_ctx dumped = Some (stream, w).
Proof. destruct (dump_says_everything_once 3 [119; 103; 48] 320 dumped dumped_ok) as (w & E & _). exists w. exact E. Defined.
