(* ===== verification/DataPath.v ===== *)
(** * DataPath: what encryption and decryption guarantee for data packets

    The sizes of padded and encrypted packets and the round trip from [encrypt_packet] to
    [decrypt_packet] with either cipher. *)

From S2P Require Import Prelude Messages Skb Replay Crypto NoiseCrypto World Samples Objects Socket Queueing Send Receive Device.

(** ** Headers *)

(** A data message with at least the tag passes the length check of the receiver. *)
Lemma data_header_len m :
  md_type m = MESSAGE_DATA -> (NOISE_AUTHTAG_LEN <= length (md_encrypted_data m))%nat ->
  validate_header_len (message_data_bytes m) = sizeof_message_data.
Proof.
  intros Ht Hl. assert (Hlen : length (message_data_bytes m) = (16 + length (md_encrypted_data m))%nat).
  { unfold message_data_bytes. rewrite !length_app, !le_bytes_length. lia. }
  unfold validate_header_len. rewrite Hlen. destruct (Nat.ltb_spec (16 + length (md_encrypted_data m)) sizeof_message_header) as [Hs|_].
  { cbv [sizeof_message_header] in Hs. lia. }
  assert (skb_type (message_data_bytes m) = MESSAGE_DATA) as ->.
  { unfold skb_type, message_data_bytes. rewrite field_here by apply le_bytes_length. by rewrite Ht. }
  cbn [Z.eqb]. rewrite (proj2 (Nat.leb_le _ _)); [done|]. cbv [MESSAGE_MINIMUM_LENGTH message_data_len noise_encrypted_len NOISE_AUTHTAG_LEN sizeof_message_data sizeof_message_header] in *. lia.
Qed.

(** ** Padding *)

Lemma padding_spec len mtu :
  0 <= len -> 0 <= mtu ->
  let unit := if (0 <? mtu) && (mtu <? len) then len mod mtu else len in
  let pad := calculate_skb_padding len mtu in
  0 <= pad < MESSAGE_PADDING_MULTIPLE /\
  ((unit + pad) mod MESSAGE_PADDING_MULTIPLE = 0 \/ (0 < mtu /\ unit + pad = mtu)) /\
  (0 < mtu -> unit + pad <= mtu).
Proof.
  intros Hl Hm. unfold calculate_skb_padding. cbv zeta.
  assert (Hal : forall x, ALIGN x MESSAGE_PADDING_MULTIPLE mod MESSAGE_PADDING_MULTIPLE = 0).
  { intros x. apply Z.mod_divide; [done|]. apply ALIGN_divide. }
  assert (Hab : forall x, x <= ALIGN x MESSAGE_PADDING_MULTIPLE < x + MESSAGE_PADDING_MULTIPLE) by (intros; by apply ALIGN_bounds).
  destruct (Z.eqb_spec mtu 0) as [->|Hz].
  - cbn [Z.ltb Z.compare andb]. pose proof (Hab len). split_and!; [lia|lia| |lia]. left. rewrite Zplus_minus. apply Hal.
  - rewrite (proj2 (Z.ltb_lt 0 mtu)) by lia. cbn [andb]. set (unit := if mtu <? len then _ else _).
    assert (Hu : 0 <= unit <= mtu).
    { unfold unit. destruct (Z.ltb_spec mtu len); [|lia]. pose proof (Z.mod_pos_bound len mtu). lia. }
    pose proof (Hab unit). rewrite Zplus_minus. split_and!; [lia|lia| |lia].
    destruct (Z.min_spec mtu (ALIGN unit MESSAGE_PADDING_MULTIPLE)) as [[_ ->]|[_ ->]]; [right; lia|left; apply Hal].
Qed.

Section DataPath.
Context {C : Crypto} {L : CryptoLaws C} {N : NetStack}.

(** What [encrypt_packet] sends when it succeeds. *)
Lemma encrypt_packet_inv e is_chacha kp pk pk' :
  encrypt_packet e is_chacha kp pk = Some pk' ->
  exists inner encrypted,
    skb_checksum_help (data (pk_skb pk)) = Some inner /\
    let plaintext := inner ++ zeroes (Z.to_nat (calculate_skb_padding (Z.of_nat (skb_len (pk_skb pk))) (pk_mtu pk))) in
    (if is_chacha then encrypted = chacha20poly1305_encrypt plaintext [] (pk_nonce pk) (sk_key (kp_sending kp))
     else exists key, kp_aead_enc kp = Some key /\ encrypted = aes_gcm_encrypt key (nonce_iv (pk_nonce pk)) plaintext) /\
    length encrypted = noise_encrypted_len (length plaintext) /\
    data (pk_skb pk') = message_data_bytes {| md_type := MESSAGE_DATA; md_key_idx := kp_remote_index kp; md_counter := pk_nonce pk;
                                             md_encrypted_data := encrypted |} /\
    pk_ds pk' = pk_ds pk /\ pk_nonce pk' = pk_nonce pk.
Proof.
  unfold encrypt_packet. cbv zeta. intros H. repeat case_if; try done.
  all: destruct (skb_checksum_help (data (pk_skb pk))) as [inner|]; [|done]; cbv beta iota delta [mbind option_bind] in H.
  all: repeat case_if; try done.
  - injection H as <-. do 2 eexists. split; [done|]. split_and!; try reflexivity. apply chacha_length.
  - destruct (kp_aead_enc kp) as [key|]; [|done]. injection H as <-. do 2 eexists. split; [done|].
    split_and!; [by eexists|apply gcm_length|reflexivity..].
Qed.

(** ** The round trip *)

(** The receiver's half of a session that fits the sender's, and a machine that has memory. *)
Record can_receive (e : env) (kp kp' : noise_keypair) (pk : packet) : Prop := {
  same_key : sk_key (kp_receiving kp') = sk_key (kp_sending kp);
  same_handle : kp_aead_dec kp' = kp_aead_enc kp;
  still_valid : sk_is_valid (kp_receiving kp') = true;
  not_expired : wg_birthdate_has_expired e (sk_birthdate (kp_receiving kp')) REJECT_AFTER_TIME = false;
  not_worn_out : counter (kp_receiving_counter kp') < REJECT_AFTER_MESSAGES;
  has_memory : skb_cow_data_ok e pk = true /\ skb_to_sgvec_ok e pk = true /\ aead_ok e pk = true /\ pskb_trim_ok e (pk_skb pk) = true
}.

Lemma decrypt_packet_opens e (is_chacha : bool) kp' pk plaintext :
  sk_is_valid (kp_receiving kp') = true ->
  wg_birthdate_has_expired e (sk_birthdate (kp_receiving kp')) REJECT_AFTER_TIME = false ->
  counter (kp_receiving_counter kp') < REJECT_AFTER_MESSAGES ->
  skb_cow_data_ok e pk = true /\ skb_to_sgvec_ok e pk = true /\ aead_ok e pk = true /\ pskb_trim_ok e (pk_skb pk) = true ->
  let message := message_data_of (data (pk_skb pk)) in
  (if is_chacha then chacha20poly1305_decrypt (md_encrypted_data message) [] (md_counter message) (sk_key (kp_receiving kp'))
   else key ← kp_aead_dec kp'; aes_gcm_decrypt key (nonce_iv (md_counter message)) (md_encrypted_data message)) = Some plaintext ->
  decrypt_packet e is_chacha kp' pk =
    (Some (upd_pk_skb (with_data plaintext) (upd_pk_nonce (fun _ => md_counter message) pk)), kp').
Proof.
  intros Hv He Hc (H1 & H2 & H3 & H4). cbv zeta. intros Hp. unfold decrypt_packet. rewrite Hv, He, (proj2 (Z.leb_gt _ _)) by done.
  rewrite H1, H2, H3, H4. cbn [negb orb]. cbv zeta. by rewrite Hp.
Qed.

(** C7: a data packet comes out of the tunnel as it went in. Whatever [encrypt_packet] puts on the
    wire, with AES-GCM or with ChaCha20-Poly1305, passes the header check of the receiver, names the
    receiver's key index, and is opened by [decrypt_packet] under the matching key to the packet the
    sender had (its checksum completed) followed by the zero bytes of the padding, with the nonce it
    was sent with. The receiving half of the session is valid and has not expired, and the machine
    has memory ([can_receive]). *)
Theorem data_packet_roundtrip e e' is_chacha kp kp' pk pk' pk_in :
  encrypt_packet e is_chacha kp pk = Some pk' -> can_receive e' kp kp' pk_in ->
  0 <= pk_nonce pk < 2 ^ 64 -> 0 <= kp_remote_index kp < 2 ^ 32 -> data (pk_skb pk_in) = data (pk_skb pk') ->
  validate_header_len (data (pk_skb pk_in)) = sizeof_message_data /\
  md_key_idx (message_data_of (data (pk_skb pk_in))) = kp_remote_index kp /\
  exists inner pk_out,
    skb_checksum_help (data (pk_skb pk)) = Some inner /\
    decrypt_packet e' is_chacha kp' pk_in = (Some pk_out, kp') /\
    data (pk_skb pk_out) = inner ++ zeroes (Z.to_nat (calculate_skb_padding (Z.of_nat (skb_len (pk_skb pk))) (pk_mtu pk))) /\
    pk_nonce pk_out = pk_nonce pk.
Proof.
  intros Henc Hr Hn Hi Hd. destruct (encrypt_packet_inv _ _ _ _ _ Henc) as (inner & enc & Hin & Hsealed & Hlen & Hdata & _).
  rewrite Hd, Hdata. set (m := Build_message_data _ _ _ _) in *. assert (Hm : message_data_of (message_data_bytes m) = m).
  { apply data_roundtrip. split; [done|]. split; done. }
  split_and!.
  - apply data_header_len; [done|]. subst m. cbn [md_encrypted_data]. rewrite Hlen. cbv [noise_encrypted_len NOISE_AUTHTAG_LEN]. lia.
  - by rewrite Hm.
  - exists inner. eexists. split; [done|]. split.
    + apply decrypt_packet_opens; try apply Hr. rewrite Hd, Hdata, Hm. destruct is_chacha.
      * subst enc m. cbn [md_encrypted_data md_counter]. rewrite (same_key _ _ _ _ Hr). apply chacha_roundtrip.
      * destruct Hsealed as (key & Hk & ->). rewrite (same_handle _ _ _ _ Hr), Hk. apply gcm_roundtrip.
    + rewrite Hd, Hdata, Hm. done.
Qed.

(** C33: an encrypted packet fits the link. When a packet is not larger than the MTU that [wg_setup]
    gives the interface, the datagram with its UDP and IP headers is at most 1500 bytes long, and
    what encryption adds behind the packet (padding and tag) fits the tail room [wg_setup] asks for. *)
Theorem encrypted_packet_fits_link e is_chacha kp pk pk' :
  (forall d d', skb_checksum_help d = Some d' -> length d' = length d) ->
  encrypt_packet e is_chacha kp pk = Some pk' -> pk_mtu pk = wg_setup_mtu -> Z.of_nat (skb_len (pk_skb pk)) <= wg_setup_mtu ->
  Z.of_nat (skb_len (pk_skb pk')) + sizeof_udphdr + Z.max sizeof_ipv6hdr sizeof_iphdr <= ETH_DATA_LEN /\
  (skb_len (pk_skb pk') <= sizeof_message_data + skb_len (pk_skb pk) + wg_setup_needed_tailroom)%nat.
Proof.
  intros Hck Henc Hmtu Hlen. destruct (encrypt_packet_inv _ _ _ _ _ Henc) as (inner & enc & Hin & _ & Hel & Hdata & _).
  pose proof (padding_spec (Z.of_nat (skb_len (pk_skb pk))) (pk_mtu pk) ltac:(lia) ltac:(by rewrite Hmtu)) as (Hp & _ & Hfit).
  rewrite Hmtu in *. rewrite (proj2 (Z.ltb_ge _ _) Hlen), andb_false_r in Hfit. specialize (Hfit eq_refl).
  unfold skb_len in *. rewrite Hdata. apply Hck in Hin. unfold message_data_bytes. cbn [md_type md_key_idx md_counter md_encrypted_data].
  rewrite !length_app, !le_bytes_length, Hel, length_app, Hin. unfold zeroes. rewrite length_replicate.
  change wg_setup_mtu with 1420 in *. change MESSAGE_PADDING_MULTIPLE with 16 in *. change wg_setup_needed_tailroom with 32%nat.
  cbv [noise_encrypted_len NOISE_AUTHTAG_LEN sizeof_udphdr sizeof_ipv6hdr sizeof_iphdr ETH_DATA_LEN sizeof_message_data sizeof_message_header Z.max Z.compare Pos.compare Pos.compare_cont].
  lia.
Qed.
End DataPath.

(** ** Examples *)

Definition sample_packet (d : bytes) : packet :=
  {| pk_skb := {| protocol := ETH_P_IP; saddr := []; daddr := []; udp_source := []; skb_iif := 0; data := d |};
     pk_nonce := 3; pk_mtu := 1420; pk_ds := 0 |}.

(** Both ends of a session with AES-GCM. *)
Definition sending_end : noise_keypair := upd_kp_aead_enc (fun _ => Some (replicate 32 7)) (sample_keypair true 1).
Definition receiving_end : noise_keypair :=
  upd_kp_receiving (fun _ => sample_key 7) (upd_kp_aead_dec (fun _ => Some (replicate 32 7)) (sample_keypair false 1)).

Definition sealed : packet :=
  default (sample_packet []) (@encrypt_packet toy_crypto toy_net sample_env false sending_end (sample_packet [69; 1; 2])).

Lemma data_packet_roundtrip_witness :
  option_map (fun pk => data (pk_skb pk)) (fst (@decrypt_packet toy_crypto sample_env false receiving_end sealed)) = Some ([69; 1; 2] ++ zeroes 13).
Proof.
  destruct (@data_packet_roundtrip toy_crypto toy_crypto_laws toy_net sample_env sample_env false sending_end receiving_end
              (sample_packet [69; 1; 2]) sealed sealed) as (_ & _ & inner & pk & Hin & Hd & Hdata & _);
    [reflexivity|by split|done|done|done|].
  rewrite Hd. cbn [fst option_map]. rewrite Hdata. injection Hin as <-. reflexivity.
Defined.

Lemma encrypted_packet_fits_link_witness : Z.of_nat (skb_len (pk_skb sealed)) + 8 + 40 <= 1500.
Proof.
  destruct (@encrypted_packet_fits_link toy_crypto toy_crypto_laws toy_net sample_env false sending_end (sample_packet [69; 1; 2]) sealed)
    as [H _]; [by intros d d' [= <-]|reflexivity|reflexivity|done|]. exact H.
Defined.
