(* ===== verification/DeviceLife.v ===== *)
(** * DeviceLife: creating and destroying devices, loading and unloading the module

    The resources that [wg_newlink] (device.c) and [mod_init] (main.c) acquire, in their order, and
    the labels that give them back when a later step fails. A resource that is held is on a list. *)

From S2P Require Import Prelude Messages Skb RateLimiter World Samples.

(** The three packet queues of a device. *)
Inductive queue_name := EncryptQueue | DecryptQueue | HandshakeQueue.

#[export] Instance queue_name_eq_dec : EqDecision queue_name.
Proof. solve_decision. Defined.

Inductive resource :=
| PeerHashtable | IndexHashtable | Tstats | HandshakeReceiveWq | HandshakeSendWq | PacketCryptWq
| Ring (q : queue_name) | Worker (q : queue_name) | RatelimiterUse | AesCpu | AesRequest (cpu : Z)
| Netdevice | AllowedipsSlab | PeerCache | PmNotifier | PernetOps | LinkOps | GenlFamily
| IncomingHandshakesWorker  (** the handshake workers of the port in wireguard-5.15.55 *).

#[export] Instance resource_eq_dec : EqDecision resource.
Proof. solve_decision. Defined.

Definition release (r : resource) : list resource -> list resource := List.filter (fun r' => negb (bool_decide (r' = r))).

(** What the kernel answers to the calls that acquire something. *)
Record answers := {
  got : resource -> bool;              (** an allocation succeeds *)
  ring_init : queue_name -> Z;         (** [ptr_ring_init] *)
  aead_probe : bool;                   (** [crypto_alloc_aead] finds "gcm(aes)" *)
  possible_cpus : list Z;
  limiter_memory : init_memory;
  register : resource -> Z             (** the results of the registration functions *)
}.

(** ** The packet queues *)

Definition wg_packet_queue_init (a : answers) (q : queue_name) (held : list resource) : Z * list resource :=
  let ret := ring_init a q in
  if negb (ret =? 0) then (ret, held)
  else if got a (Worker q) then (0, Worker q :: Ring q :: held)
  else (- ENOMEM, held).

Definition wg_packet_queue_free (q : queue_name) (held : list resource) : list resource := release (Ring q) (release (Worker q) held).

(** ** The buffers for AES-GCM *)

Definition is_aes (r : resource) : bool := match r with AesCpu | AesRequest _ => true | _ => false end.

Definition wg_free_aes_percpu (held : list resource) : list resource :=
  if bool_decide (AesCpu ∈ held) then List.filter (fun r => negb (is_aes r)) held else held.

(** The loop over the processors: [None] when a buffer cannot be allocated. *)
Fixpoint alloc_requests (a : answers) (cpus : list Z) (held : list resource) : Z * list resource :=
  match cpus with
  | [] => (0, held)
  | cpu :: cpus =>
      if got a (AesRequest cpu) then alloc_requests a cpus (AesRequest cpu :: held)
      else (- ENOMEM, wg_free_aes_percpu held)
  end.

(** The result, [is_chacha], and what is held. *)
Definition wg_init_aes_percpu (a : answers) (held : list resource) : Z * bool * list resource :=
  if negb (aead_probe a) then (0, true, held)
  else if negb (got a AesCpu) then (- ENOMEM, false, held)
  else let '(ret, held) := alloc_requests a (possible_cpus a) (AesCpu :: held) in (ret, false, held).

(** ** wg_newlink *)

Record link := { l_ret : Z; l_is_chacha : bool; l_held : list resource; l_limiter : ratelimiter }.

(** The error labels, the last one first; each falls through to the one below it. *)
Definition err_free_peer_hashtable (ret : Z) (rl : ratelimiter) (held : list resource) : link :=
  {| l_ret := ret; l_is_chacha := false; l_held := release PeerHashtable held; l_limiter := rl |}.
Definition err_free_index_hashtable (ret : Z) (rl : ratelimiter) (held : list resource) : link :=
  err_free_peer_hashtable ret rl (release IndexHashtable held).
Definition err_free_tstats (ret : Z) (rl : ratelimiter) (held : list resource) : link :=
  err_free_index_hashtable ret rl (release Tstats held).
Definition err_destroy_handshake_receive (ret : Z) (rl : ratelimiter) (held : list resource) : link :=
  err_free_tstats ret rl (release HandshakeReceiveWq held).
Definition err_destroy_handshake_send (ret : Z) (rl : ratelimiter) (held : list resource) : link :=
  err_destroy_handshake_receive ret rl (release HandshakeSendWq held).
Definition err_destroy_packet_crypt (ret : Z) (rl : ratelimiter) (held : list resource) : link :=
  err_destroy_handshake_send ret rl (release PacketCryptWq held).
Definition err_free_encrypt_queue (ret : Z) (rl : ratelimiter) (held : list resource) : link :=
  err_destroy_packet_crypt ret rl (wg_packet_queue_free EncryptQueue held).
Definition err_free_decrypt_queue (ret : Z) (rl : ratelimiter) (held : list resource) : link :=
  err_free_encrypt_queue ret rl (wg_packet_queue_free DecryptQueue held).
Definition err_free_handshake_queue (ret : Z) (rl : ratelimiter) (held : list resource) : link :=
  err_free_decrypt_queue ret rl (wg_packet_queue_free HandshakeQueue held).
Definition err_uninit_ratelimiter (now ret : Z) (rl : ratelimiter) (held : list resource) : link :=
  err_free_handshake_queue ret (wg_ratelimiter_uninit now rl) (release RatelimiterUse held).

Definition wg_newlink (now : Z) (a : answers) (rl : ratelimiter) : link :=
  if negb (got a PeerHashtable) then {| l_ret := - ENOMEM; l_is_chacha := false; l_held := []; l_limiter := rl |}
  else
    let held := [PeerHashtable] in
    if negb (got a IndexHashtable) then err_free_peer_hashtable (- ENOMEM) rl held else
    let held := IndexHashtable :: held in
    if negb (got a Tstats) then err_free_index_hashtable (- ENOMEM) rl held else
    let held := Tstats :: held in
    if negb (got a HandshakeReceiveWq) then err_free_tstats (- ENOMEM) rl held else
    let held := HandshakeReceiveWq :: held in
    if negb (got a HandshakeSendWq) then err_destroy_handshake_receive (- ENOMEM) rl held else
    let held := HandshakeSendWq :: held in
    if negb (got a PacketCryptWq) then err_destroy_handshake_send (- ENOMEM) rl held else
    let held := PacketCryptWq :: held in
    let '(ret, held) := wg_packet_queue_init a EncryptQueue held in
    if ret <? 0 then err_destroy_packet_crypt ret rl held else
    let '(ret, held) := wg_packet_queue_init a DecryptQueue held in
    if ret <? 0 then err_free_encrypt_queue ret rl held else
    let '(ret, held) := wg_packet_queue_init a HandshakeQueue held in
    if ret <? 0 then err_free_decrypt_queue ret rl held else
    let '(ret, rl) := wg_ratelimiter_init (limiter_memory a) rl in
    if ret <? 0 then err_free_handshake_queue ret rl held else
    let held := RatelimiterUse :: held in
    let '(ret, is_chacha, held) := wg_init_aes_percpu a held in
    if ret <? 0 then err_uninit_ratelimiter now ret rl held else
    let ret := register a Netdevice in
    if ret <? 0 then err_uninit_ratelimiter now ret rl held else
    {| l_ret := ret; l_is_chacha := is_chacha; l_held := Netdevice :: held; l_limiter := rl |}.

(** The resources that [wg_destruct] gives back; [unregister_netdevice] has run before. *)
Definition wg_destruct_resources (now : Z) (l : link) : link :=
  let held := release Netdevice (l_held l) in
  let held := release HandshakeReceiveWq held in
  let held := release HandshakeSendWq held in
  let held := release PacketCryptWq held in
  let held := wg_packet_queue_free HandshakeQueue held in
  let held := wg_packet_queue_free DecryptQueue held in
  let held := wg_packet_queue_free EncryptQueue held in
  let held := wg_free_aes_percpu held in
  let rl := wg_ratelimiter_uninit now (l_limiter l) in
  let held := release RatelimiterUse held in
  let held := release Tstats held in
  let held := release IndexHashtable held in
  let held := release PeerHashtable held in
  {| l_ret := l_ret l; l_is_chacha := l_is_chacha l; l_held := held; l_limiter := rl |}.

(** ** Loading and unloading the module *)

Definition wg_device_init (a : answers) (held : list resource) : Z * list resource :=
  let ret := register a PmNotifier in
  if negb (ret =? 0) then (ret, held) else
  let held := PmNotifier :: held in
  let ret := register a PernetOps in
  if negb (ret =? 0) then (ret, release PmNotifier held) else
  let held := PernetOps :: held in
  let ret := register a LinkOps in
  if negb (ret =? 0) then (ret, release PmNotifier (release PernetOps held)) else
  (0, LinkOps :: held).

Definition wg_device_uninit (held : list resource) : list resource :=
  release PmNotifier (release PernetOps (release LinkOps held)).

Definition mod_init (a : answers) : Z * list resource :=
  if negb (got a AllowedipsSlab) then (- ENOMEM, []) else
  let held := [AllowedipsSlab] in
  if negb (got a PeerCache) then (- ENOMEM, release AllowedipsSlab held) else
  let held := PeerCache :: held in
  let '(ret, held) := wg_device_init a held in
  if ret <? 0 then (ret, release AllowedipsSlab (release PeerCache held)) else
  let ret := register a GenlFamily in
  if ret <? 0 then (ret, release AllowedipsSlab (release PeerCache (wg_device_uninit held))) else
  (0, GenlFamily :: held).

Definition mod_exit (held : list resource) : list resource :=
  release AllowedipsSlab (release PeerCache (wg_device_uninit (release GenlFamily held))).

(** ** What is given back *)

Lemma release_app r l l' : release r (l ++ l') = release r l ++ release r l'.
Proof. unfold release. induction l as [|x l IH]; [done|]. cbn. rewrite IH. by case_if. Qed.

(** The buffers of the processors, the last one first. *)
Definition requests (cpus : list Z) : list resource := rev (map AesRequest cpus).

Lemma release_aes r aes l : is_aes r = false -> forallb is_aes aes = true -> release r (aes ++ l) = aes ++ release r l.
Proof.
  intros Hr Ha. rewrite release_app. f_equal. induction aes as [|x aes IH]; [done|]. cbn in *. apply andb_true_iff in Ha as [Hx Ha].
  rewrite bool_decide_eq_false_2 by congruence. cbn. by rewrite IH.
Qed.

Lemma requests_aes cpus : forallb is_aes (requests cpus ++ [AesCpu]) = true.
Proof.
  rewrite forallb_app. cbn. rewrite andb_true_r. unfold requests. induction cpus as [|cpu cpus IH]; [done|]. cbn [map rev].
  rewrite forallb_app, IH. done.
Qed.

Lemma aes_filter cpus held :
  List.filter is_aes held = [] -> List.filter (fun r => negb (is_aes r)) (requests cpus ++ AesCpu :: held) = held.
Proof.
  intros Hh. rewrite List.filter_app. cbn.
  assert (Hreq : List.filter (fun r => negb (is_aes r)) (requests cpus) = []).
  { unfold requests. induction cpus as [|cpu cpus IH]; [done|]. cbn [map rev]. by rewrite List.filter_app, IH. }
  rewrite Hreq. induction held as [|r held IH]; [done|]. cbn in *. destruct (is_aes r); [done|]. cbn. by rewrite IH.
Qed.

(** The buffers are all there or none of them is. *)
Lemma alloc_requests_spec a cpus got_ held :
  List.filter is_aes held = [] ->
  alloc_requests a cpus (requests got_ ++ AesCpu :: held) =
  (if forallb (fun cpu => got a (AesRequest cpu)) cpus then (0, requests (got_ ++ cpus) ++ AesCpu :: held) else (- ENOMEM, held)).
Proof.
  intros Hh. revert got_. induction cpus as [|cpu cpus IH]; intros got_; cbn [alloc_requests forallb].
  - by rewrite app_nil_r.
  - destruct (got a (AesRequest cpu)); cbn [andb].
    + assert (E : AesRequest cpu :: requests got_ ++ AesCpu :: held = requests (got_ ++ [cpu]) ++ AesCpu :: held).
      { unfold requests. by rewrite map_app, rev_app_distr. }
      rewrite E, IH. by rewrite <- app_assoc.
    + unfold wg_free_aes_percpu. rewrite bool_decide_eq_true_2 by (apply elem_of_app; right; left). by rewrite aes_filter.
Qed.

Lemma init_aes_spec a held :
  List.filter is_aes held = [] ->
  wg_init_aes_percpu a held =
    (if negb (aead_probe a) then (0, true, held)
     else if got a AesCpu && forallb (fun cpu => got a (AesRequest cpu)) (possible_cpus a)
     then (0, false, requests (possible_cpus a) ++ AesCpu :: held) else (- ENOMEM, false, held)).
Proof.
  intros Hh. unfold wg_init_aes_percpu. destruct (aead_probe a); [|done]. destruct (got a AesCpu); [|done]. cbn [negb andb].
  change (AesCpu :: held) with (requests [] ++ AesCpu :: held) at 1. rewrite alloc_requests_spec by done. by case_if.
Qed.

Lemma limiter_init_spec m rl ret rl' :
  0 <= init_refcnt rl < U64_MAX -> wg_ratelimiter_init m rl = (ret, rl') ->
  (ret = 0 /\ init_refcnt rl' = init_refcnt rl + 1) \/ (ret = - ENOMEM /\ init_refcnt rl' = init_refcnt rl).
Proof.
  intros Hr. unfold wg_ratelimiter_init.
  assert (E : u64 (init_refcnt rl + 1) = init_refcnt rl + 1) by (apply wrap_small; lia).
  assert (E' : u64 (init_refcnt rl + 1 - 1) = init_refcnt rl) by (rewrite wrap_small; lia).
  cbn [init_refcnt set_refcnt]. rewrite E.
  repeat (case_if; try (intros [= <- <-]; cbn [init_refcnt set_refcnt]; rewrite ?E'; tauto)).
Qed.

Lemma barrier_refcnt s : init_refcnt (rcu_barrier s) = init_refcnt s.
Proof. unfold rcu_barrier. induction (Z.to_nat (rcu_pending s)) as [|n IH]; [done|]. cbn [Nat.iter]. by rewrite <- IH. Qed.

Lemma limiter_uninit_refcnt now rl n : init_refcnt rl = n + 1 -> 0 <= n < U64_MAX -> init_refcnt (wg_ratelimiter_uninit now rl) = n.
Proof.
  intros H Hn. unfold wg_ratelimiter_uninit. rewrite H. destruct (Z.eqb_spec (n + 1) 0); [lia|].
  cbn [init_refcnt set_refcnt]. assert (E : u64 (n + 1 - 1) = n) by (rewrite wrap_small; lia). rewrite E.
  destruct (Z.eqb_spec n 0) as [Hz|]; cbn [negb]; [|done]. cbn [init_refcnt]. by rewrite barrier_refcnt.
Qed.

Lemma queue_init_spec a q held :
  ring_init a q <= 0 ->
  (exists ret, ret < 0 /\ wg_packet_queue_init a q held = (ret, held)) \/
  wg_packet_queue_init a q held = (0, Worker q :: Ring q :: held).
Proof.
  intros H. unfold wg_packet_queue_init. destruct (Z.eqb_spec (ring_init a q) 0); cbn [negb].
  - destruct (got a (Worker q)); [by right|]. left. by exists (- ENOMEM).
  - left. exists (ring_init a q). split; [lia|done].
Qed.

(** What a complete device holds but for its buffers and its registration. *)
Definition base_held : list resource :=
  RatelimiterUse :: Worker HandshakeQueue :: Ring HandshakeQueue :: Worker DecryptQueue :: Ring DecryptQueue ::
  Worker EncryptQueue :: Ring EncryptQueue :: [PacketCryptWq; HandshakeSendWq; HandshakeReceiveWq; Tstats; IndexHashtable; PeerHashtable].

(** How the creation ends: it fails with nothing held, or everything up to the registration is held. *)
Lemma newlink_cases now a rl :
  (forall q, ring_init a q <= 0) -> 0 <= init_refcnt rl < U64_MAX ->
  let l := wg_newlink now a rl in
  (l_ret l < 0 /\ l_held l = [] /\ init_refcnt (l_limiter l) = init_refcnt rl) \/
  exists rl1 is_chacha aes, init_refcnt rl1 = init_refcnt rl + 1 /\ is_chacha = negb (aead_probe a) /\
    aes = (if is_chacha then [] else requests (possible_cpus a) ++ [AesCpu]) /\
    l = (if register a Netdevice <? 0 then err_uninit_ratelimiter now (register a Netdevice) rl1 (aes ++ base_held)
         else {| l_ret := register a Netdevice; l_is_chacha := is_chacha; l_held := Netdevice :: aes ++ base_held; l_limiter := rl1 |}).
Proof.
  intros Hring Hrc. unfold wg_newlink. cbv zeta.
  do 6 (case_if; [left; done|]).
  destruct (queue_init_spec a EncryptQueue [PacketCryptWq; HandshakeSendWq; HandshakeReceiveWq; Tstats; IndexHashtable; PeerHashtable] (Hring _))
    as [(ret & Hret & ->)| ->].
  { rewrite (proj2 (Z.ltb_lt _ _) Hret). by left. }
  cbn [Z.ltb Z.compare].
  match goal with |- context [wg_packet_queue_init a DecryptQueue ?h] => destruct (queue_init_spec a DecryptQueue h (Hring _)) as [(ret & Hret & ->)| ->] end.
  { rewrite (proj2 (Z.ltb_lt _ _) Hret). by left. }
  cbn [Z.ltb Z.compare].
  match goal with |- context [wg_packet_queue_init a HandshakeQueue ?h] => destruct (queue_init_spec a HandshakeQueue h (Hring _)) as [(ret & Hret & ->)| ->] end.
  { rewrite (proj2 (Z.ltb_lt _ _) Hret). by left. }
  cbn [Z.ltb Z.compare].
  destruct (wg_ratelimiter_init (limiter_memory a) rl) as [ret rl1] eqn:Erl.
  destruct (limiter_init_spec _ _ _ _ Hrc Erl) as [[-> Hrc1]|[-> Hrc1]]; cbn [Z.ltb Z.compare].
  2:{ left. done. }
  rewrite init_aes_spec by done. destruct (aead_probe a); cbn [negb]; [case_if|].
  - right. exists rl1, false, (requests (possible_cpus a) ++ [AesCpu]). split_and!; try done. rewrite <- app_assoc. done.
  - left. split_and!; try done. cbn. by apply limiter_uninit_refcnt.
  - right. exists rl1, true, []. done.
Qed.

Lemma aes_front cpus held : requests cpus ++ AesCpu :: held = (requests cpus ++ [AesCpu]) ++ held.
Proof. by rewrite <- app_assoc. Qed.

(** The labels give back everything but the buffers. *)
Lemma unwind_held now ret rl aes :
  forallb is_aes aes = true -> l_held (err_uninit_ratelimiter now ret rl (aes ++ base_held)) = aes.
Proof.
  intros Ha. cbv [err_uninit_ratelimiter err_free_handshake_queue err_free_decrypt_queue err_free_encrypt_queue err_destroy_packet_crypt
    err_destroy_handshake_send err_destroy_handshake_receive err_free_tstats err_free_index_hashtable err_free_peer_hashtable
    wg_packet_queue_free l_held]. rewrite !release_aes by done. apply app_nil_r.
Qed.

Lemma free_aes_percpu_spec cpus (b : bool) held :
  List.filter is_aes held = [] -> wg_free_aes_percpu ((if b then [] else requests cpus ++ [AesCpu]) ++ held) = held.
Proof.
  intros Hh. unfold wg_free_aes_percpu. destruct b.
  - rewrite bool_decide_eq_false_2; [done|]. cbn. intros Hin. apply list_elem_of_In in Hin.
    assert (Hf : In AesCpu (List.filter is_aes held)) by (by apply filter_In). by rewrite Hh in Hf.
  - rewrite <- app_assoc. rewrite bool_decide_eq_true_2 by (apply elem_of_app; right; left). by apply aes_filter.
Qed.

(** ** Properties *)

(** C27: a device is created completely or not at all. When any step of [wg_newlink] up to the AES-GCM
    buffers fails, or the registration of a device without such buffers, every resource acquired
    before has been given back and the rate limiter has as many users as before; when it succeeds,
    the device uses ChaCha20-Poly1305 exactly if [crypto_alloc_aead] has failed, for whatever reason,
    and [wg_destruct] later gives everything back. *)
Theorem newlink_completes_or_releases now now' a rl :
  (forall q, ring_init a q <= 0) -> 0 <= init_refcnt rl < U64_MAX ->
  let l := wg_newlink now a rl in
  if l_ret l <? 0 then
    (0 <= register a Netdevice \/ aead_probe a = false -> l_held l = []) /\ init_refcnt (l_limiter l) = init_refcnt rl
  else
    l_is_chacha l = negb (aead_probe a) /\ Netdevice ∈ l_held l /\
    l_held (wg_destruct_resources now' l) = [] /\ init_refcnt (l_limiter (wg_destruct_resources now' l)) = init_refcnt rl.
Proof.
  intros Hring Hrc. cbv zeta.
  destruct (newlink_cases now a rl Hring Hrc) as [(Hret & Hheld & Hrl)|(rl1 & c & aes & Hrl & -> & -> & ->)].
  - rewrite (proj2 (Z.ltb_lt _ _) Hret). done.
  - destruct (Z.ltb_spec (register a Netdevice) 0) as [Hr|Hr]; cbn [l_ret].
    + assert (l_ret (err_uninit_ratelimiter now (register a Netdevice) rl1
               ((if negb (aead_probe a) then [] else requests (possible_cpus a) ++ [AesCpu]) ++ base_held)) = register a Netdevice) as -> by done.
      rewrite (proj2 (Z.ltb_lt _ _) Hr). split; [|by apply limiter_uninit_refcnt].
      intros [?|Hp]; [lia|]. rewrite Hp. by apply (unwind_held now _ rl1 []).
    + destruct (Z.ltb_spec (register a Netdevice) 0); [lia|]. split_and!; [done|left| |by apply limiter_uninit_refcnt].
      set (aes := if negb _ then _ else _). assert (Haes : forallb is_aes aes = true).
      { unfold aes. destruct (aead_probe a); [apply requests_aes|done]. }
      cbv [wg_destruct_resources l_held wg_packet_queue_free].
      change (Netdevice :: aes ++ base_held) with ([Netdevice] ++ aes ++ base_held).
      rewrite (release_app Netdevice [Netdevice]), app_nil_l by done.
      rewrite !release_aes by done. unfold aes. by rewrite free_aes_percpu_spec.
Qed.

(** The kernel of a machine with two processors; what is registered is refused. *)
Definition refusing : answers :=
  {| got := fun _ => true; ring_init := fun _ => 0; aead_probe := true; possible_cpus := [0; 1];
     limiter_memory := {| kmem_cache_ok := true; v4_ok := true; v6_ok := true; random_key := 7; totalram := 1000 |};
     register := fun _ => - EBUSY |}.
Definition short_of_workers : answers :=
  {| got := fun r => negb (bool_decide (r = Worker DecryptQueue)); ring_init := fun _ => 0; aead_probe := true; possible_cpus := [0; 1];
     limiter_memory := limiter_memory refusing; register := fun _ => 0 |}.

Lemma newlink_completes_or_releases_witness :
  l_ret (wg_newlink 5 short_of_workers ratelimiter_static) = - ENOMEM /\
  l_held (wg_newlink 5 short_of_workers ratelimiter_static) = [].
Proof.
  destruct (newlink_completes_or_releases 5 9 short_of_workers ratelimiter_static) as [H _]; [done|done|].
  split; [reflexivity|]. apply H. by left.
Defined.

(** When the registration of a device with AES-GCM buffers fails, the buffers are never freed:
    [wg_newlink] jumps to a label that does not call [wg_free_aes_percpu], and the destructor is not
    set yet, so the per-CPU area and every request buffer stay allocated. *)
Theorem newlink_register_failure_leaks_buffers now a rl rl1 :
  (forall r, got a r = true) -> (forall q, ring_init a q = 0) -> wg_ratelimiter_init (limiter_memory a) rl = (0, rl1) ->
  aead_probe a = true -> register a Netdevice < 0 ->
  l_ret (wg_newlink now a rl) = register a Netdevice /\
  l_held (wg_newlink now a rl) = requests (possible_cpus a) ++ [AesCpu].
Proof.
  intros Hgot Hring Hrl Hp Hr. unfold wg_newlink, wg_packet_queue_init. rewrite !Hgot, !Hring. cbn [negb Z.eqb Z.ltb Z.compare].
  rewrite Hrl. cbn [Z.ltb Z.compare]. rewrite init_aes_spec by done. rewrite Hp, Hgot.
  rewrite (proj2 (forallb_forall _ _)) by (intros; apply Hgot). cbn [negb andb Z.ltb Z.compare].
  rewrite (proj2 (Z.ltb_lt _ _) Hr). split; [done|].
  rewrite (aes_front (possible_cpus a)). apply unwind_held, requests_aes.
Qed.

Lemma newlink_register_failure_leaks_buffers_witness :
  l_held (wg_newlink 5 refusing ratelimiter_static) = [AesRequest 1; AesRequest 0; AesCpu].
Proof.
  destruct (newlink_register_failure_leaks_buffers 5 refusing ratelimiter_static
              (snd (wg_ratelimiter_init (limiter_memory refusing) ratelimiter_static))) as [_ H]; [done..|].
  exact H.
Defined.

(** The module is loaded completely or not at all. [mod_init] returns 0 with everything
    registered, which [mod_exit] takes back in full, or an error number with nothing held. *)
Theorem mod_init_completes_or_releases a :
  (forall r, register a r <= 0) ->
  let '(ret, held) := mod_init a in
  if ret =? 0 then GenlFamily ∈ held /\ LinkOps ∈ held /\ mod_exit held = [] else ret < 0 /\ held = [].
Proof.
  intros Hr. unfold mod_init, wg_device_init. pose proof (Hr PmNotifier). pose proof (Hr PernetOps). pose proof (Hr LinkOps). pose proof (Hr GenlFamily).
  destruct (got a AllowedipsSlab); [|done]. destruct (got a PeerCache); [|done]. cbn [negb].
  destruct (Z.eqb_spec (register a PmNotifier) 0); cbn [negb].
  2:{ rewrite (proj2 (Z.ltb_lt _ _)), (proj2 (Z.eqb_neq _ _)) by lia. by split; [lia|]. }
  destruct (Z.eqb_spec (register a PernetOps) 0); cbn [negb].
  2:{ rewrite (proj2 (Z.ltb_lt _ _)), (proj2 (Z.eqb_neq _ _)) by lia. by split; [lia|]. }
  destruct (Z.eqb_spec (register a LinkOps) 0); cbn [negb Z.ltb Z.compare].
  2:{ rewrite (proj2 (Z.ltb_lt _ _)), (proj2 (Z.eqb_neq _ _)) by lia. by split; [lia|]. }
  destruct (Z.ltb_spec (register a GenlFamily) 0) as [Hg|Hg].
  - rewrite (proj2 (Z.eqb_neq _ _)) by lia. split; [done|reflexivity].
  - cbn [Z.eqb]. split_and!; [left|right; left|reflexivity].
Qed.

Lemma mod_init_completes_or_releases_witness :
  mod_init refusing = (- EBUSY, []) /\ mod_exit (snd (mod_init short_of_workers)) = [].
Proof.
  pose proof (mod_init_completes_or_releases refusing) as H. pose proof (mod_init_completes_or_releases short_of_workers) as H'.
  split.
  - destruct H as [_ H]; [intros r; done|]. change (mod_init refusing) with (- EBUSY, snd (mod_init refusing)). by rewrite <- H.
  - destruct H' as (_ & _ & H'); [intros r; done|]. exact H'.
Defined.
