(* ===== verification/Port51555.v ===== *)
(** * Port51555: the port in src/wireguard-5.15.55

    An older port of the same module keeps six files of its own (device.c, noise.c, receive.c, send.c
    and two headers) beside the files of src/. Modelled here is what it does differently where
    memory and sessions are at stake: the creation and the destruction of a device, the start of a
    session, and the choice of a processor in src/queueing.h. Its sessions begin as in the module of
    src/wireguard-5.15-aes; its [wg_newlink] takes the AES-GCM buffers first and never gives them
    back when a later step fails. *)

From Stdlib Require Import Sorted.
From S2P Require Import Prelude Messages Skb RateLimiter PeerLookup Crypto NoiseCrypto World Objects Keypairs Noise PrevQueue Queueing DeviceLife Samples.

Module Port.

(** ** src/queueing.h: the next processor *)

(** The [while] loop: the first online processor from [cpu] on. *)
Fixpoint seek_online (fuel : nat) (mask : list Z) (nr_cpumask_bits cpu : Z) : option Z :=
  if cpumask_test_cpu cpu mask then Some cpu
  else match fuel with
       | O => None
       | S fuel => seek_online fuel mask nr_cpumask_bits (cpumask_next cpu mask nr_cpumask_bits mod nr_cpumask_bits)
       end.

(** The processor and the new value of [*next]. After at most two steps an online one is reached:
    the next above [cpu], or the first one after the end of the mask. *)
Definition wg_cpumask_next_online (mask : list Z) (nr_cpumask_bits next : Z) : option (Z * Z) :=
  cpu ← seek_online 2 mask nr_cpumask_bits next;
  Some (cpu, cpumask_next cpu mask nr_cpumask_bits mod nr_cpumask_bits).

(** ** device.c: creating and destroying a device *)

Definition err_free_peer_hashtable (ret : Z) (rl : ratelimiter) (held : list resource) : link :=
  {| l_ret := ret; l_is_chacha := false; l_held := release PeerHashtable held; l_limiter := rl |}.
Definition err_free_index_hashtable (ret : Z) (rl : ratelimiter) (held : list resource) : link :=
  err_free_peer_hashtable ret rl (release IndexHashtable held).
Definition err_free_tstats (ret : Z) (rl : ratelimiter) (held : list resource) : link :=
  err_free_index_hashtable ret rl (release Tstats held).
Definition err_free_incoming_handshakes (ret : Z) (rl : ratelimiter) (held : list resource) : link :=
  err_free_tstats ret rl (release IncomingHandshakesWorker held).
Definition err_destroy_handshake_receive (ret : Z) (rl : ratelimiter) (held : list resource) : link :=
  err_free_incoming_handshakes ret rl (release HandshakeReceiveWq held).
Definition err_destroy_handshake_send (ret : Z) (rl : ratelimiter) (held : list resource) : link :=
  err_destroy_handshake_receive ret rl (release HandshakeSendWq held).
Definition err_destroy_packet_crypt (ret : Z) (rl : ratelimiter) (held : list resource) : link :=
  err_destroy_handshake_send ret rl (release PacketCryptWq held).
Definition err_free_encrypt_queue (ret : Z) (rl : ratelimiter) (held : list resource) : link :=
  err_destroy_packet_crypt ret rl (wg_packet_queue_free EncryptQueue held).
Definition err_free_decrypt_queue (ret : Z) (rl : ratelimiter) (held : list resource) : link :=
  err_free_encrypt_queue ret rl (wg_packet_queue_free DecryptQueue held).
Definition err_uninit_ratelimiter (now ret : Z) (rl : ratelimiter) (held : list resource) : link :=
  err_free_decrypt_queue ret (wg_ratelimiter_uninit now rl) (release RatelimiterUse held).

Definition wg_newlink (now : Z) (a : answers) (rl : ratelimiter) : link :=
  let '(aes, is_chacha, held) := wg_init_aes_percpu a [] in
  if negb (aes =? 0) then {| l_ret := - ENOMEM; l_is_chacha := false; l_held := held; l_limiter := rl |} else
  if negb (got a PeerHashtable) then {| l_ret := - ENOMEM; l_is_chacha := false; l_held := held; l_limiter := rl |} else
  let held := PeerHashtable :: held in
  if negb (got a IndexHashtable) then err_free_peer_hashtable (- ENOMEM) rl held else
  let held := IndexHashtable :: held in
  if negb (got a Tstats) then err_free_index_hashtable (- ENOMEM) rl held else
  let held := Tstats :: held in
  if negb (got a IncomingHandshakesWorker) then err_free_tstats (- ENOMEM) rl held else
  let held := IncomingHandshakesWorker :: held in
  if negb (got a HandshakeReceiveWq) then err_free_incoming_handshakes (- ENOMEM) rl held else
  let held := HandshakeReceiveWq :: held in
  if negb (got a HandshakeSendWq) then err_destroy_handshake_receive (- ENOMEM) rl held else
  let held := HandshakeSendWq :: held in
  if negb (got a PacketCryptWq) then err_destroy_handshake_send (- ENOMEM) rl held else
  let held := PacketCryptWq :: held in
  let '(ret, held) := wg_packet_queue_init a EncryptQueue held in
  if ret <? 0 then err_destroy_packet_crypt ret rl held else
  let '(ret, held) := wg_packet_queue_init a DecryptQueue held in
  if ret <? 0 then err_free_encrypt_queue ret rl held else
  let '(ret, rl) := wg_ratelimiter_init (limiter_memory a) rl in
  if ret <? 0 then err_free_decrypt_queue ret rl held else
  let held := RatelimiterUse :: held in
  let ret := register a Netdevice in
  if ret <? 0 then err_uninit_ratelimiter now ret rl held else
  {| l_ret := ret; l_is_chacha := is_chacha; l_held := Netdevice :: held; l_limiter := rl |}.

(** The resources that [wg_destruct] gives back. *)
Definition wg_destruct (now : Z) (l : link) : link :=
  let held := release Netdevice (l_held l) in
  let held := release HandshakeReceiveWq held in
  let held := release HandshakeSendWq held in
  let held := release PacketCryptWq held in
  let held := wg_packet_queue_free DecryptQueue held in
  let held := wg_packet_queue_free EncryptQueue held in
  let rl := wg_ratelimiter_uninit now (l_limiter l) in
  let held := release RatelimiterUse held in
  let held := release Tstats held in
  let held := release IncomingHandshakesWorker held in
  let held := release IndexHashtable held in
  let held := release PeerHashtable held in
  let held := wg_free_aes_percpu held in
  {| l_ret := l_ret l; l_is_chacha := l_is_chacha l; l_held := held; l_limiter := rl |}.

(** ** noise.c: beginning a session *)

Section Session.
Context {C : Crypto}.

(** [crypto_free_aead] on a handle that is set. *)
Definition free_aead (h : option bytes) (w : wg_device) : wg_device :=
  match h with Some _ => upd_d_aead_handles (fun n => n - 1) w | None => w end.

(** The label [out_free_new], which frees the handles without the RCU callback. *)
Definition out_free_new (k : keypair_id) (w : wg_device) : option wg_device :=
  kp ← d_keypairs w !! k;
  let w := free_aead (kp_aead_dec kp) (free_aead (kp_aead_enc kp) w) in
  (* kfree_sensitive(new_keypair) *)
  Some (free_entry (Keypair k) (upd_d_keypairs (delete k) w)).

Definition wg_noise_handshake_begin_session (e : env) (p : peer_id) (w : wg_device) : option (bool * wg_device) :=
  pr ← d_peers w !! p;
  let hs := p_handshake pr in
  if negb (bool_decide (hs_state hs = HANDSHAKE_CREATED_RESPONSE))
     && negb (bool_decide (hs_state hs = HANDSHAKE_CONSUMED_RESPONSE))
  then Some (false, w)
  else
    match keypair_create e p w with
    | (None, w) => Some (false, w)
    | (Some k, w) =>
        let initiator := bool_decide (hs_state hs = HANDSHAKE_CONSUMED_RESPONSE) in
        let w := upd_keypair k (upd_kp_i_am_the_initiator (fun _ => initiator)) w in
        let w := upd_keypair k (upd_kp_remote_index (fun _ => hs_remote_index hs)) w in
        let '(first, second) := derive_keys (hs_chaining_key hs) in
        let '(sending, receiving) := if initiator then (first, second) else (second, first) in
        let w := upd_keypair k (upd_kp_sending (fun _ => symmetric_key e sending)) w in
        let w := upd_keypair k (upd_kp_receiving (fun _ => symmetric_key e receiving)) w in
        '(ok, w) ← if negb (d_is_chacha w) then setup_aead e k w else Some (true, w);
        if negb ok then w ← out_free_new k w; Some (false, w)
        else
          let w := upd_handshake p handshake_zero w in
          if negb (p_is_dead pr) then
            w ← add_new_keypair p k w;
            '(ret, t) ← wg_index_hashtable_replace (Handshake p) (Keypair k) (d_index_hashtable w);
            Some (ret, upd_d_index_hashtable (fun _ => t) w)
          else Some (false, free_entry (Keypair k) (upd_d_keypairs (delete k) w))
    end.

Lemma free_aead_count h w : free_aead h w = upd_d_aead_handles (fun n => n - count_handle h) w.
Proof. destruct h; [done|]. destruct w. unfold free_aead, count_handle, upd_d_aead_handles. cbn. f_equal. lia. Qed.

(** Freeing the new keypair at once is what the RCU callback does. *)
Lemma out_free_new_is_free_rcu k w : out_free_new k w = keypair_free_rcu k w.
Proof.
  unfold out_free_new, keypair_free_rcu. destruct (d_keypairs w !! k) as [kp|]; [|done]. cbn [mbind option_bind].
  by rewrite !free_aead_count.
Qed.

(** Both ports begin sessions alike: from every state and whatever fails on the way, they give the
    same result and leave the same state, the handles of the new keypair included. *)
Theorem ports_begin_sessions_alike e p w :
  wg_noise_handshake_begin_session e p w = Noise.wg_noise_handshake_begin_session e p w.
Proof.
  unfold wg_noise_handshake_begin_session, Noise.wg_noise_handshake_begin_session.
  repeat (case_match || (apply option_bind_ext_fun; intros) || (rewrite out_free_new_is_free_rcu) || done).
Qed.
End Session.

(** ** The processors are used in the same order *)

Section Processors.
Context (mask : list Z) (nr : Z) (Hs : StronglySorted Z.lt mask) (Hr : Forall (fun c => 0 <= c < nr) mask).

Lemma seek_hit fuel i c : mask !! i = Some c -> seek_online fuel mask nr c = Some c.
Proof.
  intros Hi. assert (H : cpumask_test_cpu c mask = true) by (apply bool_decide_eq_true; by eapply list_elem_of_lookup_2).
  destruct fuel; cbn; by rewrite H.
Qed.

Lemma in_mask i c : mask !! i = Some c -> 0 <= c < nr.
Proof. intros Hi. rewrite Forall_forall in Hr. apply Hr. by eapply list_elem_of_lookup_2. Qed.

(** From the start of the mask the loop finds the first processor. *)
Lemma seek_first fuel c : mask !! 0%nat = Some c -> seek_online (S fuel) mask nr 0 = Some c.
Proof.
  intros H0. pose proof (in_mask _ _ H0) as Hc. cbn [seek_online]. destruct (cpumask_test_cpu 0 mask) eqn:Et.
  - apply bool_decide_eq_true, list_elem_of_lookup in Et as [i Hi]. destruct i as [|i]; [congruence|].
    pose proof (sorted_lookup mask 0 (S i) c 0 Hs ltac:(lia) H0 Hi). lia.
  - assert (c <> 0) by (intros ->; apply bool_decide_eq_false in Et; apply Et; by eapply list_elem_of_lookup_2).
    unfold cpumask_next. rewrite (find_above mask 0 0 c) by (done || intros; lia). cbn [from_option id].
    rewrite Z.mod_small by lia. by eapply seek_hit.
Qed.

(** The value stored after the [i]-th processor leads to the one after it. *)
Lemma seek_next i c :
  mask !! i = Some c -> seek_online 2 mask nr (cpumask_next c mask nr mod nr) = mask !! (S i mod length mask)%nat.
Proof.
  intros Hi. assert (Hlen : (i < length mask)%nat) by (by eapply lookup_lt_Some).
  destruct (mask !! S i) as [d|] eqn:Ed.
  - assert (S i < length mask)%nat by (by eapply lookup_lt_Some). rewrite Nat.mod_small, Ed by done.
    pose proof (sorted_lookup mask i (S i) c d Hs ltac:(lia) Hi Ed). unfold cpumask_next. rewrite (find_above mask c (S i) d); try done.
    + cbn [from_option id]. rewrite Z.mod_small by (by eapply in_mask). by eapply seek_hit.
    + intros j Hj x Hx. destruct (decide (j = i)) as [->|]; [replace x with c by congruence; lia|].
      pose proof (sorted_lookup mask j i x c Hs ltac:(lia) Hx Hi). lia.
  - apply lookup_ge_None in Ed. assert (S i = length mask) as E by lia. rewrite E, Nat.Div0.mod_same.
    unfold cpumask_next. rewrite find_none.
    + cbn [from_option id]. pose proof (in_mask _ _ Hi). rewrite Z.mod_same by lia.
      destruct (mask !! 0%nat) as [d|] eqn:E0; [by apply seek_first|]. apply lookup_ge_None in E0. lia.
    + rewrite Forall_forall. intros x Hx. apply list_elem_of_lookup in Hx as [j Hj].
      assert (j < length mask)%nat by (by eapply lookup_lt_Some). destruct (decide (j = i)) as [->|]; [replace x with c by congruence; lia|].
      pose proof (sorted_lookup mask j i x c Hs ltac:(lia) Hj Hi). lia.
Qed.

(** The processors that [k] calls return in the two ports. *)
Fixpoint calls (k : nat) (next : Z) : option (list Z) :=
  match k with
  | O => Some []
  | S k => '(cpu, next) ← wg_cpumask_next_online mask nr next; cpus ← calls k next; Some (cpu :: cpus)
  end.
Fixpoint calls_aes (k : nat) (last : Z) : list Z :=
  match k with
  | O => []
  | S k => let '(cpu, last) := Queueing.wg_cpumask_next_online mask nr last in cpu :: calls_aes k last
  end.

(** The loop of the older [wg_cpumask_next_online] ends, and the two ports give the packets to the
    same processors in the same order, once the one points at the processor after the other's last. *)
Theorem ports_use_processors_alike k i last next :
  mask !! i = Some last -> seek_online 2 mask nr next = mask !! (S i mod length mask)%nat ->
  calls k next = Some (calls_aes k last).
Proof.
  revert i last next. induction k as [|k IH]; intros i last next Hi Hnext; [done|]. cbn [calls calls_aes].
  pose proof (next_online_spec mask nr last i Hs Hr Hi) as Hn. set (j := (S i mod length mask)%nat) in *.
  unfold Queueing.wg_cpumask_next_online in *. cbn [snd] in Hn.
  set (cpu := if nr <=? cpumask_next last mask nr then _ else _) in *.
  unfold wg_cpumask_next_online. rewrite Hnext, <- Hn. cbn [mbind option_bind].
  rewrite (IH j cpu); [done|by symmetry|]. symmetry in Hn. by apply seek_next.
Qed.
End Processors.

Lemma ports_use_processors_alike_witness :
  calls [1; 2; 5] 8 5 0 = Some (calls_aes [1; 2; 5] 8 5 5) /\ calls_aes [1; 2; 5] 8 5 5 = [1; 2; 5; 1; 2].
Proof.
  split; [|reflexivity]. apply (ports_use_processors_alike [1; 2; 5] 8) with (i := 2%nat); [|by repeat constructor|done|reflexivity].
  repeat constructor; lia.
Defined.

(** ** What is given back *)

Lemma release_cons_eq r l : release r (r :: l) = release r l.
Proof. unfold release. cbn. by rewrite bool_decide_eq_true_2. Qed.

Lemma release_cons_ne r x l : x <> r -> release r (x :: l) = x :: release r l.
Proof. intros H. unfold release. cbn. by rewrite bool_decide_eq_false_2. Qed.

(** The AES-GCM buffers that the first step has taken. *)
Definition buffers (a : answers) : list resource :=
  if aead_probe a && got a AesCpu && forallb (fun cpu => got a (AesRequest cpu)) (possible_cpus a)
  then requests (possible_cpus a) ++ [AesCpu] else [].

Lemma buffers_aes a : forallb is_aes (buffers a) = true.
Proof. unfold buffers. case_if; [apply requests_aes|done]. Qed.

Lemma release_buffers r a : is_aes r = false -> release r (buffers a) = buffers a.
Proof.
  intros Hr. rewrite <- (app_nil_r (buffers a)) at 1. rewrite release_aes by (done || apply buffers_aes). apply app_nil_r.
Qed.

Lemma init_aes_buffers a :
  wg_init_aes_percpu a [] = ((if aead_probe a && negb (got a AesCpu && forallb (fun cpu => got a (AesRequest cpu)) (possible_cpus a))
                              then - ENOMEM else 0), negb (aead_probe a), buffers a).
Proof.
  rewrite init_aes_spec by done. unfold buffers. destruct (aead_probe a); [|done]. cbn [negb andb].
  by destruct (got a AesCpu && _).
Qed.

(** What is held before the registration, besides the buffers. *)
Definition port_held : list resource :=
  [RatelimiterUse; Worker DecryptQueue; Ring DecryptQueue; Worker EncryptQueue; Ring EncryptQueue; PacketCryptWq; HandshakeSendWq;
   HandshakeReceiveWq; IncomingHandshakesWorker; Tstats; IndexHashtable; PeerHashtable].

(** Every label gives back what was taken after the buffers. *)
Ltac unwound :=
  cbv [err_uninit_ratelimiter err_free_decrypt_queue err_free_encrypt_queue err_destroy_packet_crypt err_destroy_handshake_send
    err_destroy_handshake_receive err_free_incoming_handshakes err_free_tstats err_free_index_hashtable err_free_peer_hashtable
    wg_packet_queue_free l_held l_ret l_limiter];
  repeat first [rewrite release_cons_eq | rewrite release_cons_ne by done | rewrite release_buffers by done]; try done.

Lemma port_newlink_cases now a rl :
  (forall q, ring_init a q <= 0) -> 0 <= init_refcnt rl < U64_MAX ->
  let l := wg_newlink now a rl in
  (l_ret l < 0 /\ l_held l = buffers a /\ init_refcnt (l_limiter l) = init_refcnt rl) \/
  exists rl1, init_refcnt rl1 = init_refcnt rl + 1 /\ 0 <= register a Netdevice /\
    l = {| l_ret := register a Netdevice; l_is_chacha := negb (aead_probe a); l_held := Netdevice :: port_held ++ buffers a; l_limiter := rl1 |}.
Proof.
  intros Hring Hrc. unfold wg_newlink. cbv zeta. rewrite init_aes_buffers.
  destruct (aead_probe a && _); [by left|]. cbn [Z.eqb negb].
  destruct (got a PeerHashtable); cbn [negb]; [|by left].
  do 6 (case_if; [left; split_and!; unwound|]).
  set (h := [PacketCryptWq; HandshakeSendWq; HandshakeReceiveWq; IncomingHandshakesWorker; Tstats; IndexHashtable; PeerHashtable] ++ buffers a).
  destruct (queue_init_spec a EncryptQueue h (Hring _)) as [(ret & Hret & E1)|E1]; cbn [app h] in E1; rewrite E1.
  { rewrite (proj2 (Z.ltb_lt _ _) Hret). left. split_and!; unwound. }
  cbn [Z.ltb Z.compare]. destruct (queue_init_spec a DecryptQueue (Worker EncryptQueue :: Ring EncryptQueue :: h) (Hring _))
    as [(ret & Hret & E2)|E2]; cbn [app h] in E2; rewrite E2.
  { rewrite (proj2 (Z.ltb_lt _ _) Hret). left. split_and!; unwound. }
  cbn [Z.ltb Z.compare]. destruct (wg_ratelimiter_init (limiter_memory a) rl) as [ret rl1] eqn:Erl.
  destruct (limiter_init_spec _ _ _ _ Hrc Erl) as [[-> Hrc1]|[-> Hrc1]]; cbn [Z.ltb Z.compare].
  2:{ left. split_and!; unwound. }
  destruct (Z.ltb_spec (register a Netdevice) 0) as [Hr|Hr].
  - left. split_and!; unwound. by apply limiter_uninit_refcnt.
  - right. exists rl1. done.
Qed.

(** Whatever fails after the AES-GCM buffers were taken, they stay allocated, and nothing else does;
    a device that was created is destroyed without a rest. *)
Theorem port_newlink_leaks_buffers now now' a rl :
  (forall q, ring_init a q <= 0) -> 0 <= init_refcnt rl < U64_MAX ->
  let l := wg_newlink now a rl in
  if l_ret l <? 0 then l_held l = buffers a /\ init_refcnt (l_limiter l) = init_refcnt rl
  else l_is_chacha l = negb (aead_probe a) /\ l_held (wg_destruct now' l) = [] /\
       init_refcnt (l_limiter (wg_destruct now' l)) = init_refcnt rl.
Proof.
  intros Hring Hrc. cbv zeta. destruct (port_newlink_cases now a rl Hring Hrc) as [(Hret & Hheld & Hrl)|(rl1 & Hrl & Hreg & E)].
  - by rewrite (proj2 (Z.ltb_lt _ _) Hret).
  - rewrite E. cbn [l_ret]. destruct (Z.ltb_spec (register a Netdevice) 0); [lia|].
    split_and!; [done| |by apply limiter_uninit_refcnt]. unfold port_held. cbn [app]. cbv [wg_destruct]. unwound.
    unfold buffers. pose proof (free_aes_percpu_spec (possible_cpus a)
      (negb (aead_probe a && got a AesCpu && forallb (fun cpu => got a (AesRequest cpu)) (possible_cpus a))) [] eq_refl) as H0.
    rewrite app_nil_r in H0. by destruct (aead_probe a && got a AesCpu && _).
Qed.

Lemma port_newlink_leaks_buffers_witness :
  l_held (wg_newlink 5 short_of_workers ratelimiter_static) = [AesRequest 1; AesRequest 0; AesCpu].
Proof.
  destruct (port_newlink_leaks_buffers 5 9 short_of_workers ratelimiter_static) as [H _]; [done|done|]. exact H.
Defined.

End Port.
