(* ===== verification/PortPaths.v ===== *)
(** * PortPaths: handshake messages, stopping and leaving a namespace in the port of src/wireguard-5.15.55

    The older port keeps the messages that wait in a list (incoming_handshakes) instead of a ring with
    a counter beside it. Its load is the length of the list, and nothing but a look at that length
    before a message is appended bounds it. [d_handshake_queue] is the list and [d_handshake_last_cpu]
    its incoming_handshake_cpu; its device has no use for [d_handshake_queue_len]. When the namespace a
    device was created in goes away, it does not forget the source addresses of its peers' routes. *)

From S2P Require Import Prelude Messages Skb Replay AllowedIps PeerLookup RateLimiter Crypto NoiseCrypto World Samples Objects Keypairs Noise NoiseProps.
From S2P Require Import Cookie PrevQueue Socket Queueing Timers Send Receive Workers Device Port51555.

Module PortPaths.
Section PortPaths.
Context {C : Crypto} {K : Hashes} {N : NetStack}.

(** [skb_queue_len(&wg->incoming_handshakes)] *)
Definition incoming (w : wg_device) : Z := Z.of_nat (length (d_handshake_queue w)).

Definition wg_receive_handshake_packet (e : env) (skb : sk_buff) (w : wg_device) : option wg_device :=
  if skb_type (data skb) =? MESSAGE_HANDSHAKE_COOKIE then
    wg_cookie_message_consume e (message_handshake_cookie_of (data skb)) w
  else
    let '(under_load, last) := load_state e (incoming w) (d_last_under_load w) in
    let w := upd_d_last_under_load (fun _ => last) w in
    '(mac_state, w) ← wg_cookie_validate_packet e skb under_load w;
    match needs_cookie under_load mac_state with
    | None => Some w
    | Some packet_needs_cookie =>
        if skb_type (data skb) =? MESSAGE_HANDSHAKE_INITIATION then
          let message := message_handshake_initiation_of (data skb) in
          if packet_needs_cookie then Some (wg_packet_send_handshake_cookie e skb (hi_sender_index message) w)
          else
            '(peer, w) ← wg_noise_handshake_consume_initiation siphash e message w;
            match peer with
            | None => Some w
            | Some p =>
                let w := wg_socket_set_peer_endpoint_from_skb p skb w in
                w ← wg_packet_send_handshake_response e p w;
                handshake_packet_done e skb p w
            end
        else if skb_type (data skb) =? MESSAGE_HANDSHAKE_RESPONSE then
          let message := message_handshake_response_of (data skb) in
          if packet_needs_cookie then Some (wg_packet_send_handshake_cookie e skb (hr_sender_index message) w)
          else
            '(peer, w) ← wg_noise_handshake_consume_response message w;
            match peer with
            | None => Some w
            | Some p =>
                let w := wg_socket_set_peer_endpoint_from_skb p skb w in
                '(begun, w) ← Port.wg_noise_handshake_begin_session e p w;
                w ← (if begun : bool then
                       let w := wg_timers_session_derived e p w in
                       let w := wg_timers_handshake_complete e p w in
                       wg_packet_send_keepalive e p w
                     else Some w);
                handshake_packet_done e skb p w
            end
        else Some w
    end.

(** One round of [wg_packet_handshake_receive_worker]. *)
Definition handshake_receive_round (e : env) (w : wg_device) : option (bool * wg_device) :=
  match d_handshake_queue w with
  | [] => Some (false, w)
  | skb :: rest =>
      let w := upd_d_handshake_queue (fun _ => rest) w in
      w ← wg_receive_handshake_packet e skb w;
      Some (true, w)
  end.

Definition wg_packet_handshake_receive_worker (e : env) (w : wg_device) : option wg_device :=
  run_while (S (length (d_handshake_queue w))) (handshake_receive_round e) w.

(** The condition under which [wg_packet_receive] drops a handshake message. *)
Definition drops_handshake (e : env) (queue_len : Z) : bool :=
  (MAX_QUEUED_INCOMING_HANDSHAKES <? queue_len) || negb (rng_is_initialized e).

Definition wg_packet_receive (e : env) (r : raw_datagram) (w : wg_device) : option wg_device :=
  match prepare_skb_header e r with
  | None => Some w
  | Some skb =>
      let type := skb_type (data skb) in
      if (type =? MESSAGE_HANDSHAKE_INITIATION) || (type =? MESSAGE_HANDSHAKE_RESPONSE) || (type =? MESSAGE_HANDSHAKE_COOKIE) then
        if drops_handshake e (incoming w) then Some w
        else
          let w := upd_d_handshake_queue (fun l => l ++ [skb]) w in
          '(cpu, next) ← Port.wg_cpumask_next_online (cpu_online_mask e) (nr_cpu_ids e) (d_handshake_last_cpu w);
          let w := upd_d_handshake_last_cpu (fun _ => next) w in
          Some (snd (queue_work (HandshakeReceive cpu) w))
      else if type =? MESSAGE_DATA then wg_packet_consume_data e skb w
      else Some w
  end.

(** ** Stopping a device, and the end of its namespace *)

Definition wg_stop (retries : nat) (e : env) (envs : work -> env) (w : wg_device) : option (Z * wg_device) :=
  w ← for_each_peer (fun p w =>
        w ← wg_packet_purge_staged_packets p w;
        w ← wg_timers_stop retries envs p w;
        let w := wg_noise_handshake_clear p w in
        w ← wg_noise_keypairs_clear p w;
        Some (upd_peer p (wg_noise_reset_last_sent_handshake e) w))
      (d_peer_list w) w;
  let w := upd_d_handshake_queue (fun _ => []) w in
  Some (0, wg_socket_reinit None None w).

(** [wg_netns_pre_exit] for one device. *)
Definition wg_netns_pre_exit (net : Z) (w : wg_device) : wg_device :=
  if bool_decide (d_creating_net w = Some net) then
    let w := upd_d_creating_net (fun _ => None) w in
    wg_socket_reinit None None w
  else w.

(** ** The same verdicts *)

(** Where the counter of the newer port shows the length of the list, both ports do the same with a
    message: the cookie it is answered with, the handshake it moves on, the session it begins. *)
Theorem ports_receive_handshakes_alike e skb w :
  d_handshake_queue_len w = incoming w -> wg_receive_handshake_packet e skb w = Receive.wg_receive_handshake_packet e skb w.
Proof.
  intros H. unfold wg_receive_handshake_packet, Receive.wg_receive_handshake_packet. rewrite H.
  repeat (case_match || (apply option_bind_ext_fun; intros) || (rewrite Port.ports_begin_sessions_alike) || done).
Qed.

(** Both ports stop a device alike, but for the counter the older one does not have. *)
Theorem ports_stop_alike retries e envs w :
  Device.wg_stop retries e envs w =
    ('(ret, w) ← wg_stop retries e envs w; Some (ret, upd_d_handshake_queue_len (fun _ => 0) w)).
Proof.
  unfold wg_stop, Device.wg_stop. destruct (for_each_peer _ _ w) as [w1|]; [|done]. cbn [mbind option_bind].
  unfold wg_socket_reinit, sock_free. cbn [d_sock4 d_sock6 upd_d_handshake_queue upd_d_handshake_queue_len].
  by destruct (d_sock4 w1), (d_sock6 w1).
Qed.

(** The peer has no source address. *)
Definition forgotten (pr : wg_peer) : Prop :=
  ep_src (p_endpoint pr) = zeroes (length (ep_src (p_endpoint pr))) /\ ep_src_if4 (p_endpoint pr) = 0.

Lemma clear_forgets pr :
  forgotten (upd_p_endpoint (fun ep => upd_ep_src_if4 (fun _ => 0) (upd_ep_src (fun s => zeroes (length s)) ep)) pr).
Proof. split; [|done]. cbn. unfold zeroes. by rewrite length_replicate. Qed.

Lemma clear_all ps w :
  exists w', for_each_peer (fun p w => Some (wg_socket_clear_peer_endpoint_src p w)) ps w = Some w' /\
    d_sock4 w' = d_sock4 w /\ d_sock6 w' = d_sock6 w /\
    forall p pr, d_peers w !! p = Some pr -> p ∈ ps \/ forgotten pr -> exists pr', d_peers w' !! p = Some pr' /\ forgotten pr'.
Proof.
  revert w. induction ps as [|q ps IH]; intros w.
  { exists w. split_and!; try done. intros p pr Hp [Hin|Hf]; [by apply elem_of_nil in Hin|by exists pr]. }
  cbn [for_each_peer mbind option_bind]. destruct (IH (wg_socket_clear_peer_endpoint_src q w)) as (w' & E & E4 & E6 & H).
  exists w'. split_and!; try done. intros p pr Hp Hor.
  destruct (decide (p = q)) as [->|Hne].
  - eapply H; [unfold wg_socket_clear_peer_endpoint_src; by rewrite upd_peer_lookup, Hp|]. right. apply clear_forgets.
  - apply (H p pr); [cbn; by rewrite lookup_alter_ne|]. destruct Hor as [Hin|Hf]; [left|by right].
    apply elem_of_cons in Hin as [->|Hin]; done.
Qed.

(** When the namespace of a device goes away, the sockets go in both ports; the newer one also forgets
    the source addresses its peers were reached from, the older one leaves every peer as it was. *)
Theorem namespace_exit_keeps_sources net w :
  d_creating_net w = Some net ->
  (d_peers (wg_netns_pre_exit net w) = d_peers w /\ d_sock4 (wg_netns_pre_exit net w) = None /\ d_sock6 (wg_netns_pre_exit net w) = None) /\
  exists w', Device.wg_netns_pre_exit net w = Some w' /\ d_sock4 w' = None /\ d_sock6 w' = None /\
    forall p pr, p ∈ d_peer_list w -> d_peers w !! p = Some pr -> exists pr', d_peers w' !! p = Some pr' /\ forgotten pr'.
Proof.
  intros Hn. unfold wg_netns_pre_exit, Device.wg_netns_pre_exit. rewrite bool_decide_eq_true_2 by done.
  destruct (reinit_fields None None (upd_d_creating_net (fun _ => None) w)) as (R4 & R6 & Rp & _ & Rl).
  split; [by rewrite Rp|]. set (w1 := wg_socket_reinit None None _) in *.
  destruct (clear_all (d_peer_list w1) w1) as (w' & E & E4 & E6 & H). exists w'. rewrite E, E4, E6. split_and!; try done.
  intros p pr Hin Hp. eapply H; [rewrite Rp; exact Hp|left; by rewrite Rl].
Qed.
End PortPaths.

(** ** How long the list gets *)

(** Several processors run [wg_packet_receive] at a time. The look at the length and the appending of
    the message are two steps, between which others run; the worker takes messages off. [passed] are
    the processors between the two. *)
Record intake := { waiting : list sk_buff; passed : gset Z }.

Inductive intake_step (cpus : gset Z) (s : intake) : intake -> Prop :=
| is_drop e cpu : cpu ∈ cpus -> cpu ∉ passed s -> drops_handshake e (Z.of_nat (length (waiting s))) = true -> intake_step cpus s s
| is_pass e cpu : cpu ∈ cpus -> cpu ∉ passed s -> drops_handshake e (Z.of_nat (length (waiting s))) = false ->
    intake_step cpus s {| waiting := waiting s; passed := {[cpu]} ∪ passed s |}
| is_append cpu skb : cpu ∈ passed s -> intake_step cpus s {| waiting := waiting s ++ [skb]; passed := passed s ∖ {[cpu]} |}
| is_dequeue skb rest : waiting s = skb :: rest -> intake_step cpus s {| waiting := rest; passed := passed s |}.

Definition idle : intake := {| waiting := []; passed := ∅ |}.

Definition intake_inv (cpus : gset Z) (s : intake) : Prop :=
  passed s ⊆ cpus /\ Z.of_nat (length (waiting s)) + Z.of_nat (size (passed s)) <= MAX_QUEUED_INCOMING_HANDSHAKES + Z.of_nat (size cpus).

Lemma intake_inv_step cpus s s' : intake_step cpus s s' -> intake_inv cpus s -> intake_inv cpus s'.
Proof.
  intros [e cpu Hc Hp Hd|e cpu Hc Hp Hd|cpu skb Hp|skb rest Hw] [Hsub Hb].
  - done.
  - assert (Hsub' : {[cpu]} ∪ passed s ⊆ cpus) by set_solver. split; [done|]. cbn [waiting passed].
    apply orb_false_iff in Hd as [Hd%Z.ltb_ge _]. pose proof (subseteq_size _ _ Hsub'). lia.
  - split; cbn [waiting passed]; [set_solver|]. rewrite length_app. cbn [length].
    assert (Hs : {[cpu]} ⊆ passed s) by set_solver. rewrite size_difference by done.
    pose proof (subseteq_size _ _ Hs) as Hl. rewrite size_singleton in *. lia.
  - split; [done|]. cbn [waiting passed]. rewrite Hw in Hb. cbn [length] in Hb. lia.
Qed.

(** The list of the older port stays bounded although the look at its length and the appending are
    not one step: with [n] processors it holds at most [MAX_QUEUED_INCOMING_HANDSHAKES + n] messages,
    however they interleave. *)
Theorem port_incoming_handshakes_bounded cpus s :
  rtc (intake_step cpus) idle s ->
  Z.of_nat (length (waiting s)) <= MAX_QUEUED_INCOMING_HANDSHAKES + Z.of_nat (size cpus).
Proof.
  intros H. enough (intake_inv cpus s) as [_ Hb] by lia.
  assert (H0 : intake_inv cpus idle) by (split; [set_solver|]; cbn [waiting passed idle length]; rewrite size_empty; unfold MAX_QUEUED_INCOMING_HANDSHAKES; lia).
  clear -H H0. induction H; eauto using intake_inv_step.
Qed.

(** Two processors receive a message each while none waits. *)
Lemma port_incoming_handshakes_bounded_witness :
  exists s, length (waiting s) = 2%nat /\ Z.of_nat (length (waiting s)) <= MAX_QUEUED_INCOMING_HANDSHAKES + Z.of_nat (size ({[0; 1]} : gset Z)).
Proof.
  set (skb := {| protocol := ETH_P_IP; saddr := []; daddr := []; udp_source := []; skb_iif := 0; data := [] |}).
  assert (H : exists s, length (waiting s) = 2%nat /\ rtc (intake_step {[0; 1]}) idle s).
  { eexists. split; [|eapply rtc_l; [apply (is_pass _ _ sample_env 1); [set_solver|set_solver|reflexivity]|];
      eapply rtc_l; [apply (is_pass _ _ sample_env 0); [set_solver|set_solver|reflexivity]|];
      eapply rtc_l; [apply (is_append _ _ 1 skb); set_solver|]; apply rtc_once, (is_append _ _ 0 skb); cbn [passed]; set_solver].
    reflexivity. }
  destruct H as (s & Hl & H). exists s. split; [exact Hl|]. exact (port_incoming_handshakes_bounded _ _ H).
Defined.
End PortPaths.
