(* ===== verification/EndToEnd.v ===== *)
(** * EndToEnd: an example run of two devices

    On one executable instance of the cryptography and of the network layer, a packet staged on one
    device makes both devices run a handshake and comes out of the other device unchanged: every
    function on the way, from the staging of the packet to the network stack, is evaluated. *)

From S2P Require Import Prelude Messages Skb Replay AllowedIps PeerLookup RateLimiter Crypto NoiseCrypto PrevQueue World Samples Objects Keypairs Noise Cookie Socket Queueing Timers Send Receive Peer.

#[local] Existing Instance toy_crypto.
#[local] Existing Instance toy_hashes.
#[local] Existing Instance toy_net.

(** The environment [s] seconds after boot, with fresh random numbers and addresses. *)
Definition at_time (s : Z) (secret : Z) : env :=
  {| ktime_get_coarse_boottime_ns := s * NSEC_PER_SEC; ktime_get_real_ts64 := (1700000000 + s, 0);
     jiffies := s * 1000; HZ := 1000; prandom_u32_max := fun _ => 0; random_secret := secret :: zeroes 31;
     random_indices := [secret * 1000]; random_nonce := zeroes 24; random_cookie_secret := secret :: zeroes 31;
     new_keypair := Some (Z.to_pos secret); aead_enc_alloc := true; aead_enc_setkey := true; aead_dec_alloc := true;
     aead_dec_setkey := true; new_peer := Some 1%positive; dst_cache_ok := true; new_job := Z.to_pos secret;
     alloc_skb_ok := true; skb_cow_data_ok := fun _ => true; skb_cow_head_ok := fun _ => true; skb_to_sgvec_ok := fun _ => true; aead_ok := fun _ => true;
     pskb_trim_ok := fun _ => true; rng_is_initialized := true; handshake_trylock_ok := true; cpu_online_mask := [0; 1]; nr_cpu_ids := 4;
     udp_sock_create4 := fun port _ => inr port; udp_sock_create6 := fun _ _ => None; ipv6_mod_enabled := true;
     net_alive := true; ns_capable := true; dst_cache_ip4 := None; dst_cache_ip6 := None;
     inet_confirm_addr := fun _ => true; ip_route_output_flow := fun _ => inr 2; ipv6_chk_addr := fun _ => true;
     ipv6_dst_lookup_flow := fun _ => None; entry_alloc_ok := true; net_id := 1 |}.

(** The device with private key [me]: its peer 1 has private key [other], lives at [addr] and may
    use the inner address [inner]. *)
Definition configure (me other : Z) (addr inner : bytes) : option wg_device :=
  let blank := {| static_public := zeroes 32; static_private := zeroes 32; has_identity := false |} in
  let id := wg_noise_set_static_identity_private_key (me :: zeroes 31) blank in
  let remote := wg_noise_set_static_identity_private_key (other :: zeroes 31) blank in
  let w := upd_d_static_identity (fun _ => id) sample_device in
  let w := upd_d_cookie_checker (fun c => wg_cookie_checker_precompute_device_keys id (wg_cookie_checker_init (at_time 1 me) c)) w in
  match wg_peer_create (at_time 1 me) (static_public remote) None w with
  | (inr p, w) =>
      let w := wg_socket_set_peer_endpoint p
                 {| ep_family := AF_INET; ep_port := [0; 80]; ep_addr := addr; ep_scope_id := 0; ep_src := zeroes 4; ep_src_if4 := 0 |} w in
      '(r, t) ← wg_allowedips_insert_v4 inner 32 (Some p) (Some 1%positive) (Some 2%positive) (d_peer_allowedips w);
      Some (upd_d_peer_allowedips (fun _ => t) w)
  | _ => None
  end.

(** ** The wire *)

(** An IPv4 header and a UDP header around a datagram from [src] to [dst]. *)
Definition ip_header (src dst : bytes) (len : nat) : bytes :=
  [69; 0] ++ be_bytes 2 (Z.of_nat len) ++ zeroes 8 ++ src ++ dst.
Definition udp_header (len : nat) : bytes := [0; 80; 0; 80] ++ be_bytes 2 (Z.of_nat len) ++ zeroes 2.

Definition on_wire (src dst datagram : bytes) : raw_datagram :=
  {| raw_skb := {| protocol := ETH_P_IP; saddr := src; daddr := dst; udp_source := [0; 80]; skb_iif := 2; data := [] |};
     raw_outer := ip_header src dst (28 + length datagram) ++ udp_header (8 + length datagram) ++ datagram;
     raw_data := udp_header (8 + length datagram) ++ datagram;
     raw_headlen := 8 + Z.of_nat (length datagram); raw_headroom := 100; raw_transport := 0; raw_may_pull := fun _ => true |}.

(** Take the outputs of a device. *)
Definition outputs (w : wg_device) : list output * wg_device := (d_outputs w, upd_d_outputs (fun _ => []) w).

(** Hand the datagrams of one device to the other. *)
Fixpoint deliver (e : env) (src dst : bytes) (outs : list output) (w : wg_device) : option wg_device :=
  match outs with
  | [] => Some w
  | ToSocket _ datagram _ :: outs => w ← wg_packet_receive e (on_wire src dst datagram) w; deliver e src dst outs w
  | _ :: outs => deliver e src dst outs w
  end.

Definition addr_a : bytes := [192; 168; 0; 1].
Definition addr_b : bytes := [192; 168; 0; 2].
Definition inner_a : bytes := [10; 0; 0; 1].
Definition inner_b : bytes := [10; 0; 0; 2].

(** A packet of 33 bytes from A to B inside the tunnel. *)
Definition inner_datagram : bytes := ip_header inner_a inner_b 33 ++ zseq 1 13.
Definition staged : packet :=
  {| pk_skb := {| protocol := ETH_P_IP; saddr := inner_a; daddr := inner_b; udp_source := []; skb_iif := 0; data := inner_datagram |};
     pk_nonce := 0; pk_mtu := 1420; pk_ds := 0 |}.

(** The datagrams A sends for the handshake, the ones B answers, those A sends then, and B when it
    has received and decrypted them. *)
Definition exchange : option (list output * list output * list output * wg_device) :=
  a ← configure 11 22 addr_b inner_b;
  b ← configure 22 11 addr_a inner_a;
  (* A has a packet but no key: it asks for a handshake *)
  let a := upd_peer 1 (upd_p_staged_packet_queue (fun l => l ++ [staged])) a in
  a ← wg_packet_send_staged_packets (at_time 10 31) 1 a;
  a ← wg_packet_handshake_send_worker (at_time 10 32) 1 a;
  let '(initiation, a) := outputs a in
  (* B consumes the initiation and responds *)
  b ← deliver (at_time 10 33) addr_a addr_b initiation b;
  b ← wg_packet_handshake_receive_worker (at_time 10 34) b;
  let '(response, b) := outputs b in
  (* A consumes the response and sends what it had staged *)
  a ← deliver (at_time 10 35) addr_b addr_a response a;
  a ← wg_packet_handshake_receive_worker (at_time 10 36) a;
  a ← wg_packet_encrypt_worker (at_time 10 37) a;
  a ← wg_packet_tx_worker (at_time 10 38) 1 a;
  let '(data, a) := outputs a in
  (* B decrypts *)
  b ← deliver (at_time 11 39) addr_a addr_b data b;
  b ← wg_packet_decrypt_worker (at_time 11 40) b;
  Some (initiation, response, data, b).

(** ... and what B hands to its network stack then. *)
Definition run : option (list output * list output * list output * list output) :=
  '(initiation, response, data, b) ← exchange;
  '(_, b) ← wg_packet_rx_poll 1 (at_time 11 41) 1 64 b;
  let '(delivered, b) := outputs b in
  Some (initiation, response, data, delivered).

Definition is_socket (len : nat) (o : output) : bool :=
  match o with ToSocket _ d _ => (length d =? len)%nat | _ => false end.

(** The shape of the run, as a check. *)
Definition as_expected (r : option (list output * list output * list output * list output)) : bool :=
  match r with
  | Some ([initiation], [response], [data], [ToStack p d]) =>
      is_socket 148 initiation && is_socket 92 response && is_socket 80 data && (p =? 1)%positive && bytes_eqb d inner_datagram
  | _ => false
  end.

Lemma as_expected_spec r :
  as_expected r = true ->
  exists initiation response data,
    r = Some ([initiation], [response], [data], [ToStack 1 inner_datagram]) /\
    is_socket 148 initiation = true /\ is_socket 92 response = true /\ is_socket 80 data = true.
Proof.
  unfold as_expected. intros H. repeat case_match; try done. bool_to_prop. subst.
  repeat match goal with H : (_ =? _)%positive = true |- _ => apply Pos.eqb_eq in H; subst end.
  repeat match goal with H : bytes_eqb _ _ = true |- _ => apply bytes_eqb_spec in H; subst end.
  do 3 eexists. split; [reflexivity|]. done.
Qed.

(** One run, on the example instance of the cryptography: two freshly configured devices that know
    each other's public keys. A packet staged on the first makes it send one initiation (148 bytes), the
    second answers with one response (92 bytes), the first sends one data message (padded to 48
    bytes, with header and tag 80 bytes), and the second hands exactly the staged packet to its
    network stack, from the peer whose allowed IPs contain its source. *)
Theorem packet_travels_end_to_end :
  exists initiation response data,
    run = Some ([initiation], [response], [data], [ToStack 1 inner_datagram]) /\
    is_socket 148 initiation = true /\ is_socket 92 response = true /\ is_socket 80 data = true.
Proof. apply as_expected_spec. vm_compute. reflexivity. Qed.
