(* ===== verification/Nonces.v ===== *)
(** * Nonces: no nonce is used twice under a key

    The lists that [wg_packet_send_staged_packets] takes, in any number of calls and for any peer,
    get their nonces from the counter of the keypair. *)

From Stdlib Require Import Sorted.
From stdpp Require Import sorting.
From S2P Require Import Prelude Messages Skb Replay Crypto NoiseCrypto PeerLookup PrevQueue World Samples Objects Keypairs Noise Cookie Socket Queueing Timers Send.
From S2P Require Import DataPath EndToEnd.

Section Nonces.
Context {C : Crypto} {K : Hashes} {N : NetStack}.

(** Either all packets of a list get the next nonces or the list has run out of them. *)
Lemma assign_nonces_spec counter pks :
  0 <= counter <= REJECT_AFTER_MESSAGES ->
  let '(ok, counter', pks') := assign_nonces counter pks in
  if ok then counter' = counter + Z.of_nat (length pks) /\ counter' <= REJECT_AFTER_MESSAGES /\
             map pk_nonce pks' = seqZ counter (Z.of_nat (length pks)) /\ map (fun pk => data (pk_skb pk)) pks' = map (fun pk => data (pk_skb pk)) pks
  else REJECT_AFTER_MESSAGES < counter + Z.of_nat (length pks).
Proof.
  assert (HR : REJECT_AFTER_MESSAGES + 1 < 2 ^ 64) by done.
  revert counter. induction pks as [|pk pks IH]; intros counter Hc; cbn [assign_nonces length].
  - split_and!; [lia|lia|done|done].
  - assert (E : u64 (counter + 1) = counter + 1) by (apply wrap_small; lia). rewrite E.
    assert (E' : u64 (counter + 1 - 1) = counter) by (rewrite wrap_small; lia). rewrite E'.
    destruct (Z.leb_spec REJECT_AFTER_MESSAGES counter); [lia|]. specialize (IH (counter + 1) ltac:(lia)).
    destruct (assign_nonces (counter + 1) pks) as [[ok counter'] pks']. destruct ok; [|lia].
    destruct IH as (-> & ? & Hn & Hd). split_and!; [lia|lia| |].
    + cbn [map pk_nonce upd_pk_nonce]. rewrite Hn. rewrite (seqZ_cons counter) by lia. f_equal. f_equal; lia.
    + cbn [map]. by rewrite Hd.
Qed.


(** ** What the rest of the program does to a keypair *)

(** The nonces of the packets in job [j], when they are to be encrypted under [k]. *)
Definition job_nonces (k : keypair_id) (j : job_id) (w : wg_device) : list Z :=
  match d_jobs w !! j with
  | Some jb => if bool_decide (jb_keypair jb = k) then map pk_nonce (jb_packets jb) else []
  | None => []
  end.

(** The sending half of [k] keeps its counter and does not become valid again. *)
Definition keeps_sending (k : keypair_id) (w w' : wg_device) : Prop :=
  forall kp', d_keypairs w' !! k = Some kp' ->
    exists kp, d_keypairs w !! k = Some kp /\ kp_sending_counter kp' = kp_sending_counter kp /\
      (sk_is_valid (kp_sending kp') = true -> sk_is_valid (kp_sending kp) = true).

(** ... and the packets of job [j] stay as they are, as long as it exists. *)
Definition keeps_job (k : keypair_id) (j : job_id) (w w' : wg_device) : Prop :=
  keeps_sending k w w' /\ (job_nonces k j w' = job_nonces k j w \/ job_nonces k j w' = []).

#[export] Instance keeps_sending_order k : PreOrder (keeps_sending k).
Proof.
  split; [by intros w kp Hk; exists kp|]. intros w1 w2 w3 H1 H2 kp3 Hk3.
  destruct (H2 kp3 Hk3) as (kp2 & Hk2 & E2 & V2). destruct (H1 kp2 Hk2) as (kp1 & Hk1 & E1 & V1).
  exists kp1. split; [done|]. split; [congruence|auto].
Qed.

#[export] Instance keeps_job_order k j : PreOrder (keeps_job k j).
Proof.
  split; [by intros w; split; [|left]|]. intros w1 w2 w3 [HS1 HJ1] [HS2 HJ2]. split; [by transitivity w2|].
  destruct HJ2 as [->| ->]; [done|by right].
Qed.

(** Updates of other members of the device. *)
Lemma keeps_same k j w0 w w' : d_keypairs w' = d_keypairs w -> d_jobs w' = d_jobs w -> keeps_job k j w0 w -> keeps_job k j w0 w'.
Proof.
  intros E1 E2 H. transitivity w; [done|]. unfold keeps_job, keeps_sending, job_nonces. rewrite E1, E2.
  split; [|by left]. intros kp Hk. by exists kp.
Qed.

(** Updates of a keypair that leave the counter alone. *)
Lemma keeps_keypair k j k' f w0 w :
  (forall kp, kp_sending_counter (f kp) = kp_sending_counter kp /\ (sk_is_valid (kp_sending (f kp)) = true -> sk_is_valid (kp_sending kp) = true)) ->
  keeps_job k j w0 w -> keeps_job k j w0 (upd_keypair k' f w).
Proof.
  intros Hf H. transitivity w; [done|]. split; [|by left]. intros kp' Hk. cbn in Hk.
  destruct (decide (k' = k)) as [->|Hk']; [|rewrite lookup_alter_ne in Hk by done; by exists kp'].
  rewrite lookup_alter_eq in Hk. destruct (d_keypairs w !! k) as [kp|]; [|done]. injection Hk as <-. exists kp. split; [done|apply Hf].
Qed.

Lemma keeps_state k j j' st w0 w : keeps_job k j w0 w -> keeps_job k j w0 (upd_job j' (upd_jb_state (fun _ => st)) w).
Proof.
  intros H. transitivity w; [done|]. split; [by intros kp Hk; exists kp|]. left. unfold job_nonces. cbn.
  destruct (decide (j' = j)) as [->|]; [|by rewrite lookup_alter_ne]. rewrite lookup_alter_eq. by destruct (d_jobs w !! j).
Qed.

Lemma keeps_free_job k j j' w0 w : keeps_job k j w0 w -> keeps_job k j w0 (free_job j' w).
Proof.
  intros H. transitivity w; [done|]. split; [by intros kp Hk; exists kp|]. unfold job_nonces. cbn.
  destruct (decide (j' = j)) as [->|]; [right; by rewrite lookup_delete_eq|left; by rewrite lookup_delete_ne].
Qed.

(** A function that returns a device whose keypairs and jobs are the old ones. *)
Ltac keeps_rest := intros; repeat first [progress simplify_option_eq|case_match]; try done.

Lemma peer_put_rest p w w' : wg_peer_put p w = Some w' -> d_keypairs w' = d_keypairs w /\ d_jobs w' = d_jobs w.
Proof. unfold wg_peer_put, kref_release, wg_packet_purge_staged_packets. keeps_rest. Qed.

Lemma queue_work_rest wk w : d_keypairs (snd (queue_work wk w)) = d_keypairs w /\ d_jobs (snd (queue_work wk w)) = d_jobs w.
Proof. unfold queue_work. by case_if. Qed.

Lemma send_queued_rest e p r w w' :
  wg_packet_send_queued_handshake_initiation e p r w = Some w' -> d_keypairs w' = d_keypairs w /\ d_jobs w' = d_jobs w.
Proof.
  unfold wg_packet_send_queued_handshake_initiation. set (w1 := if negb r then _ else w).
  assert (H1 : d_keypairs w1 = d_keypairs w /\ d_jobs w1 = d_jobs w) by (unfold w1; by case_if). clearbody w1.
  intros H. destruct (d_peers w1 !! p) as [pr|]; [|done]. cbn [mbind option_bind] in H. case_if; [by injection H as <-|].
  pose proof (queue_work_rest (TransmitHandshake p) (wg_peer_get p w1)) as Hq.
  destruct (queue_work _ _) as [queued w2]. cbn [snd] in Hq. destruct H1 as [<- <-]. case_if; [|by injection H as <-].
  apply peer_put_rest in H as [-> ->]. exact Hq.
Qed.

Lemma keypair_put_keeps k j k' b w0 w w' : wg_noise_keypair_put k' b w = Some w' -> keeps_job k j w0 w -> keeps_job k j w0 w'.
Proof.
  unfold wg_noise_keypair_put. intros H Hk. destruct k' as [k'|]; [|by injection H as <-].
  set (w1 := if b then _ else w) in H. assert (H1 : keeps_job k j w0 w1) by (unfold w1; case_if; [by eapply keeps_same|done]). clearbody w1.
  destruct (d_keypairs w1 !! k') as [kp|]; [|done]. cbn [mbind option_bind] in H. injection H as <-.
  assert (H2 : keeps_job k j w0 (upd_keypair k' (upd_kp_refcount (fun n => n - 1)) w1)) by (apply keeps_keypair; [by split|done]).
  case_if; [by eapply keeps_same|done].
Qed.

Lemma keypair_get_keeps k j k' w0 w r w' : wg_noise_keypair_get k' w = (r, w') -> keeps_job k j w0 w -> keeps_job k j w0 w'.
Proof.
  unfold wg_noise_keypair_get. intros H Hk. destruct k' as [k'|]; [|by injection H as _ <-]. case_if; [|by injection H as _ <-].
  injection H as _ <-. apply keeps_keypair; [by split|done].
Qed.

Lemma out_nokey_keeps k j e p k' pks w0 w w' : out_nokey e p k' pks w = Some w' -> keeps_job k j w0 w -> keeps_job k j w0 w'.
Proof.
  unfold out_nokey. intros H Hk. destruct (wg_noise_keypair_put k' false w) as [w1|] eqn:E; [|done]. cbn [mbind option_bind] in H.
  apply send_queued_rest in H as [E1 E2]. eapply keeps_same; [exact E1|exact E2|].
  apply (keeps_same k j w0 w1); [done|done|]. by eapply keypair_put_keeps.
Qed.

Lemma enqueue_keeps k j e p j' w0 w r w' :
  wg_queue_enqueue_per_device_and_peer e Tx p j' w = Some (r, w') -> keeps_job k j w0 w -> keeps_job k j w0 w'.
Proof.
  unfold wg_queue_enqueue_per_device_and_peer. intros H Hk. cbv zeta in H.
  apply (keeps_state k j j' PACKET_STATE_UNCRYPTED) in Hk. set (w1 := upd_job _ _ _) in *. clearbody w1.
  destruct (d_peers w1 !! p) as [pr|]; [|done]. cbn [mbind option_bind] in H.
  destruct (wg_prev_queue_enqueue _ _) as [queued q]. case_if; [injection H as _ <-; by eapply keeps_same|].
  destruct (wg_cpumask_next_online _ _ _) as [cpu last]. destruct (ptr_ring_produce _ _ _) as [ring|].
  - injection H as _ <-. match goal with |- keeps_job _ _ _ (snd (queue_work ?wk ?w2)) => pose proof (queue_work_rest wk w2) as [E1 E2] end.
    by eapply keeps_same.
  - injection H as _ <-. by eapply keeps_same.
Qed.

Lemma enqueue_tx_keeps k j e p j' st w0 w w' :
  wg_queue_enqueue_per_peer_tx e p j' st w = Some w' -> keeps_job k j w0 w -> keeps_job k j w0 w'.
Proof.
  unfold wg_queue_enqueue_per_peer_tx. intros H Hk. cbv zeta in H.
  assert (H1 : keeps_job k j w0 (upd_job j' (upd_jb_state (fun _ => st)) (wg_peer_get p w))) by (apply keeps_state; by eapply keeps_same).
  set (w1 := upd_job _ _ _) in *. clearbody w1. destruct (d_peers w1 !! p) as [pr|]; [|done]. cbn [mbind option_bind] in H.
  destruct (wg_cpumask_choose_online _ _ _ _) as [c stored]. apply peer_put_rest in H as [E1 E2].
  match type of E1 with _ = d_keypairs (snd (queue_work ?wk ?w2)) => pose proof (queue_work_rest wk w2) as [E3 E4] end.
  apply (keeps_same k j w0 w1); [by rewrite E1, E3|by rewrite E2, E4|exact H1].
Qed.

Lemma create_data_keeps k j e p j' w0 w w' :
  wg_packet_create_data e p j' w = Some w' -> keeps_job k j w0 w -> keeps_job k j w0 w'.
Proof.
  unfold wg_packet_create_data. intros H Hk. destruct (d_peers w !! p) as [pr|]; [|done]. cbn [mbind option_bind] in H.
  destruct (d_jobs w !! j') as [jb|]; [|done]. cbn [mbind option_bind] in H.
  match type of H with mbind _ ?m = _ => destruct m as [[ret w1]|] eqn:E end; [|done]. cbn [mbind option_bind] in H.
  assert (H1 : keeps_job k j w0 w1).
  { destruct (p_is_dead pr); [by injection E as _ <-|]. destruct (wg_queue_enqueue_per_device_and_peer _ _ _ _ _) as [[r2 w2]|] eqn:E2; [|done].
    cbn [mbind option_bind] in E. apply (enqueue_keeps k j _ _ _ w0) in E2; [|done]. destruct (r2 =? - EPIPE); [|by injection E as _ <-].
    destruct (packet_peer j' w2) as [q|]; [|done]. cbn [mbind option_bind] in E.
    destruct (wg_queue_enqueue_per_peer_tx _ _ _ _ _) as [w3|] eqn:E3; [|done]. injection E as _ <-. by eapply enqueue_tx_keeps. }
  case_if; [by injection H as <-|]. destruct (wg_noise_keypair_put _ _ w1) as [w2|] eqn:E2; [|done]. cbn [mbind option_bind] in H.
  destruct (wg_peer_put p w2) as [w3|] eqn:E3; [|done]. injection H as <-. apply keeps_free_job.
  apply peer_put_rest in E3 as [Ek Ej]. eapply keeps_same; [exact Ek|exact Ej|]. by eapply keypair_put_keeps.
Qed.
(** ** One call *)

(** The nonces a keypair has left decide what a call makes of it. *)
Definition spends (k : keypair_id) (j : job_id) (w w' : wg_device) : Prop :=
  exists kp pks, d_keypairs w !! k = Some kp /\ sk_is_valid (kp_sending kp) = true /\
    let '(ok, counter, pks) := assign_nonces (kp_sending_counter kp) pks in
    (forall kp', d_keypairs w' !! k = Some kp' ->
       kp_sending_counter kp' = counter /\ (sk_is_valid (kp_sending kp') = true -> ok = true)) /\
    (job_nonces k j w' = (if ok then map pk_nonce pks else []) \/ job_nonces k j w' = []).

(** A call does not send under [k], or it takes the nonces from the counter of [k] and leaves the
    counter behind them, and [k] invalid when they did not last. *)
Lemma send_staged_spends k e p w w' :
  wg_packet_send_staged_packets e p w = Some w' -> d_jobs w !! new_job e = None ->
  keeps_sending k w w' /\ job_nonces k (new_job e) w' = [] \/ spends k (new_job e) w w'.
Proof.
  intros H Hj. set (j := new_job e) in *. assert (H0 : job_nonces k j w = []) by (unfold job_nonces; by rewrite Hj).
  assert (Hkeep : keeps_job k j w w' -> keeps_sending k w w' /\ job_nonces k j w' = []) by (intros [HS [HJ|HJ]]; rewrite ?HJ; done).
  unfold wg_packet_send_staged_packets in H. destruct (d_peers w !! p) as [pr|]; [|done]. cbn [mbind option_bind] in H.
  set (pks := p_staged_packet_queue pr) in H. set (w1 := upd_peer p _ w) in H.
  assert (H1 : keeps_job k j w w1) by (by apply (keeps_same k j w w)).
  assert (E1 : d_keypairs w1 = d_keypairs w /\ d_jobs w1 = d_jobs w) by done. clearbody w1.
  destruct pks as [|pk0 rest] eqn:Epks; [injection H as <-; left; auto|]. rewrite <- Epks in H. clear Epks.
  unfold wg_noise_keypair_get in H. destruct (current_keypair (p_keypairs pr)) as [k'|]; [|left; by eapply Hkeep, out_nokey_keeps].
  destruct (keypair_alive w1 k'); [|left; by eapply Hkeep, out_nokey_keeps].
  assert (H2 : keeps_job k j w (upd_keypair k' (upd_kp_refcount (fun n => n + 1)) w1)) by (apply keeps_keypair; [by split|done]).
  assert (E2 : d_keypairs (upd_keypair k' (upd_kp_refcount (fun n => n + 1)) w1) !! k' = upd_kp_refcount (fun n => n + 1) <$> d_keypairs w !! k').
  { cbn. by rewrite lookup_alter_eq, (proj1 E1). }
  assert (E3 : d_jobs (upd_keypair k' (upd_kp_refcount (fun n => n + 1)) w1) = d_jobs w) by apply E1.
  set (w2 := upd_keypair k' _ w1) in *. clearbody w2. clear H1 E1 w1. rewrite E2 in H.
  destruct (d_keypairs w !! k') as [kp|] eqn:Ekp; [|done]. cbn [fmap option_fmap option_map mbind option_bind] in H, E2.
  cbn [kp_sending kp_sending_counter upd_kp_refcount] in H.
  destruct (sk_is_valid (kp_sending kp)) eqn:Ev; cbn [negb] in H; [|left; by eapply Hkeep, out_nokey_keeps].
  destruct (wg_birthdate_has_expired _ _ _); [left; eapply Hkeep, out_nokey_keeps; [exact H|]; apply keeps_keypair; [by split|done]|].
  destruct (assign_nonces (kp_sending_counter kp) pks) as [[ok c] pks'] eqn:Ea.
  set (w3 := upd_keypair k' (upd_kp_sending_counter (fun _ => c)) w2) in H.
  destruct (decide (k' = k)) as [->|Hne].
  - right. exists kp, pks. rewrite Ea. split; [done|]. split; [done|].
    assert (E4 : d_keypairs w3 !! k = Some (upd_kp_sending_counter (fun _ => c) (upd_kp_refcount (fun n => n + 1) kp))).
    { unfold w3. cbn. by rewrite lookup_alter_eq, E2. }
    assert (E5 : job_nonces k j w3 = []) by (unfold job_nonces, w3; cbn; by rewrite E3, Hj). clearbody w3.
    destruct ok; cbn [negb] in H.
    + destruct (entry_peer k w3) as [q|]; [|done]. cbn [mbind option_bind] in H. eapply (create_data_keeps k j) in H; [|reflexivity]. destruct H as [HS HJ].
      split.
      * intros kp' Hk'. destruct (HS kp' Hk') as (kp3 & Hk3 & -> & _). cbn in Hk3. rewrite E4 in Hk3. by injection Hk3 as <-.
      * destruct HJ as [->| ->]; [left|by right]. unfold job_nonces. cbn. by rewrite lookup_insert_eq, bool_decide_eq_true_2.
    + eapply (out_nokey_keeps k j) in H; [|reflexivity]. destruct H as [HS HJ]. split.
      * intros kp' Hk'. destruct (HS kp' Hk') as (kp3 & Hk3 & -> & Hv). cbn in Hk3. rewrite lookup_alter_eq, E4 in Hk3. injection Hk3 as <-.
        split; [done|]. intros Hv'. by apply Hv in Hv'.
      * right. destruct HJ as [->| ->]; [exact E5|done].
  - left. apply Hkeep. assert (H3 : keeps_job k j w w3).
    { transitivity w2; [done|]. split; [|by left]. intros kp' Hk'. unfold w3 in Hk'. cbn in Hk'. rewrite lookup_alter_ne in Hk' by done. by exists kp'. }
    clearbody w3. destruct ok; cbn [negb] in H.
    + destruct (entry_peer k' w3) as [q|]; [|done]. cbn [mbind option_bind] in H. eapply create_data_keeps; [exact H|].
      transitivity w3; [done|]. split; [by intros kp' Hk'; exists kp'|]. right. unfold job_nonces. cbn.
      by rewrite lookup_insert_eq, bool_decide_eq_false_2.
    + eapply out_nokey_keeps; [exact H|]. apply keeps_keypair; [by split|done].
Qed.

(** ** All calls *)

(** A call of [wg_packet_send_staged_packets] for some peer, with memory for a job that is not in use;
    or anything else that keeps the sending half of [k]. The nonces taken under [k]. *)
Inductive key_step (k : keypair_id) (w : wg_device) : list Z -> wg_device -> Prop :=
| key_sends e p w' :
    wg_packet_send_staged_packets e p w = Some w' -> d_jobs w !! new_job e = None ->
    key_step k w (job_nonces k (new_job e) w') w'
| key_rests w' : keeps_sending k w w' -> key_step k w [] w'.

Inductive key_run (k : keypair_id) : wg_device -> list Z -> wg_device -> Prop :=
| key_done w : key_run k w [] w
| key_goes_on w ns w1 ns' w' : key_step k w ns w1 -> key_run k w1 ns' w' -> key_run k w (ns ++ ns') w'.

(** [n] is a bound for the nonces that [k] may still take. *)
Definition nonces_from (k : keypair_id) (n : Z) (w : wg_device) : Prop :=
  forall kp, d_keypairs w !! k = Some kp -> sk_is_valid (kp_sending kp) = true -> n <= kp_sending_counter kp <= REJECT_AFTER_MESSAGES.

Lemma key_step_nonces k w ns w' n :
  key_step k w ns w' -> 0 <= n -> nonces_from k n w ->
  ns = [] /\ nonces_from k n w' \/
  exists n', n <= n' /\ n' + Z.of_nat (length ns) <= REJECT_AFTER_MESSAGES /\ ns = seqZ n' (Z.of_nat (length ns)) /\ nonces_from k (n' + Z.of_nat (length ns)) w'.
Proof.
  intros H Hn I. destruct H as [e p w' H Hj|w' H].
  - destruct (send_staged_spends k e p w w' H Hj) as [[HS HJ]|(kp & pks & Hk & Hv & Hs)].
    + left. split; [done|]. intros kp' Hk' Hv'. destruct (HS kp' Hk') as (kp & Hk & -> & Hv). eapply I; eauto.
    + specialize (I kp Hk Hv). pose proof (assign_nonces_spec (kp_sending_counter kp) pks ltac:(lia)) as Ha.
      destruct (assign_nonces _ _) as [[ok c] pks']. destruct Hs as [HS HJ]. destruct ok.
      * destruct Ha as (-> & Hle & Hns & _). destruct HJ as [HJ|HJ]; rewrite HJ.
        -- right. exists (kp_sending_counter kp). rewrite Hns, length_seqZ, Z2Nat.id by lia. split_and!; [lia|lia|done|].
           intros kp' Hk' _. destruct (HS kp' Hk') as [-> _]. lia.
        -- left. split; [done|]. intros kp' Hk' _. destruct (HS kp' Hk') as [-> _]. lia.
      * left. split; [by destruct HJ as [->| ->]|]. intros kp' Hk' Hv'. destruct (HS kp' Hk') as [_ Hf]. by apply Hf in Hv'.
  - left. split; [done|]. intros kp' Hk' Hv'. destruct (H kp' Hk') as (kp & Hk & -> & Hv). eapply I; eauto.
Qed.

Lemma key_run_nonces k w ns w' n :
  key_run k w ns w' -> 0 <= n -> nonces_from k n w ->
  StronglySorted Z.lt ns /\ Forall (fun m => n <= m < REJECT_AFTER_MESSAGES) ns.
Proof.
  intros H. revert n. induction H as [w|w ns w1 ns' w' Hs _ IH]; intros n Hn I; [by split; constructor|].
  destruct (key_step_nonces _ _ _ _ _ Hs Hn I) as [[-> I1]|(n' & Hle & Hmax & Hns & I1)]; [by apply IH|].
  destruct (IH (n' + Z.of_nat (length ns)) ltac:(lia) I1) as [HS HF].
  assert (Hin : Forall (fun m => n' <= m < n' + Z.of_nat (length ns)) ns).
  { apply Forall_forall. intros m Hm. rewrite Hns in Hm. by apply elem_of_seqZ in Hm. }
  split.
  - apply StronglySorted_app. split; [|split; [rewrite Hns; apply StronglySorted_seqZ|done]].
    intros x1 x2 H1 H2. rewrite Forall_forall in Hin, HF. specialize (Hin x1 H1). specialize (HF x2 H2). cbn in *. lia.
  - apply Forall_app. split; eapply Forall_impl; [exact Hin| |exact HF|]; cbn; intros; lia.
Qed.

(** C8: no nonce is used twice under a key. Whatever calls of [wg_packet_send_staged_packets] there
    are, for whichever peers, and whatever else happens in between that does not write the counter of
    the keypair or make it valid again (nothing else in the program does), the packets that are handed
    to encryption under one keypair carry strictly increasing nonces, from the counter on and all below
    [REJECT_AFTER_MESSAGES]: no two are the same, and the 64-bit counter never wraps. *)
Theorem nonces_never_repeat k kp w ns w' :
  d_keypairs w !! k = Some kp -> 0 <= kp_sending_counter kp <= REJECT_AFTER_MESSAGES -> key_run k w ns w' ->
  StronglySorted Z.lt ns /\ NoDup ns /\ Forall (fun n => kp_sending_counter kp <= n < REJECT_AFTER_MESSAGES) ns.
Proof.
  intros Hk Hc H. destruct (key_run_nonces k w ns w' (kp_sending_counter kp) H) as [HS HF]; [lia| |].
  { intros kp' Hk' _. rewrite Hk in Hk'. injection Hk' as <-. lia. }
  split; [done|]. split; [|done]. by apply StronglySorted_lt_NoDup.
Qed.
End Nonces.

(** ** An example *)

#[local] Existing Instance toy_crypto.
#[local] Existing Instance toy_hashes.
#[local] Existing Instance toy_net.

(** A device whose peer 1 has a keypair with three nonces left; [n] packets are staged. *)
Definition nearly_worn : wg_device :=
  upd_d_keypairs (insert 1%positive (upd_kp_sending_counter (fun _ => REJECT_AFTER_MESSAGES - 3) (sample_keypair true 1)))
    (upd_d_index_hashtable (set_entry (Keypair 1) {| e_peer := Some 1%positive; e_hashed := true; e_type := INDEX_HASHTABLE_KEYPAIR; e_index := 7 |})
      (upd_d_peers (insert 1%positive (upd_p_keypairs (fun _ => {| current_keypair := Some 1%positive; previous_keypair := None; next_keypair := None |}) sample_peer))
        sample_device)).
Definition staging (n : nat) : wg_device -> wg_device :=
  upd_peer 1 (upd_p_staged_packet_queue (fun _ => replicate n (sample_packet [69; 1; 2]))).
Definition sending (s : Z) (w : wg_device) : wg_device := default w (wg_packet_send_staged_packets (at_time s s) 1 w).

Lemma sending_step s w :
  bool_decide (is_Some (wg_packet_send_staged_packets (at_time s s) 1 w)) = true -> d_jobs w !! Z.to_pos s = None ->
  key_step 1 w (job_nonces 1 (Z.to_pos s) (sending s w)) (sending s w).
Proof.
  intros [w' E]%bool_decide_eq_true Hj. unfold sending. rewrite E. by apply (key_sends 1 w (at_time s s) 1).
Qed.

Lemma staging_step n w : key_step 1 w [] (staging n w).
Proof. apply key_rests. intros kp Hk. by exists kp. Qed.

(** Two packets, then two more, for which one nonce is left: the key is invalid. Then nothing is sent. *)
Lemma nonces_never_repeat_witness :
  let start := REJECT_AFTER_MESSAGES - 3 in
  let w1 := sending 11 (staging 2 nearly_worn) in
  let w2 := sending 12 (staging 2 w1) in
  let ns := job_nonces 1 11 w1 ++ job_nonces 1 12 w2 in
  ns = [start; start + 1] /\ option_map (fun kp => sk_is_valid (kp_sending kp)) (d_keypairs w2 !! 1%positive) = Some false /\ NoDup ns.
Proof.
  split; [vm_compute; reflexivity|]. split; [vm_compute; reflexivity|].
  destruct (nonces_never_repeat 1 (upd_kp_sending_counter (fun _ => REJECT_AFTER_MESSAGES - 3) (sample_keypair true 1)) nearly_worn
              (job_nonces 1 11 (sending 11 (staging 2 nearly_worn)) ++ job_nonces 1 12 (sending 12 (staging 2 (sending 11 (staging 2 nearly_worn)))))
              (sending 12 (staging 2 (sending 11 (staging 2 nearly_worn))))) as (_ & H & _).
  - reflexivity.
  - by split.
  - set (w1 := sending 11 (staging 2 nearly_worn)).
    pose proof (key_goes_on 1 _ _ _ _ _ (sending_step 12 (staging 2 w1) ltac:(vm_compute; reflexivity) ltac:(vm_compute; reflexivity)) (key_done 1 _)) as R.
    rewrite app_nil_r in R. apply (key_goes_on 1 _ [] _ _ _ (staging_step 2 w1)) in R.
    apply (key_goes_on 1 _ _ _ _ _ (sending_step 11 (staging 2 nearly_worn) ltac:(vm_compute; reflexivity) ltac:(vm_compute; reflexivity))) in R.
    exact (key_goes_on 1 _ [] _ _ _ (staging_step 2 nearly_worn) R).
  - exact H.
Defined.
