(* ===== verification/Safety.v ===== *)
(** * Safety: what packets, timers and workers cannot do to a device

    Every run of the device between two configuration calls is a sequence of the steps [packet_step]
    (a datagram or a packet arrives, a work item runs, a timer expires). The frames of Frames show
    what no such step changes; the receive functions show what must hold before a packet is handed
    to the network stack or a handshake message costs anything. *)

From S2P Require Import Prelude Messages Skb Replay AllowedIps PeerLookup RateLimiter Crypto NoiseCrypto PrevQueue World Samples Objects.
From S2P Require Import Keypairs Noise Cookie Socket Queueing Timers Send Receive TimerEvents Frames Workers Peer Device EndToEnd.

(** ** The configuration *)

(** What an administrator sets: keys, peers with their keys and keepalive intervals, allowed IPs, the
    interface and its sockets. *)
Definition config (w : wg_device) :=
  (d_static_identity w, peer_conf <$> d_peers w, d_peer_list w, d_num_peers w, d_peer_hashtable w, d_peer_allowedips w,
   (d_is_chacha w, d_running w, d_mtu w), (d_sock4 w, d_sock6 w, d_creating_net w, d_incoming_port w, d_fwmark w)).

Lemma peer_conf_alter p f (m : gmap peer_id wg_peer) :
  (forall pr, m !! p = Some pr -> peer_conf (f pr) = peer_conf pr) -> peer_conf <$> alter f p m = peer_conf <$> m.
Proof.
  intros H. apply map_eq. intros q. rewrite !lookup_fmap. destruct (decide (q = p)) as [->|Hq].
  - rewrite lookup_alter_eq. destruct (m !! p) as [pr|] eqn:E; [|done]. cbn. by rewrite H.
  - by rewrite lookup_alter_ne.
Qed.

#[export] Instance config_blind : Blind config.
Proof.
  split; try done. intros p f w H. unfold config. assert (d_peers (upd_peer p f w) = alter f p (d_peers w)) as -> by done.
  by rewrite (peer_conf_alter p f (d_peers w) H).
Qed.
#[export] Instance config_blind_out : BlindOut config.
Proof. done. Qed.
#[export] Instance config_blind_rx : BlindRx config.
Proof. by split. Qed.

(** ** The steps *)

Inductive timer := RetransmitHandshake | SendKeepalive | NewHandshake | ZeroKeyMaterial | PersistentKeepalive.

Section Steps.
Context {C : Crypto} {K : Hashes} {N : NetStack}.

Definition run_timer (e : env) (t : timer) (p : peer_id) (w : wg_device) : option wg_device :=
  match t with
  | RetransmitHandshake => wg_expired_retransmit_handshake e p w
  | SendKeepalive => wg_expired_send_keepalive e p w
  | NewHandshake => wg_expired_new_handshake e p w
  | ZeroKeyMaterial => wg_expired_zero_key_material p w
  | PersistentKeepalive => wg_expired_send_persistent_keepalive e p w
  end.

Inductive packet_step (w : wg_device) : wg_device -> Prop :=
| datagram_arrives e live r w' : wg_receive e live r w = Some w' -> packet_step w w'
| packet_is_sent retries e x ret w' : wg_xmit retries e x w = Some (ret, w') -> packet_step w w'
| work_runs retries e wk w' : run_work retries e wk w = Some w' -> packet_step w w'
| timer_expires e t p w' : run_timer e t p w = Some w' -> packet_step w w'.

Section Keep.
Context (P : wg_device -> Prop) {B : Kept P} {O : KeptOut P} {R : KeptRx P}.

Lemma keep_take_work wk w : sat P w -> sat P (take_work wk w).
Proof. by apply keep_works. Qed.
#[local] Hint Resolve keep_take_work : frame.

Lemma keep_stage_packets p pks w w' : stage_packets p pks w = Some w' -> sat P w -> sat P w'.
Proof. cbv beta delta [stage_packets]. frame. Qed.
#[local] Hint Resolve keep_stage_packets : frame.

Lemma keep_xmit_err ret w r w' : xmit_err ret w = Some (r, w') -> sat P w -> sat P w'.
Proof. cbv beta delta [xmit_err]. frame. Qed.
#[local] Hint Resolve keep_xmit_err : frame.

Lemma keep_xmit_err_icmp skb ret w r w' : xmit_err_icmp skb ret w = Some (r, w') -> sat P w -> sat P w'.
Proof. cbv beta delta [xmit_err_icmp]. frame. Qed.
#[local] Hint Resolve keep_xmit_err_icmp : frame.

Lemma keep_xmit retries e x w r w' : wg_xmit retries e x w = Some (r, w') -> sat P w -> sat P w'.
Proof. cbv beta delta [wg_xmit]. frame. Qed.

Lemma keep_run_work retries e wk w w' : run_work retries e wk w = Some w' -> sat P w -> sat P w'.
Proof.
  destruct wk; cbn [run_work]; intros H Ho; eauto with frame.
  destruct (wg_packet_rx_poll _ _ _ _ _) as [[n w1]|] eqn:E; [|done]. injection H as <-. eauto with frame.
Qed.

Lemma keep_run_timer e t p w w' : run_timer e t p w = Some w' -> sat P w -> sat P w'.
Proof. destruct t; cbn [run_timer]; eauto with frame. Qed.

Lemma keep_packet_steps w w' : rtc packet_step w w' -> sat P w -> sat P w'.
Proof.
  induction 1 as [|w w1 w' Hs _ IH]; intros Ho; [done|]. apply IH.
  destruct Hs; eauto using keep_xmit, keep_run_work, keep_run_timer with frame.
Qed.
End Keep.

(** C6: nobody changes the configuration by sending packets. Whatever datagrams arrive, whatever
    packets are sent, and however timers and workers run in between, the device keeps its keys, its
    peers with their public and preshared keys, its allowed IPs, its interface settings and its
    sockets. *)
Theorem packets_never_change_configuration w w' : rtc packet_step w w' -> config w' = config w.
Proof. intros H. exact (keep_packet_steps (observed config (config w)) w w' H eq_refl). Qed.

(** ** What reaches the network stack *)

(** What is handed out and the allowed IPs, together. *)
Definition out_and_routes (w : wg_device) : list output * allowedips := (d_outputs w, d_peer_allowedips w).

#[local] Instance out_and_routes_blind : Blind out_and_routes.
Proof. by split. Qed.

(** A packet inside the tunnel that is handed on: cut to the length in its header, and its source
    address is one of the peer's allowed IPs. *)
Definition deliverable (t : allowedips) (retries : nat) (p : peer_id) (pk : packet) (d : bytes) : Prop :=
  exists len d' alive, parse_inner (pk_ds pk) (data (pk_skb pk)) = Inner len d' /\ len <= Z.of_nat (length d') /\
    d = take (Z.to_nat len) d' /\ wg_allowedips_lookup_src retries alive t (inner_skb d) = Some (Some p).

Lemma consume_data_done_delivers retries e p pk k ep w w' outs t :
  wg_packet_consume_data_done retries e p pk k ep w = Some w' -> out_and_routes w = (outs, t) ->
  d_outputs w' = outs \/ exists d, d_outputs w' = outs ++ [ToStack p d] /\ deliverable t retries p pk d.
Proof.
  unfold wg_packet_consume_data_done. cbv zeta. intros H Ho.
  set (P := observed out_and_routes (outs, t)). change (sat P w) in Ho. apply (keep_set_endpoint P p ep) in Ho.
  destruct (wg_noise_received_with_keypair p k _) as [[confirmed w1]|] eqn:E1; [|done]. cbv beta iota delta [mbind option_bind] in H.
  apply (keep_received_with P) in E1; [|done]. clear Ho.
  match type of H with match ?x with _ => _ end = _ => destruct x as [w2|] eqn:E2; [|done] end.
  assert (Ho : sat P w2).
  { destruct confirmed; [|by injection E2 as <-]. eapply (keep_send_staged P); [exact E2|]. eauto 12 with frame. }
  clear E1 E2 w1. destruct (receive_keep_key_fresh e p w2) as [w3|] eqn:E3; [|done].
  apply (keep_receive_key_fresh P) in E3; [|done]. clear Ho w2.
  set (w4 := wg_timers_any_authenticated_packet_traversal e p _) in H.
  assert (Ho : sat P w4) by (unfold w4; eauto 12 with frame). clearbody w4. clear E3 w3.
  set (w5 := wg_timers_data_received e p w4) in H. assert (Ho5 : sat P w5) by (unfold w5; eauto 12 with frame).
  clearbody w5. injection Ho as Ho <-. injection Ho5 as Ho5 Hr.
  destruct (data (pk_skb pk)) as [|b d0] eqn:Ed; [injection H as <-; by left|].
  destruct (parse_inner (pk_ds pk) (b :: d0)) as [len d'| |] eqn:Ep; [|injection H as <-; by left..].
  destruct (Z.ltb_spec (Z.of_nat (length d')) len) as [Hl|Hl]; [injection H as <-; by left|].
  destruct (pskb_trim_ok e (pk_skb pk)); cbn [negb] in H; [|injection H as <-; by left].
  destruct (wg_allowedips_lookup_src retries _ _ _) as [routed|] eqn:El; [|done].
  match type of H with match ?x with _ => _ end = _ => destruct x as [w6|] eqn:E6; [|done] end.
  assert (Ho6 : d_outputs w6 = d_outputs w4).
  { assert (Hb : sat (observed out_and_routes (out_and_routes w5)) w6); [|injection Hb as Hb _; congruence].
    destruct routed as [q|]; [|injection E6 as <-; reflexivity].
    eapply keep_peer_put; [typeclasses eauto|exact E6|]. apply keep_peer_get; [typeclasses eauto|reflexivity]. }
  destruct (bool_decide_reflect (routed = Some p)) as [->|]; cbn [negb] in H; injection H as <-; [|left; etransitivity; [exact Ho6|exact Ho]].
  right. exists (take (Z.to_nat len) d'). split; [by cbn; rewrite Ho6, Ho|]. exists len, d', (peer_alive w5). rewrite Hr in El. by rewrite Ed.
Qed.

(** C5: only authentic packets from allowed sources are delivered. A round of [wg_packet_rx_poll]
    hands at most one packet to the network stack, and only if the first packet of the peer's queue
    was decrypted successfully, its counter is accepted by the replay window of the keypair it was
    decrypted with, it carries an IP packet not longer than what was decrypted, and the allowed IPs
    route that packet's source address to the very peer it came from. *)
Theorem delivered_packets_are_authentic retries e p w more w' :
  rx_poll_round retries e p w = Some (more, w') ->
  d_outputs w' = d_outputs w \/
  exists pr j jb kp pk c d,
    d_peers w !! p = Some pr /\ fst (wg_prev_queue_peek (p_rx_queue pr)) = Some j /\
    d_jobs w !! j = Some jb /\ jb_state jb = PACKET_STATE_CRYPTED /\ head (jb_packets jb) = Some pk /\
    d_keypairs w !! jb_keypair jb = Some kp /\ counter_validate (kp_receiving_counter kp) (pk_nonce pk) = (true, c) /\
    d_outputs w' = d_outputs w ++ [ToStack p d] /\ deliverable (d_peer_allowedips w) retries p pk d.
Proof.
  unfold rx_poll_round. destruct (d_peers w !! p) as [pr|] eqn:Ep; [|done]. cbv beta iota delta [mbind option_bind].
  destruct (wg_prev_queue_peek (p_rx_queue pr)) as [first q] eqn:Eq.
  destruct first as [j|]; [|intros [= <- <-]; by left].
  change (d_jobs (upd_peer p _ w)) with (d_jobs w). destruct (d_jobs w !! j) as [jb|] eqn:Ej; [|done].
  destruct (bool_decide_reflect (jb_state jb = PACKET_STATE_UNCRYPTED)); [intros [= <- <-]; by left|]. cbv zeta.
  set (w1 := free_job j _). change (d_keypairs w1) with (d_keypairs w). intros H.
  match type of H with match ?x with _ => _ end = _ => destruct x as [w2|] eqn:E2; [|done] end.
  assert (Hout : d_outputs w' = d_outputs w2).
  { destruct (wg_noise_keypair_put _ _ w2) as [w3|] eqn:E3; [|done]. destruct (wg_peer_put p w3) as [w4|] eqn:E4; [|done].
    injection H as _ <-. assert (Hb : sat (observed out_and_routes (out_and_routes w2)) w4); [|injection Hb as Hb _; congruence].
    eapply keep_peer_put; [typeclasses eauto|exact E4|]. eapply keep_keypair_put; [typeclasses eauto|exact E3|reflexivity]. }
  rewrite Hout. clear H Hout w'.
  destruct (bool_decide_reflect (jb_state jb = PACKET_STATE_CRYPTED)) as [Hst|]; cbn [negb] in E2; [|injection E2 as <-; by left].
  destruct (d_keypairs w !! jb_keypair jb) as [kp|] eqn:Ek; [|done]. destruct (head (jb_packets jb)) as [pk|] eqn:Eh; [|done].
  destruct (counter_validate (kp_receiving_counter kp) (pk_nonce pk)) as [ok c] eqn:Ec.
  destruct ok; cbn [negb] in E2; [|injection E2 as <-; by left].
  destruct (wg_socket_endpoint_from_skb (pk_skb pk)) as [ret ep]. destruct ret; try (injection E2 as <-; by left).
  destruct (consume_data_done_delivers _ _ _ _ _ _ _ _ (d_outputs w) (d_peer_allowedips w) E2 eq_refl) as [->|(d & -> & Hd)]; [by left|].
  right. exists pr, j, jb, kp, pk, c, d. rewrite Eq. done.
Qed.
End Steps.

(** ** Under load *)

Section Load.
Context {C : Crypto} {L : CryptoLaws C} {K : Hashes} {N : NetStack}.

(** The state that a handshake message may cost: everything about peers, keys and pending work. *)
Definition costly (w : wg_device) := (d_peers w, d_keypairs w, d_index_hashtable w, d_aead_handles w, d_works w, d_jobs w).

(** A cookie reply is one datagram of 64 bytes. *)
Definition is_cookie_reply (o : output) : Prop :=
  match o with ToSocket _ d _ => length d = sizeof_message_handshake_cookie | _ => False end.

Lemma send_to_single e w d ep ds : 
  let out := snd (send_to e w d ep ds false) in out = [] \/ exists ep', out = [ToSocket ep' d ds].
Proof.
  unfold send_to. repeat case_if; [unfold send4|unfold send6|by left].
  all: repeat case_match; cbn; eauto.
Qed.

Lemma send_cookie_reply e skb i w :
  length (random_nonce e) = COOKIE_NONCE_LEN ->
  let w' := wg_packet_send_handshake_cookie e skb i w in
  costly w' = costly w /\ exists out, d_outputs w' = d_outputs w ++ out /\ (length out <= 1)%nat /\ Forall is_cookie_reply out.
Proof.
  intros Hn. cbv zeta. unfold wg_packet_send_handshake_cookie, wg_cookie_message_create.
  destruct (make_cookie e skb (d_cookie_checker w)) as [co ck] eqn:Eco.
  assert (Hco : length co = COOKIE_LEN) by (unfold make_cookie in Eco; injection Eco as <- _; apply blake2s_length).
  set (m := Build_message_handshake_cookie _ _ _ _). assert (Hm : length (message_handshake_cookie_bytes m) = sizeof_message_handshake_cookie).
  { unfold message_handshake_cookie_bytes, m. cbn [hc_type hc_receiver_index hc_nonce hc_encrypted_cookie].
    by rewrite !length_app, !le_bytes_length, xchacha_length, Hn, Hco. }
  unfold wg_socket_send_buffer_as_reply_to_skb. destruct (wg_socket_endpoint_from_skb skb) as [ret ep].
  assert (Hnone : exists out, d_outputs w = d_outputs w ++ out /\ (length out <= 1)%nat /\ Forall is_cookie_reply out).
  { exists []. rewrite app_nil_r. by split_and!; [|cbn; lia|]. }
  case_if; [by split|]. case_if; [by split|].
  destruct (send_to e _ _ ep 0 false) as [[r ep'] out] eqn:Es. split; [done|]. exists out. split; [done|].
  pose proof (send_to_single e (upd_d_cookie_checker (fun _ => ck) w) (message_handshake_cookie_bytes m) ep 0) as Hs.
  rewrite Es in Hs. destruct Hs as [Hs|[ep'' Hs]]; cbn [snd] in Hs; subst out.
  - split; [cbn; lia|constructor].
  - split; [cbn; lia|]. by constructor.
Qed.

Lemma validate_without_cookie e skb w r w' :
  bytes_eqb (compute_mac2 (data skb) (fst (make_cookie e skb (d_cookie_checker w)))) (mac2 (macs_of (data skb))) = false ->
  wg_cookie_validate_packet e skb true w = Some (r, w') ->
  (r = INVALID_MAC \/ r = VALID_MAC_BUT_NO_COOKIE) /\ costly w' = costly w /\ d_outputs w' = d_outputs w.
Proof.
  intros H. unfold wg_cookie_validate_packet. cbv zeta. case_if; [intros [= <- <-]; by auto|]. cbn [negb].
  destruct (make_cookie e skb (d_cookie_checker w)) as [co ck]. cbn [fst] in H. rewrite H. cbn [negb]. intros [= <- <-]. by auto.
Qed.

(** A cookie message is consumed without a look at the load. It costs one member of one peer. *)
Lemma cookie_message_costs e m w w' :
  wg_cookie_message_consume e m w = Some w' ->
  d_outputs w' = d_outputs w /\ d_keypairs w' = d_keypairs w /\ d_aead_handles w' = d_aead_handles w /\
  d_works w' = d_works w /\ d_jobs w' = d_jobs w /\
  (d_peers w' = d_peers w \/ exists p c, d_peers w' = alter (upd_p_latest_cookie (fun _ => c)) p (d_peers w)).
Proof.
  unfold wg_cookie_message_consume, index_lookup.
  destruct (wg_index_hashtable_lookup _ _ _ _) as [[[en p]|] t] eqn:El; [|intros [= <-]; split_and!; auto].
  assert (Ha : peer_alive w p = true).
  { unfold wg_index_hashtable_lookup in El. repeat case_match; simplify_eq; done. }
  unfold peer_alive in Ha. destruct (d_peers w !! p) as [pr|] eqn:Hp; [|done].
  unfold wg_peer_put, wg_peer_get. cbn [d_peers upd_peer upd_d_peers upd_d_index_hashtable].
  rewrite !lookup_alter_eq, Hp. cbn [fmap option_fmap option_map mbind option_bind p_refcount upd_p_latest_cookie upd_p_refcount].
  apply negb_true_iff, Z.eqb_neq in Ha. rewrite (proj2 (Z.eqb_neq _ _)) by lia. intros [= <-].
  split_and!; try done. right. exists p, (cookie_consume e m (p_latest_cookie pr)).
  cbn [d_peers upd_peer upd_d_peers upd_d_index_hashtable]. apply map_eq. intros q.
  destruct (decide (p = q)) as [<-|Hq]; [|by rewrite !lookup_alter_ne].
  rewrite !lookup_alter_eq, Hp. cbn. f_equal. destruct pr. unfold upd_p_refcount, upd_p_latest_cookie. cbn. f_equal. lia.
Qed.

(** C21: a flood of handshake messages costs nothing but cookie replies. While the device is under
    load, an initiation or a response that does not carry a MAC under the sender's current cookie
    changes no peer, no keypair, no index and queues no work: it is dropped, or answered with one
    cookie reply, which is shorter (64 bytes) than the initiation (148) or the response (92) it
    answers. The third kind of handshake message, a cookie, is consumed whatever the load: nothing is
    sent, no keypair, work or handle comes of it, and at most the cookie of one peer changes. *)
Theorem under_load_only_cookie_replies e skb w w' :
  length (random_nonce e) = COOKIE_NONCE_LEN ->
  fst (load_state e (d_handshake_queue_len w) (d_last_under_load w)) = true ->
  bytes_eqb (compute_mac2 (data skb) (fst (make_cookie e skb (d_cookie_checker w)))) (mac2 (macs_of (data skb))) = false ->
  wg_receive_handshake_packet e skb w = Some w' ->
  if skb_type (data skb) =? MESSAGE_HANDSHAKE_COOKIE then
    d_outputs w' = d_outputs w /\ d_keypairs w' = d_keypairs w /\ d_aead_handles w' = d_aead_handles w /\
    d_works w' = d_works w /\ d_jobs w' = d_jobs w /\
    (d_peers w' = d_peers w \/ exists p c, d_peers w' = alter (upd_p_latest_cookie (fun _ => c)) p (d_peers w))
  else
    costly w' = costly w /\ exists out, d_outputs w' = d_outputs w ++ out /\ (length out <= 1)%nat /\ Forall is_cookie_reply out.
Proof.
  intros Hn Hload Hmac. unfold wg_receive_handshake_packet.
  destruct (skb_type (data skb) =? MESSAGE_HANDSHAKE_COOKIE); [apply cookie_message_costs|].
  destruct (load_state e (d_handshake_queue_len w) (d_last_under_load w)) as [under_load last]. cbn [fst] in Hload. subst under_load.
  set (w1 := upd_d_last_under_load (fun _ => last) w).
  destruct (wg_cookie_validate_packet e skb true w1) as [[r w2]|] eqn:Ev; [|done]. cbv beta iota delta [mbind option_bind].
  apply validate_without_cookie in Ev as (Hr & Hc2 & Ho2); [|done].
  change (costly w) with (costly w1). change (d_outputs w) with (d_outputs w1). rewrite <- Hc2, <- Ho2. clearbody w1. clear Hc2 Ho2 Hmac w1.
  assert (Hnone : costly w2 = costly w2 /\ exists out, d_outputs w2 = d_outputs w2 ++ out /\ (length out <= 1)%nat /\ Forall is_cookie_reply out).
  { split; [done|]. exists []. rewrite app_nil_r. by split_and!; [|cbn; lia|]. }
  destruct Hr as [-> | ->].
  - assert (needs_cookie true INVALID_MAC = None) as -> by done. by intros [= <-].
  - assert (needs_cookie true VALID_MAC_BUT_NO_COOKIE = Some true) as -> by done.
    case_if; [intros [= <-]; by apply send_cookie_reply|]. case_if; [intros [= <-]; by apply send_cookie_reply|by intros [= <-]].
Qed.
End Load.

(** ** Examples: the devices of EndToEnd *)

#[local] Existing Instance toy_crypto.
#[local] Existing Instance toy_crypto_laws.
#[local] Existing Instance toy_hashes.
#[local] Existing Instance toy_net.

Definition device_a : wg_device := default sample_device (configure 11 22 addr_b inner_b).
Definition device_b : wg_device := default sample_device (configure 22 11 addr_a inner_a).
Definition outgoing : xmit_skb := {| x_skb := pk_skb staged; x_gso := None; x_dst_mtu := None; x_share_ok := fun _ => true |}.

(** A packet to the peer is sent: it waits and a handshake is queued. *)
Lemma packets_never_change_configuration_witness :
  exists w, wg_xmit 1 (at_time 10 31) outgoing device_a = Some (NETDEV_TX_OK, w) /\ d_works w = [TransmitHandshake 1] /\ config w = config device_a.
Proof.
  assert (H : match wg_xmit 1 (at_time 10 31) outgoing device_a with
              | Some (r, w) => (r =? NETDEV_TX_OK) && bool_decide (d_works w = [TransmitHandshake 1]) | None => false end = true) by (vm_compute; reflexivity).
  destruct (wg_xmit 1 (at_time 10 31) outgoing device_a) as [[r w]|] eqn:E; [|discriminate].
  apply andb_true_iff in H as [Hr%Z.eqb_eq Hw%bool_decide_eq_true]. subst r. exists w. split; [reflexivity|]. split; [exact Hw|].
  apply (packets_never_change_configuration device_a w). apply rtc_once. exact (packet_is_sent _ _ _ _ _ _ E).
Defined.

(** The receiver of EndToEnd with its decrypted packet. *)
Definition receiver : wg_device := match exchange with Some (_, _, _, b) => b | None => sample_device end.

Lemma delivered_packets_are_authentic_witness :
  exists w, rx_poll_round 1 (at_time 11 41) 1 receiver = Some (true, w) /\
    exists pr j jb kp pk c d, 
      d_peers receiver !! 1%positive = Some pr /\ fst (wg_prev_queue_peek (p_rx_queue pr)) = Some j /\
      d_jobs receiver !! j = Some jb /\ jb_state jb = PACKET_STATE_CRYPTED /\ head (jb_packets jb) = Some pk /\
      d_keypairs receiver !! jb_keypair jb = Some kp /\ counter_validate (kp_receiving_counter kp) (pk_nonce pk) = (true, c) /\
      d_outputs w = d_outputs receiver ++ [ToStack 1 d] /\ deliverable (d_peer_allowedips receiver) 1 1 pk d.
Proof.
  assert (H : match rx_poll_round 1 (at_time 11 41) 1 receiver with
              | Some (more, w) => more && (length (d_outputs w) =? S (length (d_outputs receiver)))%nat | None => false end = true) by (vm_compute; reflexivity).
  destruct (rx_poll_round 1 (at_time 11 41) 1 receiver) as [[more w]|] eqn:E; [|discriminate].
  apply andb_true_iff in H as [Hm Hl%Nat.eqb_eq]. subst more. exists w. split; [reflexivity|].
  destruct (delivered_packets_are_authentic 1 (at_time 11 41) 1 receiver true w E) as [H|H]; [|exact H].
  exfalso. rewrite H in Hl. exact (Nat.neq_succ_diag_r _ Hl).
Defined.

(** Five hundred and twelve messages wait at the receiver when the initiation arrives. *)
Definition first_datagram (outs : list output) : bytes := match outs with ToSocket _ d _ :: _ => d | _ => [] end.
Definition flooding : sk_buff :=
  {| protocol := ETH_P_IP; saddr := addr_a; daddr := addr_b; udp_source := [0; 80]; skb_iif := 2;
     data := match exchange with Some (i, _, _, _) => first_datagram i | None => [] end |}.
Definition loaded : wg_device := upd_d_handshake_queue_len (fun _ => 512) device_b.

Lemma under_load_only_cookie_replies_witness :
  exists w, wg_receive_handshake_packet (at_time 10 34) flooding loaded = Some w /\ length (d_outputs w) = 1%nat /\ costly w = costly loaded.
Proof.
  assert (H : match wg_receive_handshake_packet (at_time 10 34) flooding loaded with
              | Some w => (length (d_outputs w) =? 1)%nat | None => false end = true) by (vm_compute; reflexivity).
  destruct (wg_receive_handshake_packet (at_time 10 34) flooding loaded) as [w|] eqn:E; [|discriminate].
  exists w. split; [reflexivity|]. split; [by apply Nat.eqb_eq|].
  pose proof (under_load_only_cookie_replies (at_time 10 34) flooding loaded w) as Hc.
  replace (skb_type (data flooding) =? MESSAGE_HANDSHAKE_COOKIE) with false in Hc by (vm_compute; reflexivity).
  apply Hc; [reflexivity|vm_compute; reflexivity|vm_compute; reflexivity|exact E].
Defined.
