(* ===== verification/NoiseReplay.v ===== *)
(** * NoiseReplay: workers that consume initiations at the same time

    [wg_noise_handshake_consume_initiation] compares the time stamp of an initiation under the read
    lock of the handshake and stores it under the write lock. The workers of the handshake queue run
    in parallel, so other workers, and the rest of the device, may run in between. *)

From S2P Require Import Prelude Messages Skb PeerLookup Crypto NoiseCrypto World Samples Objects Noise NoiseProps NoiseSafety Cookie Socket.
From S2P Require Import Receive Frames Safety.

Section Replay.
Context {C : Crypto} {K : Hashes} {N : NetStack}.

(** The device, and the initiations that workers have checked and not stored yet, each with its peer,
    the time stamp, the chaining key and the hash. *)
Record receiver := {
  rv_device : wg_device;
  rv_checked : gmap Z (message_handshake_initiation * (peer_id * bytes * bytes * bytes))
}.

(** A worker stores the initiation [m] it has checked. *)
Inductive stores (m : message_handshake_initiation) (s : receiver) : receiver -> Prop :=
| initiation_stored k e p t ck hash :
    rv_checked s !! k = Some (m, (p, t, ck, hash)) ->
    stores m s {| rv_device := upd_handshake p (consume_initiation_commit e m t ck hash) (rv_device s);
                  rv_checked := delete k (rv_checked s) |}.

(** A worker that has nothing to store checks an initiation, which passes or not; a worker stores the
    initiation it has checked; something else happens on the device. *)
Inductive receiver_step (s : receiver) : receiver -> Prop :=
| initiation_passes k e m o w :
    rv_checked s !! k = None -> consume_initiation_check siphash e m (rv_device s) = Some (Some o, w) ->
    receiver_step s {| rv_device := w; rv_checked := <[k := (m, o)]> (rv_checked s) |}
| initiation_refused e m w :
    consume_initiation_check siphash e m (rv_device s) = Some (None, w) ->
    receiver_step s {| rv_device := w; rv_checked := rv_checked s |}
| initiation_stores m s' : stores m s s' -> receiver_step s s'
| device_runs w : packet_step (rv_device s) w -> receiver_step s {| rv_device := w; rv_checked := rv_checked s |}.

(** ** What the configuration decides *)

(** The peer the table of keys holds for a key. *)
Definition key_owner (s : bytes) (w : wg_device) : option peer_id :=
  List.find (fun q => match (fun pr => hs_remote_static (p_handshake pr)) <$> d_peers w !! q with Some k => bytes_eqb s k | None => false end)
    (pk_bucket (d_peer_hashtable w) (pubkey_bucket siphash (d_peer_hashtable w) s)).

(** [m] is an initiation of [p] with the time stamp [t]. *)
Definition opens (m : message_handshake_initiation) (p : peer_id) (t : bytes) (w : wg_device) : Prop :=
  exists pr s ck hash eph ck' hash', d_peers w !! p = Some pr /\
    open_initiation_static (d_static_identity w) m = Some (s, ck, hash, eph) /\ key_owner s w = Some p /\
    open_initiation_timestamp (p_handshake pr) m ck hash = Some (t, ck', hash').

Lemma lookup_owner s w p : fst (pubkey_lookup siphash s w) = Some p -> key_owner s w = Some p.
Proof.
  unfold pubkey_lookup, wg_pubkey_hashtable_lookup. change (List.find _ _) with (key_owner s w).
  destruct (key_owner s w) as [q|]; [|done]. cbn [mbind option_bind]. by case_if.
Qed.

Lemma config_conf w w' p : config w' = config w -> peer_conf <$> d_peers w' !! p = peer_conf <$> d_peers w !! p.
Proof.
  intros H. assert (E : peer_conf <$> d_peers w' = peer_conf <$> d_peers w) by (by injection H).
  by rewrite <- !lookup_fmap, E.
Qed.

Lemma key_owner_config s w w' : config w' = config w -> key_owner s w' = key_owner s w.
Proof.
  intros H. unfold key_owner. assert (d_peer_hashtable w' = d_peer_hashtable w) as -> by (by injection H).
  induction (pk_bucket _ _) as [|q l IH]; [done|]. cbn [List.find]. rewrite IH.
  pose proof (config_conf w w' q H) as Hq. destruct (d_peers w' !! q), (d_peers w !! q); cbn in *; try done.
  by injection Hq as ->.
Qed.

Lemma opens_config m p t w w' : config w' = config w -> opens m p t w -> opens m p t w'.
Proof.
  intros H (pr & s & ck & hash & eph & ck' & hash' & Hp & Es & Ho & Et).
  pose proof (config_conf w w' p H) as Hc. rewrite Hp in Hc. destruct (d_peers w' !! p) as [pr'|] eqn:Hp'; [|done].
  cbn in Hc. injection Hc as _ Hpre _ _ _ _. exists pr', s, ck, hash, eph, ck', hash'.
  split; [done|]. split; [by assert (d_static_identity w' = d_static_identity w) as -> by (by injection H)|].
  split; [by rewrite (key_owner_config s w w' H)|]. rewrite <- Et. unfold open_initiation_timestamp. by rewrite Hpre.
Qed.

(** ** The time stamp a peer has reached *)

Definition reached (p : peer_id) (t : bytes) (w : wg_device) : Prop :=
  exists pr, d_peers w !! p = Some pr /\ memcmp (hs_latest_timestamp (p_handshake pr)) t <> Lt.

#[local] Instance reached_kept p t : Kept (reached p t).
Proof.
  split; try (by intros). intros q f w Hf (pr & Hp & Ht). destruct (decide (q = p)) as [->|Hq].
  - exists (f pr). split; [cbn; by rewrite lookup_alter_eq, Hp|]. eapply memcmp_ge_trans; [apply (Hf pr Hp)|exact Ht].
  - exists pr. cbn. by rewrite lookup_alter_ne.
Qed.
#[local] Instance reached_kept_out p t : KeptOut (reached p t).
Proof. by intros f w H. Qed.
#[local] Instance reached_kept_rx p t : KeptRx (reached p t).
Proof. split; by intros. Qed.

(** ** The run *)

Section Kept.
Context (P : wg_device -> Prop) {B : Kept P} {O : KeptOut P} {R : KeptRx P}.

Lemma keep_stores m s s' : stores m s s' -> sat P (rv_device s) -> sat P (rv_device s').
Proof. intros [k e p t ck hash _] H. apply keep_handshake; [done|done|]. intros. apply commit_grows. Qed.

Lemma keep_receiver_step s s' : receiver_step s s' -> sat P (rv_device s) -> sat P (rv_device s').
Proof.
  intros [k e m o w _ H|e m w H|m s1 H|w H] Hs; cbn [rv_device].
  - by eapply (keep_consume_check P).
  - by eapply (keep_consume_check P).
  - by eapply keep_stores.
  - by eapply (keep_packet_steps P); [apply rtc_once|].
Qed.

Lemma keep_receiver_steps s s' : rtc receiver_step s s' -> sat P (rv_device s) -> sat P (rv_device s').
Proof. induction 1; eauto using keep_receiver_step. Qed.
End Kept.

(** What a worker has checked is an initiation that still opens. *)
Definition checked_open (s : receiver) : Prop :=
  forall k m p t ck hash, rv_checked s !! k = Some (m, (p, t, ck, hash)) -> opens m p t (rv_device s).

Lemma check_opens e m w p t ck hash w' :
  consume_initiation_check siphash e m w = Some (Some (p, t, ck, hash), w') -> opens m p t w.
Proof.
  intros (_ & pr & s & ck0 & hash0 & eph & Hp & _ & Es & Hl & Et & _)%consume_initiation_checked.
  exists pr, s, ck0, hash0, eph, ck, hash. split_and!; try done. apply lookup_owner. by rewrite Hl.
Qed.

Lemma step_config s s' : receiver_step s s' -> config (rv_device s') = config (rv_device s).
Proof. intros H. exact (keep_receiver_step (observed config (config (rv_device s))) s s' H eq_refl). Qed.

Lemma step_checked s s' : receiver_step s s' -> checked_open s -> checked_open s'.
Proof.
  intros H I k m p t ck hash Hk. apply (opens_config _ _ _ (rv_device s)); [by apply step_config|].
  destruct H as [k' e m' o w Hn H|e m' w H|m' s' [k' e p' t' ck' hash' _]|w H]; cbn [rv_checked] in Hk.
  - apply lookup_insert_Some in Hk as [[_ [= -> ->]]|[_ Hk]]; [by eapply check_opens|by eapply I].
  - by eapply I.
  - apply lookup_delete_Some in Hk as [_ Hk]. by eapply I.
  - by eapply I.
Qed.

Lemma checked_steps s s' : rtc receiver_step s s' -> checked_open s -> checked_open s'.
Proof. induction 1; eauto using step_checked. Qed.

Lemma store_reaches m s s' : stores m s s' -> checked_open s -> exists p t, opens m p t (rv_device s') /\ reached p t (rv_device s').
Proof.
  intros H I. assert (Hc : config (rv_device s') = config (rv_device s)) by (eapply step_config, initiation_stores; exact H).
  destruct H as [k e p t ck hash Hk]. exists p, t. specialize (I k m p t ck hash Hk). split; [by eapply opens_config|].
  destruct I as (pr & s0 & ck0 & hash0 & eph & ck' & hash' & Hp & _).
  eexists. cbn [rv_device]. split; [cbn; by rewrite lookup_alter_eq, Hp|]. cbn.
  destruct (memcmp t (hs_latest_timestamp (p_handshake pr))) eqn:E; rewrite ?memcmp_refl; [..|done].
  all: rewrite memcmp_antisym, E; done.
Qed.

(** C15: an initiation is not replayed. However the workers of the handshake queue, the timers and the
    traffic interleave, once a worker has stored an initiation, every check of the same initiation
    that starts later refuses it, whatever the time, and changes no handshake. This is what the code
    gives: a worker that has passed the check before another one stores the same initiation still
    stores it, since the time stamp is not compared again under the write lock. The administrator does
    nothing in between: a new private key, or a peer removed and added again, starts from no time
    stamp. *)
Theorem initiation_not_replayed w0 s1 s2 s3 m e :
  rtc receiver_step {| rv_device := w0; rv_checked := ∅ |} s1 -> stores m s1 s2 -> rtc receiver_step s2 s3 ->
  exists w4, consume_initiation_check siphash e m (rv_device s3) = Some (None, w4) /\
    wg_noise_handshake_consume_initiation siphash e m (rv_device s3) = Some (None, w4) /\
    forall q, p_handshake <$> d_peers w4 !! q = p_handshake <$> d_peers (rv_device s3) !! q.
Proof.
  intros H1 H2 H3.
  assert (I1 : checked_open s1).
  { apply (checked_steps _ _ H1). by intros k m' p t ck hash. }
  destruct (store_reaches m s1 s2 H2 I1) as (p & t & Ho & Hr).
  assert (Hc : config (rv_device s3) = config (rv_device s2)).
  { exact (keep_receiver_steps (observed config (config (rv_device s2))) s2 s3 H3 eq_refl). }
  apply (opens_config _ _ _ _ _ Hc) in Ho. apply (keep_receiver_steps (reached p t) _ _ H3) in Hr.
  destruct Ho as (pr & s & ck & hash & eph & ck' & hash' & Hp & Es & Hk & Et).
  destruct Hr as (pr' & Hp' & Ht). rewrite Hp in Hp'. injection Hp' as <-.
  destruct (stale_initiation_refused siphash e m _ p pr s ck hash eph t ck' hash' Hp Es) as (w4 & E & Hsame); [|done|done|].
  { intros q Hq%lookup_owner. congruence. }
  exists w4. split; [done|]. split; [|done]. unfold wg_noise_handshake_consume_initiation. by rewrite E.
Qed.
End Replay.

(** ** An example *)

#[local] Existing Instance toy_crypto.
#[local] Existing Instance toy_net.
#[local] Existing Instance toy_hashes.

(** A worker with the initiation of the example: it checks it, and it stores it. *)
Definition check (k : Z) (s : receiver) : receiver :=
  match consume_initiation_check siphash sample_env (fst Two.initiation) (rv_device s) with
  | Some (Some o, w) => {| rv_device := w; rv_checked := <[k := (fst Two.initiation, o)]> (rv_checked s) |}
  | _ => s
  end.
Definition store (k : Z) (s : receiver) : receiver :=
  match rv_checked s !! k with
  | Some (m, o) =>
      let '(p, t, ck, hash) := o in
      {| rv_device := upd_handshake p (consume_initiation_commit sample_env m t ck hash) (rv_device s);
         rv_checked := delete k (rv_checked s) |}
  | None => s
  end.
Definition idle : receiver := {| rv_device := Two.wR; rv_checked := ∅ |}.

Lemma check_runs k s o w :
  rv_checked s !! k = None -> consume_initiation_check siphash sample_env (fst Two.initiation) (rv_device s) = Some (Some o, w) ->
  receiver_step s (check k s).
Proof. intros Hk E. unfold check. rewrite E. by eapply initiation_passes. Qed.

Lemma store_runs k s m o : rv_checked s !! k = Some (m, o) -> stores m s (store k s).
Proof. intros Hk. unfold store. rewrite Hk. destruct o as [[[p t] ck] hash]. by econstructor. Qed.

(** Two workers have received the same initiation, and both checks pass before one of them stores it;
    the second one stores it too. After that it is refused. *)
Lemma initiation_not_replayed_witness :
  rv_checked (store 2 (store 1 (check 2 (check 1 idle)))) = ∅ /\
  exists w4, consume_initiation_check siphash sample_env (fst Two.initiation) (rv_device (store 2 (store 1 (check 2 (check 1 idle))))) = Some (None, w4).
Proof.
  split; [vm_compute; reflexivity|].
  destruct (initiation_not_replayed Two.wR (check 2 (check 1 idle)) (store 1 (check 2 (check 1 idle)))
              (store 2 (store 1 (check 2 (check 1 idle)))) (fst Two.initiation) sample_env) as (w4 & H & _).
  - eapply rtc_l; [|eapply rtc_once].
    + eapply (check_runs 1 idle); [reflexivity|vm_compute; reflexivity].
    + eapply (check_runs 2); [reflexivity|vm_compute; reflexivity].
  - eapply store_runs. vm_compute. reflexivity.
  - apply rtc_once. eapply initiation_stores, store_runs. vm_compute. reflexivity.
  - exists w4. exact H.
Defined.
