(* ===== verification/GiveUp.v ===== *)
(** * GiveUp: a handshake nobody answers is given up

    A retry is an expiry of the retransmission timer and the run of the work item it queues. Every
    retry sends another initiation and sets the timer again, as long as the number of attempts allows
    it; then the next expiry drops the packets that waited. *)

From S2P Require Import Prelude Messages Skb Replay AllowedIps PeerLookup PeerLookupProps RateLimiter Crypto NoiseCrypto PrevQueue World Samples Objects.
From S2P Require Import Keypairs Noise Cookie Socket Queueing Timers Send Receive TimerEvents Frames Workers Peer Device EndToEnd Safety.

Section GiveUp.
Context {C : Crypto} {K : Hashes} {N : NetStack}.

(** ** Retries *)










(** ** One retry *)

























(** ** All retries *)







End GiveUp.

(** ** An example *)

#[local] Existing Instance toy_crypto.
#[local] Existing Instance toy_hashes.
#[local] Existing Instance toy_net.



