(* ===== verification/Tables.v ===== *)
(** * Tables: the tables of a device agree about its peers

    A peer is found in four places: the list of peers, the table of public keys, the allowed IPs and
    the peer's own flag [is_dead]. The functions of peer.c change them together; nothing the packet
    paths do touches them. *)

From S2P Require Import Prelude Messages Skb Replay AllowedIps AllowedIpsInv AllowedIpsAdd AllowedIpsProps PeerLookup PeerLookupProps RateLimiter.
From S2P Require Import Crypto NoiseCrypto PrevQueue World Samples Objects.
From S2P Require Import Keypairs Noise NoiseSafety Cookie Socket Queueing Timers Send Receive TimerEvents Frames Workers Peer Device EndToEnd Safety.

(** The public keys of the peers that are not dead. *)
Definition conf_key (c : bytes * bytes * bytes * Z * Z * bool) : option bytes :=
  match c with (remote_static, _, _, _, _, is_dead) => if is_dead then None else Some remote_static end.
Definition live_keys (w : wg_device) : gmap peer_id bytes := omap conf_key (peer_conf <$> d_peers w).

Lemma live_keys_lookup w p : live_keys w !! p = pr ← d_peers w !! p; if p_is_dead pr then None else Some (hs_remote_static (p_handshake pr)).
Proof. unfold live_keys. rewrite lookup_omap, lookup_fmap. by destruct (d_peers w !! p). Qed.

Section Tables.
Context {C : Crypto} {K : Hashes} {N : NetStack}.

Record tables_ok (w : wg_device) (R : bool -> rtable) : Prop := {
  to_nodup : NoDup (d_peer_list w);
  to_listed p : p ∈ d_peer_list w <-> is_Some (live_keys w !! p);
  to_keys : pk_holds siphash (d_peer_hashtable w) (live_keys w);
  to_routes : routing (d_peer_allowedips w) R;
  to_owners v k p : R v !! k = Some p -> p ∈ d_peer_list w
}.

(** ** What the invariant depends on *)

Definition tables (w : wg_device) := (d_peer_list w, live_keys w, d_peer_hashtable w, d_peer_allowedips w).

Lemma tables_ok_same w w' R : tables w' = tables w -> tables_ok w R -> tables_ok w' R.
Proof.
  intros E O. injection E as E1 E2 E3 E4. split; rewrite ?E1, ?E2, ?E3, ?E4; try apply O.
Qed.

#[export] Instance tables_blind : Blind tables.
Proof.
  split; try done. intros p f w H. unfold tables, live_keys.
  assert (d_peers (upd_peer p f w) = alter f p (d_peers w)) as -> by done. by rewrite (peer_conf_alter p f (d_peers w) H).
Qed.
#[export] Instance tables_blind_out : BlindOut tables.
Proof. done. Qed.
#[export] Instance tables_blind_rx : BlindRx tables.
Proof. by split. Qed.

(** ** Work that is flushed *)

Section Flush.
Context (P : wg_device -> Prop) {B : Kept P} {O : KeptOut P} {Rx : KeptRx P}.

Lemma keep_run_works retries envs wks w w' : run_works retries envs wks w = Some w' -> sat P w -> sat P w'.
Proof.
  revert w. induction wks as [|wk wks IH]; cbn [run_works]; intros w H Ho; [by injection H as <-|].
  destruct (run_work _ _ _ _) as [w1|] eqn:E; [|done]. apply (IH w1 H). by eapply (keep_run_work P).
Qed.

Lemma keep_flush_work retries envs wk w w' : flush_work retries envs wk w = Some w' -> sat P w -> sat P w'.
Proof. unfold flush_work. case_if; [apply (keep_run_work P)|by intros [= <-]]. Qed.

Lemma keep_napi_disable retries envs p w w' : napi_disable retries envs p w = Some w' -> sat P w -> sat P w'.
Proof.
  unfold napi_disable. destruct (flush_work _ _ _ _) as [w1|] eqn:E; [|done]. intros [= <-] Ho.
  apply (keep_flush_work _ _ _ _ _ E) in Ho. eauto with frame.
Qed.

Lemma keep_timers_stop retries envs p w w' : wg_timers_stop retries envs p w = Some w' -> sat P w -> sat P w'.
Proof. unfold wg_timers_stop. intros H Ho. eapply keep_flush_work; [exact H|]. eauto 12 with frame. Qed.

Lemma keep_remove_after_dead retries envs p w w' :
  (forall f w, P w -> P (upd_d_num_peers f w)) -> peer_remove_after_dead retries envs p w = Some w' -> sat P w -> sat P w'.
Proof.
  intros Hn. unfold peer_remove_after_dead.
  destruct (wg_noise_keypairs_clear p w) as [w1|] eqn:E1; [|done]. cbv beta iota delta [mbind option_bind].
  destruct (wg_timers_stop _ _ _ _) as [w2|] eqn:E2; [|done]. destruct (flush_workqueue _ _ _ w2) as [w3|] eqn:E3; [|done].
  destruct (flush_workqueue _ _ _ w3) as [w4|] eqn:E4; [|done]. destruct (napi_disable _ _ _ _) as [w5|] eqn:E5; [|done].
  destruct (flush_workqueue _ _ _ w5) as [w6|] eqn:E6; [|done]. intros E7 Ho.
  apply (keep_keypairs_clear P) in E1; [|done]. apply keep_timers_stop in E2; [|done]. apply keep_run_works in E3; [|done].
  apply keep_run_works in E4; [|done]. apply keep_napi_disable in E5; [|done]. apply keep_run_works in E6; [|done].
  eapply (keep_peer_put P); [exact E7|]. by apply Hn.
Qed.
End Flush.

(** The tables stay the same in whatever keeps every fact. *)
Lemma tables_steps w w' : rtc packet_step w w' -> tables w' = tables w.
Proof. intros H. exact (keep_packet_steps (observed tables (tables w)) w w' H eq_refl). Qed.

Lemma tables_remove_after_dead retries envs p w w' : peer_remove_after_dead retries envs p w = Some w' -> tables w' = tables w.
Proof. intros H. exact (keep_remove_after_dead (observed tables (tables w)) retries envs p w w' (fun f w H => H) H eq_refl). Qed.

(** ** The operations on peers *)

Lemma make_dead_tables p w R :
  tables_ok w R -> exists w', peer_make_dead p w = Some w' /\ tables_ok w' (drop_peer R p) /\ live_keys w' = delete p (live_keys w).
Proof.
  intros O. unfold peer_make_dead. change (d_peer_allowedips (upd_d_peer_list _ w)) with (d_peer_allowedips w).
  destruct (remove_by_peer_spec _ _ p (to_routes _ _ O)) as (t & -> & Hr & _). cbv beta iota delta [mbind option_bind].
  eexists. split; [reflexivity|]. set (w' := upd_peer p _ _).
  assert (Hlive : live_keys w' = delete p (live_keys w)).
  { apply map_eq. intros q. rewrite live_keys_lookup. change (d_peers w') with (alter (upd_p_is_dead (fun _ => true)) p (d_peers w)).
    destruct (decide (q = p)) as [->|Hq].
    - rewrite lookup_alter_eq, lookup_delete_eq. by destruct (d_peers w !! p).
    - by rewrite lookup_alter_ne, lookup_delete_ne, live_keys_lookup. }
  assert (Hin : forall q, q ∈ d_peer_list w' <-> q ∈ d_peer_list w /\ q <> p).
  { intros q. change (d_peer_list w') with (List.filter (fun q => negb (bool_decide (q = p))) (d_peer_list w)).
    by rewrite list_elem_of_In, filter_In, <- list_elem_of_In, negb_true_iff, bool_decide_eq_false. }
  split; [|done]. split.
  - apply NoDup_ListNoDup, List.NoDup_filter, NoDup_ListNoDup. apply O.
  - intros q. rewrite Hin, (to_listed _ _ O), Hlive. destruct (decide (q = p)) as [->|Hq].
    + rewrite lookup_delete_eq. split; [by intros [_ ?]|by intros [? ?]].
    + rewrite lookup_delete_ne by done. tauto.
  - rewrite Hlive. apply pk_remove, O.
  - exact Hr.
  - intros v k q Hq. apply Hin. unfold drop_peer in Hq. apply map_lookup_filter_Some in Hq as [Hq Hne]. split; [by eapply (to_owners _ _ O)|done].
Qed.

Lemma create_tables e k psk w p w' R :
  wg_peer_create e k psk w = (inr p, w') -> d_peers w !! p = None -> (forall q, live_keys w !! q <> Some k) ->
  tables_ok w R -> tables_ok w' R /\ live_keys w' = <[p := k]> (live_keys w).
Proof.
  intros H Hfresh Hk O. unfold wg_peer_create in H. case_if; [done|]. destruct (new_peer e) as [p'|]; [|done]. case_if; [done|].
  cbv zeta in H. injection H as -> <-.
  set (pr := new_wg_peer _ _ _ _ _). set (w' := upd_d_num_peers _ _).
  assert (Hno : live_keys w !! p = None) by (rewrite live_keys_lookup, Hfresh; done).
  assert (Hlive : live_keys w' = <[p := k]> (live_keys w)).
  { apply map_eq. intros q. rewrite live_keys_lookup. change (d_peers w') with (<[p := pr]> (d_peers w)).
    destruct (decide (q = p)) as [->|Hq].
    - rewrite !lookup_insert_eq. cbn [mbind option_bind]. unfold pr. cbv [new_wg_peer wg_noise_handshake_init precompute_static_static].
      by repeat case_match.
    - by rewrite !lookup_insert_ne, live_keys_lookup. }
  split; [|done]. split.
  - change (d_peer_list w') with (d_peer_list w ++ [p]). apply NoDup_app. split; [apply O|]. split; [|apply NoDup_singleton].
    intros q Hq ->%list_elem_of_singleton. apply (to_listed _ _ O) in Hq as [? Hq]. congruence.
  - intros q. change (d_peer_list w') with (d_peer_list w ++ [p]). rewrite elem_of_app, list_elem_of_singleton, (to_listed _ _ O), Hlive.
    destruct (decide (q = p)) as [->|Hq]; [rewrite lookup_insert_eq; naive_solver|rewrite lookup_insert_ne by done; naive_solver].
  - rewrite Hlive. by apply pk_add; [apply O|..].
  - apply routing_new_list; [apply O|]. intros v key Hv. apply (to_owners _ _ O), (to_listed _ _ O) in Hv as [? ?]. congruence.
  - intros v key q Hq. change (d_peer_list w') with (d_peer_list w ++ [p]). apply elem_of_app. left. by eapply (to_owners _ _ O).
Qed.

(** The grace period of a dead peer ends. *)
Lemma rcu_release_tables p w R : live_keys w !! p = None -> tables_ok w R -> tables_ok (rcu_release p w) R.
Proof.
  intros Hd. apply tables_ok_same. unfold tables. assert (live_keys (rcu_release p w) = live_keys w) as ->; [|done].
  apply map_eq. intros q. rewrite !live_keys_lookup. change (d_peers (rcu_release p w)) with (delete p (d_peers w)).
  destruct (decide (q = p)) as [->|Hq]; [|by rewrite lookup_delete_ne].
  rewrite lookup_delete_eq. rewrite live_keys_lookup in Hd. by rewrite Hd.
Qed.

Lemma insert_route_tables v ip cidr p mem1 mem2 w ret t R :
  wg_allowedips_insert v ip cidr (Some p) mem1 mem2 (d_peer_allowedips w) = Some (ret, t) ->
  p ∈ d_peer_list w -> is_addr v ip -> 0 <= cidr <= width v -> fresh (d_peer_allowedips w) mem1 mem2 -> tables_ok w R ->
  exists R', tables_ok (upd_d_peer_allowedips (fun _ => t) w) R'.
Proof.
  intros E Hp Hip Hc Hf O. destruct (route_insert_spec _ _ v ip cidr p mem1 mem2 (to_routes _ _ O) Hip Hc Hf) as (ret' & t' & E' & Hcase).
  rewrite E in E'. injection E' as <- <-. destruct Hcase as [[_ Hr]|(_ & _ & Hr)]; eexists; (split; [apply O|apply O|apply O|exact Hr|]).
  - intros v' key q. unfold set_route. destruct (Bool.eqb v v'); [|apply O]. rewrite lookup_insert_Some.
    intros [[_ <-]|[_ ?]]; [done|by eapply (to_owners _ _ O)].
  - apply O.
Qed.

(** ** The life of a device *)

(** Configuration calls, under the device's lock, and the steps of the packet paths. A peer is
    created for a key that no peer has, in memory that is not in use; a route is added for a peer on
    the list. *)
Inductive device_step (w : wg_device) : wg_device -> Prop :=
| packets_flow w' : packet_step w w' -> device_step w w'
| peer_created e k psk p w' :
    wg_peer_create e k psk w = (inr p, w') -> d_peers w !! p = None -> (forall q, live_keys w !! q <> Some k) -> device_step w w'
| peer_not_created e k psk err w' : wg_peer_create e k psk w = (inl err, w') -> device_step w w'
| peer_removed retries envs p w' : wg_peer_remove retries envs p w = Some w' -> device_step w w'
| peer_freed p : live_keys w !! p = None -> device_step w (rcu_release p w)
| route_added v ip cidr p mem1 mem2 ret t :
    wg_allowedips_insert v ip cidr (Some p) mem1 mem2 (d_peer_allowedips w) = Some (ret, t) ->
    p ∈ d_peer_list w -> is_addr v ip -> 0 <= cidr <= width v -> fresh (d_peer_allowedips w) mem1 mem2 ->
    device_step w (upd_d_peer_allowedips (fun _ => t) w).

Lemma device_step_tables w w' R : device_step w w' -> tables_ok w R -> exists R', tables_ok w' R'.
Proof.
  intros Hs O. destruct Hs as [w' Hs|e k psk p w' H Hf Hk|e k psk err w' H|retries envs p w' H|p Hd|v ip cidr p mem1 mem2 ret t H Hp Hip Hc Hf].
  - exists R. eapply tables_ok_same; [|exact O]. by apply tables_steps, rtc_once.
  - exists R. by eapply create_tables.
  - exists R. assert (w' = w) as ->; [|done]. unfold wg_peer_create in H. by repeat case_match; simplify_eq.
  - destruct p as [p|]; [|injection H as <-; by exists R]. cbn [wg_peer_remove] in H.
    destruct (make_dead_tables p w R O) as (w1 & E1 & O1 & _). rewrite E1 in H. cbn [mbind option_bind] in H.
    exists (drop_peer R p). eapply tables_ok_same; [|exact O1]. by eapply tables_remove_after_dead.
  - exists R. by apply rcu_release_tables.
  - by eapply insert_route_tables.
Qed.

(** A device that has just been created. *)
Lemma new_device_tables w random :
  d_peers w = ∅ -> d_peer_list w = [] -> d_peer_hashtable w = wg_pubkey_hashtable_alloc random ->
  d_peer_allowedips w = empty_table -> tables_ok w no_routes.
Proof.
  intros E1 E2 E3 E4. assert (El : live_keys w = ∅) by (unfold live_keys; rewrite E1; by rewrite fmap_empty, omap_empty).
  split; rewrite ?E2, ?E3, ?E4, ?El.
  - constructor.
  - intros p. rewrite lookup_empty. split; [by intros ?%elem_of_nil|by intros [? ?]].
  - apply pk_alloc.
  - apply routing_empty.
  - intros v k p. unfold no_routes. by rewrite lookup_empty.
Qed.

(** ** Properties *)

(** C9: the tables of a device always agree. Whatever sequence of packets, timers, peer creations and
    removals and route insertions a new device goes through, the peers on its list are exactly those
    that are not dead, each found in the table of public keys under its own key and no key twice, and
    the allowed IPs, still well-formed tries, only lead to peers on the list. A peer is only created
    with a key no other peer has, removed, and given a route while it is on the list, which is what
    [set_peer] sees to. *)
Theorem device_tables_agree w0 random w :
  d_peers w0 = ∅ -> d_peer_list w0 = [] -> d_peer_hashtable w0 = wg_pubkey_hashtable_alloc random ->
  d_peer_allowedips w0 = empty_table -> rtc device_step w0 w -> exists R, tables_ok w R.
Proof.
  intros E1 E2 E3 E4 H. pose proof (new_device_tables w0 random E1 E2 E3 E4) as O. revert O. generalize no_routes. clear E1 E2 E3 E4.
  induction H as [w|w w1 w' Hs _ IH]; intros R O; [by exists R|]. destruct (device_step_tables _ _ _ Hs O) as [R1 O1]. by eapply IH.
Qed.

(** A public key is looked up to the live peer that has it, when a reference on it can be taken. *)
Lemma pubkey_lookup_live w R q key :
  tables_ok w R -> live_keys w !! q = Some key -> fst (pubkey_lookup siphash key w) = if peer_alive w q then Some q else None.
Proof.
  intros O Hq. destruct (to_keys _ _ O) as [Hb Hu]. unfold pubkey_lookup, wg_pubkey_hashtable_lookup.
  assert (Hstatic : forall q' k', live_keys w !! q' = Some k' ->
    (fun pr => hs_remote_static (p_handshake pr)) <$> d_peers w !! q' = Some k').
  { intros q' k'. rewrite live_keys_lookup. destruct (d_peers w !! q') as [pr|]; [|done]. cbn. by destruct (p_is_dead pr). }
  destruct (List.find _ _) as [q'|] eqn:Ef.
  - apply List.find_some in Ef as [Hin Hk]. apply list_elem_of_In, Hb in Hin as (k' & Hk' & _).
    rewrite (Hstatic q' k' Hk') in Hk. apply bytes_eqb_spec in Hk as <-. assert (q' = q) as -> by (by eapply Hu).
    cbn [mbind option_bind]. by destruct (peer_alive w q).
  - assert (Hin : q ∈ pk_bucket (d_peer_hashtable w) (pubkey_bucket siphash (d_peer_hashtable w) key)) by (apply Hb; by exists key).
    apply list_elem_of_In in Hin. pose proof (List.find_none _ _ Ef q Hin) as Hno. cbv beta in Hno.
    rewrite (Hstatic q key Hq) in Hno. by rewrite (proj2 (bytes_eqb_spec key key) eq_refl) in Hno.
Qed.

(** C10: a removed peer is cut off. From the moment [peer_make_dead] returns, and through whatever the
    packet paths do afterwards, the peer is not on the list, no destination or source address is
    routed to it, its public key does not lead to it any more, so that no initiation is attributed to
    it, and its flag is set. A handshake response may still reach it through its entry in the index
    table, but no session begins: [wg_noise_handshake_begin_session] fails. The other peers keep their
    routes and their keys, which lead to them as before. *)
Theorem removed_peer_is_cut_off p w R :
  tables_ok w R ->
  exists w1, peer_make_dead p w = Some w1 /\ tables_ok w1 (drop_peer R p) /\
    forall w2, rtc packet_step w1 w2 ->
      (p ∉ d_peer_list w2) /\
      (forall retries get skb, wg_allowedips_lookup_dst retries get (d_peer_allowedips w2) skb <> Some (Some p) /\
                               wg_allowedips_lookup_src retries get (d_peer_allowedips w2) skb <> Some (Some p)) /\
      (forall key, fst (pubkey_lookup siphash key w2) <> Some p) /\
      (forall pr, d_peers w2 !! p = Some pr -> p_is_dead pr = true) /\
      (forall e begun w3, wg_noise_handshake_begin_session e p w2 = Some (begun, w3) -> begun = false) /\
      tables_ok w2 (drop_peer R p) /\ live_keys w2 = delete p (live_keys w) /\
      (forall q key, q <> p -> live_keys w !! q = Some key ->
         fst (pubkey_lookup siphash key w2) = if peer_alive w2 q then Some q else None).
Proof.
  intros O. destruct (make_dead_tables p w R O) as (w1 & E1 & O1 & Hlive). exists w1. split; [done|]. split; [done|].
  intros w2 Hs. assert (Ht : tables w2 = tables w1) by (by apply tables_steps).
  apply (tables_ok_same _ _ _ Ht) in O1. assert (Hk2 : live_keys w2 = delete p (live_keys w)).
  { injection Ht as _ -> _ _. exact Hlive. }
  assert (Hl2 : live_keys w2 !! p = None) by (by rewrite Hk2, lookup_delete_eq).
  assert (Hdead : forall pr, d_peers w2 !! p = Some pr -> p_is_dead pr = true).
  { intros pr Hp. rewrite live_keys_lookup, Hp in Hl2. cbn in Hl2. by destruct (p_is_dead pr). }
  assert (Hnot : p ∉ d_peer_list w2) by (rewrite (to_listed _ _ O1), Hl2; by intros [? ?]).
  assert (Hroute : forall v retries get ip, lookup_addr v retries get (d_peer_allowedips w2) ip <> Some (Some p)).
  { intros v retries get ip Hg. destruct (lookup_owned _ _ _ _ _ _ _ (to_routes _ _ O1) Hg) as (c & P & HP).
    by apply (to_owners _ _ O1) in HP. }
  split; [done|]. split; [|split; [|split; [done|split; [|split; [done|split; [done|]]]]]].
  - intros retries get skb. unfold wg_allowedips_lookup_dst, wg_allowedips_lookup_src. split.
    all: case_if; [apply (Hroute false)|case_if; [apply (Hroute true)|done]].
  - intros key. unfold pubkey_lookup, wg_pubkey_hashtable_lookup. destruct (List.find _ _) as [q|] eqn:Ef; [|done]. cbn [mbind option_bind].
    case_if; [|done]. cbn [fst]. intros [= ->]. apply List.find_some in Ef as [Hin _]. apply list_elem_of_In in Hin.
    destruct (to_keys _ _ O1) as [Hb _]. apply Hb in Hin as (k & Hk & _). congruence.
  - intros e begun w3 Hb. destruct (d_peers w2 !! p) as [pr|] eqn:Hp.
    + eapply begin_session_dead; [exact Hp|by apply Hdead|exact Hb].
    + unfold wg_noise_handshake_begin_session in Hb. by rewrite Hp in Hb.
  - intros q key Hq Hkey. apply (pubkey_lookup_live w2 _ q key O1). by rewrite Hk2, lookup_delete_ne.
Qed.
End Tables.

(** ** Examples: one peer is created, gets a route and is removed *)

#[local] Existing Instance toy_crypto.
#[local] Existing Instance toy_hashes.
#[local] Existing Instance toy_net.

Definition one_peer : wg_device := snd (wg_peer_create sample_env (replicate 32 9) None sample_device).
Definition one_route : allowedips :=
  match wg_allowedips_insert false [10; 0; 0; 0] 8 (Some 1%positive) (Some 1%positive) (Some 2%positive) (d_peer_allowedips one_peer) with
  | Some (_, t) => t | None => d_peer_allowedips one_peer end.
Definition one_peer_routed : wg_device := upd_d_peer_allowedips (fun _ => one_route) one_peer.

Lemma one_peer_steps : rtc device_step sample_device one_peer_routed.
Proof.
  eapply rtc_l.
  - apply (peer_created sample_device sample_env (replicate 32 9) None 1%positive one_peer); [reflexivity|reflexivity|].
    intros q. change (live_keys sample_device) with (omap conf_key (peer_conf <$> (∅ : gmap peer_id wg_peer))).
    by rewrite fmap_empty, omap_empty, lookup_empty.
  - apply rtc_once. apply (route_added one_peer false [10; 0; 0; 0] 8 1%positive (Some 1%positive) (Some 2%positive) 0).
    + vm_compute. reflexivity.
    + left.
    + byte_addr.
    + by split.
    + by apply fresh_some.
Qed.

Lemma device_tables_agree_witness : exists R, tables_ok one_peer_routed R.
Proof. apply (device_tables_agree sample_device 0 one_peer_routed); [reflexivity..|exact one_peer_steps]. Defined.

Lemma removed_peer_is_cut_off_witness :
  exists w, peer_make_dead 1 one_peer = Some w /\ 1%positive ∉ d_peer_list w.
Proof.
  destruct (removed_peer_is_cut_off 1 one_peer no_routes) as (w & E & _ & H).
  - apply (create_tables sample_env (replicate 32 9) None sample_device 1%positive one_peer); [reflexivity|reflexivity| |].
    + intros q. change (live_keys sample_device) with (omap conf_key (peer_conf <$> (∅ : gmap peer_id wg_peer))).
      by rewrite fmap_empty, omap_empty, lookup_empty.
    + by apply (new_device_tables sample_device 0).
  - exists w. split; [exact E|]. apply (H w). apply rtc_refl.
Defined.
