(* ===== verification/NetlinkProps.v ===== *)
(** * NetlinkProps: a configuration request keeps the tables of a device in agreement

    Whatever a request of [wg_set_device] contains, and wherever it stops with an error, the list of
    peers, the table of public keys and the allowed IPs still agree afterwards (Tables). *)

From S2P Require Import Prelude Messages Skb Replay AllowedIps AllowedIpsInv AllowedIpsAdd AllowedIpsProps PeerLookup PeerLookupProps RateLimiter.
From S2P Require Import Crypto NoiseCrypto PrevQueue World Samples Objects.
From S2P Require Import Keypairs Noise Cookie Socket Queueing Timers Send Receive TimerEvents Frames Workers Peer Device Netlink EndToEnd Safety Tables.

(** ** The memory of the tries *)

(** A node that is not allocated. *)
Definition unused (n : nid) (t : allowedips) : Prop := nodes t !! n = None.

Create HintDb unused.

Lemma unused_alter n m f t : unused n t -> unused n (set_nodes (alter f m) t).
Proof. unfold unused. cbn [nodes set_nodes]. intros H. by apply lookup_alter_None. Qed.
Lemma unused_insert n m nd t : n <> m -> unused n t -> unused n (set_nodes (insert m nd) t).
Proof. unfold unused. cbn [nodes set_nodes]. intros Hn H. by rewrite lookup_insert_ne. Qed.
Lemma unused_delete n m t : unused n t -> unused n (set_nodes (delete m) t).
Proof. unfold unused. cbn [nodes set_nodes]. intros H. apply lookup_delete_None. by right. Qed.
Lemma unused_lists n f t : unused n t -> unused n (set_peer_lists f t).
Proof. done. Qed.
Lemma unused_call_rcu n cb t : unused n t -> unused n (call_rcu cb t).
Proof. done. Qed.
Lemma unused_inc_seq n t : unused n t -> unused n (inc_seq t).
Proof. done. Qed.
#[export] Hint Resolve unused_alter unused_insert unused_delete unused_lists unused_call_rcu unused_inc_seq : unused.

Lemma unused_write_slot n s v t : unused n t -> unused n (write_slot s v t).
Proof. destruct s; cbn [write_slot]; auto with unused. Qed.
#[export] Hint Resolve unused_write_slot : unused.

Lemma unused_connect n s b m t : unused n t -> unused n (connect_node s b m t).
Proof. unfold connect_node. auto with unused. Qed.
#[export] Hint Resolve unused_connect : unused.

Lemma unused_choose_connect n a b t t' : choose_and_connect_node a b t = Some t' -> unused n t -> unused n t'.
Proof. unfold choose_and_connect_node. destruct (nodes t !! a), (nodes t !! b); try done. intros [= <-]. auto with unused. Qed.

Lemma unused_connect_below n a s b t t' : connect_below a s b t = Some t' -> unused n t -> unused n t'.
Proof. destruct a; cbn [connect_below]; [apply unused_choose_connect|]. intros [= <-]. auto with unused. Qed.

(** An insertion only takes the memory it is given. *)
Lemma unused_add n s bits key cidr p mem1 mem2 t ret t' :
  add s bits key cidr p mem1 mem2 t = Some (ret, t') -> mem1 <> Some n -> mem2 <> Some n -> unused n t -> unused n t'.
Proof.
  unfold add. intros H H1 H2 Hu. destruct (if bits <? cidr then None else p) as [q|]; [|by simplify_eq].
  destruct (read_slot t s) as [root|].
  2:{ destruct mem1 as [m1|]; [|by simplify_eq]. injection H as _ <-. apply unused_connect, unused_lists, unused_insert; congruence. }
  destruct (node_placement _ _ _ _ _) as [[exact node]|]; [|done]. cbn [mbind option_bind] in H.
  destruct exact; [destruct node; [|done]; injection H as _ <-; unfold list_move_tail, list_add_tail, list_del; auto with unused|].
  destruct mem1 as [m1|]; [|by simplify_eq]. cbv zeta in H. set (t1 := list_add_tail m1 q _) in H.
  assert (Hu1 : unused n t1) by (apply unused_lists, unused_insert; congruence). clearbody t1.
  match type of H with mbind _ ?m = _ => destruct m as [[ps down]|] end; [|done]. cbn [mbind option_bind] in H.
  destruct down as [d|].
  2:{ destruct ps; try done. injection H as _ <-. auto with unused. }
  destruct (nodes t1 !! d) as [dnd|]; [|done]. cbn [mbind option_bind] in H. case_if.
  - destruct (choose_and_connect_node m1 d t1) as [t2|] eqn:E2; [|done]. cbn [mbind option_bind] in H.
    destruct (connect_below node s m1 t2) as [t3|] eqn:E3; [|done]. injection H as _ <-.
    eauto using unused_choose_connect, unused_connect_below.
  - destruct mem2 as [m2|]; [|injection H as _ <-; unfold list_del; auto with unused].
    destruct (choose_and_connect_node m2 d _) as [t3|] eqn:E3; [|done]. cbn [mbind option_bind] in H.
    destruct (choose_and_connect_node m2 m1 t3) as [t4|] eqn:E4; [|done]. cbn [mbind option_bind] in H.
    destruct (connect_below node s m2 t4) as [t5|] eqn:E5; [|done]. injection H as _ <-.
    eapply unused_connect_below; [exact E5|]. eapply unused_choose_connect; [exact E4|]. eapply unused_choose_connect; [exact E3|].
    apply unused_insert; congruence.
Qed.

Lemma unused_remove_node n m t t' : remove_node m t = Some t' -> unused n t -> unused n t'.
Proof.
  unfold remove_node. intros H Hu. cbv zeta in H. set (t1 := set_nodes _ _) in H.
  assert (Hu1 : unused n t1) by (unfold t1, list_del; auto with unused). clearbody t1. clear Hu t.
  destruct (nodes t1 !! m) as [nd|]; [|done]. cbn [mbind option_bind] in H.
  repeat case_match; simplify_eq; auto 10 with unused.
  all: match type of H with mbind _ ?m = _ => destruct m; [|done]; cbn [mbind option_bind] in H end.
  all: repeat case_match; simplify_eq; auto 10 with unused.
Qed.

Lemma unused_remove_nodes n ns t t' : remove_nodes ns t = Some t' -> unused n t -> unused n t'.
Proof.
  revert t. induction ns as [|m ns IH]; cbn [remove_nodes]; intros t H Hu; [by injection H as <-|].
  destruct (remove_node m t) as [t1|] eqn:E; [|done]. eapply IH; [exact H|]. by eapply unused_remove_node.
Qed.

Lemma unused_remove_by_peer n p t t' : wg_allowedips_remove_by_peer p t = Some t' -> unused n t -> unused n t'.
Proof.
  unfold wg_allowedips_remove_by_peer. destruct (default [] _); [by intros [= <-]|]. intros H Hu. by eapply unused_remove_nodes.
Qed.

Lemma unused_remove_lists n fuel stack t t' : root_remove_peer_lists_loop fuel stack t = Some t' -> unused n t -> unused n t'.
Proof.
  revert stack t. induction fuel as [|fuel IH]; intros [|m stack] t H Hu; cbn [root_remove_peer_lists_loop] in H; try (by injection H as <-); [done|].
  destruct (nodes t !! m) as [nd|]; [|done]. cbn [mbind option_bind] in H. destruct (push_rcu stack (bit0 nd)) as [s1|]; [|done].
  cbn [mbind option_bind] in H. destruct (push_rcu s1 (bit1 nd)) as [s2|]; [|done]. eapply IH; [exact H|]. by destruct (peer nd).
Qed.

Lemma unused_free_root n old t t' : free_root old t = Some t' -> unused n t -> unused n t'.
Proof.
  destruct old as [m|]; cbn [free_root]; [|by intros [= <-]]. unfold root_remove_peer_lists.
  destruct (root_remove_peer_lists_loop _ _ _) as [t1|] eqn:E; [|done]. intros [= <-] Hu. apply unused_call_rcu. by eapply unused_remove_lists.
Qed.

Lemma unused_free n t t' : wg_allowedips_free t = Some t' -> unused n t -> unused n t'.
Proof.
  unfold wg_allowedips_free. intros H Hu. destruct (free_root (root4 t) _) as [t1|] eqn:E; [|done].
  eapply unused_free_root; [exact H|]. eapply unused_free_root; [exact E|]. auto with unused.
Qed.

(** ** What a request may contain *)

(** The payloads are bytes. *)
Definition wf_allowedip (a : Z + allowedip_attrs) : Prop :=
  match a with
  | inl err => err < 0
  | inr a => (forall ip, ai_ipaddr a = Some ip -> wf_bytes ip) /\ (forall c, ai_cidr_mask a = Some c -> 0 <= c < 256)
  end.

(** Node [n] is what the allocations for the i-th route of the request return. *)
Definition gives (mem : nat -> option nid * option nid) (i : nat) (n : nid) : Prop := fst (mem i) = Some n \/ snd (mem i) = Some n.

(** The allocator hands out every piece of memory once, and none that is in use. *)
Record fresh_nodes (mem : nat -> option nid * option nid) (i : nat) (t : allowedips) : Prop := {
  fn_once i j n : gives mem i n -> gives mem j n -> i = j;
  fn_pair i n : fst (mem i) = Some n -> snd (mem i) <> Some n;
  fn_unused j n : (i <= j)%nat -> gives mem j n -> unused n t
}.

Lemma fresh_nodes_le mem i t t' :
  fresh_nodes mem i t -> (forall n, (forall j, (j < i)%nat -> ~ gives mem j n) -> unused n t -> unused n t') -> fresh_nodes mem i t'.
Proof.
  intros F H. split; [apply F|apply F|]. intros j n Hj Hn. apply H; [|by eapply (fn_unused _ _ _ F)].
  intros j' Hj' Hn'. pose proof (fn_once _ _ _ F j j' n Hn Hn'). lia.
Qed.

Section Requests.
Context {C : Crypto} {K : Hashes} {N : NetStack}.

#[local] Existing Instance tables_blind.
#[local] Hint Resolve tables_blind : frame.

Lemma tables_upd_peer p f w : (forall pr, conf_key (peer_conf (f pr)) = conf_key (peer_conf pr)) -> tables (upd_peer p f w) = tables w.
Proof.
  intros Hf. unfold tables. assert (live_keys (upd_peer p f w) = live_keys w) as ->; [|done].
  apply map_eq. intros q. unfold live_keys. rewrite !lookup_omap, !lookup_fmap. change (d_peers (upd_peer p f w)) with (alter f p (d_peers w)).
  destruct (decide (q = p)) as [->|Hq]; [|by rewrite lookup_alter_ne]. rewrite lookup_alter_eq. destruct (d_peers w !! p) as [pr|]; [|done].
  cbn. apply Hf.
Qed.

(** ** Routes *)

Lemma set_allowedip_tables mem i p a w ret w' R :
  set_allowedip (mem i) p a w = Some (ret, w') -> wf_allowedip (inr a) -> p ∈ d_peer_list w -> fresh_nodes mem i (d_peer_allowedips w) -> tables_ok w R ->
  d_peer_list w' = d_peer_list w /\ d_peers w' = d_peers w /\ fresh_nodes mem (S i) (d_peer_allowedips w') /\ exists R', tables_ok w' R'.
Proof.
  intros H [Hip Hcidr] Hp F O.
  assert (Hsame : w' = w -> d_peer_list w' = d_peer_list w /\ d_peers w' = d_peers w /\ fresh_nodes mem (S i) (d_peer_allowedips w') /\ exists R', tables_ok w' R').
  { intros ->. split_and!; try done; [|by exists R]. split; [apply F|apply F|]. intros j n Hj. apply (fn_unused _ _ _ F). lia. }
  assert (Hins : forall v ip cidr t, wg_allowedips_insert v ip cidr (Some p) (fst (mem i)) (snd (mem i)) (d_peer_allowedips w) = Some (ret, t) ->
    w' = upd_d_peer_allowedips (fun _ => t) w -> is_addr v ip -> 0 <= cidr <= width v ->
    d_peer_list w' = d_peer_list w /\ d_peers w' = d_peers w /\ fresh_nodes mem (S i) (d_peer_allowedips w') /\ exists R', tables_ok w' R').
  { intros v ip cidr t E -> Ha Hc. split; [done|]. split; [done|]. split.
    - assert (F' : fresh_nodes mem (S i) (d_peer_allowedips w)).
      { split; [apply F|apply F|]. intros j n Hj. apply (fn_unused _ _ _ F). lia. }
      apply (fresh_nodes_le _ _ _ _ F'). intros n Hn Hu. rewrite insert_is_add in E.
      apply (unused_add n _ _ _ _ _ _ _ _ _ _ E); [| |by apply unused_inc_seq].
      + intros En. apply (Hn i); [lia|]. by left.
      + intros En. apply (Hn i); [lia|]. by right.
    - eapply insert_route_tables; try done. split.
      + intros n Hn. apply (fn_unused _ _ _ F i); [lia|]. by left.
      + intros n Hn. split; [apply (fn_unused _ _ _ F i); [lia|by right]|]. intros En. by apply (fn_pair _ _ _ F i n En). }
  unfold set_allowedip in H. destruct (ai_family a) as [family|]; [|injection H as _ <-; by apply Hsame].
  destruct (ai_ipaddr a) as [ip|] eqn:Ei; [|injection H as _ <-; by apply Hsame]. specialize (Hip ip eq_refl).
  destruct (ai_cidr_mask a) as [cidr|]; [|injection H as _ <-; by apply Hsame]. specialize (Hcidr cidr eq_refl).
  destruct ((family =? AF_INET) && (cidr <=? 32) && (length ip =? 4)%nat) eqn:E4; [|destruct ((family =? AF_INET6) && (cidr <=? 128) && (length ip =? 16)%nat) eqn:E6].
  - apply andb_true_iff in E4 as [[_ Hc%Z.leb_le]%andb_true_iff Hl%Nat.eqb_eq].
    destruct (wg_allowedips_insert_v4 _ _ _ _ _ _) as [[r t]|] eqn:E; [|done]. injection H as -> <-.
    apply (Hins false ip cidr t E eq_refl); [|cbn; lia]. split; [done|]. by rewrite Hl.
  - apply andb_true_iff in E6 as [[_ Hc%Z.leb_le]%andb_true_iff Hl%Nat.eqb_eq].
    destruct (wg_allowedips_insert_v6 _ _ _ _ _ _) as [[r t]|] eqn:E; [|done]. injection H as -> <-.
    apply (Hins true ip cidr t E eq_refl); [|cbn; lia]. split; [done|]. by rewrite Hl.
  - injection H as _ <-. by apply Hsame.
Qed.

Lemma set_allowedips_tables mem i p l ret w ret' w' R :
  set_allowedips mem i p l ret w = Some (ret', w') -> Forall wf_allowedip l -> p ∈ d_peer_list w -> fresh_nodes mem i (d_peer_allowedips w) -> tables_ok w R ->
  d_peer_list w' = d_peer_list w /\ d_peers w' = d_peers w /\ exists R', tables_ok w' R'.
Proof.
  revert i ret w R. induction l as [|[err|a] l IH]; intros i ret w R H Hwf Hp F O; cbn [set_allowedips] in H.
  - injection H as _ <-. by split_and!; [| |exists R].
  - injection H as _ <-. by split_and!; [| |exists R].
  - destruct (set_allowedip (mem i) p a w) as [[r w1]|] eqn:E; [|done]. cbn [mbind option_bind] in H.
    inversion Hwf as [|? ? Ha Hl]; subst.
    destruct (set_allowedip_tables _ _ _ _ _ _ _ _ E Ha Hp F O) as (Hlist & Hpeers & F1 & R1 & O1). case_if.
    + injection H as _ <-. by split_and!; [| |exists R1].
    + destruct (IH (S i) r w1 R1 H Hl) as (Hlist' & Hpeers' & Hex); [by rewrite Hlist|done|done|]. split_and!; [congruence|congruence|done].
Qed.

(** ** One peer of a request *)

Lemma update_peer_tables pe p flags psk attrs w ret w' R :
  update_peer pe p flags psk attrs w = Some (ret, w') -> Forall wf_allowedip (default [] (pa_allowedips attrs)) ->
  p ∈ d_peer_list w -> fresh_nodes (pe_route pe) 0 (d_peer_allowedips w) -> tables_ok w R ->
  live_keys w' = live_keys w /\ exists R', tables_ok w' R'.
Proof.
  unfold update_peer. intros H Hwf Hp F O. cbv zeta in H.
  set (w1 := match psk with Some k => _ | None => w end) in H.
  assert (E1 : tables w1 = tables w) by (unfold w1; destruct psk; [by apply tables_upd_peer|done]). clearbody w1.
  set (w2 := match pa_endpoint attrs ≫= sockaddr_endpoint with Some ep => _ | None => w1 end) in H.
  assert (E2 : tables w2 = tables w) by (unfold w2; destruct (pa_endpoint attrs ≫= _); [by apply (keep_set_endpoint (observed tables (tables w)))|done]). clearbody w2. clear E1 w1.
  assert (Hl2 : d_peer_list w2 = d_peer_list w /\ live_keys w2 = live_keys w /\ d_peer_allowedips w2 = d_peer_allowedips w) by (unfold tables in E2; split_and!; congruence).
  destruct Hl2 as (Hl2 & Hk2 & Ht2). apply (tables_ok_same _ _ _ E2) in O. rewrite <- Hl2 in Hp. rewrite <- Ht2 in F. rewrite <- Hk2. clear E2 Hl2 Hk2 Ht2 w.
  match type of H with mbind _ ?m = _ => destruct m as [w3|] eqn:E3 end; [|done]. cbn [mbind option_bind] in H.
  assert (H3 : d_peer_list w3 = d_peer_list w2 /\ live_keys w3 = live_keys w2 /\ fresh_nodes (pe_route pe) 0 (d_peer_allowedips w3) /\ exists R3, tables_ok w3 R3).
  { destruct (has_flag flags WGPEER_F_REPLACE_ALLOWEDIPS); [|injection E3 as <-; by split_and!; [| | |exists R]].
    destruct (remove_by_peer_spec _ _ p (to_routes _ _ O)) as (t & Et & Hr & _). rewrite Et in E3. injection E3 as <-.
    split; [done|]. split; [done|]. split.
    - apply (fresh_nodes_le _ _ _ _ F). intros n _. by eapply unused_remove_by_peer.
    - exists (drop_peer R p). split; try apply O; [exact Hr|]. intros v k q Hq. unfold drop_peer in Hq.
      apply map_lookup_filter_Some in Hq as [Hq _]. by eapply (to_owners _ _ O). }
  destruct H3 as (Hl3 & Hk3 & F3 & R3 & O3). clear E3.
  destruct (set_allowedips _ _ _ _ _ _) as [[r w4]|] eqn:E4; [|done]. cbn [mbind option_bind] in H.
  destruct (set_allowedips_tables _ _ _ _ _ _ _ _ _ E4 Hwf ltac:(by rewrite Hl3) F3 O3) as (Hl4 & Hp4 & R4 & O4).
  assert (Hk4 : live_keys w4 = live_keys w2) by (rewrite <- Hk3; unfold live_keys; by rewrite Hp4).
  case_if; [injection H as _ <-; split; [done|by exists R4]|].
  match type of H with mbind _ ?m = _ => destruct m as [w5|] eqn:E5 end; [|done]. cbn [mbind option_bind] in H.
  assert (H5 : tables w5 = tables w4).
  { destruct (pa_persistent_keepalive_interval attrs) as [interval|]; [|by injection E5 as <-].
    destruct (d_peers w4 !! p) as [pr|]; [|done]. cbn [mbind option_bind] in E5.
    assert (Hi : tables (upd_peer p (upd_p_persistent_keepalive_interval (fun _ => interval)) w4) = tables w4) by (by apply tables_upd_peer).
    destruct ((p_persistent_keepalive_interval pr =? 0) && negb (interval =? 0) && d_running w4); [exact (keep_send_keepalive (observed tables (tables w4)) _ _ _ _ E5 Hi)|by injection E5 as <-]. }
  match type of H with mbind _ ?m = _ => destruct m as [w6|] eqn:E6 end; [|done]. injection H as _ <-.
  assert (H6 : tables w6 = tables w4) by (destruct (d_running w5); [exact (keep_send_staged (observed tables (tables w4)) _ _ _ _ E6 H5)|by injection E6 as <-]).
  split; [unfold tables in H6; congruence|]. exists R4. by eapply tables_ok_same.
Qed.

Lemma pubkey_lookup_tables key w p w' : pubkey_lookup siphash key w = (p, w') -> tables w' = tables w.
Proof. intros H. exact (keep_pubkey_lookup (observed tables (tables w)) _ _ _ _ _ H eq_refl). Qed.

(** The lookup finds the peer with the key, if there is one; listed peers have a reference. *)
Lemma pubkey_found key w R :
  tables_ok w R -> (forall q, q ∈ d_peer_list w -> peer_alive w q = true) ->
  match fst (pubkey_lookup siphash key w) with
  | Some p => live_keys w !! p = Some key
  | None => forall q, live_keys w !! q <> Some key
  end.
Proof.
  intros O Halive. unfold pubkey_lookup, wg_pubkey_hashtable_lookup.
  destruct (to_keys _ _ O) as [Hb _]. destruct (List.find _ _) as [p|] eqn:Ef; cbn [mbind option_bind].
  - apply List.find_some in Ef as [Hin Hk]. apply list_elem_of_In, Hb in Hin as (k & Hk' & _).
    rewrite Halive by (apply (to_listed _ _ O); by eexists). cbn [fst]. rewrite live_keys_lookup in Hk' |- *.
    destruct (d_peers w !! p) as [pr|]; [|done]. cbn in *. apply bytes_eqb_spec in Hk as ->. by destruct (p_is_dead pr).
  - cbn [fst]. intros q Hq. assert (Hin : q ∈ pk_bucket (d_peer_hashtable w) (pubkey_bucket siphash (d_peer_hashtable w) key)) by (apply Hb; eauto).
    apply list_elem_of_In in Hin. eapply List.find_none in Ef; [|exact Hin]. rewrite live_keys_lookup in Hq.
    destruct (d_peers w !! q) as [pr|]; [|done]. cbn in *. destruct (p_is_dead pr); [done|]. injection Hq as <-.
    unfold bytes_eqb in Ef. by rewrite bool_decide_true in Ef.
Qed.

Lemma flag_cleared flags : has_flag flags (Z.lor WGPEER_F_REMOVE_ME WGPEER_F_UPDATE_ONLY) = false ->
  has_flag flags WGPEER_F_REMOVE_ME = false /\ has_flag flags WGPEER_F_UPDATE_ONLY = false /\
  forall m, has_flag (Z.land flags m) WGPEER_F_REMOVE_ME = false.
Proof.
  unfold has_flag. rewrite !negb_false_iff, !Z.eqb_eq. change (Z.lor WGPEER_F_REMOVE_ME WGPEER_F_UPDATE_ONLY) with 5. intros H.
  assert (H1 : Z.land flags WGPEER_F_REMOVE_ME = 0).
  { change WGPEER_F_REMOVE_ME with (Z.land 5 1). by rewrite Z.land_assoc, H. }
  split; [done|]. split.
  - change WGPEER_F_UPDATE_ONLY with (Z.land 5 4). by rewrite Z.land_assoc, H.
  - intros m. rewrite negb_false_iff, Z.eqb_eq. by rewrite <- Z.land_assoc, (Z.land_comm m), Z.land_assoc, H1.
Qed.

Lemma find_or_create_tables e key psk flags w R :
  tables_ok w R -> (forall q, q ∈ d_peer_list w -> peer_alive w q = true) -> (forall p, new_peer e = Some p -> d_peers w !! p = None) ->
  match find_or_create_peer e key psk flags w with
  | (inl ret, w1) => tables w1 = tables w /\ (ret = 0 -> (forall q, live_keys w !! q <> Some key) /\
      (has_flag flags (Z.lor WGPEER_F_REMOVE_ME WGPEER_F_UPDATE_ONLY) = true \/
       (has_identity (d_static_identity w) = true /\ key = static_public (d_static_identity w))))
  | (inr (p, flags'), w1) =>
      tables_ok w1 R /\ live_keys w1 = <[p := key]> (live_keys w) /\ (live_keys w !! p = None \/ live_keys w !! p = Some key) /\
      has_flag flags' WGPEER_F_REMOVE_ME = has_flag flags WGPEER_F_REMOVE_ME /\ nodes (d_peer_allowedips w1) = nodes (d_peer_allowedips w)
  end.
Proof.
  intros O Halive Hfresh. unfold find_or_create_peer. pose proof (pubkey_found key w R O Halive) as Hl.
  destruct (pubkey_lookup siphash key w) as [found w1] eqn:El. pose proof (pubkey_lookup_tables _ _ _ _ El) as Et. cbn [fst] in Hl.
  destruct found as [p|].
  { assert (Hk : live_keys w1 = live_keys w /\ d_peer_allowedips w1 = d_peer_allowedips w) by (unfold tables in Et; split; congruence).
    destruct Hk as [Hk Hn]. split_and!; [by eapply tables_ok_same| |by right|done|by rewrite Hn]. rewrite Hk. symmetry. by apply insert_id. }
  assert (w1 = w) as -> by (unfold pubkey_lookup in El; destruct (wg_pubkey_hashtable_lookup _ _ _ _ _); by simplify_eq).
  destruct (has_flag flags _) eqn:Ef; [by split; [|split; [|left]]|].
  destruct (has_identity (d_static_identity w) && _) eqn:Eid.
  { apply andb_true_iff in Eid as [Hid Hkey%bytes_eqb_spec]. by split; [|split; [|right]]. }
  destruct (wg_peer_create e key psk w) as [[err|p] w2] eqn:Ec.
  - assert (w2 = w /\ err = - ENOMEM) as [-> ->] by (unfold wg_peer_create in Ec; by repeat case_match; simplify_eq). by split.
  - assert (Hnew : new_peer e = Some p) by (unfold wg_peer_create in Ec; by repeat case_match; simplify_eq).
    destruct (create_tables _ _ _ _ _ _ _ Ec (Hfresh p Hnew) Hl O) as [O2 Hk2].
    assert (Eg : tables (wg_peer_get p w2) = tables w2) by (by apply (keep_peer_get (observed tables (tables w2)))).
    destruct (flag_cleared flags Ef) as (Hr & _ & Hm). split_and!.
    + by eapply tables_ok_same.
    + unfold tables in Eg. congruence.
    + left. by rewrite live_keys_lookup, (Hfresh p Hnew).
    + by rewrite Hr, Hm.
    + change (d_peer_allowedips (wg_peer_get p w2)) with (d_peer_allowedips w2). clear - Ec. unfold wg_peer_create in Ec.
      repeat case_match; simplify_eq. done.
Qed.

Lemma has_flag_lor flags a b : has_flag flags (Z.lor a b) = has_flag flags a || has_flag flags b.
Proof.
  unfold has_flag. rewrite Z.land_lor_distr_r. destruct (Z.eqb_spec (Z.land flags a) 0) as [->|Ha], (Z.eqb_spec (Z.land flags b) 0) as [->|Hb]; cbn [negb orb].
  - done.
  - rewrite Z.lor_0_l. by rewrite (proj2 (Z.eqb_neq _ _) Hb).
  - rewrite Z.lor_0_r. by rewrite (proj2 (Z.eqb_neq _ _) Ha).
  - rewrite (proj2 (Z.eqb_neq _ _)); [done|]. intros H. by apply Z.lor_eq_0_iff in H as [? _].
Qed.

(** The peer of a request is removed or changed, and the reference on it given back. *)
Lemma set_found_peer_tables retries pe p flags psk attrs key w ret w' R :
  ('(ret, w) ← (if has_flag flags WGPEER_F_REMOVE_ME then w ← wg_peer_remove retries (pe_remove pe) (Some p) w; Some (0, w)
                else update_peer pe p flags psk attrs w);
   w ← wg_peer_put p w; Some (ret, w)) = Some (ret, w') ->
  Forall wf_allowedip (default [] (pa_allowedips attrs)) -> fresh_nodes (pe_route pe) 0 (d_peer_allowedips w) ->
  live_keys w !! p = Some key -> tables_ok w R ->
  (exists R', tables_ok w' R') /\ live_keys w' = if has_flag flags WGPEER_F_REMOVE_ME then delete p (live_keys w) else live_keys w.
Proof.
  intros H Hwf F Hp O. match type of H with mbind _ ?m = _ => destruct m as [[r w1]|] eqn:E1 end; [|done]. cbn [mbind option_bind] in H.
  destruct (wg_peer_put p w1) as [w2|] eqn:E2; [|done]. injection H as _ <-.
  apply (keep_peer_put (observed tables (tables w1))) in E2; [|done]. unfold sat, observed in E2.
  assert (H1 : (exists R1, tables_ok w1 R1) /\ live_keys w1 = if has_flag flags WGPEER_F_REMOVE_ME then delete p (live_keys w) else live_keys w).
  { destruct (has_flag flags WGPEER_F_REMOVE_ME).
    - destruct (wg_peer_remove _ _ _ _) as [w3|] eqn:E3; [|done]. injection E1 as _ <-. cbn [wg_peer_remove] in E3.
      destruct (make_dead_tables p w R O) as (w4 & E4 & O4 & Hk4). rewrite E4 in E3. cbn [mbind option_bind] in E3.
      assert (Et : tables w3 = tables w4) by (by eapply tables_remove_after_dead).
      split; [exists (drop_peer R p); by eapply tables_ok_same|]. rewrite <- Hk4. unfold tables in Et. congruence.
    - destruct (update_peer_tables _ _ _ _ _ _ _ _ R E1 Hwf) as [Hk Hex]; [|done|done|done].
      apply (to_listed _ _ O). by eexists. }
  destruct H1 as [[R1 O1] Hk1]. split; [exists R1; by eapply tables_ok_same|]. rewrite <- Hk1. unfold tables in E2. congruence.
Qed.

(** C12: a configuration request for a peer does what it says and keeps the tables in agreement. When
    [set_peer] returns, whatever its result, the list of peers, the table of keys and the allowed IPs
    agree again, and every other peer is still there with its key. When it returns 0, a peer with the
    flag REMOVE_ME is gone, and one without it is there, unless the request was to update only or
    names the device's own key. *)
Theorem set_peer_keeps_tables retries pe attrs key w ret w' R :
  pa_public_key attrs = Some key -> Forall wf_allowedip (default [] (pa_allowedips attrs)) ->
  tables_ok w R -> (forall q, q ∈ d_peer_list w -> peer_alive w q = true) ->
  (forall p, new_peer (pe_create pe) = Some p -> d_peers w !! p = None) -> fresh_nodes (pe_route pe) 0 (d_peer_allowedips w) ->
  set_peer retries pe attrs w = Some (ret, w') ->
  (exists R', tables_ok w' R') /\
  (forall q k, k <> key -> live_keys w' !! q = Some k <-> live_keys w !! q = Some k) /\
  (ret = 0 ->
     if has_flag (default 0 (pa_flags attrs)) WGPEER_F_REMOVE_ME then forall q, live_keys w' !! q <> Some key
     else has_flag (default 0 (pa_flags attrs)) WGPEER_F_UPDATE_ONLY = false ->
          ~ (has_identity (d_static_identity w) = true /\ key = static_public (d_static_identity w)) ->
          exists p, live_keys w' !! p = Some key).
Proof.
  intros Hkey Hwf O Halive Hfresh F. unfold set_peer. rewrite Hkey.
  assert (Herr : forall err, err < 0 -> Some (err, w) = Some (ret, w') -> (exists R', tables_ok w' R') /\
    (forall q k, k <> key -> live_keys w' !! q = Some k <-> live_keys w !! q = Some k) /\ ret <> 0).
  { intros err Hneg [= <- <-]. split; [by exists R|]. split; [done|lia]. }
  case_if; [intros H; by apply Herr in H as (? & ? & ?)|]. case_if; [intros H; by apply Herr in H as (? & ? & ?)|].
  case_if; [intros H; by apply Herr in H as (? & ? & ?)|]. clear Herr. cbv zeta. set (psk := pa_preshared_key attrs ≫= _). clearbody psk.
  set (flags := default 0 (pa_flags attrs)) in *.
  pose proof (find_or_create_tables (pe_create pe) key psk flags w R O Halive Hfresh) as Hf.
  destruct (find_or_create_peer (pe_create pe) key psk flags w) as [[r|[p flags']] w1].
  - intros [= <- <-]. destruct Hf as [Et Hr]. split; [exists R; by eapply tables_ok_same|].
    assert (Hk : live_keys w1 = live_keys w) by (unfold tables in Et; congruence). rewrite Hk. split; [done|].
    intros ->. destruct (Hr eq_refl) as [Hno Hwhy]. destruct (has_flag flags WGPEER_F_REMOVE_ME) eqn:Erm; [done|].
    intros Hup Hown. destruct Hwhy as [Hwhy|Hwhy]; [|done]. rewrite has_flag_lor, Erm, Hup in Hwhy. done.
  - intros H. destruct Hf as (O1 & Hk1 & Hp & Hfl & Hn). assert (Hp1 : live_keys w1 !! p = Some key) by (by rewrite Hk1, lookup_insert_eq).
    destruct (set_found_peer_tables _ _ _ _ _ _ key _ _ _ R H Hwf) as [Hex Hk']; [|done|done|].
    { split; [apply F|apply F|]. intros j n Hj Hg. unfold unused. rewrite Hn. by apply (fn_unused _ _ _ F j n Hj Hg). }
    rewrite Hfl in Hk'. split; [done|]. rewrite Hk'. split.
    + intros q k Hne. destruct (decide (q = p)) as [->|Hq].
      * destruct (has_flag flags WGPEER_F_REMOVE_ME); rewrite ?lookup_delete_eq, ?Hp1; destruct Hp as [-> | ->]; split; congruence.
      * destruct (has_flag flags WGPEER_F_REMOVE_ME); rewrite ?lookup_delete_ne, ?Hk1, ?lookup_insert_ne by done; done.
    + intros _. destruct (has_flag flags WGPEER_F_REMOVE_ME); [|eauto]. intros q Hq. apply lookup_delete_Some in Hq as [Hne Hq].
      destruct (to_keys _ _ O1) as [_ Hu]. apply Hne. by eapply Hu.
Qed.
End Requests.

(** ** Example: a peer with one route is added to a device without peers *)

#[local] Existing Instance toy_crypto.
#[local] Existing Instance toy_hashes.
#[local] Existing Instance toy_net.

Definition add_request : peer_attrs :=
  {| pa_public_key := Some (replicate 32 9); pa_preshared_key := None; pa_flags := None; pa_endpoint := None;
     pa_persistent_keepalive_interval := Some 25;
     pa_allowedips := Some [inr {| ai_family := Some AF_INET; ai_ipaddr := Some [10; 0; 0; 0]; ai_cidr_mask := Some 8 |}];
     pa_protocol_version := Some 1 |}.
Definition request_env : peer_env :=
  {| pe_create := sample_env; pe_keepalive := sample_env; pe_staged := sample_env; pe_remove := fun _ _ => sample_env;
     pe_route := fun i => (Some (Pos.of_succ_nat (2 * i)), Some (Pos.of_succ_nat (2 * i + 1))) |}.

Lemma set_peer_keeps_tables_witness :
  exists w, set_peer 1 request_env add_request sample_device = Some (0, w) /\ exists p, live_keys w !! p = Some (replicate 32 9).
Proof.
  assert (H : match set_peer 1 request_env add_request sample_device with Some (r, _) => r =? 0 | None => false end = true) by (vm_compute; reflexivity).
  destruct (set_peer 1 request_env add_request sample_device) as [[r w]|] eqn:E; [|discriminate]. apply Z.eqb_eq in H. subst r.
  exists w. split; [reflexivity|].
  destruct (set_peer_keeps_tables 1 request_env add_request (replicate 32 9) sample_device 0 w no_routes) as (_ & _ & H).
  - reflexivity.
  - apply Forall_singleton. split; cbn; intros ? [= <-]; [|lia]. rewrite !Forall_cons. unfold is_byte. split_and!; try lia. apply Forall_nil_2.
  - by apply (new_device_tables sample_device 0).
  - intros q Hq. by apply elem_of_nil in Hq.
  - reflexivity.
  - split; unfold gives; cbn [pe_route request_env fst snd].
    + intros i j n [[= <-]|[= <-]] [E'|E']; injection E' as E'; lia.
    + intros i n [= <-] E'. injection E' as E'. lia.
    + reflexivity.
  - exact E.
  - apply (H eq_refl); [reflexivity|]. intros [Hid _]. discriminate.
Defined.
