(* ===== verification/Progress.v ===== *)
(** * Progress: the crypto workers come to an end and leave no packet behind

    The loops of [wg_packet_encrypt_worker] and [wg_packet_decrypt_worker] take the packets off the
    device's rings until they are empty. Every packet they take is marked as crypted or dead, so that
    the queue of its peer, which waits for its first packet, can go on. *)

From S2P Require Import Prelude Messages Skb Replay AllowedIps PeerLookup RateLimiter Crypto NoiseCrypto PrevQueue World Samples Objects.
From S2P Require Import Keypairs Noise Cookie Socket Queueing Timers Send Receive DataPath.

(** A loop whose body keeps an invariant and makes a measure smaller as long as it goes on. *)
Lemma run_while_ends {S} (I : S -> Prop) (m : S -> nat) (body : S -> option (bool * S)) fuel s :
  (forall s, I s -> exists go_on s', body s = Some (go_on, s') /\ I s' /\ if go_on : bool then (m s' < m s)%nat else m s' = 0%nat) ->
  I s -> (m s < fuel)%nat -> exists s', run_while fuel body s = Some s' /\ I s' /\ m s' = 0%nat.
Proof.
  intros Hb. revert s. induction fuel as [|fuel IH]; intros s Hs Hm; [lia|]. cbn [run_while].
  destruct (Hb s Hs) as (go_on & s' & -> & Hs' & Hd). cbn [mbind option_bind]. destruct go_on; [|by exists s'].
  apply IH; [done|lia].
Qed.

(** ** The objects of a packet *)

(** A packet on a ring: it has a keypair, and its peer exists. *)
Definition job_ok (w : wg_device) (j : job_id) : Prop :=
  exists jb kp p pr, d_jobs w !! j = Some jb /\ d_keypairs w !! jb_keypair jb = Some kp /\ entry_peer (jb_keypair jb) w = Some p /\
    d_peers w !! p = Some pr /\ jb_packets jb <> [].

(** What the packets' objects are, apart from their contents. *)
Record same_objects (w w' : wg_device) : Prop := {
  so_keypairs k : is_Some (d_keypairs w !! k) -> is_Some (d_keypairs w' !! k);
  so_entries k : entry_peer k w' = entry_peer k w;
  so_peers p : is_Some (d_peers w !! p) -> is_Some (d_peers w' !! p)
}.

#[export] Instance same_objects_preorder : PreOrder same_objects.
Proof.
  split; [by split|]. intros w1 w2 w3 H1 H2. split.
  - intros k H. by apply H2, H1.
  - intros k. by rewrite (so_entries _ _ H2), (so_entries _ _ H1).
  - intros p H. by apply H2, H1.
Qed.

Lemma job_ok_same w w' j jb jb' :
  same_objects w w' -> d_jobs w !! j = Some jb -> d_jobs w' !! j = Some jb' -> jb_keypair jb' = jb_keypair jb -> jb_packets jb' <> [] ->
  job_ok w j -> job_ok w' j.
Proof.
  intros S Hj Hj' Hk Hpk (jb0 & kp & p & pr & Ej & Ek & Ep & Epr & _). rewrite Hj in Ej. injection Ej as <-.
  destruct (so_keypairs _ _ S (jb_keypair jb)) as [kp' Ek']; [by eexists|]. destruct (so_peers _ _ S p) as [pr' Epr']; [by eexists|].
  exists jb', kp', p, pr'. rewrite Hk, (so_entries _ _ S). done.
Qed.

(** Changing one peer keeps the objects, also when something else changes that is none of them. *)
Lemma peer_changed p f w w' :
  d_keypairs w' = d_keypairs w -> d_index_hashtable w' = d_index_hashtable w -> d_peers w' = alter f p (d_peers w) -> same_objects w w'.
Proof.
  intros E1 E2 E3. split.
  - intros k. by rewrite E1.
  - intros k. unfold entry_peer. by rewrite E2.
  - intros q. rewrite E3. by rewrite lookup_alter_is_Some.
Qed.

Lemma keypair_changed k f w w' :
  d_keypairs w' = alter f k (d_keypairs w) -> d_index_hashtable w' = d_index_hashtable w -> d_peers w' = d_peers w -> same_objects w w'.
Proof.
  intros E1 E2 E3. split.
  - intros q. rewrite E1. by rewrite lookup_alter_is_Some.
  - intros q. unfold entry_peer. by rewrite E2.
  - intros q. by rewrite E3.
Qed.

Lemma objects_unchanged w w1 w' :
  d_keypairs w1 = d_keypairs w -> d_index_hashtable w1 = d_index_hashtable w -> d_peers w1 = d_peers w -> same_objects w1 w' -> same_objects w w'.
Proof.
  intros E1 E2 E3 [S1 S2 S3]. split.
  - intros k. rewrite <- E1. apply S1.
  - intros k. rewrite S2. unfold entry_peer. by rewrite E2.
  - intros p. rewrite <- E3. apply S3.
Qed.

Lemma kref_release_objects p w : is_Some (d_peers w !! p) ->
  exists w', kref_release p w = Some w' /\ same_objects w w' /\ d_jobs w' = d_jobs w /\ d_encrypt_queue w' = d_encrypt_queue w /\ d_decrypt_queue w' = d_decrypt_queue w.
Proof.
  intros [pr Hp]. unfold kref_release, wg_packet_purge_staged_packets. change (d_peers (upd_d_index_hashtable _ w)) with (d_peers w).
  rewrite Hp. cbn [mbind option_bind]. eexists. split; [reflexivity|]. split; [|done].
  set (w1 := upd_d_index_hashtable _ w).
  assert (S1 : same_objects w w1).
  { split; try done. intros k. unfold entry_peer. change (ix_entries (d_index_hashtable w1)) with (alter (with_hashed false) (Handshake p) (ix_entries (d_index_hashtable w))).
    by rewrite lookup_alter_ne. }
  etransitivity; [exact S1|]. by eapply (peer_changed p).
Qed.

(** Giving back a reference leaves everything else as it is. *)
Lemma peer_put_objects p w : is_Some (d_peers w !! p) ->
  exists w', wg_peer_put p w = Some w' /\ same_objects w w' /\ d_jobs w' = d_jobs w /\ d_encrypt_queue w' = d_encrypt_queue w /\ d_decrypt_queue w' = d_decrypt_queue w.
Proof.
  intros [pr Hp]. unfold wg_peer_put. rewrite Hp. cbn [mbind option_bind]. set (w1 := upd_peer p _ w).
  assert (S1 : same_objects w w1) by (by eapply (peer_changed p)). case_if; [|by eexists].
  destruct (kref_release_objects p w1) as (w' & -> & S2 & Hj & He & Hd); [by apply S1; eexists|].
  exists w'. split; [done|]. split; [by etransitivity|]. done.
Qed.

Lemma enqueue_tx_objects e p j st w : is_Some (d_peers w !! p) ->
  exists w', wg_queue_enqueue_per_peer_tx e p j st w = Some w' /\ same_objects w w' /\ d_jobs w' = alter (upd_jb_state (fun _ => st)) j (d_jobs w) /\
    d_encrypt_queue w' = d_encrypt_queue w /\ d_decrypt_queue w' = d_decrypt_queue w.
Proof.
  intros Hp. unfold wg_queue_enqueue_per_peer_tx. set (w1 := upd_job j _ _).
  assert (S1 : same_objects w w1) by (by eapply (peer_changed p)). destruct (so_peers _ _ S1 p Hp) as [pr Hpr]. rewrite Hpr. cbn [mbind option_bind].
  destruct (wg_cpumask_choose_online _ _ _ _) as [cpu stored]. set (w2 := snd (queue_work _ _)).
  assert (S2 : same_objects w w2 /\ d_jobs w2 = d_jobs w1 /\ d_encrypt_queue w2 = d_encrypt_queue w /\ d_decrypt_queue w2 = d_decrypt_queue w).
  { unfold w2, queue_work. case_if; (split; [etransitivity; [exact S1|]; by eapply (peer_changed p)|done]). }
  destruct S2 as (S2 & Hj2 & He2 & Hd2). destruct (peer_put_objects p w2) as (w' & -> & S3 & Hj & He & Hd); [by apply S2|].
  exists w'. split; [done|]. split; [by etransitivity|]. split_and!; [by rewrite Hj, Hj2|congruence|congruence].
Qed.

Lemma enqueue_rx_objects p j st w : is_Some (d_peers w !! p) ->
  exists w', wg_queue_enqueue_per_peer_rx p j st w = Some w' /\ same_objects w w' /\ d_jobs w' = alter (upd_jb_state (fun _ => st)) j (d_jobs w) /\
    d_encrypt_queue w' = d_encrypt_queue w /\ d_decrypt_queue w' = d_decrypt_queue w.
Proof.
  intros Hp. unfold wg_queue_enqueue_per_peer_rx. set (w1 := upd_job j _ _). set (w2 := snd (queue_work _ w1)).
  assert (S2 : same_objects w w2 /\ d_jobs w2 = d_jobs w1 /\ d_encrypt_queue w2 = d_encrypt_queue w /\ d_decrypt_queue w2 = d_decrypt_queue w).
  { unfold w2, queue_work. case_if; (split; [by eapply (peer_changed p)|done]). }
  destruct S2 as (S2 & Hj2 & He2 & Hd2). destruct (peer_put_objects p w2) as (w' & -> & S3 & Hj & He & Hd); [by apply S2|].
  exists w'. split; [done|]. split; [by etransitivity|]. split_and!; [by rewrite Hj, Hj2|congruence|congruence].
Qed.

(** ** One round *)

Definition processed (w : wg_device) (j : job_id) : Prop := exists jb, d_jobs w !! j = Some jb /\ jb_state jb <> PACKET_STATE_UNCRYPTED.

(** A round on packet [j] with the rest [ring] of the queue. *)
Record round_done (w w' : wg_device) (j : job_id) : Prop := {
  rd_processed : processed w' j;
  rd_others j' : processed w j' -> processed w' j';
  rd_ok j' : job_ok w j' -> job_ok w' j'
}.

Lemma round_done_by w w' j jb g :
  same_objects w w' -> d_jobs w !! j = Some jb -> d_jobs w' = alter g j (d_jobs w) ->
  jb_keypair (g jb) = jb_keypair jb -> jb_packets (g jb) <> [] -> jb_state (g jb) <> PACKET_STATE_UNCRYPTED -> round_done w w' j.
Proof.
  intros S Hj Hjobs Hk Hpk Hst.
  assert (Hj' : d_jobs w' !! j = Some (g jb)) by (by rewrite Hjobs, lookup_alter_eq, Hj).
  split.
  - by exists (g jb).
  - intros j' (jb' & H1 & H2). destruct (decide (j' = j)) as [->|Hne]; [by exists (g jb)|]. exists jb'. by rewrite Hjobs, lookup_alter_ne.
  - intros j' Hok. destruct (decide (j' = j)) as [->|Hne]; [by eapply job_ok_same|].
    pose proof Hok as (jb' & kp & p & pr & H1 & _ & _ & _ & H2). apply (job_ok_same w w' j' jb' jb'); try done. by rewrite Hjobs, lookup_alter_ne.
Qed.

Section Rounds.
Context {C : Crypto} {N : NetStack}.

Lemma encrypt_list_state e c kp pks : fst (encrypt_list e c kp pks) <> PACKET_STATE_UNCRYPTED /\ length (snd (encrypt_list e c kp pks)) = length pks.
Proof.
  induction pks as [|pk pks [IH1 IH2]]; [done|]. cbn [encrypt_list]. destruct (encrypt_packet e c kp pk) as [pk'|]; [|done].
  destruct (encrypt_list e c kp pks) as [st l]. cbn [fst snd length] in *. auto.
Qed.

Lemma encrypt_round_done e w j ring :
  d_encrypt_queue w = j :: ring -> job_ok w j ->
  exists w', encrypt_round e w = Some (true, w') /\ d_encrypt_queue w' = ring /\ round_done w w' j.
Proof.
  intros Hq (jb & kp & p & pr & Hj & Hk & Hp & Hpr & Hpk). unfold encrypt_round. rewrite Hq. cbv zeta.
  change (d_jobs (upd_d_encrypt_queue _ w)) with (d_jobs w). change (d_keypairs (upd_d_encrypt_queue _ w)) with (d_keypairs w).
  unfold packet_peer. change (d_jobs (upd_d_encrypt_queue _ w)) with (d_jobs w). rewrite Hj. cbn [mbind option_bind]. rewrite Hk. cbn [mbind option_bind].
  change (entry_peer (jb_keypair jb) (upd_d_encrypt_queue _ w)) with (entry_peer (jb_keypair jb) w). rewrite Hp. cbn [mbind option_bind].
  change (d_is_chacha (upd_d_encrypt_queue _ w)) with (d_is_chacha w).
  pose proof (encrypt_list_state e (d_is_chacha w) kp (jb_packets jb)) as [Hst Hlen]. destruct (encrypt_list e (d_is_chacha w) kp (jb_packets jb)) as [st pks].
  cbn [fst snd] in *. set (w1 := upd_job j _ _). destruct (enqueue_tx_objects e p j st w1) as (w' & -> & S & Hjobs & He & _); [by eexists|].
  cbn [mbind option_bind]. exists w'. split; [done|]. split; [by rewrite He|].
  apply (round_done_by w w' j jb (fun jb => upd_jb_state (fun _ => st) (upd_jb_packets (fun _ => pks) jb))); try done.
  - by apply (objects_unchanged w w1 w').
  - rewrite Hjobs. change (d_jobs w1) with (alter (upd_jb_packets (fun _ => pks)) j (d_jobs w)). apply alter_alter_eq.
  - cbn. intros ->. by destruct (jb_packets jb).
Qed.

Lemma decrypt_round_done e w j ring :
  d_decrypt_queue w = j :: ring -> job_ok w j ->
  exists w', decrypt_round e w = Some (true, w') /\ d_decrypt_queue w' = ring /\ round_done w w' j.
Proof.
  intros Hq (jb & kp & p & pr & Hj & Hk & Hp & Hpr & Hpk). unfold decrypt_round. rewrite Hq. cbv zeta.
  change (d_jobs (upd_d_decrypt_queue _ w)) with (d_jobs w). change (d_keypairs (upd_d_decrypt_queue _ w)) with (d_keypairs w).
  unfold packet_peer. change (d_jobs (upd_d_decrypt_queue _ w)) with (d_jobs w). rewrite Hj. cbn [mbind option_bind]. rewrite Hk. cbn [mbind option_bind].
  change (entry_peer (jb_keypair jb) (upd_d_decrypt_queue _ w)) with (entry_peer (jb_keypair jb) w). rewrite Hp. cbn [mbind option_bind].
  destruct (jb_packets jb) as [|pk pks] eqn:Epk; [done|]. cbn [head mbind option_bind].
  change (d_is_chacha (upd_d_decrypt_queue _ w)) with (d_is_chacha w). destruct (decrypt_packet e (d_is_chacha w) kp pk) as [r kp'].
  set (w1 := upd_keypair _ _ _). assert (S1 : same_objects w w1) by (by eapply (keypair_changed (jb_keypair jb))).
  destruct r as [pk'|].
  - destruct (enqueue_rx_objects p j PACKET_STATE_CRYPTED (upd_job j (upd_jb_packets (fun _ => [pk'])) w1)) as (w' & -> & S & Hjobs & _ & Hd); [by eexists|].
    cbn [mbind option_bind]. exists w'. split; [done|]. split; [by rewrite Hd|].
    apply (round_done_by w w' j jb (fun jb => upd_jb_state (fun _ => PACKET_STATE_CRYPTED) (upd_jb_packets (fun _ => [pk']) jb))); try done.
    + etransitivity; [exact S1|]. by eapply objects_unchanged; [..|exact S].
    + rewrite Hjobs. change (d_jobs (upd_job j _ w1)) with (alter (upd_jb_packets (fun _ => [pk'])) j (d_jobs w)). apply alter_alter_eq.
  - destruct (enqueue_rx_objects p j PACKET_STATE_DEAD w1) as (w' & -> & S & Hjobs & _ & Hd); [by eexists|].
    cbn [mbind option_bind]. exists w'. split; [done|]. split; [by rewrite Hd|].
    apply (round_done_by w w' j jb (upd_jb_state (fun _ => PACKET_STATE_DEAD))); try done; [by etransitivity|]. cbn. by rewrite Epk.
Qed.

(** ** The loops *)

(** Of the packets that were on the ring, those taken are processed and the others can be. *)
Definition drain_inv (ring : wg_device -> list job_id) (q0 : list job_id) (w : wg_device) : Prop :=
  exists taken, q0 = taken ++ ring w /\ Forall (job_ok w) (ring w) /\ Forall (processed w) taken.

Lemma drains (ring : wg_device -> list job_id) (round : wg_device -> option (bool * wg_device)) w :
  (forall w, ring w = [] -> round w = Some (false, w)) ->
  (forall w j l, ring w = j :: l -> job_ok w j -> exists w', round w = Some (true, w') /\ ring w' = l /\ round_done w w' j) ->
  Forall (job_ok w) (ring w) ->
  exists w', run_while (S (length (ring w))) round w = Some w' /\ ring w' = [] /\ Forall (processed w') (ring w).
Proof.
  intros Hend Hgo Hok. set (q0 := ring w).
  destruct (run_while_ends (drain_inv ring q0) (fun w => length (ring w)) round (S (length q0)) w) as (w' & E & (taken & Hq & _ & Hp) & Hlen).
  - intros s (taken & Hq & Hj & Hp). destruct (ring s) as [|j l] eqn:Er.
    + exists false, s. split; [by apply Hend|]. split; [exists taken; by rewrite Er|by rewrite Er].
    + inversion Hj as [|? ? Hj1 Hj2]; subst. destruct (Hgo s j l Er Hj1) as (s' & E & Er' & D). exists true, s'. split; [done|].
      split; [|rewrite Er'; cbn [length]; lia]. exists (taken ++ [j]). rewrite Er'. split_and!.
      * by rewrite <- app_assoc.
      * eapply Forall_impl; [exact Hj2|]. intros j'. apply D.
      * apply Forall_app. split; [|apply Forall_singleton, D]. eapply Forall_impl; [exact Hp|]. intros j'. apply D.
  - exists []. done.
  - unfold q0. lia.
  - exists w'. split; [done|]. apply length_zero_iff_nil in Hlen. split; [done|]. rewrite Hlen, app_nil_r in Hq. by rewrite Hq.
Qed.

(** C26: the crypto workers come to an end. When every packet on the ring has its keypair and its peer,
    the loop of [wg_packet_encrypt_worker] and that of [wg_packet_decrypt_worker] end with an empty
    ring, and every packet that was on it is marked as crypted or dead: none is left waiting, whatever
    allocations or authentications fail on the way. *)
Theorem crypto_workers_drain_their_rings e w :
  (Forall (job_ok w) (d_encrypt_queue w) ->
     exists w', wg_packet_encrypt_worker e w = Some w' /\ d_encrypt_queue w' = [] /\ Forall (processed w') (d_encrypt_queue w)) /\
  (Forall (job_ok w) (d_decrypt_queue w) ->
     exists w', wg_packet_decrypt_worker e w = Some w' /\ d_decrypt_queue w' = [] /\ Forall (processed w') (d_decrypt_queue w)).
Proof.
  split; intros H.
  - apply (drains d_encrypt_queue (encrypt_round e) w); [|intros ???; apply encrypt_round_done|done]. intros s Hs. unfold encrypt_round. by rewrite Hs.
  - apply (drains d_decrypt_queue (decrypt_round e) w); [|intros ???; apply decrypt_round_done|done]. intros s Hs. unfold decrypt_round. by rewrite Hs.
Qed.
End Rounds.

(** ** Example: two packets on each ring *)

Definition busy : wg_device :=
  let jb := {| jb_packets := [sample_packet [69; 1; 2]]; jb_keypair := 7%positive; jb_state := PACKET_STATE_UNCRYPTED |} in
  let entry := {| e_peer := Some 1%positive; e_hashed := true; e_type := INDEX_HASHTABLE_KEYPAIR; e_index := 5 |} in
  upd_d_jobs (fun _ => {[1%positive := jb; 2%positive := jb]})
    (upd_d_encrypt_queue (fun _ => [1%positive; 2%positive]) (upd_d_decrypt_queue (fun _ => [1%positive; 2%positive])
      (upd_d_keypairs (fun _ => {[7%positive := sending_end]})
        (upd_d_index_hashtable (set_entry (Keypair 7) entry) (upd_d_peers (fun _ => {[1%positive := sample_peer]}) sample_device))))).

Lemma crypto_workers_drain_their_rings_witness :
  exists w, @wg_packet_encrypt_worker toy_crypto toy_net sample_env busy = Some w /\ d_encrypt_queue w = [] /\
    processed w 1 /\ processed w 2.
Proof.
  destruct (@crypto_workers_drain_their_rings toy_crypto toy_net sample_env busy) as [H _]. destruct H as (w & E & Hq & Hp).
  - repeat constructor; do 4 eexists; (split; [reflexivity|]); (split; [reflexivity|]); (split; [reflexivity|]); (split; [reflexivity|]); discriminate.
  - exists w. split; [exact E|]. split; [exact Hq|]. inversion Hp as [|? ? H1 Hp']. inversion Hp' as [|? ? H2 _]. split; [exact H1|exact H2].
Defined.
